(* ===== verification/_CoqProject ===== *)
-Q . S2P
Prelude.v
Crc.v
Endians.v
KeySchema.v
ValueSchema.v
BinaryIO.v
Mutation.v
MutationCache.v
PrepareList.v
MutationQueue.v
StringConv.v
Strings.v
FileStreamer.v
LogBlock.v
LogFile.v
LogReplay.v
MutationLog.v
LogReset.v
LogTheory.v
LogGc.v
LogLearn.v
LogOpen.v
LogRun.v
LogDurability.v
LearnDurability.v
Throttling.v
RocksdbWrapper.v
WriteService.v
ReplicaContext.v
Replica.v
ReplicaTheory.v
ReplicaQuiet.v
PrimaryInv.v
SecondaryInv.v
Cluster.v
ClusterRun.v
Handlers.v
