(* ===== verification/Prelude.v ===== *)
(** * Apache Pegasus: verification of the storage and replication core

    Pegasus is a distributed key-value store.  A table is split into partitions by
    the hash of its keys; each partition is replicated over a primary and
    secondaries.  The primary groups client writes into mutations ([mutation_queue]),
    gives each a decree and runs two-phase commit ([replica]) over the uncommitted
    suffix of the log ([prepare_list], a circular [mutation_cache]); committed mutations are applied
    to RocksDB through the write service, which encodes keys and values with the
    schemas of [src/base].  Atomic operations may first be translated into idempotent
    puts by the primary.  All paths below are relative to the C++ tree [src/].

    ** How code is modelled

    Functions are Rocq functions; state is a record passed explicitly, with one
    definition per method and the loops of long methods as fixpoints of their own.
    [outcome] is the result of code that may stop: [Ret] returns, [Abort] is a failed
    CHECK or LOG_FATAL, [Undef] is undefined behaviour (an index outside an array, a
    dangling pointer, a 32-bit length that overflowed).  A loop with fuel returns
    [Undef] when the fuel is used up, so a theorem that excludes [Undef] also proves
    termination.  Integers are [Z] with [uwrap]/[swrap] at the casts ([u32], [i32], ...);
    bytes are [Byte.byte], strings and blobs lists of bytes.  Shared objects
    (mutations in a cache, responses of a batch) live in a heap.  Logging, metrics and
    tracing are left out.

    ** The files

    - [Prelude]: outcomes, [utils/error_code.h], machine integers, bytes, the hint
      database [pegasus].
    - [Crc]: [utils/crc.cpp].  [compute] equals a byte-wise reference, [concatenate]
      and [ConvertInitialCrc] compute what they say (carry-less polynomial
      arithmetic); the exported [crc32_concat]/[crc64_concat] drop a parameter.
    - [Endians]: [utils/endians.h], [data_input] and [data_output].
    - [KeySchema]: [base/pegasus_key_schema.h].  Round trip, the range of the "next"
      key, routing of keys to partitions before and after a split.
    - [ValueSchema]: [base/pegasus_value_schema.h], [value_schema_v0/v1/v2.cpp] and
      [value_schema_manager.cpp].  The three schemas are instances of the class
      [ValueSchemaLaws]; round trips, recognition of versions, order of timetags.
    - [BinaryIO]: [utils/binary_writer.*] and [binary_reader.*].  A writer refines
      appending to one byte string.
    - [Mutation]: [replica/mutation.{h,cpp}], class [mutation], and [common/gpid.h].
      Serialization round trip and equivalence of the two serializers.  [shared] is
      what the replicas of a group have in common of a mutation.
    - [MutationCache]: [replica/mutation_cache.*].  The circular array refines a map
      from decrees to mutations over a bounded window.
    - [PrepareList]: [replica/prepare_list.*].  [prepare], [commit] in its three forms
      and [truncate]: what they keep, store and hand to the committer, that their
      loops terminate and when they return.  The committer is a parameter of the
      section [Commit]; [committer_ok] says what is required of it.
    - [MutationQueue]: [replica/mutation.{h,cpp}], class [mutation_queue].  No request
      is lost or duplicated, concurrency limit, row locks as a refinement of a map
      from rows to decrees; [queue_step] is the step relation of a primary's queue
      during one term, and the guarantees hold in every reachable state.  Two
      defects.  The specifications of task codes and the state of the replica are
      parameters.
    - [StringConv]: [utils/string_conv.h] over strtoll/strtoull,
      [utils/safe_arithmetic.h].  Round trip with decimal printing, ranges.
    - [Strings]: [utils/strings.cpp].  Splitting as the trimmed fields, its inverse,
      termination of the replacement.
    - [FileStreamer]: [replica/log_file_stream.h].  The two read-ahead buffers cannot be
      told from reading the file; a seek back after a failed read can lose bytes.
    - [LogBlock], [LogFile]: [replica/log_block.*], [replica/log_file.*].  Blocks with
      their running checksum, file names and headers, and how they are read back.
    - [LogReplay]: [replica/mutation_log_replay.cpp], [mutation_log_utils.cpp].  A
      [segment] is what a file holds, up to a torn end; replaying the files of a
      directory gives the mutations of the segments in order.
    - [MutationLog]: [replica/mutation_log.*], the private log.  Issued writes are values,
      and the completion of a write is an operation of its own.
    - [LogTheory], [LogGc], [LogLearn], [LogOpen]: the files of the log form a chain
      ([log_rep]) and their headers tell the decrees before them ([gc_inv]); what each
      operation does to that, what garbage collection deletes and a learner is given.
    - [LogReset]: [mutation_log::reset_from] as a change of directories.
    - [LogRun]: the log with a disk, on which writes land one at a time and a crash keeps
      any part of those under way.  [LogDurability] and [LearnDurability]: what was
      acknowledged is replayed after a crash and given to learners, also when garbage is
      collected in between; and a crash in a file switch that the log does not survive.
    - [Throttling]: [utils/throttling_controller.*] and [replica/replica_throttle.cpp].
      Limits are kept, round trip of the configuration.
    - [RocksdbWrapper]: [server/rocksdb_wrapper.*] and [db_write_context].  RocksDB is
      the class [RocksDB] with the laws [RocksDBLaws] (a successful read returns the
      contents, a successful write applies the batch in order); a finite map is an
      instance of both.
    - [WriteService]: [server/pegasus_write_service_impl.h] and the batched path of
      [server/pegasus_server_write.*].  The direct and the idempotent form of incr,
      check_and_set and check_and_mutate agree; meaning of the checks; atomicity of a
      batch; agreement of the primary with other replicas, and where it fails; the
      newest duplicated write wins; multi_put and multi_remove.

    - [ReplicaContext]: [replica/replica_context.*], the state a replica keeps as a
      primary, secondary, potential secondary or split child.
    - [Replica]: the handlers of [replica/replica_2pc.cpp], [replica_config.cpp],
      [replica_failover.cpp] and the parts of [replica.cpp], [replication_app_base.cpp],
      [replica_learn.cpp], [replica_throttle.cpp] and [split/replica_split_manager.*]
      they call.  The state is the prepare list with the rest of the replica as its
      owner; messages, log appends and notifications are recorded as effects, in
      order; the storage engine is the class [StorageApp]; the committer of the list
      is [execute_mutation].
    - [ReplicaTheory]: what every handler of a replica keeps ([extends]), the history
      of a replica under any sequence of events, and that the recursion of the
      committer through two-phase commit is one level deep.
    - [ReplicaQuiet], [PrimaryInv], [SecondaryInv]: the steps two-phase commit does not
      see, and the invariants of the primary and of a secondary within a ballot.
    - [Cluster]: a primary, its secondaries, their logs and the network between them as
      a transition system over the handlers.  Messages may be lost, repeated, delayed
      and reordered, and nodes may fail.  What the members commit agrees, what is
      committed is in every log, and prepare lists stay well formed.
    - [ClusterRun]: concrete runs of a group of three.
    - [Handlers]: what [on_client_write] and [on_prepare] answer on the branches that
      refuse, and a write that is dropped but answered with success.

    ** Fuel and bounds

    The loops with fuel are given one more step than the number of mutations or
    decrees they can visit: [count + 1] for the pop loops of [PrepareList], the
    distance from the committed point to the newest decree plus one for
    [commit_ready], the length of the queue plus one for [drain_queue].  The committer
    [execute_mutation] is given a depth of recursion; [nesting_bounded] shows that a
    depth of one gives the result of every larger one.  Replay of the log is given one
    step per byte of the files and one more: every block takes at least its header.
    [FileStreamer.fill_loop] runs at most twice, once per buffer.  The theorems about
    runs of the log assume that the positions and file indices do not exceed their
    64 and 32 bits, which [costs] bounds by the size of what is appended.  The theorems
    of these files exclude [Undef] and so show that this is enough.  [MutationCache]
    assumes a capacity below 2^30 and decrees within 2^31 of the window, as the int
    casts of [put] require.  The write service assumes data versions 0 and 1 (the
    ones [generate_value] accepts) and no injected fault ([normal]).  Its theorems
    describe every return with [kOk] and, over an engine without errors ([healthy]),
    prove the return.

    ** What is not modelled

    Learning as a protocol, group check, the meta server, the failure detector, the load
    balancer and the read path are not modelled: they drive timers, remote storage,
    RocksDB iterators and file transfer.  The compaction rules, the app-env validators
    and the parser of the Redis proxy are plain code that is not covered either.  Of
    the log, the loop of [flush], which waits for completions, and the branch of [open] for
    shared logs are left out; in [LogRun] a disk neither fails nor reorders the bytes of
    one write, and the valid start offset stays 0 ([on_partition_reset] is only treated
    in [LogGc]).  [Cluster] describes a group within one ballot that starts with empty prepare
    lists and has no learners; changes of the group are in [Replica] and
    [ReplicaTheory] only.  RPC, threads, files, ZooKeeper, RocksDB itself and the
    clients are outside: they are I/O or third-party code.  Inside the modelled files
    the following is left out: [ingest_files], [duplicate], the metrics wrappers of
    [pegasus_write_service.cpp], the copy constructors used by a partition split,
    configuration sync with the table environments, and floating-point parsing.  The
    clock is read as one instant per operation. *)
From stdpp Require Export base tactics numbers list option gmap strings.
From Stdlib Require Export ZArith Lia.
From Stdlib Require Export Strings.Byte.

#[global] Open Scope Z_scope.
#[global] Set Default Goal Selector "!".

(** ** Outcomes of C++ code

    [Ret] is a normal return, [Abort] a failed CHECK / LOG_FATAL (the process
    stops), [Undef] an access outside an object (undefined behaviour). *)
Inductive outcome (A : Type) : Type :=
| Ret (a : A)
| Abort
| Undef.
Arguments Ret {A} a.
Arguments Abort {A}.
Arguments Undef {A}.

Definition obind {A B : Type} (m : outcome A) (f : A -> outcome B) : outcome B :=
  match m with
  | Ret a => f a
  | Abort => Abort
  | Undef => Undef
  end.

Declare Scope outcome_scope.
Delimit Scope outcome_scope with outcome.
#[global] Open Scope outcome_scope.

Notation "'let*' x ':=' m 'in' k" := (obind m (fun x => k))
  (at level 10, x pattern, m at level 200, k at level 200) : outcome_scope.

(** CHECK(cond): abort the process when the condition is false. *)
Definition CHECK {A : Type} (cond : bool) (k : outcome A) : outcome A :=
  if cond then k else Abort.

(** A read of an object that may not exist (out-of-range index, null). *)
Definition deref {A : Type} (o : option A) : outcome A :=
  match o with Some a => Ret a | None => Undef end.

Lemma obind_Ret_inv {A B} (m : outcome A) (f : A -> outcome B) b :
  obind m f = Ret b -> exists a, m = Ret a /\ f a = Ret b.
Proof. destruct m; cbn; [eauto|discriminate|discriminate]. Qed.

Lemma CHECK_Ret_inv {A} c (k : outcome A) a :
  CHECK c k = Ret a -> c = true /\ k = Ret a.
Proof. destruct c; cbn; [auto|discriminate]. Qed.

Lemma deref_Ret_inv {A} (o : option A) a : deref o = Ret a -> o = Some a.
Proof. destruct o; cbn; congruence. Qed.

(** A list that agrees with a longer one. *)
Lemma prefix_pointwise {A} (l k : list A) :
  (length l <= length k)%nat -> (forall i x y, l !! i = Some x -> k !! i = Some y -> x = y) -> l `prefix_of` k.
Proof.
  revert k. induction l as [|x l IH]; intros [|y k] Hlen Hxy; cbn in Hlen; [apply prefix_nil|apply prefix_nil|lia|].
  rewrite (Hxy 0%nat x y eq_refl eq_refl). apply prefix_cons, IH; [lia|].
  intros i. apply (Hxy (S i)).
Qed.

(** Two runs that do the same, compared step by step. *)
Lemma obind_agree {A B} (m1 m2 : outcome A) (k1 k2 : A -> outcome B) :
  m1 = m2 -> (forall a, m1 = Ret a -> k1 a = k2 a) -> obind m1 k1 = obind m2 k2.
Proof. intros <- Hk. destruct m1; [by apply Hk|done|done]. Qed.

Lemma CHECK_agree {A} b (k1 k2 : outcome A) : (b = true -> k1 = k2) -> CHECK b k1 = CHECK b k2.
Proof. destruct b; [by intros ->|done]. Qed.

Ltac agree_step :=
  lazymatch goal with
  | |- ?x = ?y => constr_eq x y; reflexivity
  end ||
  lazymatch goal with
  | |- obind _ _ = obind _ _ =>
      apply obind_agree; [|let a := fresh "a" in let E := fresh "E" in intros a E; cbv beta]
  | |- CHECK _ _ = CHECK _ _ => apply CHECK_agree; let H := fresh "Hc" in intros H
  | |- (if ?b then _ else _) = _ => let H := fresh "Hb" in destruct b eqn:H
  | |- (match ?x with _ => _ end) = _ => let H := fresh "Hm" in destruct x eqn:H
  end.

(** Inverts one step of a run that returned. *)
Ltac inv_run_in E :=
  match type of E with
  | Ret _ = Ret _ => injection E as E
  | Abort = Ret _ => discriminate E
  | Undef = Ret _ => discriminate E
  | CHECK _ _ = Ret _ => let H := fresh "Hc" in apply CHECK_Ret_inv in E as [H E]
  | obind _ _ = Ret _ => let a := fresh "r" in let H := fresh "E" in apply obind_Ret_inv in E as (a & H & E)
  | (if ?b then _ else _) = Ret _ => let H := fresh "Hb" in destruct b eqn:H
  | (match ?x with _ => _ end) = Ret _ => let H := fresh "Hm" in destruct x eqn:H
  | (let '(_, _) := ?x in _) = Ret _ => let H := fresh "Hp" in destruct x eqn:H
  end.

(** All of it, with the pairs and the dereferences taken apart. *)
Ltac inv_returns :=
  repeat (match goal with
          | E : _ = Ret _ |- _ => progress (cbv beta iota zeta in E)
          | E : deref _ = Ret _ |- _ => apply deref_Ret_inv in E
          | E : _ = Ret _ |- _ => inv_run_in E
          | x : (_ * _)%type |- _ => destruct x
          | E : (_, _) = (_, _) |- _ => injection E as E
          end; subst; try discriminate).

(** ** Error codes ([src/utils/error_code.h]) *)
Inductive error_code : Set :=
  | ERR_OK | ERR_UNKNOWN | ERR_SERVICE_NOT_FOUND | ERR_SERVICE_ALREADY_RUNNING
  | ERR_IO_PENDING | ERR_TIMEOUT | ERR_SERVICE_NOT_ACTIVE | ERR_BUSY | ERR_NETWORK_INIT_FAILED
  | ERR_FORWARD_TO_OTHERS | ERR_OBJECT_NOT_FOUND | ERR_HANDLER_NOT_FOUND
  | ERR_LEARN_FILE_FAILED | ERR_GET_LEARN_STATE_FAILED | ERR_INVALID_VERSION
  | ERR_INVALID_PARAMETERS | ERR_CAPACITY_EXCEEDED | ERR_INVALID_STATE | ERR_INACTIVE_STATE
  | ERR_NOT_ENOUGH_MEMBER | ERR_FILE_OPERATION_FAILED | ERR_HANDLE_EOF | ERR_WRONG_CHECKSUM
  | ERR_INVALID_DATA | ERR_INVALID_HANDLE | ERR_INCOMPLETE_DATA | ERR_VERSION_OUTDATED
  | ERR_PATH_NOT_FOUND | ERR_PATH_ALREADY_EXIST | ERR_ADDRESS_ALREADY_USED | ERR_STATE_FREEZED
  | ERR_LOCAL_APP_FAILURE | ERR_BIND_IOCP_FAILED | ERR_NETWORK_START_FAILED
  | ERR_NOT_IMPLEMENTED | ERR_CHECKPOINT_FAILED | ERR_WRONG_TIMING | ERR_NO_NEED_OPERATE
  | ERR_CORRUPTION | ERR_TRY_AGAIN | ERR_CLUSTER_NOT_FOUND | ERR_CLUSTER_ALREADY_EXIST
  | ERR_SERVICE_ALREADY_EXIST | ERR_INJECTED | ERR_REPLICATION_FAILURE | ERR_APP_EXIST
  | ERR_APP_NOT_EXIST | ERR_BUSY_CREATING | ERR_BUSY_DROPPING | ERR_NETWORK_FAILURE
  | ERR_UNDER_RECOVERY | ERR_LEARNER_NOT_FOUND | ERR_OPERATION_DISABLED | ERR_EXPIRED
  | ERR_LOCK_ALREADY_EXIST | ERR_HOLD_BY_OTHERS | ERR_RECURSIVE_LOCK | ERR_NO_OWNER
  | ERR_NODE_ALREADY_EXIST | ERR_INCONSISTENT_STATE | ERR_ARRAY_INDEX_OUT_OF_RANGE
  | ERR_DIR_NOT_EMPTY | ERR_FS_INTERNAL | ERR_IGNORE_BAD_DATA | ERR_APP_DROPPED
  | ERR_MOCK_INTERNAL | ERR_ZOOKEEPER_OPERATION | ERR_CHILD_REGISTERED | ERR_INGESTION_FAILED
  | ERR_UNAUTHENTICATED | ERR_KRB5_INTERNAL | ERR_SASL_INTERNAL | ERR_SASL_INCOMPLETE
  | ERR_ACL_DENY | ERR_SPLITTING | ERR_PARENT_PARTITION_MISUSED | ERR_CHILD_NOT_READY
  | ERR_DISK_INSUFFICIENT | ERR_RETRY_EXHAUSTED | ERR_SYNC_RANGER_POLICIES_FAILED
  | ERR_RANGER_PARSE_ACL | ERR_RANGER_POLICIES_NO_NEED_UPDATE | ERR_RDB_CORRUPTION
  | ERR_DISK_IO_ERROR | ERR_CURL_FAILED | ERR_DUP_EXIST | ERR_HTTP_ERROR | ERR_NOT_MATCHED.

Definition all_error_codes : list error_code := [
  ERR_OK; ERR_UNKNOWN; ERR_SERVICE_NOT_FOUND; ERR_SERVICE_ALREADY_RUNNING; ERR_IO_PENDING;
  ERR_TIMEOUT; ERR_SERVICE_NOT_ACTIVE; ERR_BUSY; ERR_NETWORK_INIT_FAILED;
  ERR_FORWARD_TO_OTHERS; ERR_OBJECT_NOT_FOUND; ERR_HANDLER_NOT_FOUND; ERR_LEARN_FILE_FAILED;
  ERR_GET_LEARN_STATE_FAILED; ERR_INVALID_VERSION; ERR_INVALID_PARAMETERS;
  ERR_CAPACITY_EXCEEDED; ERR_INVALID_STATE; ERR_INACTIVE_STATE; ERR_NOT_ENOUGH_MEMBER;
  ERR_FILE_OPERATION_FAILED; ERR_HANDLE_EOF; ERR_WRONG_CHECKSUM; ERR_INVALID_DATA;
  ERR_INVALID_HANDLE; ERR_INCOMPLETE_DATA; ERR_VERSION_OUTDATED; ERR_PATH_NOT_FOUND;
  ERR_PATH_ALREADY_EXIST; ERR_ADDRESS_ALREADY_USED; ERR_STATE_FREEZED; ERR_LOCAL_APP_FAILURE;
  ERR_BIND_IOCP_FAILED; ERR_NETWORK_START_FAILED; ERR_NOT_IMPLEMENTED; ERR_CHECKPOINT_FAILED;
  ERR_WRONG_TIMING; ERR_NO_NEED_OPERATE; ERR_CORRUPTION; ERR_TRY_AGAIN; ERR_CLUSTER_NOT_FOUND;
  ERR_CLUSTER_ALREADY_EXIST; ERR_SERVICE_ALREADY_EXIST; ERR_INJECTED; ERR_REPLICATION_FAILURE;
  ERR_APP_EXIST; ERR_APP_NOT_EXIST; ERR_BUSY_CREATING; ERR_BUSY_DROPPING; ERR_NETWORK_FAILURE;
  ERR_UNDER_RECOVERY; ERR_LEARNER_NOT_FOUND; ERR_OPERATION_DISABLED; ERR_EXPIRED;
  ERR_LOCK_ALREADY_EXIST; ERR_HOLD_BY_OTHERS; ERR_RECURSIVE_LOCK; ERR_NO_OWNER;
  ERR_NODE_ALREADY_EXIST; ERR_INCONSISTENT_STATE; ERR_ARRAY_INDEX_OUT_OF_RANGE;
  ERR_DIR_NOT_EMPTY; ERR_FS_INTERNAL; ERR_IGNORE_BAD_DATA; ERR_APP_DROPPED; ERR_MOCK_INTERNAL;
  ERR_ZOOKEEPER_OPERATION; ERR_CHILD_REGISTERED; ERR_INGESTION_FAILED; ERR_UNAUTHENTICATED;
  ERR_KRB5_INTERNAL; ERR_SASL_INTERNAL; ERR_SASL_INCOMPLETE; ERR_ACL_DENY; ERR_SPLITTING;
  ERR_PARENT_PARTITION_MISUSED; ERR_CHILD_NOT_READY; ERR_DISK_INSUFFICIENT;
  ERR_RETRY_EXHAUSTED; ERR_SYNC_RANGER_POLICIES_FAILED; ERR_RANGER_PARSE_ACL;
  ERR_RANGER_POLICIES_NO_NEED_UPDATE; ERR_RDB_CORRUPTION; ERR_DISK_IO_ERROR; ERR_CURL_FAILED;
  ERR_DUP_EXIST; ERR_HTTP_ERROR; ERR_NOT_MATCHED].

(** The position of a code, which decides equality of codes. *)
Definition error_code_index (e : error_code) : nat :=
  match e with
  | ERR_OK => 0 | ERR_UNKNOWN => 1 | ERR_SERVICE_NOT_FOUND => 2
  | ERR_SERVICE_ALREADY_RUNNING => 3 | ERR_IO_PENDING => 4 | ERR_TIMEOUT => 5
  | ERR_SERVICE_NOT_ACTIVE => 6 | ERR_BUSY => 7 | ERR_NETWORK_INIT_FAILED => 8
  | ERR_FORWARD_TO_OTHERS => 9 | ERR_OBJECT_NOT_FOUND => 10 | ERR_HANDLER_NOT_FOUND => 11
  | ERR_LEARN_FILE_FAILED => 12 | ERR_GET_LEARN_STATE_FAILED => 13 | ERR_INVALID_VERSION => 14
  | ERR_INVALID_PARAMETERS => 15 | ERR_CAPACITY_EXCEEDED => 16 | ERR_INVALID_STATE => 17
  | ERR_INACTIVE_STATE => 18 | ERR_NOT_ENOUGH_MEMBER => 19 | ERR_FILE_OPERATION_FAILED => 20
  | ERR_HANDLE_EOF => 21 | ERR_WRONG_CHECKSUM => 22 | ERR_INVALID_DATA => 23
  | ERR_INVALID_HANDLE => 24 | ERR_INCOMPLETE_DATA => 25 | ERR_VERSION_OUTDATED => 26
  | ERR_PATH_NOT_FOUND => 27 | ERR_PATH_ALREADY_EXIST => 28 | ERR_ADDRESS_ALREADY_USED => 29
  | ERR_STATE_FREEZED => 30 | ERR_LOCAL_APP_FAILURE => 31 | ERR_BIND_IOCP_FAILED => 32
  | ERR_NETWORK_START_FAILED => 33 | ERR_NOT_IMPLEMENTED => 34 | ERR_CHECKPOINT_FAILED => 35
  | ERR_WRONG_TIMING => 36 | ERR_NO_NEED_OPERATE => 37 | ERR_CORRUPTION => 38
  | ERR_TRY_AGAIN => 39 | ERR_CLUSTER_NOT_FOUND => 40 | ERR_CLUSTER_ALREADY_EXIST => 41
  | ERR_SERVICE_ALREADY_EXIST => 42 | ERR_INJECTED => 43 | ERR_REPLICATION_FAILURE => 44
  | ERR_APP_EXIST => 45 | ERR_APP_NOT_EXIST => 46 | ERR_BUSY_CREATING => 47
  | ERR_BUSY_DROPPING => 48 | ERR_NETWORK_FAILURE => 49 | ERR_UNDER_RECOVERY => 50
  | ERR_LEARNER_NOT_FOUND => 51 | ERR_OPERATION_DISABLED => 52 | ERR_EXPIRED => 53
  | ERR_LOCK_ALREADY_EXIST => 54 | ERR_HOLD_BY_OTHERS => 55 | ERR_RECURSIVE_LOCK => 56
  | ERR_NO_OWNER => 57 | ERR_NODE_ALREADY_EXIST => 58 | ERR_INCONSISTENT_STATE => 59
  | ERR_ARRAY_INDEX_OUT_OF_RANGE => 60 | ERR_DIR_NOT_EMPTY => 61 | ERR_FS_INTERNAL => 62
  | ERR_IGNORE_BAD_DATA => 63 | ERR_APP_DROPPED => 64 | ERR_MOCK_INTERNAL => 65
  | ERR_ZOOKEEPER_OPERATION => 66 | ERR_CHILD_REGISTERED => 67 | ERR_INGESTION_FAILED => 68
  | ERR_UNAUTHENTICATED => 69 | ERR_KRB5_INTERNAL => 70 | ERR_SASL_INTERNAL => 71
  | ERR_SASL_INCOMPLETE => 72 | ERR_ACL_DENY => 73 | ERR_SPLITTING => 74
  | ERR_PARENT_PARTITION_MISUSED => 75 | ERR_CHILD_NOT_READY => 76
  | ERR_DISK_INSUFFICIENT => 77 | ERR_RETRY_EXHAUSTED => 78
  | ERR_SYNC_RANGER_POLICIES_FAILED => 79 | ERR_RANGER_PARSE_ACL => 80
  | ERR_RANGER_POLICIES_NO_NEED_UPDATE => 81 | ERR_RDB_CORRUPTION => 82
  | ERR_DISK_IO_ERROR => 83 | ERR_CURL_FAILED => 84 | ERR_DUP_EXIST => 85
  | ERR_HTTP_ERROR => 86 | ERR_NOT_MATCHED => 87
  end%nat.

Lemma error_code_index_nth e : nth (error_code_index e) all_error_codes ERR_OK = e.
Proof. by destruct e. Qed.

#[global] Instance error_code_index_inj : Inj (=) (=) error_code_index.
Proof. intros a b E. by rewrite <- (error_code_index_nth a), E, error_code_index_nth. Qed.

#[global] Instance error_code_eq_dec : EqDecision error_code.
Proof.
  refine (fun a b => cast_if (decide (error_code_index a = error_code_index b)));
    [by apply (inj error_code_index)|congruence].
Defined.

Definition is_ok (e : error_code) : bool := bool_decide (e = ERR_OK).

(** Go on after a call that returned [ERR_OK]. *)
Ltac ok_step := repeat (progress (cbn [obind]; change (is_ok ERR_OK) with true; cbn [negb orb])).

(** ** Machine integers *)
Definition UINT8_MAX : Z := 255.
Definition UINT16_MAX : Z := 65535.
Definition UINT32_MAX : Z := 4294967295.
Definition INT32_MAX : Z := 2147483647.
Definition INT64_MAX : Z := 9223372036854775807.
Definition INT64_MIN : Z := - 9223372036854775808.

(** Conversion to an unsigned type of [w] bits (wrap-around). *)
Definition uwrap (w z : Z) : Z := z mod 2 ^ w.
(** Conversion to a signed (two's complement) type of [w] bits. *)
Definition swrap (w z : Z) : Z := (z + 2 ^ (w - 1)) mod 2 ^ w - 2 ^ (w - 1).

Abbreviation u8 := (uwrap 8).
Abbreviation u16 := (uwrap 16).
Abbreviation u32 := (uwrap 32).
Abbreviation u64 := (uwrap 64).
Abbreviation i32 := (swrap 32).
Abbreviation i64 := (swrap 64).

Lemma uwrap_range w z : 0 <= w -> 0 <= uwrap w z < 2 ^ w.
Proof. intros. unfold uwrap. apply Z.mod_pos_bound. lia. Qed.

Lemma uwrap_small w z : 0 <= z < 2 ^ w -> uwrap w z = z.
Proof. intros. unfold uwrap. by apply Z.mod_small. Qed.

Lemma swrap_small w z : - 2 ^ (w - 1) <= z < 2 ^ (w - 1) -> 0 < w -> swrap w z = z.
Proof.
  intros Hz Hw. unfold swrap.
  assert (2 ^ w = 2 * 2 ^ (w - 1)) as E.
  { replace w with (Z.succ (w - 1)) at 1 by lia. rewrite Z.pow_succ_r; lia. }
  rewrite Z.mod_small; lia.
Qed.

Lemma swrap_range w z : 0 < w -> - 2 ^ (w - 1) <= swrap w z < 2 ^ (w - 1).
Proof.
  intros Hw. unfold swrap.
  assert (2 ^ w = 2 * 2 ^ (w - 1)) as E.
  { replace w with (Z.succ (w - 1)) at 1 by lia. rewrite Z.pow_succ_r; lia. }
  pose proof (Z.mod_pos_bound (z + 2 ^ (w - 1)) (2 ^ w)). pose proof (Z.pow_pos_nonneg 2 (w - 1)). lia.
Qed.

Lemma swrap_swrap w z : 0 < w -> swrap w (swrap w z) = swrap w z.
Proof. intros Hw. apply swrap_small; [by apply swrap_range|done]. Qed.

(** Casting a uint32 to int32 and back. *)
Lemma u32_i32 z : 0 <= z < 2 ^ 32 -> u32 (i32 z) = z.
Proof.
  intros Hz. unfold uwrap, swrap.
  destruct (decide (z < 2 ^ 31)).
  - rewrite (Z.mod_small (z + 2 ^ (32 - 1))) by lia. rewrite Z.mod_small; lia.
  - replace (z + 2 ^ (32 - 1)) with (z - 2 ^ 31 + 1 * 2 ^ 32) by lia.
    rewrite Z_mod_plus_full, (Z.mod_small (z - 2 ^ 31)) by lia.
    replace (z - 2 ^ 31 - 2 ^ (32 - 1)) with (z + (-1) * 2 ^ 32) by lia.
    rewrite Z_mod_plus_full, Z.mod_small; lia.
Qed.

(** ** Bytes *)
Abbreviation blob := (list byte).

Definition b2z (b : byte) : Z := Z.of_N (Byte.to_N b).
Definition z2b (z : Z) : byte :=
  match Byte.of_N (Z.to_N (z mod 256)) with Some b => b | None => x00 end.

Lemma b2z_range b : 0 <= b2z b < 256.
Proof. unfold b2z. pose proof (Byte.to_N_bounded b). lia. Qed.

Lemma z2b_b2z b : z2b (b2z b) = b.
Proof.
  unfold z2b. rewrite Z.mod_small by apply b2z_range.
  unfold b2z. rewrite N2Z.id. by rewrite Byte.of_to_N.
Qed.

Lemma b2z_z2b z : b2z (z2b z) = z mod 256.
Proof.
  unfold z2b. pose proof (Z.mod_pos_bound z 256 ltac:(lia)) as R.
  destruct (Byte.of_N (Z.to_N (z mod 256))) as [b|] eqn:E.
  - apply Byte.to_of_N in E. unfold b2z. rewrite E. lia.
  - apply Byte.of_N_None_iff in E. lia.
Qed.

Lemma b2z_inj a b : b2z a = b2z b -> a = b.
Proof. intros E. rewrite <- (z2b_b2z a), <- (z2b_b2z b). by rewrite E. Qed.

#[global] Instance byte_eq_dec : EqDecision byte := Byte.byte_eq_dec.

#[global] Instance byte_countable : Countable byte.
Proof.
  refine (inj_countable' (fun b => Byte.to_N b) (fun n => match Byte.of_N n with Some b => b | None => x00 end) _).
  intros b. by rewrite Byte.of_to_N.
Defined.

(** Bytes of an integer in memory on a little-endian host, and back. *)
Fixpoint le_bytes (n : nat) (z : Z) : blob :=
  match n with
  | O => []
  | S n' => z2b z :: le_bytes n' (z / 256)
  end.

Fixpoint le_val (l : blob) : Z :=
  match l with
  | [] => 0
  | b :: t => b2z b + 256 * le_val t
  end.

(** Big-endian (network order) bytes. *)
Definition be_bytes (n : nat) (z : Z) : blob := rev (le_bytes n z).
Definition be_val (l : blob) : Z := le_val (rev l).

Lemma length_le_bytes n z : length (le_bytes n z) = n.
Proof. revert z; induction n as [|n IH]; intros z; cbn; [done|by rewrite IH]. Qed.

Lemma length_be_bytes n z : length (be_bytes n z) = n.
Proof. unfold be_bytes. by rewrite length_rev, length_le_bytes. Qed.

Lemma le_val_le_bytes n z : le_val (le_bytes n z) = z mod 2 ^ (8 * Z.of_nat n).
Proof.
  revert z; induction n as [|n IH]; intros z.
  - cbn. by rewrite Z.mod_1_r.
  - cbn [le_bytes le_val]. rewrite IH, b2z_z2b.
    replace (8 * Z.of_nat (S n)) with (8 + 8 * Z.of_nat n) by lia.
    rewrite Z.pow_add_r by lia. change (2 ^ 8) with 256.
    rewrite Z.rem_mul_r by lia. lia.
Qed.

Lemma le_bytes_le_val l : le_bytes (length l) (le_val l) = l.
Proof.
  induction l as [|b l IH]; cbn [length le_bytes le_val]; [done|].
  pose proof (b2z_range b). f_equal.
  - apply b2z_inj. rewrite b2z_z2b, Z.mul_comm, Z_mod_plus_full. by apply Z.mod_small.
  - rewrite Z.mul_comm, Z.div_add by lia. rewrite (Z.div_small (b2z b)) by lia. by rewrite Z.add_0_l.
Qed.

Lemma le_val_range l : 0 <= le_val l < 2 ^ (8 * Z.of_nat (length l)).
Proof.
  rewrite <- (le_bytes_le_val l) at 1 2. rewrite le_val_le_bytes.
  apply Z.mod_pos_bound. lia.
Qed.

Lemma be_val_be_bytes n z : be_val (be_bytes n z) = z mod 2 ^ (8 * Z.of_nat n).
Proof. unfold be_val, be_bytes. by rewrite rev_involutive, le_val_le_bytes. Qed.

Lemma be_bytes_be_val l : be_bytes (length l) (be_val l) = l.
Proof.
  unfold be_val, be_bytes. rewrite <- (length_rev l), le_bytes_le_val.
  apply rev_involutive.
Qed.

Lemma be_val_range l : 0 <= be_val l < 2 ^ (8 * Z.of_nat (length l)).
Proof. unfold be_val. rewrite <- (length_rev l). apply le_val_range. Qed.

Lemma be_val_be_bytes_small n z :
  0 <= z < 2 ^ (8 * Z.of_nat n) -> be_val (be_bytes n z) = z.
Proof. intros. rewrite be_val_be_bytes. by apply Z.mod_small. Qed.

(** ** Automation *)

Lemma u32_range z : 0 <= u32 z < 2 ^ 32.
Proof. by apply uwrap_range. Qed.

Lemma u64_range z : 0 <= u64 z < 2 ^ 64.
Proof. by apply uwrap_range. Qed.

(** [pegasus]: the ranges of machine words, and arithmetic. *)
Create HintDb pegasus.
#[export] Hint Resolve u32_range u64_range b2z_range : pegasus.
#[export] Hint Extern 4 (_ <= _ < _) => (cbn; lia) : pegasus.
#[export] Hint Extern 4 (_ <= _ <= _) => (cbn; lia) : pegasus.
#[export] Hint Rewrite length_le_bytes length_be_bytes : pegasus.

#[global] Arguments be_bytes : simpl never.
#[global] Arguments uwrap : simpl never.
#[global] Arguments swrap : simpl never.
