(* ===== verification/Crc.v ===== *)
(** * Cyclic redundancy checks

    Model of [src/utils/crc.cpp]: the [crc_generator] template (table-driven
    [compute], polynomial arithmetic [MulPoly]/[ComputeX_N], [concatenate]) and
    its two instances [crc32] and [crc64].  [crc64_calc] is the hash that maps a
    key to its partition, [crc32] guards every message and log block.

    Words of [w] bits are non-negative [Z]s.  The theory shows that [compute]
    is the byte-wise reference CRC, that the literal tables of the source are
    the ones [InitializeTables] generates, and that [concatenate] computes the
    CRC of a concatenation from the CRCs of its parts. *)
From S2P Require Import Prelude.

Module Crc.

(** The static members of an instance of the template. *)
Record crc_generator := CrcGenerator {
  width : nat;            (* 8 * sizeof(uintxx_t) *)
  POLY : Z;
  crc_table : list Z;     (* _crc_table[256] *)
  uX2N : list Z           (* _uX2N[64] *)
}.

Definition MSB (g : crc_generator) : Z := Z.shiftl 1 (Z.of_nat (width g) - 1).

(** [~x] on a [w]-bit word. *)
Definition wnot (g : crc_generator) (x : Z) : Z :=
  Z.lxor x (Z.ones (Z.of_nat (width g))).

Section Generator.
Context (g : crc_generator).

(** One step of the table-driven loop:
    [uCrc = _crc_table[(uint8_t)(uCrc ^ d)] ^ (uCrc >> 8)]. *)
Definition crc_step (uCrc : Z) (d : byte) : Z :=
  Z.lxor (nth (Z.to_nat (u8 (Z.lxor uCrc (b2z d)))) (crc_table g) 0)
         (Z.shiftr uCrc 8).

(** [for (; uBytes > 15; uBytes -= 16, pData += 16)]: sixteen unrolled steps. *)
Fixpoint block_loop (uBytes : Z) (pData : blob) (uCrc : Z) {struct pData} : Z * blob * Z :=
  if uBytes >? 15 then
    match pData with
    | d0 :: d1 :: d2 :: d3 :: d4 :: d5 :: d6 :: d7 ::
      d8 :: d9 :: d10 :: d11 :: d12 :: d13 :: d14 :: d15 :: pData' =>
        let uCrc := crc_step uCrc d0 in
        let uCrc := crc_step uCrc d1 in
        let uCrc := crc_step uCrc d2 in
        let uCrc := crc_step uCrc d3 in
        let uCrc := crc_step uCrc d4 in
        let uCrc := crc_step uCrc d5 in
        let uCrc := crc_step uCrc d6 in
        let uCrc := crc_step uCrc d7 in
        let uCrc := crc_step uCrc d8 in
        let uCrc := crc_step uCrc d9 in
        let uCrc := crc_step uCrc d10 in
        let uCrc := crc_step uCrc d11 in
        let uCrc := crc_step uCrc d12 in
        let uCrc := crc_step uCrc d13 in
        let uCrc := crc_step uCrc d14 in
        let uCrc := crc_step uCrc d15 in
        block_loop (uBytes - 16) pData' uCrc
    | _ => (uBytes, pData, uCrc)
    end
  else (uBytes, pData, uCrc).

(** [while (uSize > 15)]: chunks of at most 0x80000000 bytes. *)
Fixpoint chunk_loop (fuel : nat) (uSize : Z) (pData : blob) (uCrc : Z) : Z * blob * Z :=
  match fuel with
  | O => (uSize, pData, uCrc)
  | S fuel' =>
      if uSize >? 15 then
        let uBytes := Z.min 0x80000000 uSize in
        let uSize := uSize - uBytes in
        let '(uBytes, pData, uCrc) := block_loop uBytes pData uCrc in
        chunk_loop fuel' (uSize + uBytes) pData uCrc
      else (uSize, pData, uCrc)
  end.

(** [for (uBytes = uSize; uBytes > 0; ...)]: the remaining bytes. *)
Fixpoint tail_loop (uBytes : Z) (pData : blob) (uCrc : Z) {struct pData} : Z :=
  if uBytes >? 0 then
    match pData with
    | d :: pData' => tail_loop (uBytes - 1) pData' (crc_step uCrc d)
    | [] => uCrc
    end
  else uCrc.

(** [compute(pSrc, uSize, uCrc)], the source bytes being [pSrc]. *)
Definition compute (pSrc : blob) (uCrc : Z) : Z :=
  let uCrc := wnot g uCrc in
  let '(uSize, pData, uCrc) :=
    chunk_loop (length pSrc) (Z.of_nat (length pSrc)) pSrc uCrc in
  wnot g (tail_loop uSize pData uCrc).

(** The conditional shift of [MulPoly] and [InitializeTables]. *)
Definition shift_poly (b : Z) : Z :=
  if Z.testbit b 0 then Z.lxor (Z.shiftr b 1) (POLY g) else Z.shiftr b 1.

(** The [do ... while (a != 0)] loop of [MulPoly]; [a] loses one of its
    [width] bits per turn, so [width] turns suffice. *)
Fixpoint mul_loop (fuel : nat) (a b r : Z) : Z :=
  match fuel with
  | O => r
  | S fuel' =>
      let r := if negb (Z.land a (MSB g) =? 0) then Z.lxor r b else r in
      let b := shift_poly b in
      let a := uwrap (Z.of_nat (width g)) (Z.shiftl a 1) in
      if negb (a =? 0) then mul_loop fuel' a b r else r
  end.

Definition MulPoly (a b : Z) : Z :=
  if a =? 0 then 0 else mul_loop (width g) a b 0.

(** [for (i = 0; uSize != 0; uSize >>= 1, i += 1)], [uSize] having 64 bits. *)
Fixpoint x_n_loop (fuel : nat) (i : nat) (uSize r : Z) : Z :=
  match fuel with
  | O => r
  | S fuel' =>
      if negb (uSize =? 0) then
        let r := if Z.testbit uSize 0 then MulPoly r (nth i (uX2N g) 0) else r in
        x_n_loop fuel' (S i) (Z.shiftr uSize 1) r
      else r
  end.

Definition ComputeX_N (uSize : Z) : Z := x_n_loop 64 0 uSize (MSB g).

Definition ConvertInitialCrc (uNew uOld uCrc uSize : Z) : Z :=
  let uNew := Z.lxor uNew uOld in
  let uOld := ComputeX_N uSize in
  let uOld := MulPoly uOld uNew in
  Z.lxor uCrc uOld.

Definition concatenate (uInitialCrcAB uInitialCrcA uFinalCrcA uSizeA
                        uInitialCrcB uFinalCrcB uSizeB : Z) : Z :=
  let uInitialCrcAB := wnot g uInitialCrcAB in
  let uInitialCrcA := wnot g uInitialCrcA in
  let uFinalCrcA := wnot g uFinalCrcA in
  let uInitialCrcB := wnot g uInitialCrcB in
  let uFinalCrcB := wnot g uFinalCrcB in
  let uX_nA := ComputeX_N uSizeA in
  let uFinalCrcA := Z.lxor uFinalCrcA (MulPoly uX_nA uInitialCrcA) in
  let uX_nB := ComputeX_N uSizeB in
  let uFinalCrcB := Z.lxor uFinalCrcB (MulPoly uX_nB uInitialCrcB) in
  let uFinalCrcAB := Z.lxor uFinalCrcB (MulPoly uFinalCrcA uX_nB) in
  let uFinalCrcAB := Z.lxor uFinalCrcAB (MulPoly uInitialCrcAB (MulPoly uX_nA uX_nB)) in
  wnot g uFinalCrcAB.

(** [InitializeTables]: the values the two static tables are generated with. *)
Fixpoint init_uX2N (n : nat) (prev : Z) : list Z :=
  match n with
  | O => []
  | S n' => prev :: init_uX2N n' (MulPoly prev prev)
  end.

Definition InitializeTables : list Z * list Z :=
  (init_uX2N 64 (Z.shiftr (MSB g) 8),
   map (fun i => Nat.iter 8 shift_poly (Z.of_nat i)) (seq 0 256)).

End Generator.

Definition crc64_POLY : Z :=
  fold_right (fun n acc => Z.shiftl 1 (63 - n) + acc) 0
    [63; 61; 59; 58; 56; 55; 52; 49; 48; 47; 46; 44; 41; 37; 36; 34; 32; 31; 28; 26; 23;
     22; 19; 16; 13; 12; 10; 9; 6; 4; 3; 0].

Definition crc32_POLY : Z :=
  fold_right (fun n acc => Z.shiftl 1 (31 - n) + acc) 0
    [28; 27; 26; 25; 23; 22; 20; 19; 18; 14; 13; 11; 10; 9; 8; 6; 0].

Definition crc32_uX2N : list Z :=
  [0x00800000; 0x00008000; 0x82f63b78; 0x6ea2d55c; 0x18b8ea18; 0x510ac59a; 0xb82be955; 0xb8fdb1e7;
   0x88e56f72; 0x74c360a4; 0xe4172b16; 0x0d65762a; 0x35d73a62; 0x28461564; 0xbf455269; 0xe2ea32dc;
   0xfe7740e6; 0xf946610b; 0x3c204f8f; 0x538586e3; 0x59726915; 0x734d5309; 0xbc1ac763; 0x7d0722cc;
   0xd289cabe; 0xe94ca9bc; 0x05b74f3f; 0xa51e1f42; 0x40000000; 0x20000000; 0x08000000; 0x00800000;
   0x00008000; 0x82f63b78; 0x6ea2d55c; 0x18b8ea18; 0x510ac59a; 0xb82be955; 0xb8fdb1e7; 0x88e56f72;
   0x74c360a4; 0xe4172b16; 0x0d65762a; 0x35d73a62; 0x28461564; 0xbf455269; 0xe2ea32dc; 0xfe7740e6;
   0xf946610b; 0x3c204f8f; 0x538586e3; 0x59726915; 0x734d5309; 0xbc1ac763; 0x7d0722cc; 0xd289cabe;
   0xe94ca9bc; 0x05b74f3f; 0xa51e1f42; 0x40000000; 0x20000000; 0x08000000; 0x00800000; 0x00008000].

Definition crc32_crc_table : list Z :=
  [0x00000000; 0xf26b8303; 0xe13b70f7; 0x1350f3f4; 0xc79a971f; 0x35f1141c; 0x26a1e7e8; 0xd4ca64eb;
   0x8ad958cf; 0x78b2dbcc; 0x6be22838; 0x9989ab3b; 0x4d43cfd0; 0xbf284cd3; 0xac78bf27; 0x5e133c24;
   0x105ec76f; 0xe235446c; 0xf165b798; 0x030e349b; 0xd7c45070; 0x25afd373; 0x36ff2087; 0xc494a384;
   0x9a879fa0; 0x68ec1ca3; 0x7bbcef57; 0x89d76c54; 0x5d1d08bf; 0xaf768bbc; 0xbc267848; 0x4e4dfb4b;
   0x20bd8ede; 0xd2d60ddd; 0xc186fe29; 0x33ed7d2a; 0xe72719c1; 0x154c9ac2; 0x061c6936; 0xf477ea35;
   0xaa64d611; 0x580f5512; 0x4b5fa6e6; 0xb93425e5; 0x6dfe410e; 0x9f95c20d; 0x8cc531f9; 0x7eaeb2fa;
   0x30e349b1; 0xc288cab2; 0xd1d83946; 0x23b3ba45; 0xf779deae; 0x05125dad; 0x1642ae59; 0xe4292d5a;
   0xba3a117e; 0x4851927d; 0x5b016189; 0xa96ae28a; 0x7da08661; 0x8fcb0562; 0x9c9bf696; 0x6ef07595;
   0x417b1dbc; 0xb3109ebf; 0xa0406d4b; 0x522bee48; 0x86e18aa3; 0x748a09a0; 0x67dafa54; 0x95b17957;
   0xcba24573; 0x39c9c670; 0x2a993584; 0xd8f2b687; 0x0c38d26c; 0xfe53516f; 0xed03a29b; 0x1f682198;
   0x5125dad3; 0xa34e59d0; 0xb01eaa24; 0x42752927; 0x96bf4dcc; 0x64d4cecf; 0x77843d3b; 0x85efbe38;
   0xdbfc821c; 0x2997011f; 0x3ac7f2eb; 0xc8ac71e8; 0x1c661503; 0xee0d9600; 0xfd5d65f4; 0x0f36e6f7;
   0x61c69362; 0x93ad1061; 0x80fde395; 0x72966096; 0xa65c047d; 0x5437877e; 0x4767748a; 0xb50cf789;
   0xeb1fcbad; 0x197448ae; 0x0a24bb5a; 0xf84f3859; 0x2c855cb2; 0xdeeedfb1; 0xcdbe2c45; 0x3fd5af46;
   0x7198540d; 0x83f3d70e; 0x90a324fa; 0x62c8a7f9; 0xb602c312; 0x44694011; 0x5739b3e5; 0xa55230e6;
   0xfb410cc2; 0x092a8fc1; 0x1a7a7c35; 0xe811ff36; 0x3cdb9bdd; 0xceb018de; 0xdde0eb2a; 0x2f8b6829;
   0x82f63b78; 0x709db87b; 0x63cd4b8f; 0x91a6c88c; 0x456cac67; 0xb7072f64; 0xa457dc90; 0x563c5f93;
   0x082f63b7; 0xfa44e0b4; 0xe9141340; 0x1b7f9043; 0xcfb5f4a8; 0x3dde77ab; 0x2e8e845f; 0xdce5075c;
   0x92a8fc17; 0x60c37f14; 0x73938ce0; 0x81f80fe3; 0x55326b08; 0xa759e80b; 0xb4091bff; 0x466298fc;
   0x1871a4d8; 0xea1a27db; 0xf94ad42f; 0x0b21572c; 0xdfeb33c7; 0x2d80b0c4; 0x3ed04330; 0xccbbc033;
   0xa24bb5a6; 0x502036a5; 0x4370c551; 0xb11b4652; 0x65d122b9; 0x97baa1ba; 0x84ea524e; 0x7681d14d;
   0x2892ed69; 0xdaf96e6a; 0xc9a99d9e; 0x3bc21e9d; 0xef087a76; 0x1d63f975; 0x0e330a81; 0xfc588982;
   0xb21572c9; 0x407ef1ca; 0x532e023e; 0xa145813d; 0x758fe5d6; 0x87e466d5; 0x94b49521; 0x66df1622;
   0x38cc2a06; 0xcaa7a905; 0xd9f75af1; 0x2b9cd9f2; 0xff56bd19; 0x0d3d3e1a; 0x1e6dcdee; 0xec064eed;
   0xc38d26c4; 0x31e6a5c7; 0x22b65633; 0xd0ddd530; 0x0417b1db; 0xf67c32d8; 0xe52cc12c; 0x1747422f;
   0x49547e0b; 0xbb3ffd08; 0xa86f0efc; 0x5a048dff; 0x8ecee914; 0x7ca56a17; 0x6ff599e3; 0x9d9e1ae0;
   0xd3d3e1ab; 0x21b862a8; 0x32e8915c; 0xc083125f; 0x144976b4; 0xe622f5b7; 0xf5720643; 0x07198540;
   0x590ab964; 0xab613a67; 0xb831c993; 0x4a5a4a90; 0x9e902e7b; 0x6cfbad78; 0x7fab5e8c; 0x8dc0dd8f;
   0xe330a81a; 0x115b2b19; 0x020bd8ed; 0xf0605bee; 0x24aa3f05; 0xd6c1bc06; 0xc5914ff2; 0x37faccf1;
   0x69e9f0d5; 0x9b8273d6; 0x88d28022; 0x7ab90321; 0xae7367ca; 0x5c18e4c9; 0x4f48173d; 0xbd23943e;
   0xf36e6f75; 0x0105ec76; 0x12551f82; 0xe03e9c81; 0x34f4f86a; 0xc69f7b69; 0xd5cf889d; 0x27a40b9e;
   0x79b737ba; 0x8bdcb4b9; 0x988c474d; 0x6ae7c44e; 0xbe2da0a5; 0x4c4623a6; 0x5f16d052; 0xad7d5351].

Definition crc64_uX2N : list Z :=
  [0x0080000000000000; 0x0000800000000000; 0x0000000080000000; 0x9a6c9329ac4bc9b5;
   0x10f4bb0f129310d6; 0x70f05dcea2ebd226; 0x311211205672822d; 0x2fc297db0f46c96e;
   0xca4d536fabf7da84; 0xfb4cdc3b379ee6ed; 0xea261148df25140a; 0x59ccb2c07aa6c9b4;
   0x20b3674a839af27a; 0x2d8e1986da94d583; 0x42cdf4c20337635d; 0x1d78724bf0f26839;
   0xb96c84e0afb34bd5; 0x5d2e1fcd2df0a3ea; 0xcd9506572332be42; 0x23bda2427f7d690f;
   0x347a953232374f07; 0x1c2a807ac2a8ceea; 0x9b92ad0e14fe1460; 0x2574114889f670b2;
   0x4a84a6c45e3bf520; 0x915bbac21cd1c7ff; 0xb0290ec579f291f5; 0xcf2548505c624e6e;
   0xb154f27bf08a8207; 0xce4e92344baf7d35; 0x51da8d7e057c5eb3; 0x9fb10823f5be15df;
   0x73b825b3ff1f71cf; 0x5db436c5406ebb74; 0xfa7ed8f3ec3f2bca; 0xc4d58efdc61b9ef6;
   0xa7e39e61e855bd45; 0x97ad46f9dd1bf2f1; 0x1a0abb01f853ee6b; 0x3f0827c3348f8215;
   0x4eb68c4506134607; 0x4a46f6de5df34e0a; 0x2d855d6a1c57a8dd; 0x8688da58e1115812;
   0x5232f417fc7c7300; 0xa4080fb2e767d8da; 0xd515a7e17693e562; 0x1181f7c862e94226;
   0x9e23cd058204ca91; 0x9b8992c57a0aed82; 0xb2c0afb84609b6ff; 0x2f7160553a5ea018;
   0x3cd378b5c99f2722; 0x814054ad61a3b058; 0xbf766189fce806d8; 0x85a5e898ac49f86f;
   0x34830d11bc84f346; 0x9644d95b173c8c1c; 0x150401ac9ac759b1; 0xebe1f7f46fb00eba;
   0x8ee4ce0c2e2bd662; 0x4000000000000000; 0x2000000000000000; 0x0800000000000000].

Definition crc64_crc_table : list Z :=
  [0x0000000000000000; 0x7f6ef0c830358979; 0xfedde190606b12f2; 0x81b31158505e9b8b;
   0xc962e5739841b68f; 0xb60c15bba8743ff6; 0x37bf04e3f82aa47d; 0x48d1f42bc81f2d04;
   0xa61cecb46814fe75; 0xd9721c7c5821770c; 0x58c10d24087fec87; 0x27affdec384a65fe;
   0x6f7e09c7f05548fa; 0x1010f90fc060c183; 0x91a3e857903e5a08; 0xeecd189fa00bd371;
   0x78e0ff3b88be6f81; 0x078e0ff3b88be6f8; 0x863d1eabe8d57d73; 0xf953ee63d8e0f40a;
   0xb1821a4810ffd90e; 0xceecea8020ca5077; 0x4f5ffbd87094cbfc; 0x30310b1040a14285;
   0xdefc138fe0aa91f4; 0xa192e347d09f188d; 0x2021f21f80c18306; 0x5f4f02d7b0f40a7f;
   0x179ef6fc78eb277b; 0x68f0063448deae02; 0xe943176c18803589; 0x962de7a428b5bcf0;
   0xf1c1fe77117cdf02; 0x8eaf0ebf2149567b; 0x0f1c1fe77117cdf0; 0x7072ef2f41224489;
   0x38a31b04893d698d; 0x47cdebccb908e0f4; 0xc67efa94e9567b7f; 0xb9100a5cd963f206;
   0x57dd12c379682177; 0x28b3e20b495da80e; 0xa900f35319033385; 0xd66e039b2936bafc;
   0x9ebff7b0e12997f8; 0xe1d10778d11c1e81; 0x606216208142850a; 0x1f0ce6e8b1770c73;
   0x8921014c99c2b083; 0xf64ff184a9f739fa; 0x77fce0dcf9a9a271; 0x08921014c99c2b08;
   0x4043e43f0183060c; 0x3f2d14f731b68f75; 0xbe9e05af61e814fe; 0xc1f0f56751dd9d87;
   0x2f3dedf8f1d64ef6; 0x50531d30c1e3c78f; 0xd1e00c6891bd5c04; 0xae8efca0a188d57d;
   0xe65f088b6997f879; 0x9931f84359a27100; 0x1882e91b09fcea8b; 0x67ec19d339c963f2;
   0xd75adabd7a6e2d6f; 0xa8342a754a5ba416; 0x29873b2d1a053f9d; 0x56e9cbe52a30b6e4;
   0x1e383fcee22f9be0; 0x6156cf06d21a1299; 0xe0e5de5e82448912; 0x9f8b2e96b271006b;
   0x71463609127ad31a; 0x0e28c6c1224f5a63; 0x8f9bd7997211c1e8; 0xf0f5275142244891;
   0xb824d37a8a3b6595; 0xc74a23b2ba0eecec; 0x46f932eaea507767; 0x3997c222da65fe1e;
   0xafba2586f2d042ee; 0xd0d4d54ec2e5cb97; 0x5167c41692bb501c; 0x2e0934dea28ed965;
   0x66d8c0f56a91f461; 0x19b6303d5aa47d18; 0x980521650afae693; 0xe76bd1ad3acf6fea;
   0x09a6c9329ac4bc9b; 0x76c839faaaf135e2; 0xf77b28a2faafae69; 0x8815d86aca9a2710;
   0xc0c42c4102850a14; 0xbfaadc8932b0836d; 0x3e19cdd162ee18e6; 0x41773d1952db919f;
   0x269b24ca6b12f26d; 0x59f5d4025b277b14; 0xd846c55a0b79e09f; 0xa72835923b4c69e6;
   0xeff9c1b9f35344e2; 0x90973171c366cd9b; 0x1124202993385610; 0x6e4ad0e1a30ddf69;
   0x8087c87e03060c18; 0xffe938b633338561; 0x7e5a29ee636d1eea; 0x0134d92653589793;
   0x49e52d0d9b47ba97; 0x368bddc5ab7233ee; 0xb738cc9dfb2ca865; 0xc8563c55cb19211c;
   0x5e7bdbf1e3ac9dec; 0x21152b39d3991495; 0xa0a63a6183c78f1e; 0xdfc8caa9b3f20667;
   0x97193e827bed2b63; 0xe877ce4a4bd8a21a; 0x69c4df121b863991; 0x16aa2fda2bb3b0e8;
   0xf86737458bb86399; 0x8709c78dbb8deae0; 0x06bad6d5ebd3716b; 0x79d4261ddbe6f812;
   0x3105d23613f9d516; 0x4e6b22fe23cc5c6f; 0xcfd833a67392c7e4; 0xb0b6c36e43a74e9d;
   0x9a6c9329ac4bc9b5; 0xe50263e19c7e40cc; 0x64b172b9cc20db47; 0x1bdf8271fc15523e;
   0x530e765a340a7f3a; 0x2c608692043ff643; 0xadd397ca54616dc8; 0xd2bd67026454e4b1;
   0x3c707f9dc45f37c0; 0x431e8f55f46abeb9; 0xc2ad9e0da4342532; 0xbdc36ec59401ac4b;
   0xf5129aee5c1e814f; 0x8a7c6a266c2b0836; 0x0bcf7b7e3c7593bd; 0x74a18bb60c401ac4;
   0xe28c6c1224f5a634; 0x9de29cda14c02f4d; 0x1c518d82449eb4c6; 0x633f7d4a74ab3dbf;
   0x2bee8961bcb410bb; 0x548079a98c8199c2; 0xd53368f1dcdf0249; 0xaa5d9839ecea8b30;
   0x449080a64ce15841; 0x3bfe706e7cd4d138; 0xba4d61362c8a4ab3; 0xc52391fe1cbfc3ca;
   0x8df265d5d4a0eece; 0xf29c951de49567b7; 0x732f8445b4cbfc3c; 0x0c41748d84fe7545;
   0x6bad6d5ebd3716b7; 0x14c39d968d029fce; 0x95708ccedd5c0445; 0xea1e7c06ed698d3c;
   0xa2cf882d2576a038; 0xdda178e515432941; 0x5c1269bd451db2ca; 0x237c997575283bb3;
   0xcdb181ead523e8c2; 0xb2df7122e51661bb; 0x336c607ab548fa30; 0x4c0290b2857d7349;
   0x04d364994d625e4d; 0x7bbd94517d57d734; 0xfa0e85092d094cbf; 0x856075c11d3cc5c6;
   0x134d926535897936; 0x6c2362ad05bcf04f; 0xed9073f555e26bc4; 0x92fe833d65d7e2bd;
   0xda2f7716adc8cfb9; 0xa54187de9dfd46c0; 0x24f29686cda3dd4b; 0x5b9c664efd965432;
   0xb5517ed15d9d8743; 0xca3f8e196da80e3a; 0x4b8c9f413df695b1; 0x34e26f890dc31cc8;
   0x7c339ba2c5dc31cc; 0x035d6b6af5e9b8b5; 0x82ee7a32a5b7233e; 0xfd808afa9582aa47;
   0x4d364994d625e4da; 0x3258b95ce6106da3; 0xb3eba804b64ef628; 0xcc8558cc867b7f51;
   0x8454ace74e645255; 0xfb3a5c2f7e51db2c; 0x7a894d772e0f40a7; 0x05e7bdbf1e3ac9de;
   0xeb2aa520be311aaf; 0x944455e88e0493d6; 0x15f744b0de5a085d; 0x6a99b478ee6f8124;
   0x224840532670ac20; 0x5d26b09b16452559; 0xdc95a1c3461bbed2; 0xa3fb510b762e37ab;
   0x35d6b6af5e9b8b5b; 0x4ab846676eae0222; 0xcb0b573f3ef099a9; 0xb465a7f70ec510d0;
   0xfcb453dcc6da3dd4; 0x83daa314f6efb4ad; 0x0269b24ca6b12f26; 0x7d0742849684a65f;
   0x93ca5a1b368f752e; 0xeca4aad306bafc57; 0x6d17bb8b56e467dc; 0x12794b4366d1eea5;
   0x5aa8bf68aecec3a1; 0x25c64fa09efb4ad8; 0xa4755ef8cea5d153; 0xdb1bae30fe90582a;
   0xbcf7b7e3c7593bd8; 0xc399472bf76cb2a1; 0x422a5673a732292a; 0x3d44a6bb9707a053;
   0x759552905f188d57; 0x0afba2586f2d042e; 0x8b48b3003f739fa5; 0xf42643c80f4616dc;
   0x1aeb5b57af4dc5ad; 0x6585ab9f9f784cd4; 0xe436bac7cf26d75f; 0x9b584a0fff135e26;
   0xd389be24370c7322; 0xace74eec0739fa5b; 0x2d545fb4576761d0; 0x523aaf7c6752e8a9;
   0xc41748d84fe75459; 0xbb79b8107fd2dd20; 0x3acaa9482f8c46ab; 0x45a459801fb9cfd2;
   0x0d75adabd7a6e2d6; 0x721b5d63e7936baf; 0xf3a84c3bb7cdf024; 0x8cc6bcf387f8795d;
   0x620ba46c27f3aa2c; 0x1d6554a417c62355; 0x9cd645fc4798b8de; 0xe3b8b53477ad31a7;
   0xab69411fbfb21ca3; 0xd407b1d78f8795da; 0x55b4a08fdfd90e51; 0x2ada5047efec8728].

Definition crc32 : crc_generator := CrcGenerator 32 crc32_POLY crc32_crc_table crc32_uX2N.
Definition crc64 : crc_generator := CrcGenerator 64 crc64_POLY crc64_crc_table crc64_uX2N.

Definition crc32_calc (ptr : blob) (init_crc : Z) : Z := compute crc32 ptr init_crc.
Definition crc64_calc (ptr : blob) (init_crc : Z) : Z := compute crc64 ptr init_crc.

(** Both wrappers pass the literal 0 as the initial value of the concatenation. *)
Definition crc32_concat (xy_init x_init x_final x_size y_init y_final y_size : Z) : Z :=
  concatenate crc32 0 x_init x_final x_size y_init y_final y_size.

Definition crc64_concat (xy_init x_init x_final x_size y_init y_final y_size : Z) : Z :=
  concatenate crc64 0 x_init x_final x_size y_init y_final y_size.


(** ** Theory *)

(** The byte-wise reference: one table step per byte, between two complements. *)
Definition crc_ref (g : crc_generator) (pSrc : blob) (uCrc : Z) : Z :=
  wnot g (fold_left (crc_step g) pSrc (wnot g uCrc)).

(** The linear map "multiply by x modulo the polynomial", iterated. *)
Definition xpow (g : crc_generator) (k : nat) (b : Z) : Z := Nat.iter k (shift_poly g) b.

(** A generator whose parameters are those of the template. *)
Record crc_wf (g : crc_generator) : Prop := CrcWf {
  wf_width : (16 <= width g)%nat;
  wf_poly : 0 <= POLY g < 2 ^ Z.of_nat (width g);
  wf_tables : InitializeTables g = (uX2N g, crc_table g)
}.

Lemma crc32_wf : crc_wf crc32.
Proof. split; [cbn; lia|vm_compute; intuition congruence|vm_compute; reflexivity]. Qed.

Lemma crc64_wf : crc_wf crc64.
Proof. split; [cbn; lia|vm_compute; intuition congruence|vm_compute; reflexivity]. Qed.

(** Equations between xors of the same atoms. *)
Ltac xor_bits :=
  apply Z.bits_inj'; intros ? ?; rewrite ?Z.lxor_spec, ?Z.testbit_0_l;
  repeat match goal with
  | |- context [Z.testbit ?a ?n] => destruct (Z.testbit a n)
  end; reflexivity.

Section Theory.
Context (g : crc_generator).
Local Abbreviation w := (Z.of_nat (width g)).
Local Abbreviation xt := (shift_poly g).
Local Notation "a ⊕ b" := (Z.lxor a b) (at level 50, left associativity).

Definition word (x : Z) : Prop := 0 <= x < 2 ^ w.

(** Multiplication with the loop unrolled over the bits of [a], top bit first. *)
Fixpoint pmul (n : nat) (a b : Z) : Z :=
  match n with
  | O => 0
  | S n' => (if Z.testbit a (Z.of_nat n') then b else 0) ⊕ pmul n' a (xt b)
  end.

Lemma shift_poly_lxor a b : xt (a ⊕ b) = xt a ⊕ xt b.
Proof.
  unfold shift_poly. rewrite Z.lxor_spec, Z.shiftr_lxor.
  destruct (Z.testbit a 0), (Z.testbit b 0); cbn [xorb]; xor_bits.
Qed.

Lemma shift_poly_0 : xt 0 = 0.
Proof. reflexivity. Qed.

Lemma xpow_S k b : xpow g (S k) b = xt (xpow g k b).
Proof. reflexivity. Qed.

Lemma xpow_lxor k a b : xpow g k (a ⊕ b) = xpow g k a ⊕ xpow g k b.
Proof. induction k as [|k IH]; [done|]. by rewrite !xpow_S, IH, shift_poly_lxor. Qed.

Lemma xpow_add j k b : xpow g (j + k) b = xpow g j (xpow g k b).
Proof. apply Nat.iter_add. Qed.

Lemma pmul_lxor_r n a b c : pmul n a (b ⊕ c) = pmul n a b ⊕ pmul n a c.
Proof.
  revert b c; induction n as [|n IH]; intros b c; cbn [pmul]; [done|].
  rewrite shift_poly_lxor, IH. destruct (Z.testbit a (Z.of_nat n)); xor_bits.
Qed.

Lemma pmul_0_r n a : pmul n a 0 = 0.
Proof.
  induction n as [|n IH]; cbn [pmul]; [done|]. rewrite shift_poly_0, IH.
  by destruct (Z.testbit a (Z.of_nat n)).
Qed.

Lemma pmul_xt n a b : pmul n a (xt b) = xt (pmul n a b).
Proof.
  revert b; induction n as [|n IH]; intros b; cbn [pmul]; [done|].
  rewrite shift_poly_lxor, <- IH. by destruct (Z.testbit a (Z.of_nat n)).
Qed.

Lemma pmul_xpow n a k b : pmul n a (xpow g k b) = xpow g k (pmul n a b).
Proof. induction k as [|k IH]; [done|]. by rewrite !xpow_S, pmul_xt, IH. Qed.

Lemma pmul_swap n m a c b : pmul n a (pmul m c b) = pmul m c (pmul n a b).
Proof.
  revert b; induction n as [|n IH]; intros b; cbn [pmul].
  - by rewrite pmul_0_r.
  - rewrite <- pmul_xt, IH, pmul_lxor_r.
    destruct (Z.testbit a (Z.of_nat n)); [done|by rewrite pmul_0_r].
Qed.

Lemma shift_poly_pow2 n : xt (2 ^ Z.of_nat (S n)) = 2 ^ Z.of_nat n.
Proof.
  unfold shift_poly. rewrite Z.pow2_bits_false by lia.
  rewrite Z.shiftr_div_pow2 by lia. rewrite Nat2Z.inj_succ, Z.pow_succ_r by lia.
  rewrite Z.mul_comm. by apply Z.div_mul.
Qed.

Lemma mod_pow2_succ a n : (if Z.testbit a (Z.of_nat n) then 2 ^ Z.of_nat n else 0)
    ⊕ a mod 2 ^ Z.of_nat n = a mod 2 ^ Z.of_nat (S n).
Proof.
  apply Z.bits_inj'; intros i Hi. rewrite Z.lxor_spec.
  rewrite Z.testbit_mod_pow2 by lia.
  rewrite (Z.testbit_mod_pow2 a (Z.of_nat (S n))) by lia.
  destruct (decide (i = Z.of_nat n)) as [->|Hn].
  - destruct (Z.testbit a (Z.of_nat n)) eqn:E.
    + rewrite Z.pow2_bits_true by lia.
      destruct (Z.ltb_spec (Z.of_nat n) (Z.of_nat n)), (Z.ltb_spec (Z.of_nat n) (Z.of_nat (S n)));
        try lia; done.
    + rewrite Z.testbit_0_l, andb_false_r, andb_false_r. done.
  - assert (Z.testbit (if Z.testbit a (Z.of_nat n) then 2 ^ Z.of_nat n else 0) i = false) as ->.
    { destruct (Z.testbit a (Z.of_nat n)); [apply Z.pow2_bits_false; lia|apply Z.testbit_0_l]. }
    rewrite xorb_false_l.
    destruct (Z.ltb_spec i (Z.of_nat n)), (Z.ltb_spec i (Z.of_nat (S n))); try lia; done.
Qed.

Lemma pmul_pow2 n a : pmul (S n) a (2 ^ Z.of_nat n) = a mod 2 ^ Z.of_nat (S n).
Proof.
  revert a; induction n as [|n IH]; intros a.
  - rewrite <- mod_pow2_succ. cbn [pmul]. change (2 ^ Z.of_nat 0) with 1.
    by rewrite Z.mod_1_r.
  - rewrite <- mod_pow2_succ, <- IH. change (pmul (S (S n)) a) with
      (fun b => (if Z.testbit a (Z.of_nat (S n)) then b else 0) ⊕ pmul (S n) a (xt b)).
    cbv beta. by rewrite shift_poly_pow2.
Qed.

Section WithWf.
Context (Hg : crc_wf g).

Lemma MSB_pow2 : MSB g = 2 ^ Z.of_nat (pred (width g)).
Proof.
  pose proof (wf_width g Hg). unfold MSB. rewrite Z.shiftl_1_l. f_equal. lia.
Qed.

Lemma word_0 : word 0.
Proof. split; lia. Qed.

Lemma word_lxor a b : word a -> word b -> word (a ⊕ b).
Proof.
  intros [Ha1 Ha2] [Hb1 Hb2]. assert (0 <= a ⊕ b) as H0.
  { apply Z.lxor_nonneg. lia. }
  split; [done|].
  rewrite <- (Z.mod_small a (2 ^ w)), <- (Z.mod_small b (2 ^ w)) by lia.
  rewrite <- !Z.land_ones by lia.
  replace (Z.land a (Z.ones w) ⊕ Z.land b (Z.ones w)) with (Z.land (a ⊕ b) (Z.ones w)).
  - rewrite Z.land_ones by lia. apply Z.mod_pos_bound. lia.
  - apply Z.bits_inj'; intros n Hn. rewrite ?Z.lxor_spec, ?Z.land_spec, ?Z.lxor_spec.
    by destruct (Z.testbit a n), (Z.testbit b n), (Z.testbit (Z.ones w) n).
Qed.

Lemma word_MSB : word (MSB g).
Proof.
  pose proof (wf_width g Hg). rewrite MSB_pow2. split; [lia|].
  apply Z.pow_lt_mono_r; lia.
Qed.

Lemma word_shiftr x k : 0 <= k -> word x -> word (Z.shiftr x k).
Proof.
  intros Hk [H1 H2]. rewrite Z.shiftr_div_pow2 by lia. split.
  - apply Z.div_pos; lia.
  - apply Z.div_lt_upper_bound; [lia|]. nia.
Qed.

Lemma word_xt x : word x -> word (xt x).
Proof.
  intros Hx. unfold shift_poly. pose proof (wf_poly g Hg).
  destruct (Z.testbit x 0); [apply word_lxor; [|done]|]; apply word_shiftr; auto with lia.
Qed.

Lemma word_xpow k x : word x -> word (xpow g k x).
Proof. intros Hx. induction k; [done|]. rewrite xpow_S. by apply word_xt. Qed.

Lemma word_wnot x : word x -> word (wnot g x).
Proof.
  intros. apply word_lxor; [done|]. rewrite Z.ones_equiv. split; lia.
Qed.

Lemma wnot_wnot x : wnot g (wnot g x) = x.
Proof. unfold wnot. rewrite Z.lxor_assoc, Z.lxor_nilpotent, Z.lxor_0_r. done. Qed.

Lemma pmul_MSB a : word a -> pmul (width g) a (MSB g) = a.
Proof.
  intros Ha. rewrite MSB_pow2. pose proof (wf_width g Hg).
  destruct (width g) as [|n] eqn:E; [lia|]. cbn [pred].
  rewrite pmul_pow2. apply Z.mod_small. unfold word in Ha. by rewrite E in Ha.
Qed.

Lemma pmul_comm a b : word a -> word b -> pmul (width g) a b = pmul (width g) b a.
Proof.
  intros Ha Hb. rewrite <- (pmul_MSB b Hb) at 1. rewrite pmul_swap. by rewrite pmul_MSB.
Qed.

Lemma pmul_X k b : word b -> pmul (width g) (xpow g k (MSB g)) b = xpow g k b.
Proof.
  intros Hb. rewrite pmul_comm by auto using word_xpow, word_MSB.
  by rewrite pmul_xpow, pmul_MSB.
Qed.

Lemma pmul_low_zero n a b : a mod 2 ^ Z.of_nat n = 0 -> pmul n a b = 0.
Proof.
  revert a b; induction n as [|n IH]; intros a b Ha; [done|]. cbn [pmul].
  rewrite <- mod_pow2_succ in Ha.
  destruct (Z.testbit a (Z.of_nat n)) eqn:E.
  - exfalso. apply (f_equal (fun z => Z.testbit z (Z.of_nat n))) in Ha.
    rewrite Z.lxor_spec, Z.pow2_bits_true, Z.testbit_0_l, Z.mod_pow2_bits_high in Ha by lia.
    done.
  - rewrite Z.lxor_0_l in *. by apply IH.
Qed.

(** The word [a] after [w - n] shifts, and its top bit. *)
Definition shifted (n : nat) (a : Z) : Z := uwrap w (Z.shiftl a (w - Z.of_nat n)).

Lemma shifted_top_bit n a :
  (n < width g)%nat ->
  (Z.land (shifted (S n) a) (MSB g) =? 0) = negb (Z.testbit a (Z.of_nat n)).
Proof.
  intros Hn. rewrite MSB_pow2. unfold shifted, uwrap.
  assert (Z.testbit (Z.shiftl a (w - Z.of_nat (S n)) mod 2 ^ w) (Z.of_nat (pred (width g)))
          = Z.testbit a (Z.of_nat n)) as E.
  { rewrite Z.mod_pow2_bits_low by lia. rewrite Z.shiftl_spec by lia. f_equal. lia. }
  destruct (Z.testbit a (Z.of_nat n)) eqn:Ea.
  - apply Z.eqb_neq. intros H0.
    apply (f_equal (fun z => Z.testbit z (Z.of_nat (pred (width g))))) in H0.
    rewrite Z.land_spec, E, Z.pow2_bits_true, Z.testbit_0_l in H0 by lia. done.
  - apply Z.eqb_eq. apply Z.bits_inj'; intros i Hi.
    rewrite Z.land_spec, Z.testbit_0_l.
    destruct (decide (i = Z.of_nat (pred (width g)))) as [->|Hne].
    + by rewrite E.
    + rewrite Z.pow2_bits_false by lia. apply andb_false_r.
Qed.

Lemma shifted_step n a :
  (n < width g)%nat -> uwrap w (Z.shiftl (shifted (S n) a) 1) = shifted n a.
Proof.
  intros Hn. unfold shifted, uwrap. rewrite !Z.shiftl_mul_pow2 by lia.
  rewrite Z.mul_mod_idemp_l by lia. f_equal. rewrite <- Z.mul_assoc, <- Z.pow_add_r by lia.
  f_equal. f_equal. lia.
Qed.

Lemma shifted_zero n a :
  (n <= width g)%nat -> shifted n a = 0 -> a mod 2 ^ Z.of_nat n = 0.
Proof.
  intros Hn E. unfold shifted, uwrap in E. rewrite Z.shiftl_mul_pow2 in E by lia.
  replace (2 ^ w) with (2 ^ Z.of_nat n * 2 ^ (w - Z.of_nat n)) in E
    by (rewrite <- Z.pow_add_r by lia; f_equal; lia).
  rewrite Z.mul_mod_distr_r in E by lia. apply Z.mul_eq_0 in E. lia.
Qed.

(** The loop stops early only when the remaining bits of [a] are zero. *)
Lemma mul_loop_pmul n a b r :
  (0 < n <= width g)%nat -> mul_loop g n (shifted n a) b r = r ⊕ pmul n a b.
Proof.
  revert b r; induction n as [|n IH]; intros b r Hn; [lia|].
  cbn [mul_loop pmul]. rewrite shifted_top_bit, shifted_step, negb_involutive by lia.
  assert ((if Z.testbit a (Z.of_nat n) then r ⊕ b else r)
          = r ⊕ (if Z.testbit a (Z.of_nat n) then b else 0)) as ->.
  { destruct (Z.testbit a (Z.of_nat n)); [done|by rewrite Z.lxor_0_r]. }
  destruct (Z.eqb_spec (shifted n a) 0) as [E0|E0]; cbn [negb].
  - rewrite pmul_low_zero by (apply shifted_zero; [lia|done]). by rewrite Z.lxor_0_r.
  - destruct n as [|n'].
    + exfalso. apply E0. unfold shifted, uwrap. rewrite Z.sub_0_r, Z.shiftl_mul_pow2 by lia.
      apply Z.mod_mul. lia.
    + rewrite IH by lia. by rewrite Z.lxor_assoc.
Qed.

Lemma MulPoly_pmul a b : word a -> MulPoly g a b = pmul (width g) a b.
Proof.
  intros Ha. unfold MulPoly. pose proof (wf_width g Hg).
  destruct (Z.eqb_spec a 0) as [->|_].
  - symmetry. apply pmul_low_zero. apply Z.mod_0_l. lia.
  - assert (shifted (width g) a = a) as E.
    { unfold shifted. rewrite Z.sub_diag, Z.shiftl_0_r. by apply uwrap_small. }
    rewrite <- E at 1. rewrite mul_loop_pmul by lia. apply Z.lxor_0_l.
Qed.

Lemma MulPoly_X k b : word b -> MulPoly g (xpow g k (MSB g)) b = xpow g k b.
Proof.
  intros Hb. rewrite MulPoly_pmul by auto using word_xpow, word_MSB. by apply pmul_X.
Qed.

Lemma MulPoly_X_r k b : word b -> MulPoly g b (xpow g k (MSB g)) = xpow g k b.
Proof.
  intros Hb. rewrite MulPoly_pmul by done. rewrite pmul_xpow. by rewrite pmul_MSB.
Qed.

(** *** The table-driven step *)

Lemma xpow_shiftl k y : xpow g k (Z.shiftl y (Z.of_nat k)) = y.
Proof.
  revert y; induction k as [|k IH]; intros y; [apply Z.shiftl_0_r|].
  rewrite xpow_S.
  replace (Z.shiftl y (Z.of_nat (S k))) with (Z.shiftl (Z.shiftl y 1) (Z.of_nat k))
    by (rewrite Z.shiftl_shiftl by lia; f_equal; lia).
  rewrite IH. unfold shift_poly. rewrite Z.shiftl_spec_low by lia.
  rewrite Z.shiftr_shiftl_l by lia. apply Z.shiftl_0_r.
Qed.

Lemma crc_table_nth i :
  0 <= i < 256 -> nth (Z.to_nat i) (crc_table g) 0 = xpow g 8 i.
Proof.
  intros Hi. pose proof (f_equal snd (wf_tables g Hg)) as E. cbn [snd] in E.
  rewrite <- E. change (snd (InitializeTables g)) with
    (map (fun i => Nat.iter 8 (shift_poly g) (Z.of_nat i)) (seq 0 256)).
  rewrite nth_indep with (d' := (fun i => Nat.iter 8 (shift_poly g) (Z.of_nat i)) 0%nat)
    by (rewrite length_map, length_seq; lia).
  rewrite (map_nth (fun i => Nat.iter 8 (shift_poly g) (Z.of_nat i))).
  rewrite seq_nth by lia. rewrite Nat.add_0_l, Z2Nat.id by lia. done.
Qed.

Lemma crc_step_xpow c d : crc_step g c d = xpow g 8 (c ⊕ b2z d).
Proof.
  unfold crc_step. pose proof (b2z_range d).
  rewrite crc_table_nth by (apply (uwrap_range 8); lia).
  set (x := c ⊕ b2z d).
  assert (Z.shiftr c 8 = Z.shiftr x 8) as ->.
  { unfold x. rewrite Z.shiftr_lxor, (Z.shiftr_div_pow2 (b2z d)) by lia.
    rewrite (Z.div_small (b2z d)) by lia. by rewrite Z.lxor_0_r. }
  rewrite <- (xpow_shiftl 8 (Z.shiftr x 8)), <- xpow_lxor. f_equal.
  apply Z.bits_inj'; intros n Hn. rewrite Z.lxor_spec. unfold uwrap.
  destruct (Z.ltb_spec n 8).
  - rewrite Z.mod_pow2_bits_low, Z.shiftl_spec_low by lia. apply xorb_false_r.
  - rewrite Z.mod_pow2_bits_high, Z.shiftl_spec, Z.shiftr_spec by lia.
    rewrite xorb_false_l. f_equal. lia.
Qed.

(** Changing the register before a run adds a shifted copy of the change. *)
Lemma fold_crc_lxor A i j :
  fold_left (crc_step g) A (i ⊕ j) = fold_left (crc_step g) A i ⊕ xpow g (8 * length A) j.
Proof.
  revert i j; induction A as [|d A IH]; intros i j; [done|]. cbn [fold_left].
  assert (crc_step g (i ⊕ j) d = crc_step g i d ⊕ xpow g 8 j) as ->.
  { rewrite !crc_step_xpow, <- xpow_lxor. f_equal. xor_bits. }
  rewrite IH, <- xpow_add. f_equal. f_equal. cbn [length]. lia.
Qed.

Lemma fold_crc_from_0 A i :
  fold_left (crc_step g) A i = fold_left (crc_step g) A 0 ⊕ xpow g (8 * length A) i.
Proof. by rewrite <- fold_crc_lxor, Z.lxor_0_l. Qed.

Lemma word_crc_step c d : word c -> word (crc_step g c d).
Proof.
  intros Hc. rewrite crc_step_xpow. apply word_xpow, word_lxor; [done|].
  pose proof (b2z_range d). pose proof (wf_width g Hg). split; [lia|].
  apply Z.lt_le_trans with (2 ^ 8); [lia|]. apply Z.pow_le_mono_r; lia.
Qed.

Lemma word_fold A i : word i -> word (fold_left (crc_step g) A i).
Proof. revert i; induction A as [|d A IH]; intros i Hi; cbn; auto using word_crc_step. Qed.

(** *** The powers of x used to shift a CRC *)

Lemma init_uX2N_nth n i k p :
  (i < n)%nat -> p = xpow g k (MSB g) ->
  nth i (init_uX2N g n p) 0 = xpow g (k * 2 ^ i) (MSB g).
Proof.
  revert i k p; induction n as [|n IH]; intros i k p Hi ->; [lia|].
  destruct i as [|i]; cbn [init_uX2N nth].
  - by rewrite Nat.pow_0_r, Nat.mul_1_r.
  - rewrite (IH i (k + k)%nat) by (lia || (rewrite MulPoly_X by auto using word_xpow, word_MSB;
      by rewrite xpow_add)).
    f_equal. rewrite Nat.pow_succ_r'. lia.
Qed.

Lemma uX2N_nth i : (i < 64)%nat -> nth i (uX2N g) 0 = xpow g (8 * 2 ^ i) (MSB g).
Proof.
  intros Hi. pose proof (f_equal fst (wf_tables g Hg)) as E. cbn [fst] in E.
  rewrite <- E. change (fst (InitializeTables g)) with (init_uX2N g 64 (Z.shiftr (MSB g) 8)).
  apply init_uX2N_nth; [done|].
  rewrite <- (xpow_shiftl 8 (Z.shiftr (MSB g) 8)). f_equal.
  pose proof (wf_width g Hg). rewrite MSB_pow2.
  rewrite Z.shiftr_div_pow2, Z.shiftl_mul_pow2 by lia.
  rewrite Z.mul_comm, <- Z_div_exact_full_2; [done|lia|].
  change (Z.of_nat 8) with 8.
  replace (Z.of_nat (pred (width g))) with (8 + (Z.of_nat (pred (width g)) - 8)) by lia.
  rewrite Z.pow_add_r by lia. rewrite Z.mul_comm. apply Z.mod_mul. lia.
Qed.

Lemma x_n_loop_spec fuel i n k :
  (i + fuel = 64)%nat -> 0 <= n < 2 ^ Z.of_nat fuel ->
  x_n_loop g fuel i n (xpow g k (MSB g)) = xpow g (8 * 2 ^ i * Z.to_nat n + k) (MSB g).
Proof.
  revert i n k; induction fuel as [|fuel IH]; intros i n k Hi Hn; cbn [x_n_loop].
  - assert (n = 0) as -> by (cbn in Hn; lia). f_equal. lia.
  - destruct (Z.eqb_spec n 0) as [->|Hn0]; cbn [negb]; [f_equal; lia|].
    rewrite Z.shiftr_div_pow2, Z.pow_1_r by lia.
    assert (0 <= n / 2 < 2 ^ Z.of_nat fuel) as Hn2.
    { rewrite Nat2Z.inj_succ, Z.pow_succ_r in Hn by lia. split;
        [apply Z.div_pos; lia|apply Z.div_lt_upper_bound; lia]. }
    pose proof (Z.div_mod n 2 ltac:(lia)) as En. rewrite Zmod_odd, <- Z.bit0_odd in En.
    rewrite uX2N_nth, MulPoly_X, <- xpow_add by (lia || auto using word_xpow, word_MSB).
    destruct (Z.testbit n 0); rewrite IH by lia; f_equal; rewrite Nat.pow_succ_r'; nia.
Qed.

Lemma ComputeX_N_spec n :
  0 <= n < 2 ^ 64 -> ComputeX_N g n = xpow g (8 * Z.to_nat n) (MSB g).
Proof.
  intros Hn. unfold ComputeX_N. change (MSB g) with (xpow g 0 (MSB g)) at 1.
  rewrite (x_n_loop_spec 64 0 n 0) by (done || lia).
  f_equal. change (2 ^ 0)%nat with 1%nat. lia.
Qed.

(** *** The loops of [compute] *)

Lemma block_loop_spec pData uBytes uCrc :
  0 <= uBytes <= Z.of_nat (length pData) ->
  exists uBytes' pre pData',
    block_loop g uBytes pData uCrc = (uBytes', pData', fold_left (crc_step g) pre uCrc) /\
    pData = pre ++ pData' /\ uBytes = Z.of_nat (length pre) + uBytes' /\ 0 <= uBytes' <= 15.
Proof.
  remember (length pData) as n eqn:En. revert pData uBytes uCrc En.
  induction n as [n IH] using lt_wf_ind; intros pData uBytes uCrc En Hb.
  destruct (Z.gtb_spec uBytes 15) as [Hgt|Hle].
  2:{ exists uBytes, [], pData. destruct pData; cbn; destruct (Z.gtb_spec uBytes 15);
      try lia; cbn; repeat split; lia. }
  do 16 (destruct pData as [|? pData]; [cbn in En; lia|]).
  destruct (IH (length pData) ltac:(cbn in En; lia) pData (uBytes - 16)
             (fold_left (crc_step g) [b; b0; b1; b2; b3; b4; b5; b6; b7; b8; b9; b10; b11; b12; b13; b14] uCrc)
             eq_refl ltac:(cbn [length] in En; lia)) as (u' & pre & p' & E & -> & Eu & Hu').
  exists u', ([b; b0; b1; b2; b3; b4; b5; b6; b7; b8; b9; b10; b11; b12; b13; b14] ++ pre), p'.
  split; [|split; [done|split; [cbn [app length] in *; lia|done]]].
  rewrite fold_left_app, <- E. cbn [block_loop]. 
  destruct (Z.gtb_spec uBytes 15); [done|lia].
Qed.

Lemma chunk_loop_spec fuel uSize pData uCrc :
  uSize = Z.of_nat (length pData) -> (length pData <= fuel)%nat ->
  exists pre pData', pData = pre ++ pData' /\
    chunk_loop g fuel uSize pData uCrc =
      (Z.of_nat (length pData'), pData', fold_left (crc_step g) pre uCrc).
Proof.
  revert uSize pData uCrc; induction fuel as [|fuel IH]; intros uSize pData uCrc -> Hf.
  { exists [], pData. done. }
  cbn [chunk_loop]. destruct (Z.gtb_spec (Z.of_nat (length pData)) 15) as [Hgt|Hle].
  2:{ exists [], pData. done. }
  destruct (block_loop_spec pData (Z.min 0x80000000 (Z.of_nat (length pData))) uCrc)
    as (u' & pre & p' & -> & -> & Eu & Hu'); [lia|].
  rewrite length_app in Eu, Hf, Hgt.
  destruct (IH (Z.of_nat (length (pre ++ p')) - Z.min 0x80000000 (Z.of_nat (length (pre ++ p'))) + u')
              p' (fold_left (crc_step g) pre uCrc)) as (pre2 & p2 & -> & ->).
  { rewrite length_app. lia. }
  { lia. }
  exists (pre ++ pre2), p2. split; [by rewrite app_assoc|by rewrite fold_left_app].
Qed.

Lemma tail_loop_spec pData uCrc :
  tail_loop g (Z.of_nat (length pData)) pData uCrc = fold_left (crc_step g) pData uCrc.
Proof.
  revert uCrc; induction pData as [|d pData IH]; intros uCrc; [done|].
  cbn [tail_loop fold_left]. destruct (Z.gtb_spec (Z.of_nat (length (d :: pData))) 0); [|cbn in *; lia].
  rewrite <- IH. f_equal. cbn [length]. lia.
Qed.

Lemma compute_fold pSrc uCrc : compute g pSrc uCrc = crc_ref g pSrc uCrc.
Proof.
  unfold compute, crc_ref.
  destruct (chunk_loop_spec (length pSrc) (Z.of_nat (length pSrc)) pSrc (wnot g uCrc))
    as (pre & p' & -> & ->); [done|done|].
  by rewrite tail_loop_spec, fold_left_app.
Qed.

(** The CRC of a part is the initial value for the next one. *)
Lemma compute_app A B uCrc : compute g (A ++ B) uCrc = compute g B (compute g A uCrc).
Proof. rewrite !compute_fold. unfold crc_ref. by rewrite fold_left_app, wnot_wnot. Qed.

Lemma compute_nil uCrc : compute g [] uCrc = uCrc.
Proof. rewrite compute_fold. apply wnot_wnot. Qed.

Lemma word_compute A uCrc : word uCrc -> word (compute g A uCrc).
Proof. intros H. rewrite compute_fold. by apply word_wnot, word_fold, word_wnot. Qed.

Lemma concatenate_compute A B iAB iA iB :
  word iAB -> word iA -> word iB ->
  Z.of_nat (length A) < 2 ^ 64 -> Z.of_nat (length B) < 2 ^ 64 ->
  concatenate g iAB iA (compute g A iA) (Z.of_nat (length A))
              iB (compute g B iB) (Z.of_nat (length B))
  = compute g (A ++ B) iAB.
Proof.
  intros HiAB HiA HiB HA HB. unfold concatenate. rewrite !compute_fold. unfold crc_ref.
  rewrite !wnot_wnot, !ComputeX_N_spec, !Nat2Z.id by lia.
  assert (forall P i, word i ->
    fold_left (crc_step g) P i ⊕ MulPoly g (xpow g (8 * length P) (MSB g)) i
    = fold_left (crc_step g) P 0) as Hcanon.
  { intros P i Hi. rewrite MulPoly_X, (fold_crc_from_0 P i) by done. xor_bits. }
  rewrite !Hcanon by auto using word_wnot.
  rewrite !MulPoly_X_r, <- xpow_add, MulPoly_X_r by
    auto using word_wnot, word_xpow, word_MSB, word_fold, word_0.
  f_equal. rewrite fold_left_app, (fold_crc_from_0 A (wnot g iAB)).
  rewrite (fold_crc_from_0 B (_ ⊕ _)).
  by rewrite xpow_lxor, <- xpow_add, Z.lxor_assoc.
Qed.

Lemma ConvertInitialCrc_compute A new old :
  word new -> word old -> Z.of_nat (length A) < 2 ^ 64 ->
  ConvertInitialCrc g new old (compute g A old) (Z.of_nat (length A)) = compute g A new.
Proof.
  intros Hn Ho HA. unfold ConvertInitialCrc. rewrite !compute_fold. unfold crc_ref.
  rewrite ComputeX_N_spec, Nat2Z.id, MulPoly_X by (lia || auto using word_lxor).
  assert (wnot g new = wnot g old ⊕ (new ⊕ old)) as -> by (unfold wnot; xor_bits).
  rewrite fold_crc_lxor. unfold wnot. xor_bits.
Qed.

End WithWf.
End Theory.

Lemma crc32_calc_app A B init : crc32_calc (A ++ B) init = crc32_calc B (crc32_calc A init).
Proof. apply compute_app. Qed.

Lemma crc32_calc_range A init : 0 <= init < 2 ^ 32 -> 0 <= crc32_calc A init < 2 ^ 32.
Proof. apply (word_compute crc32 crc32_wf). Qed.

(** C30. [compute], with its sixteen-fold unrolled and chunked loops, is the
    byte-wise reference CRC. *)
Theorem compute_reference (g : crc_generator) (pSrc : blob) (uCrc : Z) :
  compute g pSrc uCrc = crc_ref g pSrc uCrc.
Proof. apply compute_fold. Qed.

(** C29. The CRC of a concatenation is computed from the two CRCs and sizes alone. *)
Theorem concatenate_spec g (A B : blob) (iAB iA iB : Z) :
  g = crc32 \/ g = crc64 ->
  word g iAB -> word g iA -> word g iB ->
  Z.of_nat (length A) < 2 ^ 64 -> Z.of_nat (length B) < 2 ^ 64 ->
  concatenate g iAB iA (compute g A iA) (Z.of_nat (length A))
              iB (compute g B iB) (Z.of_nat (length B))
  = compute g (A ++ B) iAB.
Proof.
  intros [->| ->]; apply concatenate_compute; [apply crc32_wf|apply crc64_wf].
Qed.

Lemma concatenate_spec_witness :
  concatenate crc32 5 6 (compute crc32 (le_bytes 2 77) 6) 2 9 (compute crc32 (le_bytes 3 88) 9) 3
  = compute crc32 (le_bytes 2 77 ++ le_bytes 3 88) 5.
Proof.
  apply (concatenate_spec crc32 (le_bytes 2 77) (le_bytes 3 88) 5 6 9);
    [by left|vm_compute; intuition congruence..|done|done].
Defined.

(** A CRC is converted to another initial value without the data. *)
Theorem ConvertInitialCrc_spec g (A : blob) (new old : Z) :
  g = crc32 \/ g = crc64 -> word g new -> word g old -> Z.of_nat (length A) < 2 ^ 64 ->
  ConvertInitialCrc g new old (compute g A old) (Z.of_nat (length A)) = compute g A new.
Proof.
  intros [->| ->]; apply ConvertInitialCrc_compute; [apply crc32_wf|apply crc64_wf].
Qed.

Lemma ConvertInitialCrc_spec_witness :
  ConvertInitialCrc crc64 5 6 (compute crc64 (le_bytes 3 77) 6) 3 = compute crc64 (le_bytes 3 77) 5.
Proof.
  apply (ConvertInitialCrc_spec crc64 (le_bytes 3 77) 5 6);
    [by right|vm_compute; intuition congruence..|done].
Defined.

(** The exported [crc32_concat] and [crc64_concat] give the checksum of the
    concatenation only for the initial value 0: their parameter [xy_init] is
    ignored. *)
Theorem crc_concat_ignores_xy_init :
  (forall xy_init xi xf xs yi yf ys,
     crc32_concat xy_init xi xf xs yi yf ys = crc32_concat 0 xi xf xs yi yf ys /\
     crc64_concat xy_init xi xf xs yi yf ys = crc64_concat 0 xi xf xs yi yf ys) /\
  exists (x y : blob) xy_init,
    crc32_concat xy_init 0 (crc32_calc x 0) (Z.of_nat (length x)) 0 (crc32_calc y 0) (Z.of_nat (length y))
    <> crc32_calc (x ++ y) xy_init.
Proof.
  split; [done|]. exists (le_bytes 1 65), (le_bytes 1 66), 1. vm_compute. discriminate.
Qed.

End Crc.
