(* ===== verification/Endians.v ===== *)
(** * Wire serialization of integers

    Model of [src/utils/endians.h]: [endian::hton]/[ntoh] on a little-endian
    host, the bounded writer [data_output] and the reader [data_input]. *)
From S2P Require Import Prelude.

Module Endians.

(** [endian::hton] and [endian::ntoh] on an unsigned integer of [n] bytes:
    both swap the bytes of the host representation. *)
Definition hton (n : nat) (v : Z) : Z := le_val (rev (le_bytes n v)).
Definition ntoh (n : nat) (v : Z) : Z := le_val (rev (le_bytes n v)).

(** [memcpy(buf + pos, src, len(src))]. *)
Definition overwrite (buf : blob) (pos : nat) (src : blob) : blob :=
  take pos buf ++ src ++ drop (pos + length src) buf.

#[global] Arguments overwrite : simpl never.

(** [class data_output]: a cursor [_ptr] into a buffer of fixed size. *)
Record data_output := DataOutput { do_buf : blob; do_ptr : nat }.

Definition data_output_of (s : blob) : data_output := DataOutput s 0.

(** [write_unsigned]: [ensure] asserts the room, then the bytes are copied. *)
Definition write_unsigned (n : nat) (o : data_output) (val : Z) : outcome data_output :=
  if (length (do_buf o) - do_ptr o <? n)%nat then Undef
  else Ret (DataOutput (overwrite (do_buf o) (do_ptr o) (le_bytes n (hton n val)))
                       (do_ptr o + n)).

Definition write_u8 := write_unsigned 1.
Definition write_u16 := write_unsigned 2.
Definition write_u32 := write_unsigned 4.
Definition write_u64 := write_unsigned 8.

(** [class data_input]: the bytes still to be read. *)
Record data_input := DataInput { di_rest : blob }.

(** [ensure(sz)]: CHECK_GE(_size, sz). *)
Definition skip (sz : nat) (i : data_input) : outcome data_input :=
  CHECK (sz <=? length (di_rest i))%nat (Ret (DataInput (drop sz (di_rest i)))).

Definition read_unsigned (n : nat) (i : data_input) : outcome (Z * data_input) :=
  CHECK (n <=? length (di_rest i))%nat
    (Ret (ntoh n (le_val (take n (di_rest i))), DataInput (drop n (di_rest i)))).

Definition read_u8 := read_unsigned 1.
Definition read_u16 := read_unsigned 2.
Definition read_u32 := read_unsigned 4.
Definition read_u64 := read_unsigned 8.

Definition read_str (i : data_input) : blob := di_rest i.

(** ** Facts *)

(** Storing a swapped integer on a little-endian host leaves network order. *)
Lemma le_bytes_hton n v : le_bytes n (hton n v) = be_bytes n v.
Proof.
  unfold hton, be_bytes.
  replace n with (length (rev (le_bytes n v))) at 1 by (by rewrite length_rev, length_le_bytes).
  apply le_bytes_le_val.
Qed.

Lemma ntoh_le_val l : ntoh (length l) (le_val l) = be_val l.
Proof. unfold ntoh, be_val. by rewrite le_bytes_le_val. Qed.

Lemma ntoh_hton n v : 0 <= v < 2 ^ (8 * Z.of_nat n) -> ntoh n (hton n v) = v.
Proof.
  intros Hv. unfold ntoh at 1. rewrite le_bytes_hton. unfold be_bytes.
  rewrite rev_involutive, le_val_le_bytes. by apply Z.mod_small.
Qed.

Lemma overwrite_0 (buf src : blob) :
  overwrite buf 0 src = src ++ drop (length src) buf.
Proof. done. Qed.

Lemma length_overwrite (buf : blob) pos src :
  (pos + length src <= length buf)%nat -> length (overwrite buf pos src) = length buf.
Proof. intros. unfold overwrite. rewrite !length_app, length_take, length_drop. lia. Qed.

Lemma read_unsigned_app n b rest :
  length b = n -> read_unsigned n (DataInput (b ++ rest)) = Ret (be_val b, DataInput rest).
Proof.
  intros <-. unfold read_unsigned. cbn [di_rest]. rewrite length_app.
  destruct (Nat.leb_spec (length b) (length b + length rest)); [|lia]. cbn.
  by rewrite take_app_length, drop_app_length, ntoh_le_val.
Qed.

Lemma skip_app n b rest :
  length b = n -> skip n (DataInput (b ++ rest)) = Ret (DataInput rest).
Proof.
  intros <-. unfold skip. cbn [di_rest]. rewrite length_app.
  destruct (Nat.leb_spec (length b) (length b + length rest)); [|lia]. cbn.
  by rewrite drop_app_length.
Qed.

Lemma read_unsigned_be n v rest :
  0 <= v < 2 ^ (8 * Z.of_nat n) ->
  read_unsigned n (DataInput (be_bytes n v ++ rest)) = Ret (v, DataInput rest).
Proof.
  intros. rewrite read_unsigned_app by apply length_be_bytes.
  by rewrite be_val_be_bytes_small.
Qed.

(** A write with enough room appends the big-endian bytes to what is written. *)
Lemma write_unsigned_app n written room val :
  (n <= length room)%nat ->
  write_unsigned n (DataOutput (written ++ room) (length written)) val
  = Ret (DataOutput ((written ++ be_bytes n val) ++ drop n room)
                    (length (written ++ be_bytes n val))).
Proof.
  intros Hn. unfold write_unsigned, overwrite. cbn [do_buf do_ptr]. rewrite le_bytes_hton.
  rewrite !length_app, length_be_bytes.
  destruct (Nat.ltb_spec (length written + length room - length written) n); [lia|].
  f_equal. f_equal. rewrite take_app_length, drop_app_add, app_assoc. done.
Qed.

Lemma write_unsigned_empty n buf val :
  length buf = n ->
  write_unsigned n (data_output_of buf) val = Ret (DataOutput (be_bytes n val) n).
Proof.
  intros Hn. change (data_output_of buf) with (DataOutput ([] ++ buf) (length (@nil byte))).
  rewrite write_unsigned_app by lia. rewrite drop_ge by lia. cbn [app].
  by rewrite app_nil_r, length_be_bytes.
Qed.

End Endians.
