(* ===== verification/KeySchema.v ===== *)
(** * Storage key schema

    Model of [src/base/pegasus_key_schema.h]:
    rocksdb key = [hash_key_len(uint16, big endian)] [hash_key] [sort_key],
    its decoding, the exclusive upper bound of a key range, and the hash that
    assigns a key to a partition. *)
From S2P Require Import Prelude Endians Crc.

Module KeySchema.
Import Endians Crc.

(** [int len = 2 + ...] is a 32-bit int; when it does not hold the real length
    the copies run outside the allocated array. *)
Definition pegasus_generate_key (hash_key sort_key : blob) : outcome blob :=
  CHECK (Z.of_nat (length hash_key) <? UINT16_MAX)
    (let len := i32 (2 + Z.of_nat (length hash_key) + Z.of_nat (length sort_key)) in
     if len <? 2 + Z.of_nat (length hash_key) + Z.of_nat (length sort_key) then Undef
     else
       let hash_key_len := u16 (Z.of_nat (length hash_key)) in
       Ret (le_bytes 2 (hton 2 hash_key_len) ++ hash_key
              ++ (if (0 <? length sort_key)%nat then sort_key else []))).

(** The loop that steps [p] back over 0xFF bytes and increments the byte it stops
    at, on the reversed buffer: [p] walks from the last byte towards the first;
    below the first byte the access is undefined. *)
Fixpoint incr_last_loop (rbuf : blob) : outcome blob :=
  match rbuf with
  | [] => Undef
  | c :: rbuf' =>
      if b2z c =? 0xFF then incr_last_loop rbuf'
      else Ret (rev (z2b (b2z c + 1) :: rbuf'))
  end.

Definition pegasus_generate_next_blob_hash (hash_key : blob) : outcome blob :=
  CHECK (Z.of_nat (length hash_key) <? UINT16_MAX)
    (let buf := le_bytes 2 (hton 2 (u16 (Z.of_nat (length hash_key)))) ++ hash_key in
     incr_last_loop (rev buf)).

Definition pegasus_generate_next_blob (hash_key sort_key : blob) : outcome blob :=
  let* buf := pegasus_generate_key hash_key sort_key in
  incr_last_loop (rev buf).

(** [key.range(offset, len)]. *)
Definition range (key : blob) (offset len : nat) : blob := take len (drop offset key).

Definition pegasus_restore_key (key : blob) : outcome (blob * blob) :=
  CHECK (2 <=? length key)%nat
    (let hash_key_len := Z.to_nat (ntoh 2 (le_val (take 2 key))) in
     let* hash_key :=
       if (0 <? hash_key_len)%nat
       then CHECK (2 + hash_key_len <=? length key)%nat (Ret (range key 2 hash_key_len))
       else Ret [] in
     let sort_key :=
       if (2 + hash_key_len <? length key)%nat
       then drop (2 + hash_key_len) key else [] in
     Ret (hash_key, sort_key)).

Definition pegasus_key_hash (key : blob) : outcome Z :=
  CHECK (2 <=? length key)%nat
    (let hash_key_len := Z.to_nat (ntoh 2 (le_val (take 2 key))) in
     if (0 <? hash_key_len)%nat
     then CHECK (2 + hash_key_len <=? length key)%nat
            (Ret (crc64_calc (range key 2 hash_key_len) 0))
     else Ret (crc64_calc (range key 2 (length key - 2)) 0)).

Definition pegasus_hash_key_hash (hash_key : blob) : Z := crc64_calc hash_key 0.

(** [uint64 & int32] and [uint64 != int32] convert the int32 to uint64. *)
Definition check_pegasus_key_hash (key : blob) (pidx partition_version : Z) : outcome bool :=
  let* h := pegasus_key_hash key in
  let target_pidx := Z.land h (u64 partition_version) in
  if negb (target_pidx =? u64 pidx) then Ret false else Ret true.

(** ** The order of storage keys (rocksdb's bytewise comparator) *)
Fixpoint key_ltb (a b : blob) : bool :=
  match a, b with
  | _, [] => false
  | [], _ :: _ => true
  | x :: a', y :: b' =>
      (b2z x <? b2z y) || ((b2z x =? b2z y) && key_ltb a' b')
  end.

Definition key_leb (a b : blob) : bool := negb (key_ltb b a).

(** ** Facts *)

Lemma le_bytes_header (h : blob) :
  (Z.of_nat (length h) < UINT16_MAX) ->
  le_bytes 2 (hton 2 (u16 (Z.of_nat (length h)))) = be_bytes 2 (Z.of_nat (length h)).
Proof.
  unfold UINT16_MAX. intros H. rewrite le_bytes_hton. f_equal. apply uwrap_small. lia.
Qed.

(** The encoding, without the branches of the code. *)
Definition encoded (h s : blob) : blob := be_bytes 2 (Z.of_nat (length h)) ++ h ++ s.

Lemma generate_key_encoded h s :
  Z.of_nat (length h) < UINT16_MAX ->
  2 + Z.of_nat (length h) + Z.of_nat (length s) <= INT32_MAX ->
  pegasus_generate_key h s = Ret (encoded h s).
Proof.
  unfold pegasus_generate_key, INT32_MAX. intros Hh Hs.
  destruct (Z.ltb_spec (Z.of_nat (length h)) UINT16_MAX); [|lia]. cbn [CHECK].
  rewrite swrap_small by (cbn; lia).
  rewrite Z.ltb_irrefl, le_bytes_header by done. unfold encoded.
  destruct s; done.
Qed.

Lemma encoded_header h s :
  Z.of_nat (length h) < UINT16_MAX ->
  ntoh 2 (le_val (take 2 (encoded h s))) = Z.of_nat (length h).
Proof.
  unfold UINT16_MAX. intros H. unfold encoded.
  rewrite take_app_le by (by rewrite length_be_bytes).
  rewrite take_ge by (by rewrite length_be_bytes).
  change 2%nat with (length (be_bytes 2 (Z.of_nat (length h)))) at 1.
  rewrite ntoh_le_val. apply be_val_be_bytes_small. cbn. lia.
Qed.

Lemma length_encoded h s : length (encoded h s) = (2 + length h + length s)%nat.
Proof. unfold encoded. rewrite !length_app, length_be_bytes. lia. Qed.

Lemma drop_encoded h s : drop 2 (encoded h s) = h ++ s.
Proof. unfold encoded. rewrite drop_app_ge; rewrite length_be_bytes; done. Qed.

Lemma range_encoded h s : range (encoded h s) 2 (length h) = h.
Proof. unfold range. by rewrite drop_encoded, take_app_length. Qed.

Lemma drop_encoded_sort h s : drop (2 + length h) (encoded h s) = s.
Proof. rewrite <- drop_drop, drop_encoded. apply drop_app_length. Qed.

(** Walking back over the 0xFF bytes succeeds as soon as one byte differs. *)
Lemma incr_last_loop_spec rbuf :
  (exists c, c ∈ rbuf /\ b2z c <> 0xFF) ->
  exists ffs c rest, rbuf = ffs ++ c :: rest /\ Forall (fun b => b2z b = 0xFF) ffs /\
    b2z c <> 0xFF /\ incr_last_loop rbuf = Ret (rev rest ++ [z2b (b2z c + 1)]).
Proof.
  induction rbuf as [|c rbuf IH]; intros (x & Hx & Hne).
  { inversion Hx. }
  cbn [incr_last_loop]. destruct (Z.eqb_spec (b2z c) 0xFF) as [E|E].
  - destruct IH as (ffs & c' & rest & -> & Hf & Hc & ->).
    { exists x. split; [|done]. apply elem_of_cons in Hx. destruct Hx; [congruence|done]. }
    exists (c :: ffs), c', rest. repeat split; auto.
  - exists [], c, rbuf. repeat split; auto.
Qed.

Lemma header_not_ff n rest :
  0 <= n < 65535 -> exists c, c ∈ rev (be_bytes 2 n ++ rest) /\ b2z c <> 0xFF.
Proof.
  intros Hn. unfold be_bytes. cbn [le_bytes rev app].
  destruct (decide (b2z (z2b n) = 0xFF)) as [E|E].
  - exists (z2b (n / 256)). split; [set_solver|].
    rewrite !b2z_z2b in *. intros E2.
    assert (0 <= n / 256 < 256) by (split; [apply Z.div_pos; lia|apply Z.div_lt_upper_bound; lia]).
    rewrite Z.mod_small in E2 by lia. pose proof (Z.div_mod n 256). lia.
  - exists (z2b n). split; [|done]. set_solver.
Qed.

Lemma key_ltb_cons_same x a b : key_ltb (x :: a) (x :: b) = key_ltb a b.
Proof. cbn. by rewrite Z.ltb_irrefl, Z.eqb_refl. Qed.

Lemma key_ltb_app_same p a b : key_ltb (p ++ a) (p ++ b) = key_ltb a b.
Proof. induction p as [|x p IH]; [done|]. cbn [app]. by rewrite key_ltb_cons_same. Qed.

(** The order is total and antisymmetric. *)
Lemma key_ltb_total a b : key_ltb a b = false -> key_ltb b a = false -> a = b.
Proof.
  revert b; induction a as [|x a IH]; intros [|y b]; cbn; try done.
  destruct (Z.ltb_spec (b2z x) (b2z y)), (Z.ltb_spec (b2z y) (b2z x)); cbn [orb]; try done.
  assert (b2z x = b2z y) as E by lia. apply b2z_inj in E as ->. rewrite Z.eqb_refl. cbn [andb].
  intros. f_equal. auto.
Qed.

Lemma key_ltb_irrefl a : key_ltb a a = false.
Proof. induction a as [|x a IH]; cbn; [done|]. by rewrite Z.ltb_irrefl, Z.eqb_refl, IH. Qed.

Lemma key_ltb_asym a b : key_ltb a b = true -> key_ltb b a = false.
Proof.
  revert b; induction a as [|x a IH]; intros [|y b]; cbn; try done.
  destruct (Z.ltb_spec (b2z x) (b2z y)), (Z.ltb_spec (b2z y) (b2z x)), (Z.eqb_spec (b2z x) (b2z y)),
    (Z.eqb_spec (b2z y) (b2z x)); cbn [orb andb]; try lia; try done. auto.
Qed.

Lemma key_ltb_nil_r a : key_ltb a [] = false.
Proof. by destruct a. Qed.

(** A key between two keys with a common prefix has that prefix. *)
Lemma key_between_prefix (p a b k : blob) :
  key_ltb k (p ++ a) = false -> key_ltb k (p ++ b) = true -> exists k', k = p ++ k'.
Proof.
  revert k; induction p as [|x p IH]; intros k Hlo Hhi; [by exists k|].
  destruct k as [|y k]; [done|]. cbn [app key_ltb] in *.
  apply orb_false_iff in Hlo as [Hlt Hlo]. rewrite Hlt in Hhi. cbn [orb] in Hhi.
  apply andb_true_iff in Hhi as [Heq Hhi]. rewrite Heq in Hlo. cbn [andb] in Hlo.
  destruct (IH k Hlo Hhi) as [k' ->]. exists k'.
  apply Z.eqb_eq, b2z_inj in Heq. by subst.
Qed.

Lemma key_above_ffs (F k : blob) :
  Forall (fun b => b2z b = 0xFF) F -> key_ltb k F = false -> exists t, k = F ++ t.
Proof.
  intros HF; revert k; induction HF as [|f F Hf HF IH]; intros k Hk; [by exists k|].
  destruct k as [|y k]; [done|]. cbn [key_ltb] in Hk.
  apply orb_false_iff in Hk as [Hlt Hk]. pose proof (b2z_range y).
  assert (b2z y = b2z f) as E by lia. rewrite E, Z.eqb_refl in Hk.
  destruct (IH k Hk) as [t ->]. apply b2z_inj in E. subst. by exists t.
Qed.

Lemma next_prefix_range (p F : blob) (c : byte) (k : blob) :
  b2z c <> 0xFF -> Forall (fun b => b2z b = 0xFF) F ->
  (exists t, k = (p ++ c :: F) ++ t) <->
  key_leb (p ++ c :: F) k = true /\ key_ltb k (p ++ [z2b (b2z c + 1)]) = true.
Proof.
  intros Hc HF. pose proof (b2z_range c).
  assert (b2z (z2b (b2z c + 1)) = b2z c + 1) as Ec by (rewrite b2z_z2b; apply Z.mod_small; lia).
  unfold key_leb. split.
  - intros [t ->]. split.
    + rewrite <- (app_nil_r (p ++ c :: F)) at 2. by rewrite key_ltb_app_same, key_ltb_nil_r.
    + rewrite <- app_assoc, key_ltb_app_same. cbn. rewrite Ec.
      by replace (b2z c <? b2z c + 1) with true by lia.
  - rewrite negb_true_iff. intros [Hlo Hhi].
    destruct (key_between_prefix _ _ _ _ Hlo Hhi) as [k' ->].
    rewrite key_ltb_app_same in Hlo, Hhi. destruct k' as [|y k']; [done|].
    cbn [key_ltb] in Hlo, Hhi. rewrite Ec, key_ltb_nil_r, andb_false_r, orb_false_r in Hhi.
    apply orb_false_iff in Hlo as [Hlt Hlo]. assert (b2z y = b2z c) as E by lia.
    rewrite E, Z.eqb_refl in Hlo. apply b2z_inj in E. subst.
    destruct (key_above_ffs _ _ HF Hlo) as [t ->]. exists t. by rewrite <- app_assoc.
Qed.

Lemma incr_last_range (h rest : blob) :
  Z.of_nat (length h) < UINT16_MAX ->
  exists next, incr_last_loop (rev (be_bytes 2 (Z.of_nat (length h)) ++ rest)) = Ret next /\
  forall k, (exists t, k = (be_bytes 2 (Z.of_nat (length h)) ++ rest) ++ t) <->
    key_leb (be_bytes 2 (Z.of_nat (length h)) ++ rest) k = true /\ key_ltb k next = true.
Proof.
  unfold UINT16_MAX. intros Hh.
  destruct (incr_last_loop_spec _ (header_not_ff (Z.of_nat (length h)) rest ltac:(lia)))
    as (ffs & c & r & E & Hf & Hc & ->).
  eexists; split; [done|]. intros k.
  apply (f_equal (@rev byte)) in E. rewrite rev_involutive, rev_app_distr in E. cbn [rev] in E.
  rewrite <- app_assoc in E. cbn [app] in E. rewrite E.
  apply next_prefix_range; [done|]. by apply Forall_rev.
Qed.

(** *** Partition routing *)

Lemma pow2_mask h k : 0 <= h -> 0 <= k -> Z.land h (2 ^ k - 1) = h mod 2 ^ k.
Proof. intros. rewrite <- Z.land_ones, Z.ones_equiv by lia. by rewrite <- Z.sub_1_r. Qed.

Lemma crc64_calc_word A : 0 <= crc64_calc A 0 < 2 ^ 64.
Proof.
  unfold crc64_calc. rewrite compute_fold. unfold crc_ref.
  apply (word_wnot crc64), (word_fold crc64 crc64_wf), word_wnot, word_0.
Qed.

Lemma key_hash_word key h : pegasus_key_hash key = Ret h -> 0 <= h < 2 ^ 64.
Proof.
  unfold pegasus_key_hash. intros [_ H]%CHECK_Ret_inv.
  destruct (0 <? _)%nat; [apply CHECK_Ret_inv in H as [_ H]|]; injection H as <-;
    apply crc64_calc_word.
Qed.

Lemma key_hash_encoded h s :
  Z.of_nat (length h) < UINT16_MAX ->
  pegasus_key_hash (encoded h s) =
    Ret (pegasus_hash_key_hash (if (0 <? length h)%nat then h else s)).
Proof.
  intros Hh. unfold pegasus_key_hash, pegasus_hash_key_hash.
  rewrite encoded_header, Nat2Z.id, length_encoded by done. cbn [CHECK Nat.leb plus].
  destruct (Nat.ltb_spec 0 (length h)) as [Hl|Hl].
  - destruct (Nat.leb_spec (length h) (length h + length s)); [|lia].
    cbn [CHECK]. by rewrite range_encoded.
  - destruct h; [|cbn in Hl; lia]. unfold range. rewrite drop_encoded. cbn [app length plus].
    rewrite take_ge by lia. done.
Qed.

(** With [2^k] partitions the check accepts exactly one index. *)
Lemma check_key_hash_mod key h pidx k :
  pegasus_key_hash key = Ret h -> 0 <= k <= 31 -> 0 <= pidx < 2 ^ k ->
  check_pegasus_key_hash key pidx (2 ^ k - 1) = Ret (h mod 2 ^ k =? pidx).
Proof.
  intros E Hk Hp. unfold check_pegasus_key_hash. rewrite E. cbn [obind].
  assert (2 ^ k <= 2 ^ 31) by (apply Z.pow_le_mono_r; lia).
  rewrite !uwrap_small by (cbn in *; lia).
  rewrite pow2_mask by (pose proof (key_hash_word _ _ E); lia).
  by destruct (h mod 2 ^ k =? pidx).
Qed.

(** ** Theorems *)

(** C32. Decoding inverts encoding: for every hash key and sort key that the
    encoder accepts, restoring the generated key gives both back. *)
Theorem restore_generate_roundtrip (hash_key sort_key : blob) :
  Z.of_nat (length hash_key) < UINT16_MAX ->
  2 + Z.of_nat (length hash_key) + Z.of_nat (length sort_key) <= INT32_MAX ->
  exists key, pegasus_generate_key hash_key sort_key = Ret key /\
    pegasus_restore_key key = Ret (hash_key, sort_key).
Proof.
  intros Hh Hs. exists (encoded hash_key sort_key). split; [by apply generate_key_encoded|].
  unfold pegasus_restore_key. rewrite encoded_header, Nat2Z.id, length_encoded by done.
  cbn [CHECK Nat.leb plus].
  destruct (Nat.ltb_spec 0 (length hash_key)).
  - destruct (Nat.leb_spec (length hash_key) (length hash_key + length sort_key)); [|lia]. cbn [CHECK obind]. rewrite range_encoded. f_equal. f_equal.
    destruct (Nat.ltb_spec (S (S (length hash_key))) (S (S (length hash_key + length sort_key)))).
    + apply drop_encoded_sort.
    + destruct sort_key; [done|cbn in *; lia].
  - destruct hash_key; [|cbn in *; lia]. cbn [obind length plus]. f_equal. f_equal.
    destruct (Nat.ltb_spec 2 (S (S (length sort_key)))).
    + apply (drop_encoded_sort [] sort_key).
    + destruct sort_key; [done|cbn in *; lia].
Qed.

(** C31. The key generated as "next" bounds exactly the keys of one hash key: the
    loop always finds a byte to increment, and a storage key has the encoded
    hash key (and sort key) as a prefix iff it lies in [encoded, next). *)
Theorem generate_next_blob_range (hash_key sort_key : blob) :
  Z.of_nat (length hash_key) < UINT16_MAX ->
  2 + Z.of_nat (length hash_key) + Z.of_nat (length sort_key) <= INT32_MAX ->
  (exists next, pegasus_generate_next_blob_hash hash_key = Ret next /\
     forall k, (exists t, k = encoded hash_key [] ++ t) <->
       key_leb (encoded hash_key []) k = true /\ key_ltb k next = true) /\
  (exists next, pegasus_generate_next_blob hash_key sort_key = Ret next /\
     forall k, (exists t, k = encoded hash_key sort_key ++ t) <->
       key_leb (encoded hash_key sort_key) k = true /\ key_ltb k next = true).
Proof.
  intros Hh Hs. split.
  - unfold pegasus_generate_next_blob_hash, encoded. rewrite le_bytes_header by done.
    destruct (Z.ltb_spec (Z.of_nat (length hash_key)) UINT16_MAX); [|lia]. cbn [CHECK].
    rewrite app_nil_r. by apply incr_last_range.
  - unfold pegasus_generate_next_blob. rewrite generate_key_encoded by done. cbn [obind].
    by apply incr_last_range.
Qed.

(** C33. Partition split preserves routing: with [2^k] partitions every key is
    served by exactly one partition, determined by its hash key alone (or by the
    sort key when the hash key is empty), and after the count doubles it is
    served either by the same index or by that index plus [2^k]. *)
Theorem key_hash_routing (hash_key sort_key : blob) (k : Z) :
  Z.of_nat (length hash_key) < UINT16_MAX -> 0 <= k < 31 ->
  exists p, 0 <= p < 2 ^ k /\
    p = pegasus_hash_key_hash (if (0 <? length hash_key)%nat then hash_key else sort_key) mod 2 ^ k /\
    (forall pidx, 0 <= pidx < 2 ^ k ->
       check_pegasus_key_hash (encoded hash_key sort_key) pidx (2 ^ k - 1) = Ret (p =? pidx)) /\
    (forall pidx, 0 <= pidx < 2 ^ (k + 1) ->
       check_pegasus_key_hash (encoded hash_key sort_key) pidx (2 ^ (k + 1) - 1) = Ret true ->
       pidx = p \/ pidx = p + 2 ^ k).
Proof.
  intros Hh Hk. pose proof (key_hash_encoded hash_key sort_key Hh) as E.
  set (h := pegasus_hash_key_hash _) in *.
  exists (h mod 2 ^ k). split; [apply Z.mod_pos_bound; lia|]. split; [done|]. split.
  - intros pidx Hp. by rewrite (check_key_hash_mod _ h) by (done || lia).
  - intros pidx Hp. rewrite (check_key_hash_mod _ h) by (done || lia).
    intros Heq. injection Heq as Heq%Z.eqb_eq. subst pidx.
    rewrite Z.pow_add_r by lia. rewrite Z.rem_mul_r by lia.
    pose proof (Z.mod_pos_bound (h / 2 ^ k) 2). change (2 ^ 1) with 2.
    assert ((h / 2 ^ k) mod 2 = 0 \/ (h / 2 ^ k) mod 2 = 1) as [-> | ->]; lia.
Qed.

Definition sample_hash_key : blob := String.list_byte_of_string "user"%string.
Definition sample_sort_key : blob := String.list_byte_of_string "name"%string.

Lemma restore_generate_roundtrip_witness :
  exists key, pegasus_generate_key sample_hash_key sample_sort_key = Ret key /\
    pegasus_restore_key key = Ret (sample_hash_key, sample_sort_key).
Proof. apply (restore_generate_roundtrip sample_hash_key sample_sort_key); vm_compute; congruence. Defined.

Lemma generate_next_blob_range_witness :
  exists next, pegasus_generate_next_blob sample_hash_key sample_sort_key = Ret next /\
     forall k, (exists t, k = encoded sample_hash_key sample_sort_key ++ t) <->
       key_leb (encoded sample_hash_key sample_sort_key) k = true /\ key_ltb k next = true.
Proof. apply (generate_next_blob_range sample_hash_key sample_sort_key); vm_compute; congruence. Defined.

Lemma key_hash_routing_witness :
  exists p, 0 <= p < 2 ^ 3 /\
    forall pidx, 0 <= pidx < 2 ^ 3 ->
      check_pegasus_key_hash (encoded sample_hash_key sample_sort_key) pidx (2 ^ 3 - 1) = Ret (p =? pidx).
Proof.
  destruct (key_hash_routing sample_hash_key sample_sort_key 3) as (p & Hp & _ & H & _);
    [vm_compute; congruence|lia|]. by exists p.
Defined.

End KeySchema.
