(* ===== verification/ValueSchema.v ===== *)
(** * Storage value schemas

    Model of [src/base/pegasus_value_schema.h], [value_field.h],
    [value_schema_v0.cpp], [value_schema_v1.cpp], [value_schema_v2.cpp] and
    [value_schema_manager.cpp]: how a record's expiration time, timetag and user
    data are laid out in a rocksdb value, and how the layout is recognised.

    The C++ class [value_schema] is a record of operations here; the class
    [ValueSchemaLaws] is what every schema promises to its clients. *)
From S2P Require Import Prelude Endians.

Module ValueSchema.
Import Endians.

Definition PEGASUS_DATA_VERSION_MAX : Z := 1.

(** ** Timetags *)

(** [timestamp << 8u | cluster_id << 1u | deleted_tag] on 64 bits. *)
Definition generate_timetag (timestamp cluster_id : Z) (deleted_tag : bool) : Z :=
  Z.lor (Z.lor (u64 (Z.shiftl timestamp 8)) (Z.shiftl cluster_id 1)) (Z.b2z deleted_tag).

Definition extract_timestamp_from_timetag (timetag : Z) : Z :=
  Z.land (Z.shiftr timetag 8) 0xFFFFFFFFFFFFFF.

(** ** Free functions on raw values (versions 0 and 1) *)

Definition pegasus_extract_expire_ts (version : Z) (value : blob) : outcome Z :=
  CHECK (version <=? PEGASUS_DATA_VERSION_MAX)
    (let* (v, _) := read_u32 (DataInput value) in Ret v).

Definition pegasus_extract_user_data (version : Z) (raw_value : blob) : outcome blob :=
  CHECK (version <=? PEGASUS_DATA_VERSION_MAX)
    (let* input := skip 4 (DataInput raw_value) in
     let* input := if version =? 1 then skip 8 input else Ret input in
     Ret (read_str input)).

Definition pegasus_extract_timetag (version : Z) (value : blob) : outcome Z :=
  CHECK (version =? 1)
    (let* input := skip 4 (DataInput value) in
     let* (v, _) := read_u64 input in Ret v).

Definition pegasus_update_expire_ts (version : Z) (value : blob) (new_expire_ts : Z) : outcome blob :=
  if (version =? 0) || (version =? 1) then
    CHECK (4 <=? length value)%nat
      (Ret (overwrite value 0 (le_bytes 4 (hton 4 new_expire_ts))))
  else Abort.

Definition check_if_ts_expired (epoch_now expire_ts : Z) : bool :=
  (expire_ts >? 0) && (expire_ts <=? epoch_now).

Definition check_if_record_expired (value_schema_version epoch_now : Z) (raw_value : blob)
  : outcome bool :=
  let* expire_ts := pegasus_extract_expire_ts value_schema_version raw_value in
  Ret (check_if_ts_expired epoch_now expire_ts).

(** ** [pegasus_value_generator]

    The slices handed to rocksdb, which stores their concatenation. *)
Definition slices_of (write_buf user_data : blob) : list blob :=
  write_buf :: (if (0 <? length user_data)%nat then [user_data] else []).

Definition generate_value_v0 (expire_ts : Z) (user_data : blob) : outcome (list blob) :=
  let write_buf := replicate 4 x00 in
  let* o := write_u32 (data_output_of write_buf) expire_ts in
  Ret (slices_of (do_buf o) user_data).

Definition generate_value_v1 (expire_ts timetag : Z) (user_data : blob) : outcome (list blob) :=
  let write_buf := replicate 12 x00 in
  let* o := write_u32 (data_output_of write_buf) expire_ts in
  let* o := write_u64 o timetag in
  Ret (slices_of (do_buf o) user_data).

Definition generate_value (value_schema_version : Z) (user_data : blob) (expire_ts timetag : Z)
  : outcome (list blob) :=
  if value_schema_version =? 0 then generate_value_v0 expire_ts user_data
  else if value_schema_version =? 1 then generate_value_v1 expire_ts timetag user_data
  else Abort.

(** ** Value fields and schemas *)

Inductive value_field_type := EXPIRE_TIMESTAMP | TIME_TAG | USER_DATA | FIELD_COUNT.

Inductive value_field :=
| expire_timestamp_field (expire_ts : Z)
| time_tag_field (time_tag : Z)
| user_data_field (user_data : blob).

Definition field_type (f : value_field) : value_field_type :=
  match f with
  | expire_timestamp_field _ => EXPIRE_TIMESTAMP
  | time_tag_field _ => TIME_TAG
  | user_data_field _ => USER_DATA
  end.

(** [value_params.fields]: one optional payload per field type. *)
Record value_params := ValueParams {
  p_expire_ts : option Z;
  p_time_tag : option Z;
  p_user_data : option blob
}.

(** [class value_schema]. *)
Record value_schema := ValueSchemaOps {
  version : Z;
  extract_field : blob -> value_field_type -> outcome value_field;
  extract_user_data : blob -> outcome blob;
  update_field : blob -> value_field -> outcome blob;
  schema_generate_value : value_params -> outcome (list blob)
}.

(** [blob::range(offset)]: the DCHECK is compiled out of release builds. *)
Definition blob_range (offset : nat) (b : blob) : outcome blob :=
  if (length b <? offset)%nat then Undef else Ret (drop offset b).

Module V0.

Definition extract_timestamp (value : blob) : outcome value_field :=
  let* (expire_ts, _) := read_u32 (DataInput value) in Ret (expire_timestamp_field expire_ts).

Definition extract_field (value : blob) (type : value_field_type) : outcome value_field :=
  match type with
  | EXPIRE_TIMESTAMP => extract_timestamp value
  | _ => Abort
  end.

Definition extract_user_data (value : blob) : outcome blob := blob_range 4 value.

Definition update_expire_ts (value : blob) (expire_ts : Z) : outcome blob :=
  CHECK (4 <=? length value)%nat (Ret (overwrite value 0 (le_bytes 4 (hton 4 expire_ts)))).

Definition update_field (value : blob) (field : value_field) : outcome blob :=
  match field with
  | expire_timestamp_field expire_ts => update_expire_ts value expire_ts
  | _ => Abort
  end.

Definition generate_value (params : value_params) : outcome (list blob) :=
  match p_expire_ts params, p_user_data params with
  | Some expire_ts, Some user_data =>
      let* o := write_u32 (data_output_of (replicate 4 x00)) expire_ts in
      Ret (slices_of (do_buf o) user_data)
  | _, _ => Abort
  end.

End V0.

Module V1.

Definition extract_timestamp (value : blob) : outcome value_field :=
  let* (expire_ts, _) := read_u32 (DataInput value) in Ret (expire_timestamp_field expire_ts).

Definition extract_time_tag (value : blob) : outcome value_field :=
  let* input := skip 4 (DataInput value) in
  let* (tag, _) := read_u64 input in Ret (time_tag_field tag).

Definition extract_field (value : blob) (type : value_field_type) : outcome value_field :=
  match type with
  | EXPIRE_TIMESTAMP => extract_timestamp value
  | TIME_TAG => extract_time_tag value
  | _ => Abort
  end.

Definition extract_user_data (value : blob) : outcome blob := blob_range 12 value.

Definition update_expire_ts (value : blob) (expire_ts : Z) : outcome blob :=
  CHECK (4 <=? length value)%nat (Ret (overwrite value 0 (le_bytes 4 (hton 4 expire_ts)))).

Definition update_field (value : blob) (field : value_field) : outcome blob :=
  match field with
  | expire_timestamp_field expire_ts => update_expire_ts value expire_ts
  | _ => Abort
  end.

Definition generate_value (params : value_params) : outcome (list blob) :=
  match p_expire_ts params, p_user_data params, p_time_tag params with
  | Some expire_ts, Some user_data, Some time_tag =>
      let* o := write_u32 (data_output_of (replicate 12 x00)) expire_ts in
      let* o := write_u64 o time_tag in
      Ret (slices_of (do_buf o) user_data)
  | _, _, _ => Abort
  end.

End V1.

Module V2.

Definition extract_timestamp (value : blob) : outcome value_field :=
  let* input := skip 1 (DataInput value) in
  let* (expire_ts, _) := read_u32 input in Ret (expire_timestamp_field expire_ts).

Definition extract_time_tag (value : blob) : outcome value_field :=
  let* input := skip 1 (DataInput value) in
  let* input := skip 4 input in
  let* (tag, _) := read_u64 input in Ret (time_tag_field tag).

Definition extract_field (value : blob) (type : value_field_type) : outcome value_field :=
  match type with
  | EXPIRE_TIMESTAMP => extract_timestamp value
  | TIME_TAG => extract_time_tag value
  | _ => Abort
  end.

Definition extract_user_data (value : blob) : outcome blob := blob_range 13 value.

Definition update_expire_ts (value : blob) (expire_ts : Z) : outcome blob :=
  CHECK (5 <=? length value)%nat (Ret (overwrite value 1 (le_bytes 4 (hton 4 expire_ts)))).

Definition update_field (value : blob) (field : value_field) : outcome blob :=
  match field with
  | expire_timestamp_field expire_ts => update_expire_ts value expire_ts
  | _ => Abort
  end.

Definition generate_value (params : value_params) : outcome (list blob) :=
  match p_expire_ts params, p_user_data params, p_time_tag params with
  | Some expire_ts, Some user_data, Some time_tag =>
      let* o := write_u8 (data_output_of (replicate 13 x00)) (Z.lor 0x80 2) in
      let* o := write_u32 o expire_ts in
      let* o := write_u64 o time_tag in
      Ret (slices_of (do_buf o) user_data)
  | _, _, _ => Abort
  end.

End V2.

Definition value_schema_v0 : value_schema :=
  ValueSchemaOps 0 V0.extract_field V0.extract_user_data V0.update_field V0.generate_value.
Definition value_schema_v1 : value_schema :=
  ValueSchemaOps 1 V1.extract_field V1.extract_user_data V1.update_field V1.generate_value.
Definition value_schema_v2 : value_schema :=
  ValueSchemaOps 2 V2.extract_field V2.extract_user_data V2.update_field V2.generate_value.

(** ** [value_schema_manager] *)

(** [_schemas], filled by the constructor: schema [i] has version [i]. *)
Definition schemas : list value_schema := [value_schema_v0; value_schema_v1; value_schema_v2].

Definition get_value_schema_by_version (version : Z) : option value_schema :=
  if version >=? Z.of_nat (length schemas) then None
  else nth_error schemas (Z.to_nat version).

Definition get_latest_value_schema : value_schema := value_schema_v2.

Definition get_value_schema (meta_cf_data_version : Z) (value : blob) : outcome value_schema :=
  let* (first_byte, _) := read_u8 (DataInput value) in
  if negb (Z.land first_byte 0x80 =? 0) then
    match get_value_schema_by_version (Z.land first_byte 0x7F) with
    | None => Ret get_latest_value_schema
    | Some schema => Ret schema
    end
  else
    match get_value_schema_by_version meta_cf_data_version with
    | Some schema => Ret schema
    | None => Abort
    end.

(** ** What a schema promises *)

Definition field_ok (f : value_field) : Prop :=
  match f with
  | expire_timestamp_field e => 0 <= e < 2 ^ 32
  | time_tag_field t => 0 <= t < 2 ^ 64
  | user_data_field _ => True
  end.

(** The parameters of a record; a schema without timetags ignores [t]. *)
Definition record_params (e t : Z) (d : blob) : value_params :=
  ValueParams (Some e) (Some t) (Some d).

Class ValueSchemaLaws (s : value_schema) := {
  has_time_tag : bool;
  (* a value is a header built from the fixed-size fields, then the user data *)
  law_header : Z -> Z -> blob;
  law_generate e t d :
    exists sl, schema_generate_value s (record_params e t d) = Ret sl /\
      concat sl = law_header e t ++ d;
  law_expire e t d : field_ok (expire_timestamp_field e) ->
    extract_field s (law_header e t ++ d) EXPIRE_TIMESTAMP = Ret (expire_timestamp_field e);
  law_time_tag e t d : field_ok (time_tag_field t) ->
    extract_field s (law_header e t ++ d) TIME_TAG
    = if has_time_tag then Ret (time_tag_field t) else Abort;
  law_user_data e t d : extract_user_data s (law_header e t ++ d) = Ret d;
  law_update e t d e' :
    update_field s (law_header e t ++ d) (expire_timestamp_field e')
    = Ret (law_header e' t ++ d)
}.

Lemma concat_slices_of buf d : concat (slices_of buf d) = buf ++ d.
Proof. unfold slices_of. destruct d; cbn; by rewrite ?app_nil_r. Qed.

Lemma blob_range_app n (h d : blob) : length h = n -> blob_range n (h ++ d) = Ret d.
Proof.
  intros <-. unfold blob_range. rewrite length_app.
  destruct (Nat.ltb_spec (length h + length d) (length h)); [lia|]. by rewrite drop_app_length.
Qed.

(** Overwriting a field of the header in place. *)
Lemma overwrite_mid (p x y r : blob) :
  length x = length y -> overwrite (p ++ x ++ r) (length p) y = p ++ y ++ r.
Proof.
  intros E. unfold overwrite. rewrite take_app_length. do 2 f_equal.
  rewrite <- drop_drop, drop_app_length, <- E. apply drop_app_length.
Qed.


#[local] Arguments slices_of : simpl never.

(** Runs a sequence of writes into a fresh buffer. *)
Lemma write_into (n : nat) (written room : blob) (v : Z) k :
  length room = (n + k)%nat ->
  exists room', length room' = k /\
    write_unsigned n (DataOutput (written ++ room) (length written)) v
    = Ret (DataOutput ((written ++ be_bytes n v) ++ room') (length (written ++ be_bytes n v))).
Proof.
  intros Hr. exists (drop n room). rewrite length_drop. split; [lia|].
  apply write_unsigned_app. lia.
Qed.

Lemma write_2 n1 n2 v1 v2 :
  (let* o := write_unsigned n1 (data_output_of (replicate (n1 + n2) x00)) v1 in
   write_unsigned n2 o v2)
  = Ret (DataOutput (be_bytes n1 v1 ++ be_bytes n2 v2) (n1 + n2)).
Proof.
  destruct (write_into n1 [] (replicate (n1 + n2) x00) v1 n2) as (r1 & Hr1 & E1).
  { by rewrite length_replicate. }
  cbn [app length] in E1. unfold data_output_of. rewrite E1. cbn [obind].
  destruct (write_into n2 (be_bytes n1 v1) r1 v2 0) as (r2 & Hr2 & E2); [lia|].
  rewrite E2. apply nil_length_inv in Hr2 as ->.
  by rewrite app_nil_r, length_app, !length_be_bytes.
Qed.

Lemma write_3 n1 n2 n3 v1 v2 v3 :
  (let* o := write_unsigned n1 (data_output_of (replicate (n1 + (n2 + n3)) x00)) v1 in
   let* o := write_unsigned n2 o v2 in
   write_unsigned n3 o v3)
  = Ret (DataOutput (be_bytes n1 v1 ++ be_bytes n2 v2 ++ be_bytes n3 v3) (n1 + n2 + n3)).
Proof.
  destruct (write_into n1 [] (replicate (n1 + (n2 + n3)) x00) v1 (n2 + n3)) as (r1 & Hr1 & E1).
  { by rewrite length_replicate. }
  cbn [app length] in E1. unfold data_output_of. rewrite E1. cbn [obind].
  destruct (write_into n2 (be_bytes n1 v1) r1 v2 n3) as (r2 & Hr2 & E2); [lia|].
  rewrite E2. cbn [obind].
  destruct (write_into n3 (be_bytes n1 v1 ++ be_bytes n2 v2) r2 v3 0) as (r3 & Hr3 & E3); [lia|].
  rewrite E3. apply nil_length_inv in Hr3 as ->.
  by rewrite app_nil_r, !length_app, !length_be_bytes, <- app_assoc.
Qed.

Lemma write_1 n v :
  write_unsigned n (data_output_of (replicate n x00)) v = Ret (DataOutput (be_bytes n v) n).
Proof. apply write_unsigned_empty. apply length_replicate. Qed.

(** Sequencing a known run of writes with what follows. *)
Lemma obind_assoc {A B C} (m : outcome A) (f : A -> outcome B) (k : B -> outcome C) :
  obind (obind m f) k = obind m (fun a => obind (f a) k).
Proof. by destruct m. Qed.

Lemma generate_v0_eq e d : generate_value_v0 e d = Ret (slices_of (be_bytes 4 e) d).
Proof. unfold generate_value_v0, write_u32. by rewrite write_1. Qed.

Lemma generate_v1_eq e t d :
  generate_value_v1 e t d = Ret (slices_of (be_bytes 4 e ++ be_bytes 8 t) d).
Proof.
  unfold generate_value_v1, write_u32, write_u64.
  rewrite <- obind_assoc. change 12%nat with (4 + 8)%nat. by rewrite write_2.
Qed.

Lemma generate_v2_eq e t d :
  V2.generate_value (record_params e t d)
  = Ret (slices_of (be_bytes 1 130 ++ be_bytes 4 e ++ be_bytes 8 t) d).
Proof.
  unfold V2.generate_value, record_params, write_u8, write_u32, write_u64.
  cbn [p_expire_ts p_user_data p_time_tag]. change (Z.lor 0x80 2) with 130.
  change 13%nat with (1 + (4 + 8))%nat.
  transitivity (let* o := (let* o := write_unsigned 1 (data_output_of (replicate (1 + (4 + 8)) x00)) 130 in
     let* o := write_unsigned 4 o e in write_unsigned 8 o t) in Ret (slices_of (do_buf o) d)).
  { destruct (write_unsigned 1 _ _) as [o| |]; [cbn [obind]|done|done].
    by destruct (write_unsigned 4 o e). }
  by rewrite write_3.
Qed.

#[local] Obligation Tactic := idtac.

#[export] Program Instance v0_laws : ValueSchemaLaws value_schema_v0 := {|
  has_time_tag := false;
  law_header e t := be_bytes 4 e
|}.
Next Obligation.
  intros e t d. exists (slices_of (be_bytes 4 e) d).
  split; [|apply concat_slices_of]. apply (generate_v0_eq e d).
Qed.
Next Obligation.
  intros e t d He. cbn in *. unfold V0.extract_timestamp, read_u32.
  by rewrite read_unsigned_be by (cbn; lia).
Qed.
Next Obligation. done. Qed.
Next Obligation. intros. cbn. apply blob_range_app. apply length_be_bytes. Qed.
Next Obligation.
  intros e t d e'. cbn. unfold V0.update_expire_ts. rewrite le_bytes_hton, length_app, length_be_bytes.
  cbn [CHECK Nat.leb plus]. apply (f_equal Ret).
  apply (overwrite_mid [] (be_bytes 4 e) (be_bytes 4 e') d). by rewrite !length_be_bytes.
Qed.

#[export] Program Instance v1_laws : ValueSchemaLaws value_schema_v1 := {|
  has_time_tag := true;
  law_header e t := be_bytes 4 e ++ be_bytes 8 t
|}.
Next Obligation.
  intros e t d. exists (slices_of (be_bytes 4 e ++ be_bytes 8 t) d).
  split; [|apply concat_slices_of]. apply (generate_v1_eq e t d).
Qed.
Next Obligation.
  intros e t d He. cbn in *. unfold V1.extract_timestamp, read_u32. rewrite <- app_assoc.
  by rewrite read_unsigned_be by (cbn; lia).
Qed.
Next Obligation.
  intros e t d Ht. cbn in *. unfold V1.extract_time_tag, read_u64. rewrite <- app_assoc.
  rewrite skip_app by apply length_be_bytes. cbn [obind].
  by rewrite read_unsigned_be by (cbn; lia).
Qed.
Next Obligation.
  intros. cbn. apply blob_range_app. by rewrite length_app, !length_be_bytes.
Qed.
Next Obligation.
  intros e t d e'. cbn. unfold V1.update_expire_ts.
  rewrite le_bytes_hton, !length_app, !length_be_bytes, <- !app_assoc.
  cbn [CHECK Nat.leb plus]. apply (f_equal Ret).
  apply (overwrite_mid [] (be_bytes 4 e) (be_bytes 4 e') (be_bytes 8 t ++ d)).
  by rewrite !length_be_bytes.
Qed.

#[export] Program Instance v2_laws : ValueSchemaLaws value_schema_v2 := {|
  has_time_tag := true;
  law_header e t := be_bytes 1 130 ++ be_bytes 4 e ++ be_bytes 8 t
|}.
Next Obligation.
  intros e t d. exists (slices_of (be_bytes 1 130 ++ be_bytes 4 e ++ be_bytes 8 t) d).
  split; [|apply concat_slices_of]. apply (generate_v2_eq e t d).
Qed.
Next Obligation.
  intros e t d He. cbn in *. unfold V2.extract_timestamp, read_u32. rewrite <- !app_assoc.
  rewrite skip_app by apply length_be_bytes. cbn [obind].
  by rewrite read_unsigned_be by (cbn; lia).
Qed.
Next Obligation.
  intros e t d Ht. cbn in *. unfold V2.extract_time_tag, read_u64. rewrite <- !app_assoc.
  rewrite skip_app by apply length_be_bytes. cbn [obind].
  rewrite skip_app by apply length_be_bytes. cbn [obind].
  by rewrite read_unsigned_be by (cbn; lia).
Qed.
Next Obligation.
  intros. cbn. apply blob_range_app. by rewrite !length_app, !length_be_bytes.
Qed.
Next Obligation.
  intros e t d e'. cbn. unfold V2.update_expire_ts.
  rewrite le_bytes_hton, !length_app, !length_be_bytes, <- !app_assoc.
  cbn [CHECK Nat.leb plus]. apply (f_equal Ret).
  apply (overwrite_mid (be_bytes 1 130) (be_bytes 4 e) (be_bytes 4 e') (be_bytes 8 t ++ d)).
  by rewrite !length_be_bytes.
Qed.

(** *** Clients of the interface *)

Section Client.
Context (s : value_schema) `{!ValueSchemaLaws s}.

Lemma schema_roundtrip e t d e' :
  0 <= e < 2 ^ 32 -> 0 <= t < 2 ^ 64 -> 0 <= e' < 2 ^ 32 ->
  exists sl v', schema_generate_value s (record_params e t d) = Ret sl /\
    update_field s (concat sl) (expire_timestamp_field e') = Ret v' /\
    forall x v, (x, v) = (e, concat sl) \/ (x, v) = (e', v') ->
      extract_field s v EXPIRE_TIMESTAMP = Ret (expire_timestamp_field x) /\
      extract_field s v TIME_TAG = (if has_time_tag then Ret (time_tag_field t) else Abort) /\
      extract_user_data s v = Ret d.
Proof.
  intros He Ht He'. destruct (law_generate e t d) as (sl & Hg & Hc).
  exists sl, (law_header e' t ++ d). split; [done|]. rewrite Hc. split; [apply law_update|].
  intros x v Hxv.
  destruct Hxv as [[= -> ->]|[= -> ->]];
    (split; [by apply law_expire|split; [by apply law_time_tag|apply law_user_data]]).
Qed.

End Client.

Lemma read_first_byte b rest : read_u8 (DataInput (b :: rest)) = Ret (b2z b, DataInput rest).
Proof.
  transitivity (Ret (be_val [b], DataInput rest)); [exact (read_unsigned_app 1 [b] rest eq_refl)|].
  do 2 f_equal. cbn. lia.
Qed.

Lemma expire_first_byte e :
  0 <= e < 2 ^ 31 -> exists b rest, be_bytes 4 e = b :: rest /\ Z.land (b2z b) 0x80 = 0.
Proof.
  intros He. unfold be_bytes. cbn [le_bytes rev app]. eexists _, _. split; [done|].
  rewrite b2z_z2b, !Z.div_div by lia. change (256 * (256 * 256)) with (2 ^ 24).
  assert (0 <= e / 2 ^ 24 < 2 ^ 7) as H.
  { split; [apply Z.div_pos; lia|apply Z.div_lt_upper_bound; lia]. }
  rewrite Z.mod_small by lia. change 0x80 with (2 ^ 7).
  apply Z.bits_inj'. intros n Hn. rewrite Z.land_spec, Z.testbit_0_l.
  destruct (decide (n = 7)) as [->|Hne].
  - rewrite Z.bits_above_log2; [done|lia|].
    destruct (decide (e / 2 ^ 24 = 0)) as [->|]; [done|]. apply Z.log2_lt_pow2; lia.
  - rewrite Z.pow2_bits_false by lia. apply andb_false_r.
Qed.

(** Adding numbers with disjoint bits. *)
Lemma lor_shiftl_add a b k : 0 <= k -> 0 <= b < 2 ^ k -> Z.lor (Z.shiftl a k) b = a * 2 ^ k + b.
Proof.
  intros Hk Hb. rewrite <- Z.shiftl_mul_pow2 by done.
  rewrite Z.add_nocarry_lxor; [symmetry; apply Z.lxor_lor|];
  (apply Z.bits_inj'; intros n Hn; rewrite Z.land_spec, Z.testbit_0_l;
   destruct (Z.ltb_spec n k);
   [rewrite Z.shiftl_spec_low by lia; done
   |rewrite <- (Z.mod_small b (2 ^ k)), Z.mod_pow2_bits_high by lia; apply andb_false_r]).
Qed.

Lemma generate_timetag_eq ts c del :
  0 <= ts < 2 ^ 56 -> 0 <= c < 2 ^ 7 ->
  generate_timetag ts c del = ts * 2 ^ 8 + (c * 2 + Z.b2z del).
Proof.
  intros Ht Hc. unfold generate_timetag.
  rewrite uwrap_small by (rewrite Z.shiftl_mul_pow2; lia).
  assert (0 <= Z.b2z del < 2) by (destruct del; cbn; lia).
  rewrite <- Z.lor_assoc, (lor_shiftl_add c) by (cbn; lia).
  rewrite lor_shiftl_add by (cbn; lia). lia.
Qed.

(** ** Theorems *)

(** C34. Every schema is a faithful codec: for each version, the value generated
    from an expiration time, a timetag and user data gives these back, and
    updating the expiration time in place changes nothing else. *)
Theorem value_schema_roundtrip (s : value_schema) (e t e' : Z) (d : blob) :
  In s schemas -> 0 <= e < 2 ^ 32 -> 0 <= t < 2 ^ 64 -> 0 <= e' < 2 ^ 32 ->
  exists sl v', schema_generate_value s (record_params e t d) = Ret sl /\
    update_field s (concat sl) (expire_timestamp_field e') = Ret v' /\
    forall x v, (x, v) = (e, concat sl) \/ (x, v) = (e', v') ->
      extract_field s v EXPIRE_TIMESTAMP = Ret (expire_timestamp_field x) /\
      extract_field s v TIME_TAG
        = (if version s =? 0 then Abort else Ret (time_tag_field t)) /\
      extract_user_data s v = Ret d.
Proof.
  intros [<-|[<-|[<-|[]]]] He Ht He'.
  - exact (schema_roundtrip value_schema_v0 e t d e' He Ht He').
  - exact (schema_roundtrip value_schema_v1 e t d e' He Ht He').
  - exact (schema_roundtrip value_schema_v2 e t d e' He Ht He').
Qed.

(** The manager recognises the schema a value was written with: always for
    version 2, and for versions 0 and 1 (whose version comes from the meta column
    family) as long as the expiration time leaves the top bit clear. *)
Theorem get_value_schema_recognises (s : value_schema) (m e t : Z) (d : blob) (sl : list blob) :
  In s schemas -> 0 <= e < 2 ^ 32 ->
  version s = 2 \/ (version s = m /\ e < 2 ^ 31) ->
  schema_generate_value s (record_params e t d) = Ret sl ->
  get_value_schema m (concat sl) = Ret s.
Proof.
  intros Hs He Hv Hg.
  assert (forall h, m = version s -> version s <> 2 -> 0 <= e < 2 ^ 31 ->
    get_value_schema m (be_bytes 4 e ++ h) = Ret s) as Hold.
  { intros h -> Hn2 He'. destruct (expire_first_byte e He') as (b & rest & -> & Hb).
    unfold get_value_schema. cbn [app]. rewrite read_first_byte. cbn [obind]. rewrite Hb.
    destruct Hs as [<-|[<-|[<-|[]]]]; done. }
  destruct Hs as [<-|[<-|[<-|[]]]]; cbn [version] in Hold, Hv.
  - assert (sl = slices_of (be_bytes 4 e) d) as ->.
    { pose proof (generate_v0_eq e d) as G. change (generate_value_v0 e d = Ret sl) in Hg.
      congruence. }
    rewrite concat_slices_of. destruct Hv as [|[<- Hv]]; [done|]. apply Hold; [done|done|lia].
  - assert (sl = slices_of (be_bytes 4 e ++ be_bytes 8 t) d) as ->.
    { pose proof (generate_v1_eq e t d) as G. change (generate_value_v1 e t d = Ret sl) in Hg.
      congruence. }
    rewrite concat_slices_of, <- app_assoc. destruct Hv as [|[<- Hv]]; [done|].
    apply Hold; [done|done|lia].
  - assert (sl = slices_of (be_bytes 1 130 ++ be_bytes 4 e ++ be_bytes 8 t) d) as ->.
    { pose proof (generate_v2_eq e t d) as G.
      change (V2.generate_value (record_params e t d) = Ret sl) in Hg. congruence. }
    rewrite concat_slices_of. reflexivity.
Qed.


Lemma generate_value_facts (v e t : Z) (d : blob) :
  v = 0 \/ v = 1 -> 0 <= e < 2 ^ 32 -> 0 <= t < 2 ^ 64 ->
  exists sl s, generate_value v d e t = Ret sl /\
    get_value_schema_by_version v = Some s /\
    schema_generate_value s (record_params e t d) = Ret sl /\
    pegasus_extract_expire_ts v (concat sl) = Ret e /\
    pegasus_extract_user_data v (concat sl) = Ret d /\
    (v = 1 -> pegasus_extract_timetag v (concat sl) = Ret t) /\
    (forall now, check_if_record_expired v now (concat sl) = Ret (check_if_ts_expired now e)).
Proof.
  intros Hv He Ht.
  assert (forall h, pegasus_extract_expire_ts v (be_bytes 4 e ++ h) = Ret e) as Hexp.
  { intros h. unfold pegasus_extract_expire_ts, read_u32, PEGASUS_DATA_VERSION_MAX.
    rewrite read_unsigned_be by (cbn; lia). by destruct Hv as [-> | ->]. }
  assert (forall h now, check_if_record_expired v now (be_bytes 4 e ++ h)
                        = Ret (check_if_ts_expired now e)) as Hrec.
  { intros. unfold check_if_record_expired. by rewrite Hexp. }
  destruct Hv as [-> | ->]; eexists _, _.
  - split; [apply generate_v0_eq|]. split; [reflexivity|]. rewrite concat_slices_of.
    split; [apply (generate_v0_eq e d)|]. split; [apply Hexp|].
    split; [|split; [done|by intros; apply Hrec]].
    unfold pegasus_extract_user_data. cbn [CHECK Z.leb]. 
    by rewrite (skip_app 4) by apply length_be_bytes.
  - split; [apply generate_v1_eq|]. split; [reflexivity|]. rewrite concat_slices_of, <- app_assoc.
    split; [apply (generate_v1_eq e t d)|]. split; [apply Hexp|].
    unfold pegasus_extract_user_data, pegasus_extract_timetag, read_u64. cbn [CHECK Z.leb].
    rewrite (skip_app 4) by apply length_be_bytes. cbn [obind].
    split; [|split; [|by intros; apply Hrec]].
    + cbn [Z.eqb CHECK]. rewrite (skip_app 8) by apply length_be_bytes. done.
    + intros _. cbn [Z.eqb CHECK]. by rewrite read_unsigned_be by (cbn; lia).
Qed.

Lemma generate_timetag_range ts c del :
  0 <= c < 256 -> 0 <= generate_timetag ts c del < 2 ^ 64.
Proof.
  intros Hc. unfold generate_timetag. pose proof (uwrap_range 64 (Z.shiftl ts 8) ltac:(lia)).
  assert (0 <= Z.shiftl c 1 < 2 ^ 64) by (rewrite Z.shiftl_mul_pow2; lia).
  assert (0 <= Z.b2z del < 2 ^ 64) by (destruct del; cbn; lia).
  split; [rewrite !Z.lor_nonneg; lia|].
  destruct (decide (Z.lor (Z.lor (u64 (Z.shiftl ts 8)) (Z.shiftl c 1)) (Z.b2z del) = 0)) as [->|Hz]; [lia|].
  apply Z.log2_lt_pow2; [pose proof (proj2 (Z.lor_nonneg (Z.lor (u64 (Z.shiftl ts 8)) (Z.shiftl c 1)) (Z.b2z del))
    (conj (proj2 (Z.lor_nonneg _ _) (conj (proj1 H) (proj1 H0))) (proj1 H1))); lia|].
  rewrite !Z.log2_lor by (rewrite ?Z.lor_nonneg; lia).
  assert (forall x, 0 <= x < 2 ^ 64 -> Z.log2 x < 64) as Hl.
  { intros x Hx. destruct (decide (x = 0)) as [->|]; [cbn; lia|]. apply Z.log2_lt_pow2; lia. }
  pose proof (Hl _ H). pose proof (Hl _ H0). pose proof (Hl _ H1). lia.
Qed.

(** The generator used by the write path and the schema objects agree on
    versions 0 and 1, and the free extraction functions invert it. *)
Theorem generate_value_extract (v e t : Z) (d : blob) :
  v = 0 \/ v = 1 -> 0 <= e < 2 ^ 32 -> 0 <= t < 2 ^ 64 ->
  exists sl s, generate_value v d e t = Ret sl /\
    get_value_schema_by_version v = Some s /\
    schema_generate_value s (record_params e t d) = Ret sl /\
    pegasus_extract_expire_ts v (concat sl) = Ret e /\
    pegasus_extract_user_data v (concat sl) = Ret d /\
    (v = 1 -> pegasus_extract_timetag v (concat sl) = Ret t) /\
    (forall now, check_if_record_expired v now (concat sl) = Ret (check_if_ts_expired now e)).
Proof. apply generate_value_facts. Qed.

(** Timetags order writes by timestamp, then cluster id, then the deletion
    mark, provided the timestamp fits 56 bits and the cluster id 7 bits; the
    timestamp can be read back. *)
Theorem timetag_order (ts1 ts2 c1 c2 : Z) (d1 d2 : bool) :
  0 <= ts1 < 2 ^ 56 -> 0 <= ts2 < 2 ^ 56 -> 0 <= c1 < 2 ^ 7 -> 0 <= c2 < 2 ^ 7 ->
  extract_timestamp_from_timetag (generate_timetag ts1 c1 d1) = ts1 /\
  (generate_timetag ts1 c1 d1 < generate_timetag ts2 c2 d2 <->
   ts1 < ts2 \/ (ts1 = ts2 /\ (c1 < c2 \/ (c1 = c2 /\ d1 = false /\ d2 = true)))).
Proof.
  intros H1 H2 H3 H4. rewrite !generate_timetag_eq by done.
  assert (0 <= Z.b2z d1 <= 1) by (destruct d1; cbn; lia).
  split.
  - unfold extract_timestamp_from_timetag. rewrite Z.shiftr_div_pow2 by lia.
    change 0xFFFFFFFFFFFFFF with (Z.ones 56). rewrite Z.land_ones by lia.
    rewrite Z.div_add_l by lia. rewrite (Z.div_small (c1 * 2 + _)) by lia.
    rewrite Z.add_0_r. by apply Z.mod_small.
  - destruct d1, d2; cbn [Z.b2z]; split; intros; intuition (try lia; try discriminate).
Qed.

Lemma value_schema_roundtrip_witness :
  exists sl v', schema_generate_value value_schema_v2 (record_params 100 7 (le_bytes 2 5)) = Ret sl /\
    update_field value_schema_v2 (concat sl) (expire_timestamp_field 200) = Ret v' /\
    extract_user_data value_schema_v2 v' = Ret (le_bytes 2 5).
Proof.
  destruct (value_schema_roundtrip value_schema_v2 100 7 200 (le_bytes 2 5)) as (sl & v' & H1 & H2 & H3);
    [right; right; left; reflexivity|lia|lia|lia|].
  exists sl, v'. split; [exact H1|]. split; [exact H2|]. apply (H3 200 v'). right. reflexivity.
Defined.

Lemma get_value_schema_recognises_witness :
  exists sl, schema_generate_value value_schema_v1 (record_params 100 7 []) = Ret sl /\
    get_value_schema 1 (concat sl) = Ret value_schema_v1.
Proof.
  eexists. split; [reflexivity|].
  eapply (get_value_schema_recognises value_schema_v1 1 100 7 []);
    [right; left; reflexivity|lia|right; split; [reflexivity|lia]|reflexivity].
Defined.

Lemma generate_value_extract_witness :
  exists sl, generate_value 1 (le_bytes 2 5) 100 7 = Ret sl /\
    pegasus_extract_expire_ts 1 (concat sl) = Ret 100 /\
    pegasus_extract_user_data 1 (concat sl) = Ret (le_bytes 2 5).
Proof.
  destruct (generate_value_extract 1 100 7 (le_bytes 2 5)) as (sl & s & H1 & _ & _ & H2 & H3 & _);
    [by right|lia|lia|]. by exists sl.
Defined.

Lemma timetag_order_witness : generate_timetag 10 1 false < generate_timetag 10 1 true.
Proof. apply (timetag_order 10 10 1 1 false true); [lia|lia|lia|lia|right; auto]. Defined.

End ValueSchema.
