(* ===== verification/BinaryIO.v ===== *)
(** * Binary writer and reader

    Model of [src/utils/binary_writer.{h,cpp}] and [binary_reader.{h,cpp}].  The
    writer keeps a list of buffers of which the last one, aliased by
    [_current_buffer], is filled up to [_current_offset]; a write that does not
    fit is split over a new buffer.  Its specification is an append-only byte
    sequence: [rep w bs] says that [w] has been given exactly the bytes [bs].
    Sizes are [nat]: a writer holding 2^31 bytes or more (an [int] overflow in
    the source) is outside the model. *)
From S2P Require Import Prelude Endians.

Module BinaryIO.
Import Endians.

(** ** [binary_writer] *)

Definition kReservedSizePerBuffer : nat := 256.

Record binary_writer := BinaryWriter {
  bw_buffers : list blob;
  bw_current_offset : nat;
  bw_current_buffer_length : nat;
  bw_total_size : nat;
  bw_reserved_size_per_buffer : nat
}.

Definition new_binary_writer (reserved_buffer_size : nat) : binary_writer :=
  BinaryWriter [] 0 0 0
    (if (reserved_buffer_size =? 0)%nat then kReservedSizePerBuffer else reserved_buffer_size).

(** Replace the last buffer ([*_buffers.rbegin() = ...], or a store through
    [_current_buffer], which points into it). *)
Definition update_last (f : blob -> blob) (l : list blob) : list blob :=
  match rev l with
  | [] => []
  | b :: r => rev (f b :: r)
  end.

Definition commit (w : binary_writer) : binary_writer :=
  if (bw_current_offset w =? 0)%nat then w
  else BinaryWriter (update_last (take (bw_current_offset w)) (bw_buffers w)) 0 0
         (bw_total_size w) (bw_reserved_size_per_buffer w).

Definition flush (w : binary_writer) : binary_writer := commit w.

Definition create_new_buffer (size : nat) : blob := replicate size x00.

Definition create_buffer (size : nat) (w : binary_writer) : binary_writer :=
  let w := commit w in
  let bb := create_new_buffer size in
  BinaryWriter (bw_buffers w ++ [bb]) (bw_current_offset w) (length bb)
    (bw_total_size w) (bw_reserved_size_per_buffer w).

(** [memcpy(_current_buffer + _current_offset, src, ...)] and the two counters. *)
Definition copy_in (src : blob) (w : binary_writer) : binary_writer :=
  BinaryWriter (update_last (fun b => overwrite b (bw_current_offset w) src) (bw_buffers w))
    (bw_current_offset w + length src) (bw_current_buffer_length w)
    (bw_total_size w + length src) (bw_reserved_size_per_buffer w).

Definition write (buffer : blob) (w : binary_writer) : binary_writer :=
  let size := length buffer in
  let remaining_size := (bw_current_buffer_length w - bw_current_offset w)%nat in
  if (size <=? remaining_size)%nat then
    copy_in buffer w
  else
    let w := if (0 <? remaining_size)%nat then copy_in (take remaining_size buffer) w else w in
    let size := (size - remaining_size)%nat in
    let w := create_buffer (Nat.max size (bw_reserved_size_per_buffer w)) w in
    copy_in (drop remaining_size buffer) w.

Definition write_empty (size : nat) (w : binary_writer) : binary_writer :=
  let advance n w := BinaryWriter (bw_buffers w) (bw_current_offset w + n)
    (bw_current_buffer_length w) (bw_total_size w + n) (bw_reserved_size_per_buffer w) in
  let remaining_size := (bw_current_buffer_length w - bw_current_offset w)%nat in
  if (size <=? remaining_size)%nat then advance size w
  else
    let w := advance remaining_size w in
    let size := (size - remaining_size)%nat in
    let w := create_buffer (Nat.max size (bw_reserved_size_per_buffer w)) w in
    advance size w.

Definition get_buffer (w : binary_writer) : blob * binary_writer :=
  let w := commit w in
  match bw_buffers w with
  | [b] => (b, w)
  | bs => if (bw_total_size w =? 0)%nat then ([], w) else (concat bs, w)
  end.

Definition get_current_buffer (w : binary_writer) : blob :=
  match bw_buffers w with
  | [b] => if (0 <? bw_current_offset w)%nat then take (bw_current_offset w) b else b
  | [] => replicate (bw_total_size w) x00
  | bs => concat (update_last
            (fun b => if (0 <? bw_current_offset w)%nat then take (bw_current_offset w) b else b) bs)
  end.

(** [write_pod] copies the host (little-endian) representation. *)
Definition write_pod (n : nat) (val : Z) (w : binary_writer) : binary_writer :=
  write (le_bytes n val) w.

Definition write_bytes (val : blob) (w : binary_writer) : binary_writer :=
  let len := i32 (Z.of_nat (length val)) in
  let w := write_pod 4 len w in
  if len >? 0 then write val w else w.

(** ** [binary_reader]: the bytes from [_ptr] to the end of the blob *)
Record binary_reader := BinaryReader { br_rest : blob }.

(** Reading beyond the end runs into [assert(false)]. *)
Definition read_pod (n : nat) (r : binary_reader) : outcome (Z * binary_reader) :=
  if (n <=? length (br_rest r))%nat
  then Ret (le_val (take n (br_rest r)), BinaryReader (drop n (br_rest r)))
  else Undef.

(** A signed integer of [n] bytes. *)
Definition read_int (n : nat) (r : binary_reader) : outcome (Z * binary_reader) :=
  let* (v, r) := read_pod n r in Ret (swrap (8 * Z.of_nat n) v, r).

(** [read(blob, len)] and [read(char *, sz)]: [inner_read] accepts [len <= remaining]. *)
Definition read_blob (len : Z) (r : binary_reader) : outcome (blob * binary_reader) :=
  if len <? 0 then Undef
  else if (Z.to_nat len <=? length (br_rest r))%nat
  then Ret (take (Z.to_nat len) (br_rest r), BinaryReader (drop (Z.to_nat len) (br_rest r)))
  else Undef.

Definition read_string (r : binary_reader) : outcome (blob * binary_reader) :=
  let* (len, r) := read_int 4 r in
  if len >? 0 then read_blob len r else if len <? 0 then Undef else Ret ([], r).

Definition is_eof (r : binary_reader) : bool := (length (br_rest r) =? 0)%nat.

(** ** The writer implements an append-only byte sequence *)

(** Either everything is committed, or the last buffer is partly filled. *)
Inductive rep : binary_writer -> blob -> Prop :=
| rep_committed bufs res :
    (0 < res)%nat ->
    rep (BinaryWriter bufs 0 0 (length (concat bufs)) res) (concat bufs)
| rep_partial bufs filled room res :
    (0 < length filled)%nat -> (0 < res)%nat ->
    rep (BinaryWriter (bufs ++ [filled ++ room]) (length filled) (length (filled ++ room))
           (length (concat bufs ++ filled)) res)
        (concat bufs ++ filled).

Lemma update_last_app f l b : update_last f (l ++ [b]) = l ++ [f b].
Proof. unfold update_last. rewrite rev_app_distr. cbn. by rewrite rev_involutive. Qed.

Lemma copy_in_nil w : copy_in [] w = w.
Proof.
  destruct w as [bufs off len total res]. unfold copy_in. cbn. rewrite !Nat.add_0_r. f_equal.
  destruct bufs as [|b bufs _] using rev_ind; [done|]. rewrite update_last_app. do 2 f_equal.
  unfold overwrite. cbn. by rewrite Nat.add_0_r, take_drop.
Qed.

Lemma concat_snoc (l : list blob) b : concat (l ++ [b]) = concat l ++ b.
Proof. rewrite concat_app. cbn. by rewrite app_nil_r. Qed.

Lemma overwrite_app (filled room src : blob) :
  (length src <= length room)%nat ->
  overwrite (filled ++ room) (length filled) src = (filled ++ src) ++ drop (length src) room.
Proof.
  intros. unfold overwrite. rewrite take_app_length, drop_app_add, app_assoc. done.
Qed.

Lemma rep_new n : rep (new_binary_writer n) [].
Proof.
  unfold new_binary_writer, kReservedSizePerBuffer. apply (rep_committed []).
  destruct (Nat.eqb_spec n 0); lia.
Qed.

Lemma rep_length w bs : rep w bs -> bw_total_size w = length bs.
Proof. by destruct 1. Qed.

Lemma commit_rep w bs :
  rep w bs -> exists bufs res, (0 < res)%nat /\ concat bufs = bs /\
    commit w = BinaryWriter bufs 0 0 (length bs) res /\ bw_reserved_size_per_buffer w = res.
Proof.
  destruct 1 as [bufs res Hr|bufs filled room res Hf Hr].
  - exists bufs, res. done.
  - exists (bufs ++ [filled]), res. unfold commit. cbn.
    destruct (Nat.eqb_spec (length filled) 0); [lia|].
    rewrite update_last_app, take_app_length. split; [done|].
    split; [apply concat_snoc|]. done.
Qed.

(** Filling a fresh buffer. *)
Lemma create_copy_rep w bs src :
  rep w bs -> (0 < length src)%nat ->
  rep (copy_in src (create_buffer (Nat.max (length src) (bw_reserved_size_per_buffer w)) w))
      (bs ++ src).
Proof.
  intros H Hs. destruct (commit_rep w bs H) as (bufs & res & Hr & <- & E & Eres).
  unfold create_buffer, copy_in, create_new_buffer. rewrite E, Eres. cbn.
  rewrite length_replicate, update_last_app.
  rewrite overwrite_0.
  set (room := drop _ _).
  replace (Nat.max (length src) res) with (length (src ++ room))
    by (subst room; rewrite length_app, length_drop, length_replicate; lia).
  rewrite <- length_app. by apply rep_partial.
Qed.

(** A partly filled last buffer, with the sizes as sums. *)
Lemma rep_partial_intro bufs (filled room : blob) off len total res bs :
  (0 < length filled)%nat -> (0 < res)%nat -> bs = concat bufs ++ filled ->
  off = length filled -> len = (length filled + length room)%nat -> total = length bs ->
  rep (BinaryWriter (bufs ++ [filled ++ room]) off len total res) bs.
Proof. intros ? ? -> -> -> ->. rewrite <- length_app. by apply rep_partial. Qed.

(** Copying into the room that is left. *)
Lemma copy_in_rep bufs (filled room src : blob) res :
  (0 < length filled)%nat -> (0 < res)%nat -> (length src <= length room)%nat ->
  rep (copy_in src (BinaryWriter (bufs ++ [filled ++ room]) (length filled)
         (length (filled ++ room)) (length (concat bufs ++ filled)) res))
      ((concat bufs ++ filled) ++ src).
Proof.
  intros Hf Hr Hs. unfold copy_in.
  cbn [bw_buffers bw_current_offset bw_current_buffer_length bw_total_size bw_reserved_size_per_buffer].
  rewrite update_last_app, overwrite_app by done.
  apply rep_partial_intro; rewrite ?length_app, ?length_drop, <- ?app_assoc; auto with lia.
Qed.

Lemma write_rep w bs buffer : rep w bs -> rep (write buffer w) (bs ++ buffer).
Proof.
  intros H. unfold write. cbv zeta.
  destruct (Nat.leb_spec (length buffer) (bw_current_buffer_length w - bw_current_offset w)) as [Hle|Hgt].
  - destruct (Nat.eqb_spec (length buffer) 0) as [E0|E0].
    { apply nil_length_inv in E0. subst. by rewrite copy_in_nil, app_nil_r. }
    destruct H as [bufs res Hr|bufs filled room res Hf Hr]; cbn in Hle; [lia|].
    rewrite length_app in Hle. apply copy_in_rep; auto with lia.
  - set (rem := (bw_current_buffer_length w - bw_current_offset w)%nat) in *.
    set (w' := if (0 <? rem)%nat then _ else _).
    assert (rep w' (bs ++ take rem buffer)) as Hw'.
    { subst w'. destruct (Nat.ltb_spec 0 rem) as [Hl|Hl].
      - destruct H as [bufs res Hr|bufs filled room res Hf Hr]; [cbn in rem; lia|].
        apply copy_in_rep; [done|done|]. subst rem. cbn. rewrite length_take, length_app. lia.
      - replace rem with 0%nat by lia. by rewrite take_0, app_nil_r. }
    replace (length buffer - rem)%nat with (length (drop rem buffer)) by apply length_drop.
    rewrite <- (take_drop rem buffer) at 3. rewrite app_assoc.
    apply create_copy_rep; [done|]. rewrite length_drop. lia.
Qed.

Lemma get_buffer_rep w bs : rep w bs -> fst (get_buffer w) = bs /\ rep (snd (get_buffer w)) bs.
Proof.
  intros H. destruct (commit_rep w bs H) as (bufs & res & Hr & <- & E & _).
  unfold get_buffer. rewrite E. cbn [bw_buffers bw_total_size].
  destruct bufs as [|b [|b2 bufs]]; cbn [fst snd].
  - split; [done|]. by apply (rep_committed []).
  - cbn. rewrite app_nil_r. split; [done|].
    pose proof (rep_committed [b] res Hr) as Hp. cbn in Hp. by rewrite app_nil_r in Hp.
  - destruct (Nat.eqb_spec (length (concat (b :: b2 :: bufs))) 0) as [E0|E0]; cbn [fst snd].
    + apply nil_length_inv in E0. split; [done|]. rewrite E0 at 2.
      pose proof (rep_committed (b :: b2 :: bufs) res Hr) as Hp. by rewrite E0 in Hp |- *.
    + split; [done|]. by apply rep_committed.
Qed.

Lemma get_current_buffer_rep w bs : rep w bs -> get_current_buffer w = bs.
Proof.
  destruct 1 as [bufs res Hr|bufs filled room res Hf Hr]; unfold get_current_buffer;
    cbn [bw_buffers bw_current_offset bw_total_size].
  - destruct bufs as [|b [|b2 bufs]]; [done|cbn; by rewrite app_nil_r|].
    destruct (@exists_last _ (b :: b2 :: bufs)) as (l & x & ->); [done|].
    rewrite update_last_app. cbn. by destruct (l ++ [x]).
  - destruct (Nat.ltb_spec 0 (length filled)); [|lia].
    destruct bufs as [|b bufs]; cbn [app].
    + by rewrite take_app_length.
    + destruct (bufs ++ [filled ++ room]) eqn:E; [by destruct bufs|].
      rewrite <- E. change (b :: bufs ++ [filled ++ room]) with ((b :: bufs) ++ [filled ++ room]).
      by rewrite update_last_app, concat_snoc, take_app_length.
Qed.

(** ** Reading back what was written *)

Lemma read_pod_app (p rest : blob) :
  read_pod (length p) (BinaryReader (p ++ rest)) = Ret (le_val p, BinaryReader rest).
Proof.
  unfold read_pod. cbn. rewrite length_app.
  destruct (Nat.leb_spec (length p) (length p + length rest)); [|lia].
  by rewrite take_app_length, drop_app_length.
Qed.

Lemma read_pod_le n v rest :
  0 <= v < 2 ^ (8 * Z.of_nat n) ->
  read_pod n (BinaryReader (le_bytes n v ++ rest)) = Ret (v, BinaryReader rest).
Proof.
  intros Hv. rewrite <- (length_le_bytes n v) at 1. rewrite read_pod_app, le_val_le_bytes.
  by rewrite Z.mod_small.
Qed.

Lemma swrap_mod w z : 0 < w -> swrap w (z mod 2 ^ w) = swrap w z.
Proof. intros. unfold swrap. f_equal. apply Z.add_mod_idemp_l. lia. Qed.

Lemma read_int_le n v rest :
  (0 < n)%nat -> - 2 ^ (8 * Z.of_nat n - 1) <= v < 2 ^ (8 * Z.of_nat n - 1) ->
  read_int n (BinaryReader (le_bytes n v ++ rest)) = Ret (v, BinaryReader rest).
Proof.
  intros Hn Hv. unfold read_int. rewrite <- (length_le_bytes n v) at 1.
  rewrite read_pod_app, le_val_le_bytes. cbn [obind].
  by rewrite swrap_mod, swrap_small by lia.
Qed.

Lemma read_blob_app (b rest : blob) :
  read_blob (Z.of_nat (length b)) (BinaryReader (b ++ rest)) = Ret (b, BinaryReader rest).
Proof.
  unfold read_blob. destruct (Z.ltb_spec (Z.of_nat (length b)) 0); [lia|].
  rewrite Nat2Z.id. cbn. rewrite length_app.
  destruct (Nat.leb_spec (length b) (length b + length rest)); [|lia].
  by rewrite take_app_length, drop_app_length.
Qed.

(** The bytes [write_bytes] appends. *)
Definition bytes_wire (val : blob) : blob := le_bytes 4 (Z.of_nat (length val)) ++ val.

Lemma write_bytes_rep w bs val :
  Z.of_nat (length val) <= INT32_MAX -> rep w bs -> rep (write_bytes val w) (bs ++ bytes_wire val).
Proof.
  unfold INT32_MAX. intros Hl H. unfold write_bytes, write_pod, bytes_wire.
  rewrite swrap_small by (cbn; lia). rewrite app_assoc.
  destruct (Z.gtb_spec (Z.of_nat (length val)) 0).
  - by apply write_rep, write_rep.
  - destruct val; [|cbn in *; lia]. rewrite app_nil_r. by apply write_rep.
Qed.

Lemma read_string_wire val rest :
  Z.of_nat (length val) <= INT32_MAX ->
  read_string (BinaryReader (bytes_wire val ++ rest)) = Ret (val, BinaryReader rest).
Proof.
  unfold INT32_MAX, read_string, bytes_wire. intros Hl. rewrite <- app_assoc.
  rewrite read_int_le by (cbn; lia). cbn [obind].
  destruct (Z.gtb_spec (Z.of_nat (length val)) 0); [apply read_blob_app|].
  destruct val; [done|cbn in *; lia].
Qed.

(** ** Theorems *)


End BinaryIO.
