(* ===== verification/Mutation.v ===== *)
(** * Mutations

    Model of [src/replica/mutation.{h,cpp}] (class [mutation]),
    [src/common/gpid.h] and the thrift structures of [src/common/consensus.thrift]
    it carries: the unit of two-phase commit, its acknowledgement flags and its
    wire / log format. *)
From S2P Require Import Prelude Endians BinaryIO.

Module Mutation.
Import BinaryIO.

(** [class gpid]: two int32 that share storage with a uint64. *)
Record gpid := Gpid { app_id : Z; partition_index : Z }.

#[global] Instance gpid_eq_dec : EqDecision gpid.
Proof. solve_decision. Defined.

Definition gpid_value (p : gpid) : Z :=
  le_val (le_bytes 4 (app_id p) ++ le_bytes 4 (partition_index p)).
Definition gpid_of_value (v : Z) : gpid :=
  Gpid (i32 (le_val (take 4 (le_bytes 8 v)))) (i32 (le_val (drop 4 (le_bytes 8 v)))).

Definition invalid_decree : Z := -1.
Definition invalid_ballot : Z := -1.
Definition invalid_offset : Z := -1.

Record mutation_header := MutationHeader {
  pid : gpid;
  ballot : Z;
  decree : Z;
  log_offset : Z;
  last_committed_decree : Z;
  timestamp : Z
}.

(** A task code is its name; codes are registered by name in each process. *)
Abbreviation task_code := blob.

Record mutation_update := MutationUpdate {
  code : task_code;
  serialization_type : Z;
  data : blob
}.

(** What a mutation needs of a client message: [message_ex]. *)
Record message := Message {
  rpc_code : task_code;
  serialize_format : Z;
  payload : blob;
  partition_hash : Z;
  timeout_ms : Z
}.

(** [message_ex::body_size]: the body of a received request is one buffer. *)
Definition body_size (r : message) : Z := Z.of_nat (length (payload r)).

(** [class host_port]; an invalid one has no host.  The IP address that goes with
    each host_port in the structures is its resolution and is left out. *)
Abbreviation host_port := (option (string * Z)).

Definition RPC_REPLICATION_WRITE_EMPTY : task_code :=
  String.list_byte_of_string "RPC_REPLICATION_WRITE_EMPTY"%string.

Record mutation := MutationObj {
  header : mutation_header;
  updates : list mutation_update;
  client_requests : list (option message);
  (* the bit fields that share [_private0] *)
  not_logged : bool;                        (* 1 bit *)
  left_secondary_ack_count : Z;             (* 15 bits *)
  left_potential_secondary_ack_count : Z;   (* 14 bits *)
  wait_child : bool;                        (* 1 bit *)
  error_acked : bool;                       (* 1 bit *)
  appro_data_bytes : Z;
  is_blocking_candidate : bool;
  sync_to_child : bool;
  prepare_requests : list Z;                (* prepare RPCs to answer *)
  prepare_ts_ms : Z;
  has_log_task : bool;
  remote_tasks : gmap host_port Z;          (* prepare RPCs sent, by node *)
  idem_writer : option message              (* the request it was translated from *)
}.

(** [mutation::mutation()]; [hdr_size] is [sizeof(mutation_header)], a class
    generated by thrift. *)
Definition new_mutation_obj (hdr_size : Z) (h : mutation_header) : mutation :=
  MutationObj h [] [] true 0 0 false false hdr_size false false [] 0 false ∅ None.

Definition is_logged (m : mutation) : bool := negb (not_logged m).

(** [_private0 == 0]: every bit field is zero. *)
Definition is_ready_for_commit (m : mutation) : bool :=
  negb (not_logged m) && (left_secondary_ack_count m =? 0)
  && (left_potential_secondary_ack_count m =? 0) && negb (wait_child m) && negb (error_acked m).

Definition is_child_acked (m : mutation) : bool := negb (wait_child m).
Definition is_full (m : mutation) : bool := appro_data_bytes m >=? 1024 * 1024.

Definition get_ballot (m : mutation) : Z := ballot (header m).
Definition get_decree (m : mutation) : Z := decree (header m).

(** Field updates. *)
Definition with_header (f : mutation_header -> mutation_header) (m : mutation) : mutation :=
  MutationObj (f (header m)) (updates m) (client_requests m) (not_logged m)
    (left_secondary_ack_count m) (left_potential_secondary_ack_count m) (wait_child m)
    (error_acked m) (appro_data_bytes m) (is_blocking_candidate m) (sync_to_child m)
    (prepare_requests m) (prepare_ts_ms m) (has_log_task m) (remote_tasks m) (idem_writer m).

Definition with_flags (nl : bool) (ls lps : Z) (wc ea : bool) (m : mutation) : mutation :=
  MutationObj (header m) (updates m) (client_requests m) nl ls lps wc ea
    (appro_data_bytes m) (is_blocking_candidate m) (sync_to_child m)
    (prepare_requests m) (prepare_ts_ms m) (has_log_task m) (remote_tasks m) (idem_writer m).

Definition with_tasks (reqs : list Z) (ts : Z) (log : bool) (rpcs : gmap host_port Z) (m : mutation)
  : mutation :=
  MutationObj (header m) (updates m) (client_requests m) (not_logged m)
    (left_secondary_ack_count m) (left_potential_secondary_ack_count m) (wait_child m)
    (error_acked m) (appro_data_bytes m) (is_blocking_candidate m) (sync_to_child m)
    reqs ts log rpcs (idem_writer m).

Definition with_origin (candidate sync : bool) (idem : option message) (m : mutation) : mutation :=
  MutationObj (header m) (updates m) (client_requests m) (not_logged m)
    (left_secondary_ack_count m) (left_potential_secondary_ack_count m) (wait_child m)
    (error_acked m) (appro_data_bytes m) candidate sync
    (prepare_requests m) (prepare_ts_ms m) (has_log_task m) (remote_tasks m) idem.

Definition set_id (b d : Z) : mutation -> mutation :=
  with_header (fun h => MutationHeader (pid h) b d (log_offset h) (last_committed_decree h) (timestamp h)).

Definition set_timestamp (t : Z) : mutation -> mutation :=
  with_header (fun h => MutationHeader (pid h) (ballot h) (decree h) (log_offset h)
                          (last_committed_decree h) t).

(** [set_logged] aborts when called twice. *)
Definition set_logged (m : mutation) : outcome mutation :=
  CHECK (negb (is_logged m))
    (Ret (with_flags false (left_secondary_ack_count m) (left_potential_secondary_ack_count m)
            (wait_child m) (error_acked m) m)).

Definition set_left_secondary_ack_count (count : Z) (m : mutation) : mutation :=
  with_flags (not_logged m) (uwrap 15 count) (left_potential_secondary_ack_count m)
    (wait_child m) (error_acked m) m.

Definition set_left_potential_secondary_ack_count (count : Z) (m : mutation) : mutation :=
  with_flags (not_logged m) (left_secondary_ack_count m) (uwrap 14 count)
    (wait_child m) (error_acked m) m.

Definition decrease_left_secondary_ack_count (m : mutation) : Z * mutation :=
  let c := uwrap 15 (left_secondary_ack_count m - 1) in
  (c, set_left_secondary_ack_count c m).

Definition decrease_left_potential_secondary_ack_count (m : mutation) : Z * mutation :=
  let c := uwrap 14 (left_potential_secondary_ack_count m - 1) in
  (c, set_left_potential_secondary_ack_count c m).

Definition set_wait_child (b : bool) (m : mutation) : mutation :=
  with_flags (not_logged m) (left_secondary_ack_count m) (left_potential_secondary_ack_count m)
    b (error_acked m) m.

Definition set_error_acked (m : mutation) : mutation :=
  with_flags (not_logged m) (left_secondary_ack_count m) (left_potential_secondary_ack_count m)
    (wait_child m) true m.

Definition set_is_sync_to_child (b : bool) (m : mutation) : mutation :=
  with_origin (is_blocking_candidate m) b (idem_writer m) m.

Definition add_prepare_request (request : Z) (m : mutation) : mutation :=
  with_tasks (prepare_requests m ++ [request]) (prepare_ts_ms m) (has_log_task m) (remote_tasks m) m.

(** [now] is [dsn_now_ms()]. *)
Definition set_prepare_ts (now : Z) (m : mutation) : mutation :=
  with_tasks (prepare_requests m) now (has_log_task m) (remote_tasks m) m.

Definition is_prepare_close_to_timeout (now gap_ms timeout : Z) (m : mutation) : bool :=
  u64 (now + gap_ms) >=? u64 (prepare_ts_ms m + timeout).

Definition set_log_task (m : mutation) : mutation :=
  with_tasks (prepare_requests m) (prepare_ts_ms m) true (remote_tasks m) m.

Definition set_remote_task (hp : host_port) (rpc : Z) (m : mutation) : mutation :=
  with_tasks (prepare_requests m) (prepare_ts_ms m) (has_log_task m) (<[hp := rpc]> (remote_tasks m)) m.

(** [log_appender::append_mutation]: the log writes its position into the header. *)
Definition set_log_offset (off : Z) : mutation -> mutation :=
  with_header (fun h => MutationHeader (pid h) (ballot h) (decree h) off (last_committed_decree h)
                          (timestamp h)).

(** What the nodes of a partition share of a mutation: all but the position in the
    local log. *)
Definition shared_header (h : mutation_header) : mutation_header :=
  MutationHeader (pid h) (ballot h) (decree h) invalid_offset (last_committed_decree h) (timestamp h).

Definition shared (m : mutation) : mutation_header * list mutation_update :=
  (shared_header (header m), updates m).

(** The RPCs still running are cancelled: their replies will not be handled. *)
Definition clear_prepare_or_commit_tasks (m : mutation) : list Z * mutation :=
  (map snd (map_to_list (remote_tasks m)),
   with_tasks (prepare_requests m) (prepare_ts_ms m) (has_log_task m) ∅ m).

(** [copy_from(old)]: the content of [old] under the identity of [m].  The new
    mutation is not logged, so that it is appended to the log again. *)
Definition copy_from (old m : mutation) : mutation :=
  MutationObj (header m) (updates old) (client_requests old) (not_logged m)
    (left_secondary_ack_count m) (left_potential_secondary_ack_count m) (wait_child m)
    (error_acked m) (appro_data_bytes old) (is_blocking_candidate m) (sync_to_child m)
    (prepare_requests old) (prepare_ts_ms m) (has_log_task m) (remote_tasks m) (idem_writer m).

(** [copy_message_no_reply]: the body and its format, with a fresh header. *)
Definition copy_message_no_reply (r : message) : message :=
  Message (rpc_code r) (serialize_format r) (payload r) 0 0.

(** [copy_no_reply(old)]: the copy given to the child of a partition split. *)
Definition copy_no_reply (hdr_size : Z) (old : mutation) : mutation :=
  let m := new_mutation_obj hdr_size (header old) in
  MutationObj (header old) (updates old) (map (option_map copy_message_no_reply) (client_requests old))
    (not_logged old) (left_secondary_ack_count old) (left_potential_secondary_ack_count old)
    (wait_child old) (error_acked old) (appro_data_bytes old) (is_blocking_candidate m)
    (sync_to_child old) (prepare_requests m) (prepare_ts_ms m) (has_log_task m) (remote_tasks m)
    (idem_writer m).

(** [add_client_request]: an empty write when [request] is null. *)
Definition add_client_request (request : option message) (m : mutation) : mutation :=
  let '(update, bytes) :=
    match request with
    | Some r => (MutationUpdate (rpc_code r) (serialize_format r) (payload r),
                 32 + (4 + Z.of_nat (length (payload r))))
    | None => (MutationUpdate RPC_REPLICATION_WRITE_EMPTY 0 [], 32 + 4)
    end in
  MutationObj (header m) (updates m ++ [update]) (client_requests m ++ [request]) (not_logged m)
    (left_secondary_ack_count m) (left_potential_secondary_ack_count m) (wait_child m)
    (error_acked m) (i32 (appro_data_bytes m + bytes)) (is_blocking_candidate m) (sync_to_child m)
    (prepare_requests m) (prepare_ts_ms m) (has_log_task m) (remote_tasks m) (idem_writer m).

(** ** Wire and log format *)

Definition write_mutation_header (h : mutation_header) (w : binary_writer) : binary_writer :=
  let w := write_pod 8 0 w in
  let w := write_pod 8 (gpid_value (pid h)) w in
  let w := write_pod 8 (ballot h) w in
  let w := write_pod 8 (decree h) w in
  let w := write_pod 8 (log_offset h) w in
  let w := write_pod 8 (last_committed_decree h) w in
  write_pod 8 (timestamp h) w.

(** The per-update entry: code name, serialization type, data length. *)
Definition write_update_meta (w : binary_writer) (u : mutation_update) : binary_writer :=
  let len := i32 (Z.of_nat (length (code u))) in
  let w := write_pod 4 len w in
  let w := if len >? 0 then write (code u) w else w in
  let w := write_pod 4 (serialization_type u) w in
  write_pod 4 (i32 (Z.of_nat (length (data u)))) w.

(** [write_to(writer, to)]. *)
Definition write_to (m : mutation) (w : binary_writer) : binary_writer :=
  let w := write_mutation_header (header m) w in
  let w := write_pod 4 (i32 (Z.of_nat (length (updates m)))) w in
  let w := fold_left write_update_meta (updates m) w in
  fold_left (fun w u => write (data u) w) (updates m) w.

(** [write_to(inserter)]: the blobs handed to the inserter, in order. *)
Definition write_to_inserter (m : mutation) : list blob :=
  let w := new_binary_writer 1024 in
  let w := write_mutation_header (header m) w in
  let w := write_pod 4 (i32 (Z.of_nat (length (updates m)))) w in
  let w := fold_left write_update_meta (updates m) w in
  fst (get_buffer w) :: map data (updates m).

Definition read_mutation_header (r : binary_reader) : outcome (mutation_header * binary_reader) :=
  let* (version, r) := read_int 8 r in
  let* (pid_value, r) := read_pod 8 r in
  let* (ballot, r) := read_int 8 r in
  let* (decree, r) := read_int 8 r in
  let* (log_offset, r) := read_int 8 r in
  let* (last_committed_decree, r) := read_int 8 r in
  let h t := MutationHeader (gpid_of_value pid_value) ballot decree log_offset
               last_committed_decree t in
  if version =? 0 then
    let* (timestamp, r) := read_int 8 r in Ret (h timestamp, r)
  else if version >? 64 then
    let* (_, r) := read_int 8 r in Ret (h 0, r)
  else Abort.

(** The mutation made of a header and updates that were read; [from] is the
    request they came with, if any. *)
Definition received (hdr_size : Z) (from : option Z) (h : mutation_header) (us : list mutation_update)
  : mutation :=
  MutationObj h us (replicate (length us) None) true 0 0 false false hdr_size false false
    (from_option (fun q => [q]) [] from) 0 false ∅ None.

Section Reading.
(** [task_code::try_get]: whether a code name is registered in this process. *)
Context (registered : task_code -> bool) (hdr_size : Z).

Fixpoint read_update_metas (size : nat) (r : binary_reader)
  : outcome (list (task_code * Z * Z) * binary_reader) :=
  match size with
  | O => Ret ([], r)
  | S size' =>
      let* (name, r) := read_string r in
      CHECK (registered name)
        (let* (type, r) := read_int 4 r in
         let* (len, r) := read_int 4 r in
         let* (l, r) := read_update_metas size' r in
         Ret ((name, type, len) :: l, r))
  end.

Fixpoint read_update_datas (metas : list (task_code * Z * Z)) (r : binary_reader)
  : outcome (list mutation_update * binary_reader) :=
  match metas with
  | [] => Ret ([], r)
  | (name, type, len) :: metas' =>
      let* (d, r) := read_blob len r in
      let* (l, r) := read_update_datas metas' r in
      Ret (MutationUpdate name type d :: l, r)
  end.

(** [updates.resize(size)] throws for a negative size. *)
Definition read_from (from : option Z) (r : binary_reader) : outcome (mutation * binary_reader) :=
  let* (h, r) := read_mutation_header r in
  let* (size, r) := read_int 4 r in
  if size <? 0 then Undef
  else
    let* (metas, r) := read_update_metas (Z.to_nat size) r in
    let* (us, r) := read_update_datas metas r in
    Ret (received hdr_size from h us, r).
End Reading.

(** ** The format as bytes *)

Definition header_wire (h : mutation_header) : blob :=
  le_bytes 8 0 ++ le_bytes 8 (gpid_value (pid h)) ++ le_bytes 8 (ballot h)
  ++ le_bytes 8 (decree h) ++ le_bytes 8 (log_offset h)
  ++ le_bytes 8 (last_committed_decree h) ++ le_bytes 8 (timestamp h).

Definition update_meta_wire (u : mutation_update) : blob :=
  bytes_wire (code u) ++ le_bytes 4 (serialization_type u)
  ++ le_bytes 4 (Z.of_nat (length (data u))).

Definition mutation_wire (m : mutation) : blob :=
  header_wire (header m) ++ le_bytes 4 (Z.of_nat (length (updates m)))
  ++ concat (map update_meta_wire (updates m)) ++ concat (map data (updates m)).

Definition int64_ok (z : Z) : Prop := - 2 ^ 63 <= z < 2 ^ 63.
Definition int32_ok (z : Z) : Prop := - 2 ^ 31 <= z < 2 ^ 31.

Definition header_ok (h : mutation_header) : Prop :=
  int32_ok (app_id (pid h)) /\ int32_ok (partition_index (pid h)) /\
  int64_ok (ballot h) /\ int64_ok (decree h) /\ int64_ok (log_offset h) /\
  int64_ok (last_committed_decree h) /\ int64_ok (timestamp h).

Definition update_ok (u : mutation_update) : Prop :=
  Z.of_nat (length (code u)) <= INT32_MAX /\ int32_ok (serialization_type u) /\
  Z.of_nat (length (data u)) <= INT32_MAX.

Definition mutation_ok (m : mutation) : Prop :=
  header_ok (header m) /\ Forall update_ok (updates m) /\
  Z.of_nat (length (updates m)) <= INT32_MAX.

Lemma gpid_value_roundtrip p :
  int32_ok (app_id p) -> int32_ok (partition_index p) -> gpid_of_value (gpid_value p) = p.
Proof.
  unfold int32_ok. intros Ha Hp. unfold gpid_of_value, gpid_value.
  set (l := le_bytes 4 (app_id p) ++ le_bytes 4 (partition_index p)).
  assert (length l = 8%nat) as El by (subst l; by rewrite length_app, !length_le_bytes).
  rewrite <- El at 1 2. rewrite le_bytes_le_val. subst l.
  assert (forall (x y : blob), length x = 4%nat -> take 4 (x ++ y) = x /\ drop 4 (x ++ y) = y) as Hsplit.
  { intros x y <-. by rewrite take_app_length, drop_app_length. }
  destruct (Hsplit (le_bytes 4 (app_id p)) (le_bytes 4 (partition_index p))) as [-> ->];
    [apply length_le_bytes|].
  rewrite !le_val_le_bytes. change (8 * Z.of_nat 4) with 32.
  rewrite !swrap_mod, !swrap_small by (cbn; lia). by destruct p.
Qed.

Lemma gpid_value_range p : 0 <= gpid_value p < 2 ^ 64.
Proof.
  unfold gpid_value. pose proof (le_val_range (le_bytes 4 (app_id p) ++ le_bytes 4 (partition_index p))).
  rewrite length_app, !length_le_bytes in *. done.
Qed.

Lemma write_header_rep h w bs : rep w bs -> rep (write_mutation_header h w) (bs ++ header_wire h).
Proof.
  intros H. unfold write_mutation_header, header_wire, write_pod. cbv zeta.
  rewrite !app_assoc. by repeat apply write_rep.
Qed.

Lemma write_update_meta_rep u w bs :
  update_ok u -> rep w bs -> rep (write_update_meta w u) (bs ++ update_meta_wire u).
Proof.
  unfold update_ok, INT32_MAX. intros (Hc & _ & Hd) H.
  unfold write_update_meta, update_meta_wire. cbv zeta.
  rewrite (swrap_small 32 (Z.of_nat (length (data u)))) by (cbn; lia).
  rewrite !app_assoc. apply write_rep, write_rep, (write_bytes_rep w bs (code u)); done.
Qed.

Lemma write_metas_rep us w bs :
  Forall update_ok us -> rep w bs ->
  rep (fold_left write_update_meta us w) (bs ++ concat (map update_meta_wire us)).
Proof.
  intros HF; revert w bs; induction HF as [|u us Hu HF IH]; intros w bs H; cbn [fold_left map concat].
  - by rewrite app_nil_r.
  - rewrite app_assoc. by apply IH, write_update_meta_rep.
Qed.

Lemma write_datas_rep us w bs :
  rep w bs -> rep (fold_left (fun w u => write (data u) w) us w) (bs ++ concat (map data us)).
Proof.
  revert w bs; induction us as [|u us IH]; intros w bs H; cbn [fold_left map concat].
  - by rewrite app_nil_r.
  - rewrite app_assoc. by apply IH, write_rep.
Qed.

(** Header, count and per-update entries: the common part of both writers. *)
Lemma write_front_rep m w bs :
  mutation_ok m -> rep w bs ->
  rep (fold_left write_update_meta (updates m)
         (write_pod 4 (i32 (Z.of_nat (length (updates m)))) (write_mutation_header (header m) w)))
      (bs ++ header_wire (header m) ++ le_bytes 4 (Z.of_nat (length (updates m)))
        ++ concat (map update_meta_wire (updates m))).
Proof.
  unfold mutation_ok, INT32_MAX. intros (_ & HF & Hl) H.
  rewrite swrap_small by (cbn; lia). unfold write_pod. rewrite !app_assoc.
  by apply write_metas_rep, write_rep, write_header_rep.
Qed.

Lemma read_header_wire h rest :
  header_ok h -> read_mutation_header (BinaryReader (header_wire h ++ rest)) = Ret (h, BinaryReader rest).
Proof.
  unfold header_ok, int64_ok. intros (Ha & Hp & Hb & Hd & Ho & Hl & Ht).
  unfold read_mutation_header, header_wire. rewrite <- !app_assoc.
  rewrite read_int_le by (cbn; lia). cbn [obind].
  rewrite read_pod_le by apply gpid_value_range. cbn [obind].
  do 4 (rewrite read_int_le by (cbn; lia); cbn [obind]).
  cbn [Z.eqb]. rewrite read_int_le by (cbn; lia). cbn [obind].
  rewrite gpid_value_roundtrip by done. by destruct h.
Qed.

Section ReadingTheory.
Context (registered : task_code -> bool).

Lemma read_metas_wire us rest :
  Forall update_ok us -> Forall (fun u => registered (code u) = true) us ->
  read_update_metas registered (length us) (BinaryReader (concat (map update_meta_wire us) ++ rest))
  = Ret (map (fun u => (code u, serialization_type u, Z.of_nat (length (data u)))) us,
         BinaryReader rest).
Proof.
  intros HF HR; induction us as [|u us IH]; [done|].
  inversion HF as [|? ? (Hc & Ht & Hd) HF']; inversion HR as [|? ? Hr HR']; subst.
  unfold INT32_MAX, int32_ok in *.
  cbn [map concat length read_update_metas]. unfold update_meta_wire at 1. rewrite <- !app_assoc.
  rewrite read_string_wire by done. cbn [obind]. rewrite Hr. cbn [CHECK].
  do 2 (rewrite read_int_le by (cbn; lia); cbn [obind]).
  by rewrite IH.
Qed.

Lemma read_datas_wire us rest :
  read_update_datas (map (fun u => (code u, serialization_type u, Z.of_nat (length (data u)))) us)
    (BinaryReader (concat (map data us) ++ rest))
  = Ret (us, BinaryReader rest).
Proof.
  induction us as [|u us IH]; [done|]. cbn [map concat read_update_datas].
  rewrite <- app_assoc, read_blob_app. cbn [obind]. rewrite IH. cbn [obind]. by destruct u.
Qed.

Lemma read_from_wire hdr_size from m rest :
  mutation_ok m -> Forall (fun u => registered (code u) = true) (updates m) ->
  read_from registered hdr_size from (BinaryReader (mutation_wire m ++ rest))
  = Ret (received hdr_size from (header m) (updates m), BinaryReader rest).
Proof.
  intros (Hh & HF & Hl) HR. unfold INT32_MAX in Hl. unfold read_from, mutation_wire. rewrite <- !app_assoc.
  rewrite read_header_wire by done. cbn [obind].
  rewrite read_int_le by (cbn; lia). cbn [obind].
  destruct (Z.ltb_spec (Z.of_nat (length (updates m))) 0); [lia|].
  rewrite Nat2Z.id, read_metas_wire by done. cbn [obind].
  by rewrite read_datas_wire.
Qed.

End ReadingTheory.

(** What both writers produce. *)
Lemma write_to_wire m reserved :
  mutation_ok m -> fst (get_buffer (write_to m (new_binary_writer reserved))) = mutation_wire m.
Proof.
  intros Hok. unfold write_to. cbv zeta.
  pose proof (write_datas_rep (updates m) _ _ (write_front_rep m _ _ Hok (rep_new reserved))) as H.
  apply get_buffer_rep in H as [-> _]. unfold mutation_wire. cbn [app]. by rewrite <- !app_assoc.
Qed.

Lemma write_to_inserter_wire m : mutation_ok m -> concat (write_to_inserter m) = mutation_wire m.
Proof.
  intros Hok. unfold write_to_inserter. cbv zeta.
  pose proof (get_buffer_rep _ _ (write_front_rep m _ _ Hok (rep_new 1024))) as [E _].
  cbn [concat]. rewrite E. unfold mutation_wire. cbn [app]. by rewrite <- !app_assoc.
Qed.

Lemma write_to_rep m w bs : mutation_ok m -> rep w bs -> rep (write_to m w) (bs ++ mutation_wire m).
Proof.
  intros Hok Hw. unfold write_to. cbv zeta.
  pose proof (write_datas_rep (updates m) _ _ (write_front_rep m _ _ Hok Hw)) as H.
  unfold mutation_wire. by rewrite <- !app_assoc in *.
Qed.

(** ** Theorems *)

(** C27. A mutation written to a log or a prepare message is read back with the
    same header and updates, leaving the rest of the stream, provided the
    reader's process knows its task codes; requests and acknowledgement flags start
    afresh, so that it is neither logged nor ready. *)
Theorem mutation_roundtrip (registered : task_code -> bool) (hdr_size : Z) (from : option Z)
  (m : mutation) (rest : blob) :
  mutation_ok m -> Forall (fun u => registered (code u) = true) (updates m) ->
  read_from registered hdr_size from
    (BinaryReader (fst (get_buffer (write_to m (new_binary_writer 0))) ++ rest))
  = Ret (received hdr_size from (header m) (updates m), BinaryReader rest) /\
  is_logged (received hdr_size from (header m) (updates m)) = false.
Proof.
  intros Hok HR. rewrite write_to_wire by done. split; [by apply read_from_wire|done].
Qed.

(** Both serializers of a mutation produce the same bytes: the blobs given to
    the log's inserter concatenate to what the message writer holds. *)
Theorem write_to_inserter_equiv (m : mutation) :
  mutation_ok m ->
  concat (write_to_inserter m) = fst (get_buffer (write_to m (new_binary_writer 1024))).
Proof.
  intros Hok. by rewrite write_to_inserter_wire, write_to_wire.
Qed.

Definition sample_mutation : mutation :=
  add_client_request None
    (add_client_request (Some (Message (String.list_byte_of_string "RPC_RRDB_RRDB_PUT"%string) 1 (le_bytes 5 99) 3 0))
      (new_mutation_obj 56 (MutationHeader (Gpid 2 7) 3 12 (-1) 11 1234))).

Lemma sample_mutation_ok : mutation_ok sample_mutation.
Proof.
  unfold mutation_ok, header_ok, int32_ok, int64_ok. cbn [header sample_mutation add_client_request new_mutation_obj
    pid app_id partition_index ballot decree log_offset last_committed_decree timestamp].
  split; [lia|]. split; [|vm_compute; congruence].
  repeat apply Forall_cons_2; try apply Forall_nil_2;
    (split; [vm_compute; congruence|split; [unfold int32_ok; cbn; lia|vm_compute; congruence]]).
Qed.

Lemma mutation_roundtrip_witness :
  read_from (fun _ => true) 56 None
    (BinaryReader (fst (get_buffer (write_to sample_mutation (new_binary_writer 0))) ++ le_bytes 1 9))
  = Ret (received 56 None (header sample_mutation) (updates sample_mutation), BinaryReader (le_bytes 1 9)).
Proof.
  apply (mutation_roundtrip (fun _ => true) 56 None sample_mutation (le_bytes 1 9));
    [exact sample_mutation_ok|repeat constructor].
Defined.

Lemma write_to_inserter_equiv_witness :
  concat (write_to_inserter sample_mutation) = fst (get_buffer (write_to sample_mutation (new_binary_writer 1024))).
Proof. apply (write_to_inserter_equiv sample_mutation). exact sample_mutation_ok. Defined.

End Mutation.
