(* ===== verification/MutationCache.v ===== *)
(** * The mutation cache

    Model of [src/replica/mutation_cache.{h,cpp}]: a circular array of mutation
    pointers addressed by decree.  Mutations are shared objects: the array holds
    pointers into a heap, and the fields the cache reads (decree, ballot) are
    read from it.  The specification is a partial map [win] from decrees to
    pointers whose domain fits a window of [max_count] decrees. *)
From S2P Require Import Prelude Mutation.

(** [a % b] of C++ (truncated), undefined for a zero divisor. *)
Definition cmod (a b : Z) : outcome Z := if b =? 0 then Undef else Ret (Z.rem a b).

Module MutationCache.
Import Mutation.

Abbreviation mutation_ptr := nat.
Abbreviation heap := (gmap nat mutation).

Record mutation_cache := Cache {
  array : list (option mutation_ptr);
  max_count : Z;
  interval : Z;
  start_idx : Z;
  end_idx : Z;
  start_decree : Z;
  end_decree : Z
}.

Definition min_decree (c : mutation_cache) : Z := start_decree c.
Definition max_decree (c : mutation_cache) : Z := end_decree c.
Definition count (c : mutation_cache) : Z := interval c.
Definition capacity (c : mutation_cache) : Z := max_count c.

(** [_array[idx]]: undefined outside the vector. *)
Definition array_get (a : list (option mutation_ptr)) (idx : Z) : outcome (option mutation_ptr) :=
  if idx <? 0 then Undef else deref (a !! Z.to_nat idx).

Definition array_set (a : list (option mutation_ptr)) (idx : Z) (p : option mutation_ptr)
  : list (option mutation_ptr) := <[Z.to_nat idx := p]> a.

Definition reset (init_decree : Z) (clear_mutations : bool) (c : mutation_cache) : mutation_cache :=
  Cache (if clear_mutations then map (fun _ => None) (array c) else array c)
    (max_count c) 0 0 0 init_decree init_decree.

Definition new_mutation_cache (init_decree max_count : Z) : mutation_cache :=
  reset init_decree false
    (Cache (replicate (Z.to_nat max_count) None) max_count 0 0 0 init_decree init_decree).

Definition put (h : heap) (mu : mutation_ptr) (c : mutation_cache)
  : outcome (error_code * mutation_cache) :=
  let* m := deref (h !! mu) in
  let decree := get_decree m in
  let '(delta, tag) :=
    if interval c =? 0 then (1, 0)
    else if decree >? end_decree c then (i32 (decree - end_decree c), 1)
    else if decree <? start_decree c then (i32 (start_decree c - decree), -1)
    else (0, 0) in
  if delta + interval c >? max_count c then Ret (ERR_CAPACITY_EXCEEDED, c)
  else
    let* idx := cmod ((decree - end_decree c) + end_idx c + max_count c) (max_count c) in
    let* old := array_get (array c) idx in
    let* _ :=
      match old with
      | None => Ret tt
      | Some o => let* om := deref (h !! o) in CHECK (get_ballot om <=? get_ballot m) (Ret tt)
      end in
    let a := array_set (array c) idx (Some mu) in
    let interval' := interval c + delta in
    Ret (ERR_OK,
      if tag >? 0 then
        Cache a (max_count c) interval' (start_idx c) idx (start_decree c) decree
      else if tag <? 0 then
        Cache a (max_count c) interval' idx (end_idx c) decree (end_decree c)
      else if interval' =? 1 then
        Cache a (max_count c) interval' idx idx decree decree
      else
        Cache a (max_count c) interval' (start_idx c) (end_idx c) (start_decree c) (end_decree c)).

Definition pop_min (c : mutation_cache) : outcome (option mutation_ptr * mutation_cache) :=
  if interval c <=? 0 then Ret (None, c)
  else
    let* mu := array_get (array c) (start_idx c) in
    let a := array_set (array c) (start_idx c) None in
    let interval' := interval c - 1 in
    let* start_idx' := cmod (start_idx c + 1) (max_count c) in
    Ret (mu,
      if interval' =? 0 then
        Cache a (max_count c) interval' start_idx' start_idx' (start_decree c) (start_decree c)
      else
        Cache a (max_count c) interval' start_idx' (end_idx c) (start_decree c + 1) (end_decree c)).

Definition get_mutation_by_decree (decree : Z) (c : mutation_cache) : outcome (option mutation_ptr) :=
  if (decree <? start_decree c) || (decree >? end_decree c) then Ret None
  else
    let* idx := cmod (start_idx c + (decree - start_decree c) + max_count c) (max_count c) in
    array_get (array c) idx.

(** ** Invariant *)

(** The slot of a decree, also for decrees outside the window. *)
Definition slot_idx (c : mutation_cache) (d : Z) : Z :=
  (start_idx c + (d - start_decree c)) mod max_count c.

Definition slot (c : mutation_cache) (d : Z) : option mutation_ptr :=
  default None (array c !! Z.to_nat (slot_idx c d)).

Record cache_wf (c : mutation_cache) : Prop := CacheWf {
  wf_max : 0 < max_count c < 2 ^ 30;
  wf_len : length (array c) = Z.to_nat (max_count c);
  wf_interval : 0 <= interval c <= max_count c;
  wf_start_idx : 0 <= start_idx c < max_count c;
  wf_window : end_decree c = start_decree c + Z.max 0 (interval c - 1);
  wf_end_idx : end_idx c = slot_idx c (end_decree c);
  (* slots after the window are null *)
  wf_null d : start_decree c + interval c <= d < start_decree c + max_count c -> slot c d = None
}.

(** What the cache stores at a decree. *)
Definition win (c : mutation_cache) (d : Z) : option mutation_ptr :=
  if (start_decree c <=? d) && (d <? start_decree c + interval c) then slot c d else None.

(** Every stored pointer is a live object, whose decree is the slot's decree. *)
Definition heap_ok (h : heap) (c : mutation_cache) : Prop :=
  forall d p, win c d = Some p -> exists m, h !! p = Some m /\ get_decree m = d.

(** ** Slots *)

Lemma slot_idx_range c d : cache_wf c -> 0 <= slot_idx c d < max_count c.
Proof. intros [H]. apply Z.mod_pos_bound. lia. Qed.

Lemma slot_idx_inj c d d' :
  cache_wf c -> Z.abs (d - d') < max_count c -> slot_idx c d = slot_idx c d' -> d = d'.
Proof.
  intros Hwf Hd E. pose proof (wf_max c Hwf). unfold slot_idx in E.
  assert ((d - d') mod max_count c = 0) as H0.
  { replace (d - d') with ((start_idx c + (d - start_decree c)) - (start_idx c + (d' - start_decree c))) by lia.
    rewrite Zminus_mod, E, Z.sub_diag. apply Z.mod_0_l. lia. }
  apply Z.mod_divide in H0 as [k Hk]; [|lia]. assert (k = 0) by nia. lia.
Qed.

Lemma slot_idx_shift c d k : max_count c <> 0 -> slot_idx c (d + k * max_count c) = slot_idx c d.
Proof.
  intros. unfold slot_idx.
  replace (start_idx c + (d + k * max_count c - start_decree c))
    with (start_idx c + (d - start_decree c) + k * max_count c) by lia.
  by apply Z_mod_plus_full.
Qed.

Lemma array_get_slot c d : cache_wf c -> array_get (array c) (slot_idx c d) = Ret (slot c d).
Proof.
  intros Hwf. pose proof (slot_idx_range c d Hwf). pose proof (wf_len c Hwf).
  unfold array_get, slot. destruct (Z.ltb_spec (slot_idx c d) 0); [lia|].
  destruct (array c !! Z.to_nat (slot_idx c d)) eqn:E; [done|].
  apply lookup_ge_None in E. lia.
Qed.

Lemma win_slot c d : start_decree c <= d < start_decree c + interval c -> win c d = slot c d.
Proof.
  intros. unfold win. destruct (Z.leb_spec (start_decree c) d), (Z.ltb_spec d (start_decree c + interval c)); try lia; done.
Qed.

Lemma win_outside c d : ~ (start_decree c <= d < start_decree c + interval c) -> win c d = None.
Proof.
  intros. unfold win. destruct (Z.leb_spec (start_decree c) d), (Z.ltb_spec d (start_decree c + interval c)); try lia; done.
Qed.

(** Within one turn of the array from the start, slot and window agree. *)
Lemma slot_win c d :
  cache_wf c -> start_decree c <= d < start_decree c + max_count c -> slot c d = win c d.
Proof.
  intros Hwf Hd. destruct (decide (d < start_decree c + interval c)).
  - symmetry. apply win_slot. lia.
  - rewrite win_outside by lia. apply (wf_null c Hwf). lia.
Qed.

(** The same, going back from the end of the window. *)
Lemma slot_win_before c d :
  cache_wf c -> 0 < interval c -> end_decree c - max_count c < d < start_decree c -> slot c d = None.
Proof.
  intros Hwf Hi Hd. pose proof (wf_max c Hwf). pose proof (wf_window c Hwf).
  unfold slot. rewrite <- (slot_idx_shift c d 1) by lia. apply (wf_null c Hwf). lia.
Qed.

Lemma lookup_array_set c d d' v :
  cache_wf c -> Z.abs (d - d') < max_count c ->
  default None (array_set (array c) (slot_idx c d) v !! Z.to_nat (slot_idx c d'))
  = if decide (d' = d) then v else slot c d'.
Proof.
  intros Hwf Hd. pose proof (slot_idx_range c d Hwf). pose proof (slot_idx_range c d' Hwf).
  pose proof (wf_len c Hwf). unfold array_set, slot. destruct (decide (d' = d)) as [->|Hne].
  - rewrite list_lookup_insert_eq by lia. done.
  - rewrite list_lookup_insert_ne; [done|]. intros E.
    apply Hne. symmetry. apply (slot_idx_inj c); [done|done|lia].
Qed.

Lemma length_array_set a i v : length (array_set a i v) = length a.
Proof. apply length_insert. Qed.

(** Reading a cache. *)
Lemma get_mutation_win c d : cache_wf c -> get_mutation_by_decree d c = Ret (win c d).
Proof.
  intros Hwf. pose proof (wf_max c Hwf). pose proof (wf_window c Hwf).
  pose proof (wf_interval c Hwf). pose proof (wf_start_idx c Hwf).
  unfold get_mutation_by_decree, cmod.
  destruct (Z.ltb_spec d (start_decree c)); [cbn; rewrite win_outside by lia; done|].
  destruct (Z.gtb_spec d (end_decree c)); [cbn; rewrite win_outside by lia; done|]. cbn [orb].
  destruct (Z.eqb_spec (max_count c) 0); [lia|]. cbn [obind].
  rewrite Z.rem_mod_nonneg by lia.
  replace (start_idx c + (d - start_decree c) + max_count c) with
    (start_idx c + (d - start_decree c) + 1 * max_count c) by lia.
  rewrite Z_mod_plus_full. change ((start_idx c + (d - start_decree c)) mod max_count c) with (slot_idx c d).
  rewrite array_get_slot by done. f_equal. apply slot_win; [done|lia].
Qed.

(** Building a well-formed cache from an old one whose slots it keeps. *)
Lemma slot_idx_rebase c c' d0 :
  max_count c' = max_count c -> max_count c <> 0 ->
  start_idx c' = slot_idx c d0 -> start_decree c' = d0 ->
  forall d, slot_idx c' d = slot_idx c d.
Proof.
  intros Em Hm Es Ed d. unfold slot_idx in *. rewrite Em, Es, Ed.
  rewrite Z.add_mod_idemp_l by done. f_equal. lia.
Qed.

Lemma slot_empty c d : cache_wf c -> interval c = 0 -> slot c d = None.
Proof.
  intros Hwf Hi. pose proof (wf_max c Hwf).
  pose proof (Z.div_mod (d - start_decree c) (max_count c) ltac:(lia)) as E.
  pose proof (Z.mod_pos_bound (d - start_decree c) (max_count c) ltac:(lia)).
  unfold slot.
  replace d with (start_decree c + (d - start_decree c) mod max_count c
                  + ((d - start_decree c) / max_count c) * max_count c) by lia.
  rewrite slot_idx_shift by lia. apply (wf_null c Hwf). lia.
Qed.

(** ** [put] *)

Lemma put_idx c d :
  cache_wf c -> 0 <= (d - end_decree c) + end_idx c + max_count c ->
  cmod ((d - end_decree c) + end_idx c + max_count c) (max_count c) = Ret (slot_idx c d).
Proof.
  intros Hwf Hpos. pose proof (wf_max c Hwf). unfold cmod.
  destruct (Z.eqb_spec (max_count c) 0); [lia|]. f_equal.
  rewrite Z.rem_mod_nonneg by lia. rewrite (wf_end_idx c Hwf) in *. unfold slot_idx.
  rewrite <- (Z.mul_1_l (max_count c)) at 2. rewrite Z_mod_plus_full.
  rewrite Z.add_mod_idemp_r by lia. f_equal. lia.
Qed.

(** Storing at [d] in a window [start', end'] that covers [d] and the old one. *)
Lemma put_window c d mu start' end' :
  cache_wf c -> start' <= d <= end' -> end' - start' < max_count c ->
  interval c = 0 \/ (start' <= start_decree c /\ end_decree c <= end') ->
  let c' := Cache (array_set (array c) (slot_idx c d) (Some mu)) (max_count c)
              (end' - start' + 1) (slot_idx c start') (slot_idx c end') start' end' in
  cache_wf c' /\ forall d', win c' d' = if decide (d' = d) then Some mu else win c d'.
Proof.
  intros Hwf Hd Hspan Hold c'. pose proof (wf_max c Hwf). pose proof (wf_window c Hwf).
  pose proof (wf_interval c Hwf).
  assert (forall x, slot_idx c' x = slot_idx c x) as Hidx
    by (by apply (slot_idx_rebase c c' start'); cbn; lia).
  assert (forall x, start' <= x < start' + max_count c ->
    slot c' x = if decide (x = d) then Some mu else slot c x) as Hslot.
  { intros x Hx. unfold slot at 1. rewrite Hidx. cbn [array c']. apply lookup_array_set; [done|lia]. }
  assert (forall x, start' <= x < start' + max_count c -> slot c x = win c x) as Hwin.
  { intros x Hx. destruct Hold as [Hz|[Hs He]].
    - rewrite slot_empty, win_outside by (done || lia). done.
    - destruct (decide (interval c = 0)) as [Hz|Hz].
      { rewrite slot_empty, win_outside by (done || lia). done. }
      destruct (decide (x < start_decree c)).
      + rewrite slot_win_before, win_outside by (done || lia). done.
      + apply slot_win; [done|lia]. }
  split.
  - split; cbn [max_count array interval start_idx end_idx start_decree end_decree c'].
    + done.
    + rewrite length_array_set. apply (wf_len c Hwf).
    + lia.
    + by apply slot_idx_range.
    + lia.
    + by rewrite Hidx.
    + intros x Hx. rewrite Hslot, Hwin by lia.
      destruct (decide (x = d)); [lia|]. apply win_outside. lia.
  - intros x. destruct (decide (start' <= x <= end')) as [Hx|Hx].
    + rewrite win_slot by (cbn; lia). rewrite Hslot, Hwin by lia. done.
    + rewrite win_outside by (cbn; lia). destruct (decide (x = d)); [lia|].
      rewrite win_outside by lia. done.
Qed.

(** The width of the window once [d] is stored. *)
Definition new_start (c : mutation_cache) (d : Z) : Z :=
  if interval c =? 0 then d else Z.min d (start_decree c).
Definition new_end (c : mutation_cache) (d : Z) : Z :=
  if interval c =? 0 then d else Z.max d (end_decree c).
Definition span (c : mutation_cache) (d : Z) : Z := new_end c d - new_start c d + 1.

(** [d] is close enough for the 32-bit differences and, on an empty cache, not
    before the last position. *)
Definition put_in_range (c : mutation_cache) (d : Z) : Prop :=
  Z.abs (d - start_decree c) < 2 ^ 31 /\ Z.abs (d - end_decree c) < 2 ^ 31 /\
  (interval c = 0 -> end_decree c <= d).

(** [put] without its bookkeeping. *)
Lemma put_unfold h mu m c :
  cache_wf c -> h !! mu = Some m -> put_in_range c (get_decree m) ->
  put h mu c =
    (if span c (get_decree m) >? max_count c then Ret (ERR_CAPACITY_EXCEEDED, c)
     else
       let* _ := match slot c (get_decree m) with
                 | None => Ret tt
                 | Some o => let* om := deref (h !! o) in
                             CHECK (get_ballot om <=? get_ballot m) (Ret tt)
                 end in
       Ret (ERR_OK, Cache (array_set (array c) (slot_idx c (get_decree m)) (Some mu)) (max_count c)
              (span c (get_decree m)) (slot_idx c (new_start c (get_decree m)))
              (slot_idx c (new_end c (get_decree m)))
              (new_start c (get_decree m)) (new_end c (get_decree m)))).
Proof.
  intros Hwf Hm (Hr1 & Hr2 & Hr3). pose proof (wf_max c Hwf). pose proof (wf_window c Hwf).
  pose proof (wf_interval c Hwf). pose proof (wf_end_idx c Hwf) as Hei.
  pose proof (slot_idx_range c (end_decree c) Hwf) as Her. pose proof (wf_start_idx c Hwf).
  assert (start_idx c = slot_idx c (start_decree c)) as Hsi.
  { unfold slot_idx. rewrite Z.sub_diag, Z.add_0_r, Z.mod_small; lia. }
  unfold put. rewrite Hm. cbn [deref obind]. set (d := get_decree m) in *.
  assert (span c d <= max_count c -> 0 <= (d - end_decree c) + end_idx c + max_count c) as Hidx.
  { unfold span, new_end, new_start. rewrite Hei. destruct (Z.eqb_spec (interval c) 0); lia. }
  assert (forall delta tag, delta + interval c = span c d ->
    (if delta + interval c >? max_count c then Ret (ERR_CAPACITY_EXCEEDED, c)
     else let* idx := cmod ((d - end_decree c) + end_idx c + max_count c) (max_count c) in
          let* old := array_get (array c) idx in tag old idx)
    = if span c d >? max_count c then Ret (ERR_CAPACITY_EXCEEDED, c)
      else tag (slot c d) (slot_idx c d)) as Hcommon.
  { intros delta tag ->. destruct (Z.gtb_spec (span c d) (max_count c)); [done|].
    rewrite put_idx by auto. cbn [obind]. by rewrite array_get_slot. }
  unfold span, new_start, new_end in *. destruct (Z.eqb_spec (interval c) 0) as [E0|E0].
  - rewrite Hcommon by lia. destruct (_ >? max_count c); [done|].
    cbn [Z.gtb Z.ltb Z.compare]. rewrite E0. cbn [Z.add Z.eqb Pos.eqb].
    by replace (d - d + 1) with 1 by lia.
  - destruct (Z.gtb_spec d (end_decree c)).
    + rewrite swrap_small by (cbn; lia). rewrite Hcommon by lia.
      destruct (_ >? max_count c); [done|]. cbn [Z.gtb Z.ltb Z.compare].
      rewrite Z.max_l, Z.min_r by lia. rewrite <- Hsi.
      by replace (interval c + (d - end_decree c)) with (d - start_decree c + 1) by lia.
    + destruct (Z.ltb_spec d (start_decree c)).
      * rewrite swrap_small by (cbn; lia). rewrite Hcommon by lia.
        destruct (_ >? max_count c); [done|]. cbn [Z.gtb Z.ltb Z.compare].
        rewrite Z.max_r, Z.min_l by lia. rewrite <- Hei.
        by replace (interval c + (start_decree c - d)) with (end_decree c - d + 1) by lia.
      * rewrite Hcommon by lia. destruct (_ >? max_count c); [done|].
        cbn [Z.gtb Z.ltb Z.compare]. rewrite Z.add_0_r, Z.max_r, Z.min_r by lia.
        rewrite <- Hei, <- Hsi.
        replace (end_decree c - start_decree c + 1) with (interval c) by lia.
        destruct (Z.eqb_spec (interval c) 1); [|done].
        assert (d = start_decree c) as -> by lia.
        rewrite Hei, <- Hsi. replace (end_decree c) with (start_decree c) by lia.
        by rewrite <- Hsi.
Qed.

Lemma slot_win_new c d :
  cache_wf c -> span c d <= max_count c -> slot c d = win c d.
Proof.
  intros Hwf Hsp. pose proof (wf_max c Hwf). pose proof (wf_window c Hwf).
  pose proof (wf_interval c Hwf).
  unfold span, new_start, new_end in Hsp. destruct (Z.eqb_spec (interval c) 0) as [E|E].
  - rewrite slot_empty, win_outside by (done || lia). done.
  - destruct (decide (d < start_decree c)).
    + rewrite slot_win_before, win_outside by (done || lia). done.
    + apply slot_win; [done|lia].
Qed.

(** The window never shrinks, and an overwritten mutation never has a larger
    ballot than the one that replaces it. *)
Lemma put_ok h mu m c e c' :
  cache_wf c -> h !! mu = Some m -> put_in_range c (get_decree m) ->
  put h mu c = Ret (e, c') ->
  (e = ERR_CAPACITY_EXCEEDED /\ c' = c /\ max_count c < span c (get_decree m)) \/
  (e = ERR_OK /\ span c (get_decree m) <= max_count c /\ cache_wf c' /\
   max_count c' = max_count c /\ interval c' = span c (get_decree m) /\
   start_decree c' = new_start c (get_decree m) /\ end_decree c' = new_end c (get_decree m) /\
   (forall d', win c' d' = if decide (d' = get_decree m) then Some mu else win c d') /\
   (forall o om, win c (get_decree m) = Some o -> h !! o = Some om -> get_ballot om <= get_ballot m)).
Proof.
  intros Hwf Hm Hr. rewrite (put_unfold h mu m c Hwf Hm Hr). set (d := get_decree m) in *.
  destruct (Z.gtb_spec (span c d) (max_count c)) as [Hgt|Hle].
  { intros [= <- <-]. left. auto with lia. }
  intros ([] & Hchk & [= <- <-])%obind_Ret_inv. right.
  rewrite slot_win_new in Hchk by done.
  pose proof (wf_window c Hwf). pose proof (wf_interval c Hwf).
  destruct (put_window c d mu (new_start c d) (new_end c d)) as [Hwf' Hwin]; [done| | |..].
  - unfold new_start, new_end. destruct (Z.eqb_spec (interval c) 0); lia.
  - unfold span in Hle. lia.
  - unfold new_start, new_end. destruct (Z.eqb_spec (interval c) 0); [by left|right; lia].
  - repeat split_and; try done. intros o om Ho Hom. rewrite Ho, Hom in Hchk. cbn in Hchk.
    apply CHECK_Ret_inv in Hchk as [Hb _]. lia.
Qed.

(** With live pointers [put] never runs into undefined behaviour. *)
Lemma put_defined h mu m c :
  cache_wf c -> heap_ok h c -> h !! mu = Some m -> put_in_range c (get_decree m) ->
  put h mu c <> Undef.
Proof.
  intros Hwf Hh Hm Hr. rewrite (put_unfold h mu m c Hwf Hm Hr). set (d := get_decree m) in *.
  destruct (Z.gtb_spec (span c d) (max_count c)) as [Hgt|Hle]; [done|].
  rewrite slot_win_new by done. destruct (win c d) as [o|] eqn:E; [|done].
  destruct (Hh _ _ E) as (om & -> & _). cbn. by destruct (get_ballot om <=? get_ballot m).
Qed.

(** A mutation of a higher ballot already holds the decree of [m]. *)
Definition higher_ballot (h : heap) (c : mutation_cache) (m : mutation) : Prop :=
  exists o om, win c (get_decree m) = Some o /\ h !! o = Some om /\ get_ballot m < get_ballot om.

(** The CHECK of [put] fails exactly on a mutation of a lower ballot. *)
Lemma put_abort h mu m c :
  cache_wf c -> heap_ok h c -> h !! mu = Some m -> put_in_range c (get_decree m) ->
  put h mu c = Abort <-> span c (get_decree m) <= max_count c /\ higher_ballot h c m.
Proof.
  intros Hwf Hh Hm Hr. rewrite (put_unfold h mu m c Hwf Hm Hr). unfold higher_ballot.
  set (d := get_decree m) in *.
  destruct (Z.gtb_spec (span c d) (max_count c)) as [Hgt|Hle]; [split; [done|lia]|].
  rewrite slot_win_new by done. destruct (win c d) as [o|] eqn:E.
  2:{ split; [done|]. intros (_ & o & om & ? & _). done. }
  destruct (Hh _ _ E) as (om & Eom & _). rewrite Eom. cbn [deref obind].
  destruct (Z.leb_spec (get_ballot om) (get_ballot m)); cbn.
  - split; [done|]. intros (_ & o' & om' & [= <-] & E' & ?). rewrite Eom in E'. injection E' as <-. lia.
  - split; [|done]. intros _. split; [lia|]. by exists o, om.
Qed.

Lemma put_heap_ok h mu m c c' :
  heap_ok h c -> h !! mu = Some m ->
  (forall d', win c' d' = if decide (d' = get_decree m) then Some mu else win c d') ->
  heap_ok h c'.
Proof.
  intros Hh Hm Hw d p. rewrite Hw. destruct (decide (d = get_decree m)) as [->|_]; [|apply Hh].
  intros [= <-]. by exists m.
Qed.

(** ** [pop_min] *)

Lemma pop_min_empty c : interval c = 0 -> pop_min c = Ret (None, c).
Proof. intros E. unfold pop_min. by rewrite E. Qed.

(** The array after the oldest slot is cleared. *)
Definition popped (c : mutation_cache) : list (option mutation_ptr) :=
  array_set (array c) (slot_idx c (start_decree c)) None.

Lemma start_idx_slot c : cache_wf c -> start_idx c = slot_idx c (start_decree c).
Proof.
  intros Hwf. pose proof (wf_start_idx c Hwf). unfold slot_idx.
  rewrite Z.sub_diag, Z.add_0_r, Z.mod_small; lia.
Qed.

Lemma pop_min_unfold c :
  cache_wf c -> 0 < interval c ->
  pop_min c = Ret (win c (start_decree c),
    if interval c - 1 =? 0 then
      Cache (popped c) (max_count c) (interval c - 1) (slot_idx c (start_decree c + 1))
        (slot_idx c (start_decree c + 1)) (start_decree c) (start_decree c)
    else
      Cache (popped c) (max_count c) (interval c - 1) (slot_idx c (start_decree c + 1))
        (end_idx c) (start_decree c + 1) (end_decree c)).
Proof.
  intros Hwf Hi. pose proof (wf_max c Hwf). pose proof (start_idx_slot c Hwf) as Hsi.
  pose proof (wf_start_idx c Hwf).
  assert ((start_idx c + 1) mod max_count c = slot_idx c (start_decree c + 1)) as Hn
    by (unfold slot_idx; f_equal; lia).
  unfold pop_min, cmod. destruct (Z.leb_spec (interval c) 0); [lia|].
  destruct (Z.eqb_spec (max_count c) 0); [lia|].
  rewrite Z.rem_mod_nonneg, Hn by lia. rewrite Hsi, array_get_slot by done. cbn [obind].
  rewrite slot_win by (done || lia). done.
Qed.

Lemma lookup_popped c x :
  cache_wf c -> start_decree c <= x < start_decree c + max_count c ->
  default None (popped c !! Z.to_nat (slot_idx c x))
  = if decide (x = start_decree c) then None else win c x.
Proof.
  intros Hwf Hx. unfold popped. rewrite lookup_array_set by (done || lia).
  destruct (decide (x = start_decree c)); [done|]. by apply slot_win.
Qed.

(** Popping the only element leaves an empty cache at the same decree. *)
Lemma pop_last_wf c :
  cache_wf c -> interval c = 1 ->
  cache_wf (Cache (popped c) (max_count c) 0 (slot_idx c (start_decree c + 1))
              (slot_idx c (start_decree c + 1)) (start_decree c) (start_decree c)).
Proof.
  intros Hwf Hi. pose proof (wf_max c Hwf). set (c' := Cache _ _ _ _ _ _ _).
  split; cbn [max_count array interval start_idx end_idx start_decree end_decree c']; auto with lia.
  - unfold popped. rewrite length_array_set. apply (wf_len c Hwf).
  - by apply slot_idx_range.
  - unfold slot_idx at 2. cbn [start_idx start_decree max_count c'].
    rewrite Z.sub_diag, Z.add_0_r, Z.mod_small; [done|by apply slot_idx_range].
  - intros x Hx. assert (slot_idx c' x = slot_idx c (x + 1)) as Ex.
    { unfold slot_idx at 1. cbn [start_idx start_decree max_count c']. unfold slot_idx.
      rewrite Z.add_mod_idemp_l by lia. f_equal. lia. }
    unfold slot. rewrite Ex. cbn [array c'].
    destruct (decide (x + 1 = start_decree c + max_count c)) as [E|Hne].
    + rewrite E, <- (Z.mul_1_l (max_count c)), slot_idx_shift by lia.
      rewrite lookup_popped by (done || lia). by rewrite decide_True.
    + rewrite lookup_popped by (done || lia).
      destruct (decide (x + 1 = start_decree c)); [done|]. apply win_outside. lia.
Qed.

Lemma pop_more_wf c :
  cache_wf c -> 1 < interval c ->
  let c' := Cache (popped c) (max_count c) (interval c - 1) (slot_idx c (start_decree c + 1))
              (end_idx c) (start_decree c + 1) (end_decree c) in
  cache_wf c' /\ forall d, win c' d = if decide (d = start_decree c) then None else win c d.
Proof.
  intros Hwf Hi c'. pose proof (wf_max c Hwf). pose proof (wf_window c Hwf).
  pose proof (wf_interval c Hwf).
  assert (forall x, slot_idx c' x = slot_idx c x) as Hidx
    by (by apply (slot_idx_rebase c c' (start_decree c + 1)); cbn; lia).
  split.
  - split; cbn [max_count array interval start_idx end_idx start_decree end_decree c']; auto with lia.
    + unfold popped. rewrite length_array_set. apply (wf_len c Hwf).
    + by apply slot_idx_range.
    + rewrite Hidx. apply (wf_end_idx c Hwf).
    + intros x Hx. unfold slot. rewrite Hidx. cbn [array c'].
      destruct (decide (x = start_decree c + max_count c)) as [->|Hne].
      * rewrite <- (Z.mul_1_l (max_count c)), slot_idx_shift by lia.
        rewrite lookup_popped by (done || lia). by rewrite decide_True.
      * rewrite lookup_popped by (done || lia).
        destruct (decide (x = start_decree c)); [done|]. apply win_outside. lia.
  - intros x. destruct (decide (start_decree c < x < start_decree c + interval c)).
    + rewrite win_slot by (cbn; lia). unfold slot. rewrite Hidx. apply lookup_popped; [done|lia].
    + rewrite win_outside by (cbn; lia). destruct (decide (x = start_decree c)); [done|].
      symmetry. apply win_outside. lia.
Qed.

Lemma pop_min_spec c :
  cache_wf c -> 0 < interval c ->
  exists c', pop_min c = Ret (win c (start_decree c), c') /\ cache_wf c' /\
    max_count c' = max_count c /\ interval c' = interval c - 1 /\
    start_decree c' = start_decree c + (if interval c =? 1 then 0 else 1) /\
    end_decree c' = end_decree c /\
    (forall d, win c' d = if decide (d = start_decree c) then None else win c d).
Proof.
  intros Hwf Hi. pose proof (wf_window c Hwf). eexists. split; [by apply pop_min_unfold|].
  destruct (Z.eqb_spec (interval c - 1) 0) as [E1|E1], (Z.eqb_spec (interval c) 1); try lia.
  - replace (interval c - 1) with 0 by lia. split; [by apply pop_last_wf|].
    repeat split; cbn; try lia. intros x. rewrite win_outside by (cbn; lia).
    destruct (decide (x = start_decree c)); [done|]. symmetry. apply win_outside. lia.
  - destruct (pop_more_wf c Hwf) as [Hwf' Hw]; [lia|]. done.
Qed.

(** ** [reset] and the constructor *)

Lemma reset_wf d c :
  0 < max_count c < 2 ^ 30 -> length (array c) = Z.to_nat (max_count c) ->
  cache_wf (reset d true c) /\ forall x, win (reset d true c) x = None.
Proof.
  intros Hm Hl. split; [|intros x; apply win_outside; cbn; lia].
  split; cbn; try lia.
  - by rewrite length_map.
  - unfold slot_idx. cbn. rewrite Z.sub_diag. by rewrite Z.mod_0_l by lia.
  - intros x _. unfold slot. cbn. rewrite list_lookup_fmap.
    by destruct (array c !! _).
Qed.

Lemma new_mutation_cache_wf d n :
  0 < n < 2 ^ 30 -> cache_wf (new_mutation_cache d n).
Proof.
  intros Hn. split; cbn; try lia.
  - by rewrite length_replicate.
  - unfold slot_idx. cbn. rewrite Z.sub_diag. by rewrite Z.mod_0_l by lia.
  - intros x _. unfold slot. cbn. destruct (replicate _ _ !! _) eqn:E; [|done].
    apply lookup_replicate in E as [-> _]. done.
Qed.

(** C25. The circular array implements a partial map from decrees to mutations over
    a window of [max_count] decrees: reading is lookup, [pop_min] removes the
    lowest decree, [put] is insertion, refused exactly when the window would
    grow beyond the capacity; only a mutation of a lower ballot than the one it
    replaces stops the process. *)
Theorem mutation_cache_refines_map h c :
  cache_wf c -> heap_ok h c ->
  (forall d, get_mutation_by_decree d c = Ret (win c d)) /\
  (exists c', pop_min c = Ret (win c (start_decree c), c') /\ cache_wf c' /\
     forall d, win c' d = if decide (d = start_decree c) then None else win c d) /\
  (forall mu m, h !! mu = Some m -> put_in_range c (get_decree m) ->
     put h mu c <> Undef /\
     (put h mu c = Abort <-> span c (get_decree m) <= max_count c /\ higher_ballot h c m) /\
     forall e c', put h mu c = Ret (e, c') ->
       (e = ERR_CAPACITY_EXCEEDED /\ c' = c /\ max_count c < span c (get_decree m)) \/
       (e = ERR_OK /\ span c (get_decree m) <= max_count c /\ cache_wf c' /\ heap_ok h c' /\
        forall d, win c' d = if decide (d = get_decree m) then Some mu else win c d)).
Proof.
  intros Hwf Hh. split_and!.
  - intros d. by apply get_mutation_win.
  - pose proof (wf_interval c Hwf). destruct (decide (interval c = 0)) as [Ei|Ei].
    + exists c. rewrite pop_min_empty, win_outside by lia. split_and!; [done|done|].
      intros d. rewrite win_outside by lia. by destruct (decide _).
    + destruct (pop_min_spec c Hwf) as (c' & E & Hwf' & _ & _ & _ & _ & Hw); [lia|]. by exists c'.
  - intros mu m Hm Hr. split_and!; [by eapply put_defined|by apply put_abort|]. intros e c' E.
    destruct (put_ok h mu m c e c' Hwf Hm Hr E) as [H|(? & ? & ? & _ & _ & _ & _ & Hw & _)]; [by left|right].
    split_and!; try done. by eapply put_heap_ok.
Qed.

Lemma mutation_cache_refines_map_witness :
  let m := new_mutation_obj 56 (MutationHeader (Gpid 2 7) 3 12 (-1) 11 1234) in
  put {[ 1%nat := m ]} 1%nat (new_mutation_cache 10 4) <> Undef.
Proof.
  intros m. apply (mutation_cache_refines_map {[ 1%nat := m ]} (new_mutation_cache 10 4)) with m.
  - apply new_mutation_cache_wf. lia.
  - intros d p. rewrite win_outside; [discriminate|cbn; lia].
  - reflexivity.
  - unfold put_in_range. cbn. lia.
Defined.

End MutationCache.
