(* ===== verification/PrepareList.v ===== *)
(** * The prepare list

    Model of [src/replica/prepare_list.{h,cpp}]: the uncommitted suffix of the
    replicated log of one partition, on top of the mutation cache.  [commit]
    hands mutations to the committer in decree order; the committer
    ([replica::execute_mutation]) is a parameter acting on the whole state, so
    that it may change mutations or call back into the list. *)
From S2P Require Import Prelude Mutation MutationCache.

Module PrepareList.
Import Mutation MutationCache.

(** [partition_status] of [idl/metadata.thrift]. *)
Inductive partition_status :=
| PS_INVALID | PS_INACTIVE | PS_ERROR | PS_PRIMARY | PS_SECONDARY
| PS_POTENTIAL_SECONDARY | PS_PARTITION_SPLIT.

#[global] Instance partition_status_eq_dec : EqDecision partition_status.
Proof. solve_decision. Defined.

Inductive commit_type := COMMIT_TO_DECREE_HARD | COMMIT_TO_DECREE_SOFT | COMMIT_ALL_READY.

Section Plist.
(** The rest of the state of the replica that owns the list, which the committer
    may read and change. *)
Context {W : Type}.

(** The list, the heap of mutations it points into, the mutations given to the
    committer so far, oldest first, as they were at that moment, and the owner. *)
Record plist := PList {
  cache : mutation_cache;
  last_committed : Z;        (* _last_committed_decree *)
  objects : heap;
  committed : list mutation;
  owner : W
}.

Definition with_cache (c : mutation_cache) (p : plist) : plist :=
  PList c (last_committed p) (objects p) (committed p) (owner p).

Definition with_last_committed (d : Z) (p : plist) : plist :=
  PList (cache p) d (objects p) (committed p) (owner p).

Definition new_prepare_list (init_decree max_count : Z) (w : W) : plist :=
  PList (new_mutation_cache init_decree max_count) init_decree ∅ [] w.

Definition reset (init_decree : Z) (p : plist) : plist :=
  with_cache (MutationCache.reset init_decree true (cache p)) (with_last_committed init_decree p).

(** [while (min_decree() <= init_decree && count() > 0) pop_min();]  A loop that
    is not finished when its fuel is used up is reported as [Undef]. *)
Fixpoint truncate_loop (fuel : nat) (init_decree : Z) (c : mutation_cache) : outcome mutation_cache :=
  match fuel with
  | O => Undef
  | S fuel' =>
      if (min_decree c <=? init_decree) && (count c >? 0) then
        let* (_, c) := pop_min c in truncate_loop fuel' init_decree c
      else Ret c
  end.

Definition truncate (init_decree : Z) (p : plist) : outcome plist :=
  let* c := truncate_loop (S (Z.to_nat (count (cache p)))) init_decree (cache p) in
  let c := if count c =? 0 then MutationCache.reset init_decree true c else c in
  Ret (with_last_committed init_decree (with_cache c p)).

(** [while ((d - min_decree() >= capacity() || pop_all) &&
            last_committed_decree() > min_decree()) pop_min();]
    Each turn removes a mutation, unless the list is empty: the loop would then
    spin for ever. *)
Fixpoint pop_loop (fuel : nat) (pop_all : bool) (d lcd : Z) (c : mutation_cache)
  : outcome mutation_cache :=
  match fuel with
  | O => Undef
  | S fuel' =>
      if ((d - min_decree c >=? capacity c) || pop_all) && (lcd >? min_decree c) then
        let* (_, c) := pop_min c in pop_loop fuel' pop_all d lcd c
      else Ret c
  end.

Definition pop_committed (pop_all : bool) (d : Z) (p : plist) : outcome plist :=
  let* c := pop_loop (S (Z.to_nat (count (cache p)))) pop_all d (last_committed p) (cache p) in
  Ret (with_cache c p).

Definition plist_put (mu : mutation_ptr) (p : plist) : outcome (error_code * plist) :=
  let* (e, c) := put (objects p) mu (cache p) in Ret (e, with_cache c p).

Section Commit.
(** The committer callback. *)
Context (committer : mutation_ptr -> plist -> outcome plist).

(** [_last_committed_decree++; _committer(mu);] *)
Definition commit_one (mu : mutation_ptr) (m : mutation) (p : plist) : outcome plist :=
  committer mu (PList (cache p) (last_committed p + 1) (objects p) (committed p ++ [m]) (owner p)).

(** [for (d0 = last_committed_decree() + 1; d0 <= d; d0++)], [n] turns left. *)
Fixpoint commit_hard (n : nat) (d0 last_bt : Z) (p : plist) : outcome plist :=
  match n with
  | O => Ret p
  | S n' =>
      let* o := get_mutation_by_decree d0 (cache p) in
      match o with
      | None => Abort
      | Some mu =>
          let* m := deref (objects p !! mu) in
          CHECK (is_logged m) (CHECK (get_ballot m >=? last_bt)
            (let* p := commit_one mu m p in commit_hard n' (d0 + 1) (get_ballot m) p))
      end
  end.

Fixpoint commit_soft (n : nat) (d0 last_bt : Z) (p : plist) : outcome plist :=
  match n with
  | O => Ret p
  | S n' =>
      let* o := get_mutation_by_decree d0 (cache p) in
      match o with
      | None => Ret p
      | Some mu =>
          let* m := deref (objects p !! mu) in
          if is_ready_for_commit m && (get_ballot m >=? last_bt) then
            let* p := commit_one mu m p in commit_soft n' (d0 + 1) (get_ballot m) p
          else Ret p
      end
  end.

(** [while (mu != nullptr && mu->is_ready_for_commit() && ballot >= last_bt)]. *)
Fixpoint commit_ready (fuel : nat) (d0 last_bt : Z) (p : plist) : outcome plist :=
  match fuel with
  | O => Undef
  | S fuel' =>
      let* o := get_mutation_by_decree d0 (cache p) in
      match o with
      | None => Ret p
      | Some mu =>
          let* m := deref (objects p !! mu) in
          if is_ready_for_commit m && (get_ballot m >=? last_bt) then
            let* p := commit_one mu m p in
            commit_ready fuel' (last_committed p + 1) (get_ballot m) p
          else Ret p
      end
  end.

(** [commit(d, ct)]; the loop of [COMMIT_ALL_READY] stops at the latest at the
    first decree after the newest mutation, unless the committer makes further
    mutations ready. *)
Definition commit (d : Z) (ct : commit_type) (p : plist) : outcome plist :=
  if d <=? last_committed p then Ret p
  else
    match ct with
    | COMMIT_TO_DECREE_HARD =>
        commit_hard (Z.to_nat (d - last_committed p)) (last_committed p + 1) 0 p
    | COMMIT_TO_DECREE_SOFT =>
        commit_soft (Z.to_nat (d - last_committed p)) (last_committed p + 1) 0 p
    | COMMIT_ALL_READY =>
        if negb (d =? last_committed p + 1) then Ret p
        else commit_ready (S (Z.to_nat (max_decree (cache p) - last_committed p))) d 0 p
    end.

(** [CHECK_EQ(mutation_cache::put(mu), ERR_OK)]. *)
Definition put_or_die (mu : mutation_ptr) (p : plist) : outcome (error_code * plist) :=
  let* (e, p) := plist_put mu p in CHECK (bool_decide (e = ERR_OK)) (Ret (ERR_OK, p)).

Definition prepare (mu : mutation_ptr) (status : partition_status)
  (pop_all_committed_mutations secondary_commit : bool) (p : plist) : outcome (error_code * plist) :=
  let* m := deref (objects p !! mu) in
  let d := get_decree m in
  let mlcd := last_committed_decree (header m) in
  CHECK (d >? last_committed p)
    match status with
    | PS_PRIMARY =>
        let* p := pop_committed pop_all_committed_mutations d p in
        plist_put mu p
    | PS_SECONDARY | PS_POTENTIAL_SECONDARY =>
        let* p := if secondary_commit then commit mlcd COMMIT_TO_DECREE_HARD p else Ret p in
        let* p := pop_committed pop_all_committed_mutations d p in
        put_or_die mu p
    | PS_INACTIVE =>
        let* p := if mlcd >? max_decree (cache p) then Ret (reset mlcd p)
                  else if mlcd >? last_committed p then commit mlcd COMMIT_TO_DECREE_HARD p
                  else Ret p in
        let* p := pop_committed false d p in
        put_or_die mu p
    | _ => Abort
    end.

End Commit.

(** ** Invariant *)

(** The cache is well formed and its pointers live; an empty list sits exactly
    at the committed point, a non-empty one reaches it. *)
Record plist_wf (p : plist) : Prop := PListWf {
  pwf_cache : cache_wf (cache p);
  pwf_heap : heap_ok (objects p) (cache p);
  pwf_point : if interval (cache p) =? 0 then start_decree (cache p) = last_committed p
              else last_committed p <= end_decree (cache p)
}.

(** A mutation at decree [d] that a commit may take. *)
Definition ready_at (p : plist) (d : Z) : Prop :=
  exists q m, win (cache p) d = Some q /\ objects p !! q = Some m /\ is_ready_for_commit m = true.

(** What is required of a committer: it keeps the invariant, does not move the
    committed point or rewrite history, makes no other mutation ready, and has
    no undefined behaviour.  It may put and pop mutations. *)
Record committer_ok (committer : mutation_ptr -> plist -> outcome plist) : Prop := CommitterOk {
  cok_defined mu p : plist_wf p -> committer mu p <> Undef;
  cok_wf mu p p' : plist_wf p -> committer mu p = Ret p' -> plist_wf p';
  cok_point mu p p' : plist_wf p -> committer mu p = Ret p' ->
    last_committed p' = last_committed p /\ committed p' = committed p;
  cok_ready mu p p' d : plist_wf p -> committer mu p = Ret p' ->
    last_committed p < d -> ready_at p' d -> ready_at p d
}.

(** On a secondary or inactive replica the committer leaves the list alone, and
    the decrees of the mutations in memory as well. *)
Definition committer_quiet (committer : mutation_ptr -> plist -> outcome plist) : Prop :=
  forall mu p p', committer mu p = Ret p' -> cache p' = cache p /\
    forall q m, objects p !! q = Some m ->
      exists m', objects p' !! q = Some m' /\ get_decree m' = get_decree m.

Lemma plist_wf_new d n w : 0 < n < 2 ^ 30 -> plist_wf (new_prepare_list d n w).
Proof.
  intros Hn. split; cbn; [by apply new_mutation_cache_wf| |done].
  intros x q. rewrite win_outside by (cbn; lia). done.
Qed.

Lemma plist_wf_reset d p : plist_wf p -> plist_wf (reset d p).
Proof.
  intros [Hc _ _]. destruct (reset_wf d (cache p) (wf_max _ Hc) (wf_len _ Hc)) as [Hwf Hw].
  split; cbn; [done| |done]. intros x q. by rewrite Hw.
Qed.

(** The invariant reads only the decrees of the mutations. *)
Lemma plist_wf_objects p p' :
  cache p' = cache p -> last_committed p' = last_committed p ->
  (forall q m, objects p !! q = Some m ->
     exists m', objects p' !! q = Some m' /\ get_decree m' = get_decree m) ->
  plist_wf p -> plist_wf p'.
Proof.
  intros Ec El Ho [Hc Hh Hp]. split; rewrite ?Ec, ?El; [done| |done].
  intros d q (m & Hm & <-)%Hh. by apply Ho.
Qed.

(** *** Popping *)

(** [c'] is [c] without some of its mutations below [bound]. *)
Record popped_below (bound : Z) (c c' : mutation_cache) : Prop := PoppedBelow {
  pb_wf : cache_wf c';
  pb_max : max_count c' = max_count c;
  pb_start : start_decree c <= start_decree c';
  pb_end : end_decree c' = end_decree c;
  pb_keep d : bound <= d -> win c' d = win c d;
  pb_sub d q : win c' d = Some q -> win c d = Some q
}.

Lemma popped_below_refl b c : cache_wf c -> popped_below b c c.
Proof. by split. Qed.

Lemma popped_below_trans b c1 c2 c3 :
  popped_below b c1 c2 -> popped_below b c2 c3 -> popped_below b c1 c3.
Proof.
  intros [] []. split; try done; try lia; try congruence; auto.
  intros d Hd. rewrite pb_keep1, pb_keep0; done.
Qed.

Lemma pop_min_popped b c :
  cache_wf c -> 0 < interval c -> start_decree c < b ->
  exists o c', pop_min c = Ret (o, c') /\ popped_below b c c' /\ interval c' = interval c - 1.
Proof.
  intros Hwf Hi Hb. destruct (pop_min_spec c Hwf Hi) as (c' & E & Hwf' & Hm & Hi' & Hs & He & Hw).
  exists (win c (start_decree c)), c'. split_and!; [done| |done]. split; try done.
  - rewrite Hs. destruct (interval c =? 1); lia.
  - intros d Hd. rewrite Hw. by rewrite decide_False by lia.
  - intros d q. rewrite Hw. by destruct (decide (d = start_decree c)).
Qed.

(** The pop loop of [prepare] terminates and removes only committed mutations. *)
Lemma pop_loop_spec fuel pop_all d lcd c :
  cache_wf c -> (if interval c =? 0 then start_decree c = lcd else lcd <= end_decree c) ->
  (Z.to_nat (interval c) < fuel)%nat ->
  exists c', pop_loop fuel pop_all d lcd c = Ret c' /\ popped_below lcd c c' /\
    (if interval c' =? 0 then start_decree c' = lcd else lcd <= end_decree c') /\
    (0 < interval c -> 0 < interval c') /\
    ((d - start_decree c' >= capacity c' \/ pop_all = true) -> lcd <= start_decree c').
Proof.
  revert c. induction fuel as [|fuel IH]; intros c Hwf Hp Hf; [lia|].
  cbn [pop_loop]. unfold min_decree, capacity. pose proof (wf_interval c Hwf).
  pose proof (wf_window c Hwf).
  destruct (((d - start_decree c >=? max_count c) || pop_all) && (lcd >? start_decree c)) eqn:E.
  - apply andb_true_iff in E as [_ E]. apply Z.gtb_gt in E.
    destruct (Z.eqb_spec (interval c) 0) as [|Hi]; [lia|].
    destruct (pop_min_popped lcd c Hwf) as (o & c1 & E1 & Hpop & Hi1); [lia..|].
    rewrite E1. cbn [obind]. destruct (IH c1) as (c' & E' & Hpop' & Hp' & Hpos & Hc').
    + apply Hpop.
    + rewrite (pb_end _ _ _ Hpop). destruct (Z.eqb_spec (interval c1) 0); lia.
    + lia.
    + exists c'. split_and!; try done; [by eapply popped_below_trans|]. intros _. apply Hpos. lia.
  - exists c. split_and!; [done|by apply popped_below_refl|done|done|].
    intros Hc. destruct (decide (lcd <= start_decree c)); [done|].
    rewrite (proj2 (Z.gtb_gt lcd (start_decree c))), andb_true_r in E by lia.
    apply orb_false_iff in E as [E ->]. rewrite Z.geb_leb in E. destruct Hc as [Hc|]; [lia|done].
Qed.

Lemma pop_committed_spec pop_all d p :
  plist_wf p ->
  exists p', pop_committed pop_all d p = Ret p' /\ plist_wf p' /\
    popped_below (last_committed p) (cache p) (cache p') /\
    p' = with_cache (cache p') p /\ (0 < interval (cache p) -> 0 < interval (cache p')) /\
    (d - start_decree (cache p') >= capacity (cache p') \/ pop_all = true ->
     last_committed p <= start_decree (cache p')).
Proof.
  intros [Hc Hh Hp]. pose proof (wf_interval _ Hc).
  destruct (pop_loop_spec (S (Z.to_nat (count (cache p)))) pop_all d (last_committed p) (cache p))
    as (c' & E & Hpop & Hp' & Hpos & Hfull); [done|done|unfold count; lia|].
  exists (with_cache c' p). unfold pop_committed. rewrite E. split_and!; try done.
  split; [apply Hpop| |done]. intros x q Hq. apply Hh. by eapply pb_sub.
Qed.

Lemma truncate_loop_spec fuel d c :
  cache_wf c -> (Z.to_nat (interval c) < fuel)%nat ->
  exists c', truncate_loop fuel d c = Ret c' /\ popped_below (d + 1) c c' /\
    (interval c' = 0 \/ d < start_decree c').
Proof.
  revert c. induction fuel as [|fuel IH]; intros c Hwf Hf; [lia|].
  cbn [truncate_loop]. unfold min_decree, count. pose proof (wf_interval c Hwf).
  destruct (Z.leb_spec (start_decree c) d), (Z.gtb_spec (interval c) 0); cbn [andb].
  - destruct (pop_min_popped (d + 1) c Hwf) as (o & c1 & E1 & Hpop & Hi1); [lia..|].
    rewrite E1. cbn [obind]. destruct (IH c1) as (c' & E' & Hpop' & Hend); [apply Hpop|lia|].
    exists c'. split_and!; [done|by eapply popped_below_trans|done].
  - exists c. split_and!; [done|by apply popped_below_refl|left; lia].
  - exists c. split_and!; [done|by apply popped_below_refl|right; lia].
  - exists c. split_and!; [done|by apply popped_below_refl|right; lia].
Qed.

(** [truncate] drops exactly the mutations up to [d] and commits at [d]. *)
Theorem truncate_spec d p :
  plist_wf p ->
  exists p', truncate d p = Ret p' /\ plist_wf p' /\ last_committed p' = d /\
    objects p' = objects p /\ committed p' = committed p /\
    (forall x, win (cache p') x = if x <=? d then None else win (cache p) x).
Proof.
  intros [Hc Hh Hp]. pose proof (wf_interval _ Hc).
  destruct (truncate_loop_spec (S (Z.to_nat (count (cache p)))) d (cache p) Hc)
    as (c' & E & Hpop & Hend); [unfold count; lia|].
  pose proof (pb_wf _ _ _ Hpop) as Hc'.
  destruct (reset_wf d c' (wf_max _ Hc') (wf_len _ Hc')) as [Hrw Hrn].
  assert (forall x, win c' x = if x <=? d then None else win (cache p) x) as Hw.
  { intros x. destruct (Z.leb_spec x d) as [Hx|Hx].
    - apply win_outside. destruct Hend; lia.
    - apply (pb_keep _ _ _ Hpop). lia. }
  eexists. unfold truncate. rewrite E. cbn [obind]. split; [done|].
  unfold count. destruct (Z.eqb_spec (interval c') 0) as [Ei|Ei].
  - cbn. split_and!; [|done..|].
    + split; [done| |done]. intros x q. cbn. by rewrite Hrn.
    + intros x. rewrite Hrn, <- Hw, win_outside by lia. done.
  - cbn. split_and!; try done. split; cbn; [done| |].
    + intros x q Hq. apply Hh. by eapply pb_sub.
    + destruct (Z.eqb_spec (interval c') 0); [done|]. pose proof (wf_window _ Hc').
      pose proof (wf_interval _ Hc'). destruct Hend; lia.
Qed.

(** *** Committing *)

(** Mutations of consecutive decrees from [d] on, with ballots that never go
    down from [bt]. *)
Fixpoint ordered_from (d bt : Z) (l : list mutation) : Prop :=
  match l with
  | [] => True
  | m :: l => get_decree m = d /\ bt <= get_ballot m /\ ordered_from (d + 1) (get_ballot m) l
  end.

Definition last_ballot (bt : Z) (l : list mutation) : Z := fold_left (fun _ m => get_ballot m) l bt.

(** [p'] is [p] after the mutations [l], each satisfying [ok], were committed. *)
Record committed_after (ok : mutation -> bool) (bt : Z) (p p' : plist) (l : list mutation) : Prop :=
  CommittedAfter {
  ca_wf : plist_wf p';
  ca_trace : committed p' = committed p ++ l;
  ca_point : last_committed p' = last_committed p + Z.of_nat (length l);
  ca_order : ordered_from (last_committed p + 1) bt l;
  ca_ok : Forall (fun m => ok m = true) l
}.

(** The next mutation cannot be committed after ballot [bt]. *)
Definition blocked (bt : Z) (p : plist) : Prop :=
  forall q m, win (cache p) (last_committed p + 1) = Some q -> objects p !! q = Some m ->
    is_ready_for_commit m = false \/ get_ballot m < bt.

Section CommitTheory.
Context (committer : mutation_ptr -> plist -> outcome plist) (Hok : committer_ok committer).

Lemma win_inside c d q : win c d = Some q -> start_decree c <= d < start_decree c + interval c.
Proof.
  intros E. destruct (decide (start_decree c <= d < start_decree c + interval c)); [done|].
  by rewrite win_outside in E.
Qed.

(** The state in which the committer is called. *)
Lemma commit_point_wf p q l :
  plist_wf p -> win (cache p) (last_committed p + 1) = Some q ->
  plist_wf (PList (cache p) (last_committed p + 1) (objects p) l (owner p)).
Proof.
  intros [Hc Hh Hp] Hq%win_inside. split; cbn; [done|done|].
  pose proof (wf_window _ Hc). destruct (Z.eqb_spec (interval (cache p)) 0); lia.
Qed.

Lemma commit_one_spec p q m :
  plist_wf p -> win (cache p) (last_committed p + 1) = Some q ->
  commit_one committer q m p <> Undef /\
  forall p', commit_one committer q m p = Ret p' ->
    plist_wf p' /\ last_committed p' = last_committed p + 1 /\
    committed p' = committed p ++ [m] /\
    (forall d, last_committed p' < d -> ready_at p' d -> ready_at p d).
Proof.
  intros Hwf Hq. pose proof (commit_point_wf p q (committed p ++ [m]) Hwf Hq) as Hwf1.
  split; [by apply (cok_defined _ Hok)|]. intros p' E.
  destruct (cok_point _ Hok _ _ _ Hwf1 E) as [El Ec]. cbn in El, Ec.
  split_and!; [exact (cok_wf _ Hok _ _ _ Hwf1 E)|done|done|]. intros d Hd Hr.
  rewrite El in Hd. exact (cok_ready _ Hok _ _ _ d Hwf1 E Hd Hr).
Qed.

Lemma committed_after_nil ok bt p : plist_wf p -> committed_after ok bt p p [].
Proof. intros. split; cbn; [done|by rewrite app_nil_r|lia|done|done]. Qed.

Lemma committed_after_cons ok bt p p1 p' m l :
  last_committed p1 = last_committed p + 1 -> committed p1 = committed p ++ [m] ->
  get_decree m = last_committed p + 1 -> bt <= get_ballot m -> ok m = true ->
  committed_after ok (get_ballot m) p1 p' l -> committed_after ok bt p p' (m :: l).
Proof.
  intros El Ec Ed Hb Hm [H1 H2 H3 H4 H5]. split; [done|..].
  - by rewrite H2, Ec, <- app_assoc.
  - rewrite H3, El. cbn [length]. lia.
  - cbn. split_and!; [done|done|]. by rewrite <- El.
  - by constructor.
Qed.

Lemma win_live p d q :
  plist_wf p -> win (cache p) d = Some q -> exists m, objects p !! q = Some m /\ get_decree m = d.
Proof. intros Hwf. apply (pwf_heap _ Hwf). Qed.

Lemma commit_hard_spec n bt p :
  plist_wf p -> commit_hard committer n (last_committed p + 1) bt p <> Undef /\
  forall p', commit_hard committer n (last_committed p + 1) bt p = Ret p' ->
    exists l, committed_after is_logged bt p p' l /\ length l = n.
Proof.
  revert bt p. induction n as [|n IH]; intros bt p Hwf; cbn [commit_hard].
  { split; [done|]. intros p' [= <-]. exists []. split; [by apply committed_after_nil|done]. }
  rewrite get_mutation_win by apply Hwf. cbn [obind].
  destruct (win (cache p) (last_committed p + 1)) as [q|] eqn:Eq; [|done].
  destruct (win_live p _ q Hwf Eq) as (m & Em & Ed). rewrite Em. cbn [deref obind].
  destruct (is_logged m) eqn:Elog; [|done]. rewrite Z.geb_leb.
  destruct (Z.leb_spec bt (get_ballot m)) as [Hb|]; [|done]. cbn [CHECK].
  destruct (commit_one_spec p q m Hwf Eq) as [Hdef Hone].
  destruct (commit_one committer q m p) as [p1| |]; [|done|done]. cbn [obind].
  destruct (Hone p1 eq_refl) as (Hwf1 & El & Ec & _). rewrite <- El.
  destruct (IH (get_ballot m) p1 Hwf1) as [Hdef1 IH1]. split; [done|].
  intros p' E. destruct (IH1 p' E) as (l & Hl & Hn). exists (m :: l).
  split; [by eapply committed_after_cons|cbn; lia].
Qed.

(** The guard shared by the soft and the all-ready loop. *)
Lemma ready_guard m bt :
  is_ready_for_commit m && (get_ballot m >=? bt) = false ->
  is_ready_for_commit m = false \/ get_ballot m < bt.
Proof. rewrite Z.geb_leb. destruct (is_ready_for_commit m); [right; cbn in *; lia|by left]. Qed.

Lemma ready_guard_true m bt :
  is_ready_for_commit m && (get_ballot m >=? bt) = true ->
  is_ready_for_commit m = true /\ bt <= get_ballot m.
Proof. rewrite Z.geb_leb. intros [? ?]%andb_true_iff. split; [done|lia]. Qed.

Lemma commit_soft_spec n bt p :
  plist_wf p -> commit_soft committer n (last_committed p + 1) bt p <> Undef /\
  forall p', commit_soft committer n (last_committed p + 1) bt p = Ret p' ->
    exists l, committed_after is_ready_for_commit bt p p' l /\ (length l <= n)%nat /\
      (length l = n \/ blocked (last_ballot bt l) p').
Proof.
  revert bt p. induction n as [|n IH]; intros bt p Hwf; cbn [commit_soft].
  { split; [done|]. intros p' [= <-]. exists []. split_and!; [by apply committed_after_nil|done|by left]. }
  rewrite get_mutation_win by apply Hwf. cbn [obind].
  destruct (win (cache p) (last_committed p + 1)) as [q|] eqn:Eq.
  2:{ split; [done|]. intros p' [= <-]. exists []. split_and!; [by apply committed_after_nil|cbn; lia|].
      right. intros q' m Hq'. by rewrite Eq in Hq'. }
  destruct (win_live p _ q Hwf Eq) as (m & Em & Ed). rewrite Em. cbn [deref obind].
  destruct (is_ready_for_commit m && (get_ballot m >=? bt)) eqn:G.
  2:{ split; [done|]. intros p' [= <-]. exists []. split_and!; [by apply committed_after_nil|cbn; lia|].
      right. intros q' m'. rewrite Eq. intros [= <-]. rewrite Em. intros [= <-]. by apply ready_guard. }
  apply ready_guard_true in G as [Hr Hb]. destruct (commit_one_spec p q m Hwf Eq) as [Hdef Hone].
  destruct (commit_one committer q m p) as [p1| |]; [|done|done]. cbn [obind].
  destruct (Hone p1 eq_refl) as (Hwf1 & El & Ec & _). rewrite <- El.
  destruct (IH (get_ballot m) p1 Hwf1) as [Hdef1 IH1]. split; [done|].
  intros p' E. destruct (IH1 p' E) as (l & Hl & Hn & Hs). exists (m :: l).
  split_and!; [by eapply committed_after_cons|cbn; lia|]. destruct Hs; [left; cbn; lia|by right].
Qed.

(** [fuel] is enough when nothing from [bound] on is ready. *)
Lemma commit_ready_spec fuel bt p bound :
  plist_wf p -> (forall d, bound <= d -> ~ ready_at p d) -> last_committed p < bound ->
  (Z.to_nat (bound - last_committed p) <= fuel)%nat ->
  commit_ready committer fuel (last_committed p + 1) bt p <> Undef /\
  forall p', commit_ready committer fuel (last_committed p + 1) bt p = Ret p' ->
    exists l, committed_after is_ready_for_commit bt p p' l /\ blocked (last_ballot bt l) p'.
Proof.
  revert bt p. induction fuel as [|fuel IH]; intros bt p Hwf Hbound Hlt Hf; [lia|]. cbn [commit_ready].
  rewrite get_mutation_win by apply Hwf. cbn [obind].
  destruct (win (cache p) (last_committed p + 1)) as [q|] eqn:Eq.
  2:{ split; [done|]. intros p' [= <-]. exists []. split; [by apply committed_after_nil|].
      intros q' m Hq'. by rewrite Eq in Hq'. }
  destruct (win_live p _ q Hwf Eq) as (m & Em & Ed). rewrite Em. cbn [deref obind].
  destruct (is_ready_for_commit m && (get_ballot m >=? bt)) eqn:G.
  2:{ split; [done|]. intros p' [= <-]. exists []. split; [by apply committed_after_nil|].
      intros q' m'. rewrite Eq. intros [= <-]. rewrite Em. intros [= <-]. by apply ready_guard. }
  apply ready_guard_true in G as [Hr Hb]. destruct (commit_one_spec p q m Hwf Eq) as [Hdef Hone].
  assert (last_committed p + 1 < bound) as Hlt1.
  { destruct (decide (last_committed p + 1 < bound)); [done|].
    destruct (Hbound (last_committed p + 1)); [lia|]. by exists q, m. }
  destruct (commit_one committer q m p) as [p1| |]; [|done|done]. cbn [obind].
  destruct (Hone p1 eq_refl) as (Hwf1 & El & Ec & Hrd).
  destruct (IH (get_ballot m) p1 Hwf1) as [Hdef1 IH1]; [|lia|lia|].
  { intros d Hd Hr'. apply (Hbound d Hd), Hrd; [lia|done]. }
  split; [done|]. intros p' E. destruct (IH1 p' E) as (l & Hl & Hs). exists (m :: l).
  split; [by eapply committed_after_cons|done].
Qed.

Lemma not_ready_after p d : plist_wf p -> end_decree (cache p) < d -> ~ ready_at p d.
Proof.
  intros Hwf Hd (q & m & Hq%win_inside & _). pose proof (wf_window _ (pwf_cache _ Hwf)). lia.
Qed.

Lemma plist_lcd_le_end p : plist_wf p -> last_committed p <= end_decree (cache p).
Proof.
  intros [Hc _ Hp]. pose proof (wf_window _ Hc).
  destruct (Z.eqb_spec (interval (cache p)) 0); lia.
Qed.

(** A committer that does not stop the process. *)
Definition committer_returns : Prop := forall mu q, plist_wf q -> committer mu q <> Abort.

Lemma commit_one_returns p q m :
  committer_returns -> plist_wf p -> win (cache p) (last_committed p + 1) = Some q ->
  exists p1, commit_one committer q m p = Ret p1 /\ plist_wf p1 /\ last_committed p1 = last_committed p + 1.
Proof.
  intros Hr Hwf Hq. destruct (commit_one_spec p q m Hwf Hq) as [H1 H2].
  pose proof (Hr q _ (commit_point_wf p q (committed p ++ [m]) Hwf Hq)) as H3. unfold commit_one in *.
  destruct (committer q _) as [p1| |]; [|done|done]. destruct (H2 p1 eq_refl) as (? & ? & _). by exists p1.
Qed.

Lemma commit_soft_returns n bt p :
  committer_returns -> plist_wf p -> commit_soft committer n (last_committed p + 1) bt p <> Abort.
Proof.
  intros Hr. revert bt p. induction n as [|n IH]; intros bt p Hwf; cbn [commit_soft]; [done|].
  rewrite get_mutation_win by apply Hwf. cbn [obind].
  destruct (win (cache p) (last_committed p + 1)) as [q|] eqn:Eq; [|done].
  destruct (win_live p _ q Hwf Eq) as (m & Em & Ed). rewrite Em. cbn [deref obind].
  destruct (_ && _); [|done]. destruct (commit_one_returns p q m Hr Hwf Eq) as (p1 & -> & Hwf1 & <-).
  by apply IH.
Qed.

Lemma commit_ready_returns fuel bt p :
  committer_returns -> plist_wf p -> commit_ready committer fuel (last_committed p + 1) bt p <> Abort.
Proof.
  intros Hr. revert bt p. induction fuel as [|n IH]; intros bt p Hwf; cbn [commit_ready]; [done|].
  rewrite get_mutation_win by apply Hwf. cbn [obind].
  destruct (win (cache p) (last_committed p + 1)) as [q|] eqn:Eq; [|done].
  destruct (win_live p _ q Hwf Eq) as (m & Em & Ed). rewrite Em. cbn [deref obind].
  destruct (_ && _); [|done]. destruct (commit_one_returns p q m Hr Hwf Eq) as (p1 & -> & Hwf1 & _).
  by apply IH.
Qed.

(** The mutations [l] are in the list from decree [d] on, logged and with
    ballots that never go down from [bt]. *)
Fixpoint logged_run (p : plist) (d bt : Z) (l : list mutation) : Prop :=
  match l with
  | [] => True
  | m :: l => (exists q, win (cache p) d = Some q /\ objects p !! q = Some m) /\ is_logged m = true /\
              bt <= get_ballot m /\ logged_run p (d + 1) (get_ballot m) l
  end.

(** A committer that leaves the mutations as they are. *)
Definition committer_silent : Prop := forall mu q q', committer mu q = Ret q' ->
  cache q' = cache q /\ objects q' = objects q.

Lemma logged_run_eq p p' d bt l :
  cache p' = cache p -> objects p' = objects p -> logged_run p d bt l -> logged_run p' d bt l.
Proof.
  intros Ec Eo. revert d bt. induction l as [|m l IH]; intros d bt; cbn; [done|]. rewrite Ec, Eo.
  intros (? & ? & ? & ?). auto.
Qed.

Lemma commit_hard_returns l bt p :
  committer_returns -> committer_silent -> plist_wf p -> logged_run p (last_committed p + 1) bt l ->
  commit_hard committer (length l) (last_committed p + 1) bt p <> Abort.
Proof.
  intros Hr Hq. revert bt p. induction l as [|m l IH]; intros bt p Hwf; cbn [commit_hard length logged_run]; [done|].
  intros ((q & Eq & Em) & Hlog & Hb & Hl). rewrite get_mutation_win by apply Hwf. rewrite Eq. cbn [obind].
  rewrite Em. cbn [deref obind]. rewrite Hlog, Z.geb_leb. destruct (Z.leb_spec bt (get_ballot m)); [|lia]. cbn [CHECK].
  destruct (commit_one_returns p q m Hr Hwf Eq) as (p1 & E1 & Hwf1 & El). rewrite E1. cbn [obind].
  destruct (Hq _ _ _ E1) as [Hc Ho]. cbn in Hc, Ho. rewrite <- El. apply IH; [done|]. rewrite El.
  by apply (logged_run_eq p).
Qed.

(** What a commit that returns did. *)
Lemma commit_spec d ct p :
  plist_wf p ->
  commit committer d ct p <> Undef /\
  forall p', commit committer d ct p = Ret p' ->
  exists l,
    committed_after (match ct with COMMIT_TO_DECREE_HARD => is_logged | _ => is_ready_for_commit end)
      0 p p' l /\
    match ct with
    | COMMIT_TO_DECREE_HARD => last_committed p' = Z.max d (last_committed p)
    | COMMIT_TO_DECREE_SOFT => last_committed p' = Z.max d (last_committed p) \/
        (last_committed p' < d /\ blocked (last_ballot 0 l) p')
    | COMMIT_ALL_READY => if d =? last_committed p + 1 then blocked (last_ballot 0 l) p' else p' = p
    end.
Proof.
  intros Hwf. unfold commit, max_decree. pose proof (plist_lcd_le_end p Hwf).
  destruct (Z.leb_spec d (last_committed p)) as [Hd|Hd].
  { split; [done|]. intros p' [= <-]. exists []. split; [by apply committed_after_nil|].
    destruct ct; [lia|left; lia|]. by destruct (Z.eqb_spec d (last_committed p + 1)); [lia|]. }
  destruct ct.
  - destruct (commit_hard_spec (Z.to_nat (d - last_committed p)) 0 p Hwf) as [H1 H2].
    split; [done|]. intros p' E. destruct (H2 p' E) as (l & Hl & Hn). exists l.
    split; [done|]. rewrite (ca_point _ _ _ _ _ Hl). lia.
  - destruct (commit_soft_spec (Z.to_nat (d - last_committed p)) 0 p Hwf) as [H1 H2].
    split; [done|]. intros p' E. destruct (H2 p' E) as (l & Hl & Hn & Hs). exists l.
    split; [done|]. rewrite (ca_point _ _ _ _ _ Hl). destruct Hs; [left; lia|].
    destruct (decide (length l = Z.to_nat (d - last_committed p))); [left; lia|right; split; [lia|done]].
  - destruct (Z.eqb_spec d (last_committed p + 1)) as [->|]; cbn [negb].
    + destruct (commit_ready_spec (S (Z.to_nat (end_decree (cache p) - last_committed p))) 0 p
                  (end_decree (cache p) + 1) Hwf) as [H1 H2]; [|lia|lia|done].
      intros x Hx. apply not_ready_after; [done|lia].
    + split; [done|]. intros p' [= <-]. exists []. split; [by apply committed_after_nil|done].
Qed.

Lemma logged_run_prefix p d bt l n : logged_run p d bt l -> logged_run p d bt (take n l).
Proof.
  revert d bt n. induction l as [|m l IH]; intros d bt [|n]; cbn; try done.
  intros (? & ? & ? & ?). auto.
Qed.


End CommitTheory.

(** *** Preparing *)

Lemma commit_hard_quiet committer n d0 bt p p' :
  committer_quiet committer -> commit_hard committer n d0 bt p = Ret p' ->
  cache p' = cache p /\ forall q m, objects p !! q = Some m ->
    exists m', objects p' !! q = Some m' /\ get_decree m' = get_decree m.
Proof.
  intros Hq. revert d0 bt p. induction n as [|n IH]; intros d0 bt p; cbn [commit_hard].
  { intros [= <-]. split; [done|eauto]. }
  intros ([q|] & _ & E)%obind_Ret_inv; [|done].
  apply obind_Ret_inv in E as (m & _ & E).
  apply CHECK_Ret_inv in E as [_ E]. apply CHECK_Ret_inv in E as [_ E].
  apply obind_Ret_inv in E as (p1 & E1 & E). apply Hq in E1 as [Ec1 Eo1].
  destruct (IH _ _ _ E) as [Ec Eo]. split; [by rewrite Ec, Ec1|].
  intros x mx Hx. destruct (Eo1 x mx Hx) as (m1 & H1 & D1).
  destruct (Eo x m1 H1) as (m2 & H2 & D2). exists m2. split; [done|congruence].
Qed.

(** The part of a list from [b] on is kept, and nothing is added. *)
Definition kept (b : Z) (c c' : mutation_cache) : Prop :=
  (forall d, b <= d -> win c' d = win c d) /\ (forall d q, win c' d = Some q -> win c d = Some q).

(** Storing a mutation after the committed point. *)
Lemma plist_put_spec p mu m :
  plist_wf p -> objects p !! mu = Some m -> last_committed p < get_decree m ->
  Z.abs (get_decree m - start_decree (cache p)) < 2 ^ 31 ->
  Z.abs (get_decree m - end_decree (cache p)) < 2 ^ 31 ->
  plist_put mu p <> Undef /\
  forall e p', plist_put mu p = Ret (e, p') ->
    plist_wf p' /\ last_committed p' = last_committed p /\ committed p' = committed p /\
    ((e = ERR_CAPACITY_EXCEEDED /\ p' = p /\ max_count (cache p) < span (cache p) (get_decree m)) \/
     (e = ERR_OK /\ forall d, win (cache p') d =
        if decide (d = get_decree m) then Some mu else win (cache p) d)).
Proof.
  intros Hwf Hm Hlt Hs He. pose proof Hwf as [Hc Hh Hp].
  assert (put_in_range (cache p) (get_decree m)) as Hr.
  { split_and!; [done|done|]. intros Hi. pose proof (wf_window _ Hc). rewrite Hi in Hp.
    cbn in Hp. lia. }
  unfold plist_put. pose proof (put_defined (objects p) mu m (cache p) Hc Hh Hm Hr) as Hdef.
  destruct (put (objects p) mu (cache p)) as [[e c']| |] eqn:E; [|done|done]. cbn [obind].
  split; [done|]. intros e' p' [= <- <-].
  destruct (put_ok _ _ _ _ _ _ Hc Hm Hr E) as [(-> & -> & Hsp)|(-> & Hsp & Hc' & _ & Hi' & _ & He' & Hw & _)].
  - split_and!; [by destruct p|done|done|]. left. by destruct p.
  - split_and!; [|done|done|by right]. split; cbn; [done|by eapply put_heap_ok|].
    rewrite He', Hi'. unfold span, new_end, new_start. pose proof (plist_lcd_le_end p Hwf).
    destruct (Z.eqb_spec (interval (cache p)) 0).
    + destruct (Z.eqb_spec (get_decree m - get_decree m + 1) 0); lia.
    + pose proof (wf_window _ Hc). pose proof (wf_interval _ Hc).
      destruct (Z.eqb_spec (Z.max (get_decree m) (end_decree (cache p))
                  - Z.min (get_decree m) (start_decree (cache p)) + 1) 0); lia.
Qed.

(** The decrees involved fit the 32-bit differences of the cache, and the
    mutation's own header is sane. *)
Definition in_reach (p : plist) (m : mutation) : Prop :=
  Z.abs (get_decree m - start_decree (cache p)) < 2 ^ 30 /\
  0 < get_decree m - last_committed_decree (header m) < 2 ^ 30.

(** Making room and storing: what every branch of [prepare] ends with. *)
Lemma pop_then_put p mu m pop_all :
  plist_wf p -> objects p !! mu = Some m -> last_committed p < get_decree m ->
  Z.abs (get_decree m - start_decree (cache p)) < 2 ^ 30 ->
  (let* p1 := pop_committed pop_all (get_decree m) p in plist_put mu p1) <> Undef /\
  forall e p', (let* p1 := pop_committed pop_all (get_decree m) p in plist_put mu p1) = Ret (e, p') ->
    plist_wf p' /\ last_committed p' = last_committed p /\ committed p' = committed p /\
    ((e = ERR_CAPACITY_EXCEEDED /\ kept (last_committed p) (cache p) (cache p') /\
      max_count (cache p) < Z.max (get_decree m) (end_decree (cache p)) - last_committed p + 1) \/
     (e = ERR_OK /\ exists c, kept (last_committed p) (cache p) c /\
      forall d, win (cache p') d = if decide (d = get_decree m) then Some mu else win c d)).
Proof.
  intros Hwf Hm Hlt Hs.
  destruct (pop_committed_spec pop_all (get_decree m) p Hwf) as (p1 & -> & Hwf1 & Hpop & E1 & _ & Hfull).
  cbn [obind]. pose proof (wf_window _ (pwf_cache _ Hwf)). pose proof (wf_interval _ (pwf_cache _ Hwf)).
  pose proof (wf_window _ (pwf_cache _ Hwf1)). pose proof (wf_interval _ (pwf_cache _ Hwf1)).
  pose proof (pb_start _ _ _ Hpop). pose proof (pb_end _ _ _ Hpop) as Hend.
  pose proof (pb_max _ _ _ Hpop) as Hmax. pose proof (wf_max _ (pwf_cache _ Hwf)).
  assert (last_committed p1 = last_committed p) as El by (by rewrite E1).
  assert (kept (last_committed p) (cache p) (cache p1)) as Hkept by (split; apply Hpop).
  destruct (plist_put_spec p1 mu m Hwf1) as [Hd Hput]; [by rewrite E1|lia|lia|lia|].
  split; [done|]. intros e p' E. destruct (Hput e p' E) as (Hwf' & El' & Ec' & Hres).
  split_and!; [done|lia|by rewrite Ec', E1|].
  destruct Hres as [(-> & -> & Hsp)|(-> & Hw)]; [left|right; eauto].
  split_and!; [done|done|]. unfold span, new_start, new_end, capacity in *.
  destruct (Z.eqb_spec (interval (cache p1)) 0); [lia|].
  destruct (decide (get_decree m - start_decree (cache p1) >= max_count (cache p1))); [|lia].
  specialize (Hfull (or_introl g)). lia.
Qed.

(** The same, with the bounds of the list. *)
Record put_result (p p' : plist) (mu : mutation_ptr) (d : Z) : Prop := PutResult {
  pr_state : p' = with_cache (cache p') p;
  pr_wf : plist_wf p';
  pr_max : max_count (cache p') = max_count (cache p);
  pr_end : end_decree (cache p') = Z.max d (end_decree (cache p));
  pr_win : win (cache p') d = Some mu;
  pr_keep x : x <> d -> last_committed p <= x -> win (cache p') x = win (cache p) x
}.

Lemma pop_put_result p mu m pop_all e p' :
  plist_wf p -> objects p !! mu = Some m -> last_committed p < get_decree m ->
  Z.abs (get_decree m - start_decree (cache p)) < 2 ^ 31 ->
  Z.abs (get_decree m - end_decree (cache p)) < 2 ^ 31 ->
  (let* p1 := pop_committed pop_all (get_decree m) p in plist_put mu p1) = Ret (e, p') ->
  (e = ERR_CAPACITY_EXCEEDED /\ p' = with_cache (cache p') p /\ plist_wf p' /\
   max_count (cache p') = max_count (cache p) /\ end_decree (cache p') = end_decree (cache p) /\
   forall x, last_committed p <= x -> win (cache p') x = win (cache p) x) \/
  (e = ERR_OK /\ put_result p p' mu (get_decree m)).
Proof.
  intros Hwf Hm Hlt Hs He.
  destruct (pop_committed_spec pop_all (get_decree m) p Hwf) as (p1 & -> & Hwf1 & Hpop & E1 & _ & _).
  cbn [obind]. pose proof (wf_window _ (pwf_cache _ Hwf)). pose proof (wf_interval _ (pwf_cache _ Hwf)).
  pose proof (wf_window _ (pwf_cache _ Hwf1)). pose proof (wf_interval _ (pwf_cache _ Hwf1)).
  pose proof (pb_start _ _ _ Hpop). pose proof (pb_end _ _ _ Hpop) as Hend.
  pose proof (plist_lcd_le_end p Hwf) as Hle.
  assert (last_committed p1 = last_committed p /\ objects p1 = objects p) as [El Eo] by (by rewrite E1).
  assert (put_in_range (cache p1) (get_decree m)) as Hr.
  { split_and!; [lia|lia|]. intros Hi. pose proof (pwf_point _ Hwf1) as Hp. rewrite Hi in Hp. cbn in Hp. lia. }
  intros E. destruct (plist_put_spec p1 mu m Hwf1) as [_ Hput]; [by rewrite E1|lia|apply Hr..|].
  destruct (Hput e p' E) as (Hwf' & _ & _ & _). unfold plist_put in E.
  apply obind_Ret_inv in E as ([e1 c1] & E & [= -> <-]). rewrite <- Eo in Hm.
  destruct (put_ok _ _ _ _ _ _ (pwf_cache _ Hwf1) Hm Hr E)
    as [(-> & -> & _)|(-> & _ & Hc' & Hmx & _ & _ & Hend' & Hw & _)].
  - left. cbn in *. split_and!; [done|by rewrite E1|done|apply Hpop|done|apply Hpop].
  - right. split; [done|]. split; cbn in *; [by rewrite E1|done|by rewrite Hmx, (pb_max _ _ _ Hpop)|..].
    + rewrite Hend'. unfold new_end. pose proof (pwf_point _ Hwf1) as Hp. revert Hp.
      destruct (Z.eqb_spec (interval (cache p1)) 0); lia.
    + rewrite Hw. by rewrite decide_True.
    + intros x Hx Hl. rewrite Hw, decide_False by done. by apply Hpop.
Qed.

(** The result of a successful [prepare] of [mu] at decree [d]. *)
Definition stored (p p' : plist) (mu : mutation_ptr) (d : Z) : Prop :=
  win (cache p') d = Some mu /\
  (forall d', d' <> d -> last_committed p' <= d' -> win (cache p') d' = win (cache p) d') /\
  (forall d' q, d' <> d -> win (cache p') d' = Some q -> win (cache p) d' = Some q).

Lemma stored_of_kept p p1 p' mu d c b :
  kept b (cache p) (cache p1) -> kept (last_committed p') (cache p1) c ->
  b <= last_committed p' ->
  (forall x, win (cache p') x = if decide (x = d) then Some mu else win c x) ->
  stored p p' mu d.
Proof.
  intros [K1 S1] [K2 S2] Hb Hw. split_and!.
  - rewrite Hw. by rewrite decide_True.
  - intros x Hx Hl. rewrite Hw, decide_False by done. rewrite K2 by done. apply K1. lia.
  - intros x q Hx. rewrite Hw, decide_False by done. eauto.
Qed.

Lemma kept_refl b c : kept b c c.
Proof. by split. Qed.

(** The branches that must not fail, from a state [p1] that keeps [p]'s list. *)
Lemma pop_then_put_or_die p p1 mu m pop_all :
  plist_wf p1 -> objects p1 !! mu = Some m -> last_committed p1 < get_decree m ->
  Z.abs (get_decree m - start_decree (cache p1)) < 2 ^ 30 ->
  kept (last_committed p1) (cache p) (cache p1) ->
  (let* p2 := pop_committed pop_all (get_decree m) p1 in put_or_die mu p2) <> Undef /\
  forall e p', (let* p2 := pop_committed pop_all (get_decree m) p1 in put_or_die mu p2) = Ret (e, p') ->
    plist_wf p' /\ e = ERR_OK /\ last_committed p' = last_committed p1 /\
    committed p' = committed p1 /\ stored p p' mu (get_decree m).
Proof.
  intros Hwf Hm Hlt Hs Hk. destruct (pop_then_put p1 mu m pop_all Hwf Hm Hlt Hs) as [Hdef Hput].
  destruct (pop_committed pop_all (get_decree m) p1) as [p2| |]; [|done|done]. cbn [obind] in *.
  unfold put_or_die. destruct (plist_put mu p2) as [[e p3]| |]; [|done|done]. cbn [obind].
  destruct (bool_decide_reflect (e = ERR_OK)) as [->|Hne]; [|done]. cbn [CHECK]. split; [done|].
  intros e p' [= <- <-]. destruct (Hput _ _ eq_refl) as (Hwf' & El & Ec & [(? & _)|(_ & c & Hc & Hw)]);
    [done|]. split_and!; try done. apply (stored_of_kept p p1 p3 mu _ c (last_committed p1)); [done|by rewrite El|lia|done].
Qed.

Lemma commit_hard_step committer d p :
  committer_ok committer -> committer_quiet committer -> plist_wf p ->
  commit committer d COMMIT_TO_DECREE_HARD p <> Undef /\
  forall p1, commit committer d COMMIT_TO_DECREE_HARD p = Ret p1 ->
    plist_wf p1 /\ cache p1 = cache p /\ last_committed p1 = Z.max d (last_committed p) /\
    (exists l, committed p1 = committed p ++ l) /\
    (forall q m, objects p !! q = Some m ->
       exists m', objects p1 !! q = Some m' /\ get_decree m' = get_decree m).
Proof.
  intros Hok Hq Hwf. unfold commit. destruct (Z.leb_spec d (last_committed p)) as [Hd|Hd].
  { split; [done|]. intros p1 [= <-]. split_and!; [done|done|lia| |eauto].
    exists []. by rewrite app_nil_r. }
  destruct (commit_hard_spec committer Hok (Z.to_nat (d - last_committed p)) 0 p Hwf) as [H1 H2].
  split; [done|]. intros p1 E. destruct (H2 p1 E) as (l & Hl & Hn).
  destruct (commit_hard_quiet _ _ _ _ _ _ Hq E) as [Hc Ho].
  split_and!; [apply Hl|done| |exists l; apply Hl|done]. rewrite (ca_point _ _ _ _ _ Hl). lia.
Qed.

(** The committed point after a prepare. *)
Definition prepared_point (status : partition_status) (secondary_commit : bool) (m : mutation)
  (p : plist) : Z :=
  match status with
  | PS_INACTIVE => Z.max (last_committed_decree (header m)) (last_committed p)
  | PS_SECONDARY | PS_POTENTIAL_SECONDARY =>
      if secondary_commit then Z.max (last_committed_decree (header m)) (last_committed p)
      else last_committed p
  | _ => last_committed p
  end.

Lemma commit_guarded committer d p :
  (if d >? last_committed p then commit committer d COMMIT_TO_DECREE_HARD p else Ret p)
  = commit committer d COMMIT_TO_DECREE_HARD p.
Proof.
  unfold commit. destruct (Z.gtb_spec d (last_committed p)), (Z.leb_spec d (last_committed p)); lia || done.
Qed.

(** Making room and storing returns, unless a higher ballot is replaced. *)
Lemma pop_then_put_total p mu m pop_all :
  plist_wf p -> objects p !! mu = Some m -> last_committed p < get_decree m ->
  Z.abs (get_decree m - start_decree (cache p)) < 2 ^ 30 ->
  ~ higher_ballot (objects p) (cache p) m ->
  exists e p', (let* p1 := pop_committed pop_all (get_decree m) p in plist_put mu p1) = Ret (e, p').
Proof.
  intros Hwf Hm Hlt Hs Hno. destruct (pop_then_put p mu m pop_all Hwf Hm Hlt Hs) as [Hdef _].
  destruct (pop_committed_spec pop_all (get_decree m) p Hwf) as (p1 & E1 & Hwf1 & Hpop & Ep1 & _).
  pose proof (wf_window _ (pwf_cache _ Hwf)). pose proof (wf_interval _ (pwf_cache _ Hwf)).
  pose proof (wf_window _ (pwf_cache _ Hwf1)). pose proof (wf_interval _ (pwf_cache _ Hwf1)).
  pose proof (pb_start _ _ _ Hpop). pose proof (pb_end _ _ _ Hpop). pose proof (wf_max _ (pwf_cache _ Hwf)).
  assert (objects p1 = objects p) as Eo by (by rewrite Ep1).
  assert (last_committed p1 = last_committed p) as El by (by rewrite Ep1).
  rewrite E1 in *. cbn [obind] in *. unfold plist_put in *.
  destruct (put (objects p1) mu (cache p1)) as [[e c]| |] eqn:E; [by do 2 eexists| |done]. exfalso.
  apply (put_abort _ _ m) in E as [_ (o & om & Hw & Hom & Hb)]; [|apply Hwf1|apply Hwf1|by rewrite Eo|].
  - apply Hno. exists o, om. rewrite <- Eo. split_and!; [by eapply pb_sub|done|done].
  - split_and!; [lia|lia|]. intros Hi. pose proof (pwf_point _ Hwf1) as Hp. rewrite Hi in Hp. cbn in Hp. lia.
Qed.

(** And succeeds when the decrees from the committed point on fit. *)
Lemma pop_then_put_or_die_total p mu m pop_all :
  plist_wf p -> objects p !! mu = Some m -> last_committed p < get_decree m ->
  Z.abs (get_decree m - start_decree (cache p)) < 2 ^ 30 ->
  ~ higher_ballot (objects p) (cache p) m ->
  Z.max (get_decree m) (end_decree (cache p)) - last_committed p + 1 <= max_count (cache p) ->
  exists p', (let* p1 := pop_committed pop_all (get_decree m) p in put_or_die mu p1) = Ret (ERR_OK, p').
Proof.
  intros Hwf Hm Hlt Hs Hno Hfit. destruct (pop_then_put_total p mu m pop_all Hwf Hm Hlt Hs Hno) as (e & p' & E).
  destruct (pop_then_put p mu m pop_all Hwf Hm Hlt Hs) as [_ Hput].
  destruct (Hput e p' E) as (_ & _ & _ & [(_ & _ & ?)|(-> & _)]); [lia|]. exists p'.
  apply obind_Ret_inv in E as (p1 & -> & E). cbn [obind]. unfold put_or_die. by rewrite E.
Qed.

Section PrepareTheory.
Context (committer : mutation_ptr -> plist -> outcome plist)
  (Hok : committer_ok committer) (Hquiet : committer_quiet committer).
Context (mu : mutation_ptr) (m : mutation) (p : plist)
  (Hwf : plist_wf p) (Hm : objects p !! mu = Some m)
  (Hreach : in_reach p m) (Hnew : last_committed p < get_decree m).

(** After the commit of a secondary, or of an inactive replica. *)
Lemma prepare_commit_branch pop_all d :
  d <= last_committed_decree (header m) ->
  (let* p1 := commit committer d COMMIT_TO_DECREE_HARD p in
   let* p2 := pop_committed pop_all (get_decree m) p1 in put_or_die mu p2) <> Undef /\
  forall e p',
    (let* p1 := commit committer d COMMIT_TO_DECREE_HARD p in
     let* p2 := pop_committed pop_all (get_decree m) p1 in put_or_die mu p2) = Ret (e, p') ->
    plist_wf p' /\ e = ERR_OK /\ last_committed p' = Z.max d (last_committed p) /\
    stored p p' mu (get_decree m).
Proof.
  intros Hd. destruct (commit_hard_step committer d p Hok Hquiet Hwf) as [H1 H2].
  destruct (commit committer d COMMIT_TO_DECREE_HARD p) as [p1| |]; [|done|done]. cbn [obind].
  destruct (H2 p1 eq_refl) as (Hwf1 & Ec & El & _ & Ho). destruct (Ho mu m Hm) as (m1 & Hm1 & Ed).
  destruct Hreach as [Hr1 Hr2]. rewrite <- Ed in *.
  destruct (pop_then_put_or_die p p1 mu m1 pop_all Hwf1 Hm1) as [H3 H4]; [lia|by rewrite Ec| |].
  { rewrite Ec. apply kept_refl. }
  split; [done|]. intros e p' E. destruct (H4 e p' E) as (? & ? & El' & _ & ?). by rewrite El', El.
Qed.

Lemma prepare_inactive_reset :
  last_committed_decree (header m) > end_decree (cache p) ->
  let p1 := reset (last_committed_decree (header m)) p in
  plist_wf p1 /\ objects p1 !! mu = Some m /\ last_committed p1 < get_decree m /\
  Z.abs (get_decree m - start_decree (cache p1)) < 2 ^ 30 /\
  kept (last_committed p1) (cache p) (cache p1).
Proof.
  intros Hgt. destruct Hreach as [_ Hr2]. cbn. split_and!; [by apply plist_wf_reset|done|lia|lia|].
  split; intros x; [|intros q]; rewrite win_outside by (cbn; lia); [|done].
  intros Hx. symmetry. apply win_outside. pose proof (wf_window _ (pwf_cache _ Hwf)). lia.
Qed.

Lemma prepare_secondary_branch pop_all (sc : bool) :
  (let* p1 := if sc then commit committer (last_committed_decree (header m))
                     COMMIT_TO_DECREE_HARD p else Ret p in
       let* p2 := pop_committed pop_all (get_decree m) p1 in put_or_die mu p2) <> Undef /\
     forall e p', (let* p1 := if sc then commit committer (last_committed_decree (header m))
                     COMMIT_TO_DECREE_HARD p else Ret p in
       let* p2 := pop_committed pop_all (get_decree m) p1 in put_or_die mu p2) = Ret (e, p') ->
     plist_wf p' /\ e = ERR_OK /\ last_committed p' = prepared_point PS_SECONDARY sc m p /\
     stored p p' mu (get_decree m).
Proof.
  destruct Hreach as [Hr1 _]. destruct sc; [by apply prepare_commit_branch|]. cbn [obind].
  destruct (pop_then_put_or_die p p mu m pop_all) as [H3 H4]; [done..|apply kept_refl|].
  split; [done|]. intros e p' E. destruct (H4 e p' E) as (?&?&?&_&?). done.
Qed.

(** The list in which the mutation is stored: after the commit, or the reset,
    that its header asks for. *)
Definition before_store (status : partition_status) (sc : bool) : outcome plist :=
  let mlcd := last_committed_decree (header m) in
  match status with
  | PS_SECONDARY | PS_POTENTIAL_SECONDARY =>
      if sc then commit committer mlcd COMMIT_TO_DECREE_HARD p else Ret p
  | PS_INACTIVE =>
      if mlcd >? max_decree (cache p) then Ret (reset mlcd p)
      else if mlcd >? last_committed p then commit committer mlcd COMMIT_TO_DECREE_HARD p
      else Ret p
  | _ => Ret p
  end.

(** The facts needed to store into it. *)
Lemma before_store_spec status sc p1 :
  before_store status sc = Ret p1 ->
  exists m1, objects p1 !! mu = Some m1 /\ get_decree m1 = get_decree m /\ plist_wf p1 /\
    last_committed p1 < get_decree m1 /\ Z.abs (get_decree m1 - start_decree (cache p1)) < 2 ^ 30.
Proof.
  destruct Hreach as [Hr1 Hr2].
  assert (commit committer (last_committed_decree (header m)) COMMIT_TO_DECREE_HARD p = Ret p1 ->
    exists m1, objects p1 !! mu = Some m1 /\ get_decree m1 = get_decree m /\ plist_wf p1 /\
    last_committed p1 < get_decree m1 /\ Z.abs (get_decree m1 - start_decree (cache p1)) < 2 ^ 30) as Hc.
  { intros E. destruct (commit_hard_step committer (last_committed_decree (header m)) p Hok Hquiet Hwf) as [_ H2].
    destruct (H2 p1 E) as (Hwf1 & Ec & El & _ & Ho). destruct (Ho mu m Hm) as (m1 & Hm1 & Ed).
    exists m1. rewrite Ed, Ec. split_and!; [done|done|done|lia|done]. }
  assert (p = p1 -> exists m1, objects p1 !! mu = Some m1 /\ get_decree m1 = get_decree m /\ plist_wf p1 /\
    last_committed p1 < get_decree m1 /\ Z.abs (get_decree m1 - start_decree (cache p1)) < 2 ^ 30) as Hid.
  { intros <-. by exists m. }
  assert (Ret p = Ret p1 -> p = p1) as Hinj by congruence.
  unfold before_store. destruct status; try (by intros ?%Hinj%Hid); try (by destruct sc; [|intros ?%Hinj%Hid]).
  destruct (Z.gtb_spec (last_committed_decree (header m)) (max_decree (cache p))).
  - intros [= <-]. destruct prepare_inactive_reset as (H1 & H2 & H3 & H4 & _); [unfold max_decree in *; lia|].
    by exists m.
  - destruct (_ >? _); [done|by intros ?%Hinj%Hid].
Qed.

(** What a prepare that returns did. *)
Lemma prepare_spec status pop_all sc :
  prepare committer mu status pop_all sc p <> Undef /\
  forall e p', prepare committer mu status pop_all sc p = Ret (e, p') ->
    plist_wf p' /\ last_committed p' = prepared_point status sc m p /\
    ((e = ERR_OK /\ stored p p' mu (get_decree m)) \/
     (status = PS_PRIMARY /\ e = ERR_CAPACITY_EXCEEDED /\
      kept (last_committed p) (cache p) (cache p') /\
      max_count (cache p) < Z.max (get_decree m) (end_decree (cache p)) - last_committed p + 1)).
Proof.
  destruct Hreach as [Hr1 Hr2]. unfold prepare. rewrite Hm. cbn [deref obind].
  destruct (Z.gtb_spec (get_decree m) (last_committed p)); [|lia]. cbn [CHECK].
  pose proof (prepare_secondary_branch pop_all sc) as Hsec.
  destruct status; try (split; [done|intros ? ?; done]).
  - destruct (Z.gtb_spec (last_committed_decree (header m)) (max_decree (cache p))) as [Hgt|Hle].
    + destruct prepare_inactive_reset as (Hwf1 & Hm1 & Hl1 & Hs1 & Hk1); [unfold max_decree in *; lia|].
      cbn [obind]. destruct (pop_then_put_or_die _ _ _ _ false Hwf1 Hm1 Hl1 Hs1 Hk1) as [H3 H4].
      split; [done|]. intros e p' E. destruct (H4 e p' E) as (?&?&El&_&?).
      split_and!; [done| |by left]. rewrite El. pose proof (plist_lcd_le_end p Hwf).
      unfold max_decree in *. cbn. lia.
    + rewrite commit_guarded.
      destruct (prepare_commit_branch false (last_committed_decree (header m))) as [H3 H4]; [done|].
      split; [done|]. intros e p' E. destruct (H4 e p' E) as (?&?&?&?). auto.
  - destruct (pop_then_put p mu m pop_all Hwf Hm Hnew Hr1) as [H3 H4]. split; [done|].
    intros e p' E. destruct (H4 e p' E) as (Hwf' & El & _ & [(->&?&?)|(->&c&Hk&Hw)]).
    + split_and!; [done|done|by right].
    + split_and!; [done|done|left]. split; [done|].
      apply (stored_of_kept p p p' mu _ c (last_committed p)); [apply kept_refl|by rewrite El|lia|done].
  - split; [apply Hsec|]. intros e p' E. destruct (proj2 Hsec e p' E) as (?&?&?&?). auto.
  - split; [apply Hsec|]. intros e p' E. destruct (proj2 Hsec e p' E) as (?&?&?&?). auto.
Qed.

Lemma prepare_returns status pop_all sc p1 m1 :
  before_store status sc = Ret p1 -> objects p1 !! mu = Some m1 ->
  status ∈ [PS_PRIMARY; PS_SECONDARY; PS_POTENTIAL_SECONDARY; PS_INACTIVE] ->
  ~ higher_ballot (objects p1) (cache p1) m1 ->
  status = PS_PRIMARY \/
    Z.max (get_decree m) (end_decree (cache p1)) - last_committed p1 + 1 <= max_count (cache p1) ->
  exists e p', prepare committer mu status pop_all sc p = Ret (e, p').
Proof.
  intros E Hm1 Hst Hno Hfit. destruct (before_store_spec _ _ _ E) as (m2 & Hm2 & Ed & Hwf1 & Hl1 & Hs1).
  rewrite Hm1 in Hm2. injection Hm2 as <-. unfold prepare. rewrite Hm. cbn [deref obind].
  destruct (Z.gtb_spec (get_decree m) (last_committed p)); [|lia]. cbn [CHECK].
  unfold before_store in E. rewrite <- Ed in *.
  destruct status; try (by exfalso; set_solver).
  - rewrite E. cbn [obind]. destruct (pop_then_put_or_die_total p1 mu m1 false) as [p' ->]; try done; [|by do 2 eexists].
    by destruct Hfit.
  - injection E as ->. by apply pop_then_put_total.
  - rewrite E. cbn [obind]. destruct (pop_then_put_or_die_total p1 mu m1 pop_all) as [p' ->]; try done; [|by do 2 eexists].
    by destruct Hfit.
  - rewrite E. cbn [obind]. destruct (pop_then_put_or_die_total p1 mu m1 pop_all) as [p' ->]; try done; [|by do 2 eexists].
    by destruct Hfit.
Qed.


End PrepareTheory.

End Plist.
Arguments plist W : clear implicits.

(** ** A concrete list *)

(** Two logged mutations of decrees 11 and 12, of a list committed at 10. *)
Definition sample (d : Z) : mutation :=
  with_flags false 0 0 false false
    (new_mutation_obj 56 (MutationHeader (Gpid 2 7) 3 d (-1) (d - 1) 1234)).

Definition sample_list : plist unit :=
  PList (new_mutation_cache 10 4) 10 {[ 11%nat := sample 11; 12%nat := sample 12 ]} [] ().

Definition no_op_committer (mu : mutation_ptr) (p : plist unit) : outcome (plist unit) := Ret p.

Lemma no_op_committer_ok : committer_ok no_op_committer /\ committer_quiet no_op_committer.
Proof.
  split; [split|].
  - done.
  - by intros mu p p' ? [= <-].
  - by intros mu p p' ? [= <-].
  - by intros mu p p' d ? [= <-].
  - intros mu p p' [= <-]. eauto.
Qed.

Lemma sample_list_wf : plist_wf sample_list.
Proof.
  split; cbn; [apply new_mutation_cache_wf; lia| |done].
  intros x q. rewrite win_outside by (cbn; lia). done.
Qed.

(** [sample_list] with mutation 11 stored. *)
Definition sample_list1 : plist unit :=
  match plist_put 11%nat sample_list with Ret (_, p) => p | _ => sample_list end.

Lemma sample_list1_wf : plist_wf sample_list1.
Proof.
  destruct (plist_put_spec sample_list 11%nat (sample 11) sample_list_wf) as [_ H];
    [done|cbn; lia|cbn; lia|cbn; lia|].
  unfold sample_list1. destruct (plist_put 11%nat sample_list) as [[e p]| |] eqn:E;
    [|exact sample_list_wf|exact sample_list_wf].
  apply (H e p eq_refl).
Qed.

Lemma truncate_spec_witness : exists p', truncate 11 sample_list1 = Ret p' /\ last_committed p' = 11.
Proof.
  destruct (truncate_spec 11 sample_list1) as (p' & H & _ & H1 & _); [exact sample_list1_wf|].
  exists p'. split; [exact H|exact H1].
Defined.



End PrepareList.
