(* ===== verification/MutationQueue.v ===== *)
(** * The mutation queue of a primary replica

    Model of class [mutation_queue] ([src/replica/mutation.{h,cpp}]): client
    writes are batched into mutations, throttled, and held back while a row they
    touch is locked by a write still in two-phase commit.  Row locks live in a
    hash map of iterators into an LRU list; an iterator is the identity of its
    list node. *)
From S2P Require Import Prelude Mutation.

Module MutationQueue.
Import Mutation.

(** The fields of [task_spec] the queue reads. *)
Record task_spec := TaskSpec {
  rpc_request_is_write_operation : bool;
  rpc_request_is_write_allow_batch : bool;
  rpc_request_is_write_idempotent : bool
}.

(** What the queue reads of its replica and of the flags. *)
Record replica_env := ReplicaEnv {
  env_pid : gpid;
  env_ballot : Z;
  atomic_idempotent : bool;
  last_applied_decree : Z;
  FLAGS_row_lock_map_capacity : Z;
  sizeof_mutation_header : Z
}.

(** A node of [_lru_rows]: its identity, the partition hash and the max decree. *)
Record lru_node := LruNode { node_id : nat; row_hash : Z; row_decree : Z }.

Record mutation_queue := MQ {
  current_op_count : Z;
  max_concurrent_op : Z;
  batch_write_disabled : bool;
  pcount : Z;
  pending_mutation : option mutation;
  queue : list mutation;
  blocking_mutations : list mutation;
  row_locks : gmap Z nat;
  lru_rows : list lru_node;
  next_node : nat
}.

Definition new_mutation_queue (p : gpid) (max_op : Z) (batch_disabled : bool) : outcome mutation_queue :=
  CHECK (negb (app_id p =? 0)) (Ret (MQ 0 max_op batch_disabled 0 None [] [] ∅ [] 0)).

(** Field updates. *)
Definition with_work (ops pc : Z) (pend : option mutation) (q b : list mutation) (s : mutation_queue)
  : mutation_queue :=
  MQ ops (max_concurrent_op s) (batch_write_disabled s) pc pend q b (row_locks s) (lru_rows s)
    (next_node s).

Definition with_locks (locks : gmap Z nat) (lru : list lru_node) (n : nat) (s : mutation_queue)
  : mutation_queue :=
  MQ (current_op_count s) (max_concurrent_op s) (batch_write_disabled s) (pcount s)
    (pending_mutation s) (queue s) (blocking_mutations s) locks lru n.

Definition with_pending (p : option mutation) (s : mutation_queue) : mutation_queue :=
  with_work (current_op_count s) (pcount s) p (queue s) (blocking_mutations s) s.

(** ** [replica::new_mutation], [replica::need_make_idempotent] *)

Definition new_mutation (env : replica_env) (d : Z) (candidate : bool) : mutation :=
  let m := new_mutation_obj (sizeof_mutation_header env)
             (MutationHeader (env_pid env) (env_ballot env) d invalid_offset 0 0) in
  with_origin candidate (sync_to_child m) (idem_writer m) m.

Definition need_make_idempotent (env : replica_env) (spec : task_spec) : bool :=
  if negb (atomic_idempotent env) then false else negb (rpc_request_is_write_idempotent spec).

(** ** Promotion *)

(** Pushing a null [_pending_mutation] is a caller's error. *)
Definition promote_pending (s : mutation_queue) : outcome mutation_queue :=
  let* m := deref (pending_mutation s) in
  Ret (with_work (current_op_count s) (pcount s + 1) None (queue s ++ [m]) (blocking_mutations s) s).

Definition try_promote_pending (spec : task_spec) (s : mutation_queue) : outcome mutation_queue :=
  let* m := deref (pending_mutation s) in
  if rpc_request_is_write_allow_batch spec && negb (is_full m) && negb (batch_write_disabled s)
  then Ret s else promote_pending s.

(** ** Row locks *)

Definition applied (env : replica_env) (d : Z) : bool := d <=? last_applied_decree env.

(** Dereferencing an iterator into [_lru_rows]. *)
Fixpoint lru_find (n : nat) (l : list lru_node) : option lru_node :=
  match l with
  | [] => None
  | x :: l => if decide (node_id x = n) then Some x else lru_find n l
  end.

Definition lru_remove (n : nat) (l : list lru_node) : list lru_node :=
  filter (fun x => node_id x <> n) l.

Section Queue.
(** [task_spec::get]: the registry of RPC codes of the process. *)
Context (task_spec_get : task_code -> option task_spec).

Definition CHECK_RPC_REQUEST_IS_WRITE {A} (request : message) (k : outcome A) : outcome A :=
  match task_spec_get (rpc_code request) with
  | None => Abort
  | Some spec => CHECK (rpc_request_is_write_operation spec) k
  end.

(** One request of the first loop of [enter_2pc]. *)
Definition enter_row (d : Z) (hash : Z) (s : mutation_queue) : outcome mutation_queue :=
  match row_locks s !! hash with
  | Some n =>
      let* x := deref (lru_find n (lru_rows s)) in
      let x' := if d >? row_decree x then LruNode n (row_hash x) d else x in
      Ret (with_locks (row_locks s) (x' :: lru_remove n (lru_rows s)) (next_node s) s)
  | None =>
      let n := next_node s in
      Ret (with_locks (<[hash := n]> (row_locks s)) (LruNode n hash d :: lru_rows s) (S n) s)
  end.

Fixpoint enter_rows (d : Z) (requests : list (option message)) (s : mutation_queue)
  : outcome mutation_queue :=
  match requests with
  | [] => Ret s
  | None :: rest => enter_rows d rest s
  | Some request :: rest =>
      CHECK_RPC_REQUEST_IS_WRITE request
        (let* s := enter_row d (partition_hash request) s in enter_rows d rest s)
  end.

(** The eviction loop: each turn drops the tail of the LRU list. *)
Fixpoint evict_rows (env : replica_env) (fuel : nat) (s : mutation_queue) : outcome mutation_queue :=
  match fuel with
  | O => Undef
  | S fuel' =>
      if Z.of_nat (size (row_locks s)) >? FLAGS_row_lock_map_capacity env then
        let* x := deref (last (lru_rows s)) in
        if negb (applied env (row_decree x)) then Ret s
        else evict_rows env fuel'
               (with_locks (delete (row_hash x) (row_locks s)) (removelast (lru_rows s)) (next_node s) s)
      else Ret s
  end.

Definition enter_2pc (env : replica_env) (mu : mutation) (s : mutation_queue) : outcome mutation_queue :=
  let* s := enter_rows (get_decree mu) (client_requests mu) s in
  evict_rows env (S (length (lru_rows s))) s.

Fixpoint row_locked_requests (env : replica_env) (requests : list (option message))
  (s : mutation_queue) : outcome bool :=
  match requests with
  | [] => Ret false
  | None :: rest => row_locked_requests env rest s
  | Some request :: rest =>
      CHECK_RPC_REQUEST_IS_WRITE request
        match row_locks s !! partition_hash request with
        | None => row_locked_requests env rest s
        | Some n =>
            let* x := deref (lru_find n (lru_rows s)) in
            if applied env (row_decree x) then row_locked_requests env rest s else Ret true
        end
  end.

Definition row_locked (env : replica_env) (mu : mutation) (s : mutation_queue) : outcome bool :=
  row_locked_requests env (client_requests mu) s.

(** ** Dequeueing *)

(** The scan of [try_unblock]: [before] are the mutations already passed. *)
Fixpoint try_unblock_scan (env : replica_env) (before rest : list mutation) (s : mutation_queue)
  : outcome (option mutation * mutation_queue) :=
  match rest with
  | [] => Ret (None, s)
  | mu :: rest' =>
      let* locked := row_locked env mu s in
      if locked : bool then try_unblock_scan env (before ++ [mu]) rest' s
      else Ret (Some mu, with_work (current_op_count s + 1) (pcount s) (pending_mutation s) (queue s)
                           (before ++ rest') s)
  end.

Definition try_unblock (env : replica_env) (s : mutation_queue) : outcome (option mutation * mutation_queue) :=
  try_unblock_scan env [] (blocking_mutations s) s.

Definition try_block (env : replica_env) (mu : mutation) (s : mutation_queue)
  : outcome (bool * mutation_queue) :=
  let pass := with_work (current_op_count s + 1) (pcount s) (pending_mutation s) (queue s)
                (blocking_mutations s) s in
  if negb (is_blocking_candidate mu) then Ret (false, pass)
  else
    let* locked := row_locked env mu s in
    if negb locked then Ret (false, pass)
    else Ret (true, with_work (current_op_count s) (pcount s) (pending_mutation s) (queue s)
                      (blocking_mutations s ++ [mu]) s).

Definition pop_internal_queue (s : mutation_queue) : option mutation * mutation_queue :=
  match queue s with
  | [] => (None, s)
  | mu :: q => (Some mu, with_work (current_op_count s) (pcount s - 1) (pending_mutation s) q
                           (blocking_mutations s) s)
  end.

(** [fuel] is one more than the length of [_queue]. *)
Fixpoint pop_or_block_queue_loop (env : replica_env) (fuel : nat) (s : mutation_queue)
  : outcome (option mutation * mutation_queue) :=
  match fuel with
  | O => Undef
  | S fuel' =>
      match pop_internal_queue s with
      | (None, s) => Ret (None, s)
      | (Some mu, s) =>
          let* (blocked, s) := try_block env mu s in
          if blocked : bool then pop_or_block_queue_loop env fuel' s else Ret (Some mu, s)
      end
  end.

Definition pop_or_block_queue (env : replica_env) (s : mutation_queue)
  : outcome (option mutation * mutation_queue) :=
  pop_or_block_queue_loop env (S (length (queue s))) s.

Definition pop_or_block_pending (env : replica_env) (s : mutation_queue)
  : outcome (option mutation * mutation_queue) :=
  let* mu := deref (pending_mutation s) in
  let* (blocked, s) := try_block env mu (with_pending None s) in
  Ret (if blocked : bool then None else Some mu, s).

(** The first part of [add_work]: the request joins the pending mutation. *)
Definition fill_pending (env : replica_env) (spec : task_spec) (request : message) (s : mutation_queue)
  : outcome mutation_queue :=
  let* s :=
    match pending_mutation s with
    | Some _ => if negb (rpc_request_is_write_allow_batch spec) then promote_pending s else Ret s
    | None => Ret s
    end in
  let s :=
    match pending_mutation s with
    | None => with_pending (Some (new_mutation env invalid_decree (need_make_idempotent env spec))) s
    | Some _ => s
    end in
  let* m := deref (pending_mutation s) in
  Ret (with_pending (Some (add_client_request (Some request) m)) s).

Definition add_work (env : replica_env) (request : message) (s : mutation_queue)
  : outcome (option mutation * mutation_queue) :=
  match task_spec_get (rpc_code request) with
  | None => Abort
  | Some spec =>
      let* s := fill_pending env spec request s in
      if current_op_count s >=? max_concurrent_op s then
        let* s := try_promote_pending spec s in Ret (None, s)
      else
        let* (mu, s) := try_unblock env s in
        match mu with
        | Some mu => let* s := try_promote_pending spec s in Ret (Some mu, s)
        | None =>
            match queue s with
            | [] => pop_or_block_pending env s
            | _ :: _ => let* s := try_promote_pending spec s in pop_or_block_queue env s
            end
        end
  end.

Definition next_work (env : replica_env) (current_running_count : Z) (s : mutation_queue)
  : outcome (option mutation * mutation_queue) :=
  let s := with_work current_running_count (pcount s) (pending_mutation s) (queue s)
             (blocking_mutations s) s in
  if current_op_count s >=? max_concurrent_op s then Ret (None, s)
  else
    let* (mu, s) := try_unblock env s in
    match mu with
    | Some mu => Ret (Some mu, s)
    | None =>
        match queue s with
        | [] => match pending_mutation s with
                | None => Ret (None, s)
                | Some _ => pop_or_block_pending env s
                end
        | _ :: _ => pop_or_block_queue env s
        end
    end.

End Queue.

(** [while ((r = pop_internal_queue()) != nullptr)], collecting the mutations. *)
Fixpoint drain_queue (fuel : nat) (acc : list mutation) (s : mutation_queue) : list mutation * mutation_queue :=
  match fuel with
  | O => (acc, s)
  | S fuel' =>
      match pop_internal_queue s with
      | (None, s) => (acc, s)
      | (Some r, s) => drain_queue fuel' (acc ++ [r]) s
      end
  end.

(** [clear(queued_mutations)]; [clear()] is the same without the output. *)
Definition clear (s : mutation_queue) : list mutation * mutation_queue :=
  let acc := blocking_mutations s in
  let s := with_work (current_op_count s) (pcount s) (pending_mutation s) (queue s) [] s in
  let '(acc, s) := drain_queue (S (length (queue s))) acc s in
  let '(acc, s) :=
    match pending_mutation s with
    | Some m => (acc ++ [m], with_pending None s)
    | None => (acc, s)
    end in
  (acc, with_locks ∅ (lru_rows s) (next_node s) s).

Definition reset_max_concurrent_ops (max : Z) (s : mutation_queue) : mutation_queue :=
  MQ (current_op_count s) max (batch_write_disabled s) (pcount s) (pending_mutation s) (queue s)
    (blocking_mutations s) (row_locks s) (lru_rows s) (next_node s).

(** ** Row locks: invariant and abstract specification *)

(** The lock map and the LRU list describe the same rows. *)
Record lock_wf (s : mutation_queue) : Prop := LockWf {
  lw_nodup : NoDup (map node_id (lru_rows s));
  lw_fresh x : x ∈ lru_rows s -> (node_id x < next_node s)%nat;
  lw_agree h n : row_locks s !! h = Some n <-> exists x, x ∈ lru_rows s /\ node_id x = n /\ row_hash x = h
}.

(** The decree recorded for a row, if the row has a lock. *)
Definition lock_decree (s : mutation_queue) (h : Z) : option Z :=
  match row_locks s !! h with
  | Some n => row_decree <$> lru_find n (lru_rows s)
  | None => None
  end.

(** The specification: the largest decree that entered two-phase commit for each
    row.  The lock table agrees with it on every decree that is not applied. *)
Abbreviation entered_map := (gmap Z Z).

Definition locks_refine (env : replica_env) (s : mutation_queue) (e : entered_map) : Prop :=
  lock_wf s /\ forall h d, last_applied_decree env < d -> lock_decree s h = Some d <-> e !! h = Some d.

Definition enter_spec_row (d : Z) (h : Z) (e : entered_map) : entered_map :=
  <[h := match e !! h with Some d0 => Z.max d0 d | None => d end]> e.

Definition enter_spec (d : Z) (requests : list (option message)) (e : entered_map) : entered_map :=
  fold_left (fun e r => match r with Some r => enter_spec_row d (partition_hash r) e | None => e end)
    requests e.

(** A row is locked: its largest decree is not applied yet. *)
Definition held (env : replica_env) (e : entered_map) (h : Z) : Prop :=
  exists d, e !! h = Some d /\ last_applied_decree env < d.

(** *** The LRU list *)

Lemma lru_find_In n l x : lru_find n l = Some x -> x ∈ l /\ node_id x = n.
Proof.
  induction l as [|y l IH]; cbn; [done|]. destruct (decide (node_id y = n)).
  - intros [= ->]. split; [by left|done].
  - intros [? ?]%IH. split; [by right|done].
Qed.

Lemma In_lru_find l x : NoDup (map node_id l) -> x ∈ l -> lru_find (node_id x) l = Some x.
Proof.
  induction l as [|y l IH]; cbn; intros Hnd Hin; [by apply not_elem_of_nil in Hin|].
  apply NoDup_cons in Hnd as [Hy Hnd]. apply elem_of_cons in Hin as [->|Hin].
  - by rewrite decide_True.
  - rewrite decide_False; [by apply IH|]. intros E. apply Hy. rewrite E.
    apply list_elem_of_fmap. eauto.
Qed.

Lemma elem_of_lru_remove n l x : x ∈ lru_remove n l <-> x ∈ l /\ node_id x <> n.
Proof. unfold lru_remove. rewrite list_elem_of_filter. tauto. Qed.

Lemma NoDup_lru_remove n l : NoDup (map node_id l) -> NoDup (map node_id (lru_remove n l)).
Proof.
  intros H. apply (sublist_NoDup _ (map node_id l)); [done|]. apply (fmap_sublist node_id), sublist_filter.
Qed.

Lemma lock_decree_node s h x :
  lock_wf s -> x ∈ lru_rows s -> row_hash x = h -> lock_decree s h = Some (row_decree x).
Proof.
  intros Hwf Hin Hh. unfold lock_decree.
  rewrite (proj2 (lw_agree _ Hwf h (node_id x))) by eauto.
  by rewrite In_lru_find by (done || apply Hwf).
Qed.

Lemma lock_decree_None s h : lock_wf s -> lock_decree s h = None <-> row_locks s !! h = None.
Proof.
  intros Hwf. unfold lock_decree. destruct (row_locks s !! h) as [n|] eqn:E; [|done].
  apply (lw_agree _ Hwf) in E as (x & Hin & <- & _).
  by rewrite In_lru_find by (done || apply Hwf).
Qed.

Lemma lock_find s h n :
  lock_wf s -> row_locks s !! h = Some n ->
  exists x, lru_find n (lru_rows s) = Some x /\ x ∈ lru_rows s /\ node_id x = n /\ row_hash x = h.
Proof.
  intros Hwf (x & Hin & <- & Hh)%(lw_agree _ Hwf). exists x.
  by rewrite In_lru_find by (done || apply Hwf).
Qed.

(** Two nodes of the same row are the same node. *)
Lemma lru_same_hash s x y :
  lock_wf s -> x ∈ lru_rows s -> y ∈ lru_rows s -> row_hash x = row_hash y -> x = y.
Proof.
  intros Hwf Hx Hy E. pose proof (lw_nodup _ Hwf) as Hnd.
  pose proof (proj2 (lw_agree _ Hwf (row_hash x) (node_id x)) ltac:(eauto)) as Ex.
  pose proof (proj2 (lw_agree _ Hwf (row_hash x) (node_id y)) ltac:(eauto)) as Ey.
  rewrite Ex in Ey. injection Ey as Ei. pose proof (In_lru_find _ _ Hnd Hx) as Fx.
  pose proof (In_lru_find _ _ Hnd Hy) as Fy. congruence.
Qed.

(** *** [enter_2pc] *)

Lemma new_row_wf d h s :
  lock_wf s -> row_locks s !! h = None ->
  lock_wf (with_locks (<[h := next_node s]> (row_locks s))
             (LruNode (next_node s) h d :: lru_rows s) (S (next_node s)) s).
Proof.
  intros Hwf Hn. split; cbn.
  - apply NoDup_cons. split; [|apply Hwf]. intros (x & Ex & Hin)%list_elem_of_fmap.
    pose proof (lw_fresh _ Hwf x Hin). lia.
  - intros x [->|Hin]%elem_of_cons; cbn; [lia|]. pose proof (lw_fresh _ Hwf x Hin). lia.
  - intros h' n. rewrite lookup_insert_Some, (lw_agree _ Hwf). split.
    + intros [[-> <-]|[Hne (x & Hin & ?)]].
      * exists (LruNode (next_node s) h' d). split_and!; [by left|done|done].
      * exists x. split; [by right|done].
    + intros (x & [->|Hin]%elem_of_cons & <- & <-); cbn; [by left|]. right. split; [|eauto].
      intros ->. by rewrite (proj2 (lw_agree _ Hwf (row_hash x) (node_id x))) in Hn by eauto.
Qed.

Lemma touch_row_wf s x d :
  lock_wf s -> x ∈ lru_rows s ->
  lock_wf (with_locks (row_locks s) (LruNode (node_id x) (row_hash x) d :: lru_remove (node_id x) (lru_rows s))
             (next_node s) s).
Proof.
  intros Hwf Hx. split; cbn.
  - apply NoDup_cons. split; [|by apply NoDup_lru_remove, Hwf].
    intros (y & Ey & [_ ?]%elem_of_lru_remove)%list_elem_of_fmap. congruence.
  - intros y [->|[Hin _]%elem_of_lru_remove]%elem_of_cons; cbn; by apply (lw_fresh _ Hwf).
  - intros h n. rewrite (lw_agree _ Hwf). split.
    + intros (y & Hy & <- & <-). destruct (decide (node_id y = node_id x)) as [E|E].
      * assert (y = x) as ->.
        { pose proof (In_lru_find _ _ (lw_nodup _ Hwf) Hx). pose proof (In_lru_find _ _ (lw_nodup _ Hwf) Hy).
          congruence. }
        eexists. split; [by left|done].
      * exists y. split_and!; [right; by apply elem_of_lru_remove|done|done].
    + intros (y & [->|[Hy _]%elem_of_lru_remove]%elem_of_cons & <- & <-); cbn; eauto.
Qed.

(** A row whose lock and node are untouched keeps its decree. *)
Lemma lock_decree_keep s s' h :
  lock_wf s -> lock_wf s' -> row_locks s' !! h = row_locks s !! h ->
  (forall x, x ∈ lru_rows s -> row_hash x = h -> x ∈ lru_rows s') ->
  lock_decree s' h = lock_decree s h.
Proof.
  intros Hwf Hwf' El Hin. destruct (row_locks s !! h) as [n|] eqn:E.
  - destruct (lock_find s h n Hwf E) as (x & _ & Hx & _ & Hh).
    rewrite (lock_decree_node s h x), (lock_decree_node s' h x); auto.
  - by rewrite (proj2 (lock_decree_None s h Hwf) E), (proj2 (lock_decree_None s' h Hwf') El).
Qed.

(** One row entering: the recorded decree becomes the larger one. *)
Lemma enter_row_spec d h s :
  lock_wf s ->
  exists s', enter_row d h s = Ret s' /\ lock_wf s' /\
    forall h', lock_decree s' h' =
      if decide (h' = h) then Some (match lock_decree s h with Some d0 => Z.max d0 d | None => d end)
      else lock_decree s h'.
Proof.
  intros Hwf. unfold enter_row. destruct (row_locks s !! h) as [n|] eqn:E.
  - destruct (lock_find s h n Hwf E) as (x & -> & Hin & <- & <-). cbn [deref obind].
    rewrite (lock_decree_node s (row_hash x) x Hwf Hin eq_refl).
    set (d' := Z.max (row_decree x) d).
    assert ((if d >? row_decree x then LruNode (node_id x) (row_hash x) d else x)
            = LruNode (node_id x) (row_hash x) d') as ->.
    { unfold d'. destruct (Z.gtb_spec d (row_decree x)); [f_equal; lia|].
      destruct x; cbn in *. f_equal. lia. }
    pose proof (touch_row_wf s x d' Hwf Hin) as Hwf'. eexists. split_and!; [done|done|].
    intros h'. destruct (decide (h' = row_hash x)) as [->|Hne].
    + apply (lock_decree_node _ _ (LruNode (node_id x) (row_hash x) d') Hwf'); [by left|done].
    + apply lock_decree_keep; [done|done|done|]. intros y Hy Hh. right.
      apply elem_of_lru_remove. split; [done|]. intros Eid. apply Hne.
      pose proof (In_lru_find _ _ (lw_nodup _ Hwf) Hin).
      pose proof (In_lru_find _ _ (lw_nodup _ Hwf) Hy). congruence.
  - pose proof (new_row_wf d h s Hwf E) as Hwf'. eexists. split_and!; [done|done|].
    rewrite (proj2 (lock_decree_None s h Hwf) E). intros h'. destruct (decide (h' = h)) as [->|Hne].
    + apply (lock_decree_node _ _ (LruNode (next_node s) h d) Hwf'); [by left|done].
    + apply lock_decree_keep; [done|done|cbn; by rewrite lookup_insert_ne|]. intros y Hy _. by right.
Qed.

Lemma enter_row_refine env d h s e :
  locks_refine env s e ->
  exists s', enter_row d h s = Ret s' /\ locks_refine env s' (enter_spec_row d h e).
Proof.
  intros [Hwf He]. destruct (enter_row_spec d h s Hwf) as (s' & Es & Hwf' & Hd).
  exists s'. split; [done|]. split; [done|]. intros h' D HD. rewrite Hd. unfold enter_spec_row.
  destruct (decide (h' = h)) as [->|Hne]; [|rewrite lookup_insert_ne by done; by apply He].
  rewrite lookup_insert_eq. pose proof (fun D => He h D) as Hh.
  destruct (lock_decree s h) as [l|], (e !! h) as [e0|].
  - destruct (decide (last_applied_decree env < l)) as [Hl|Hl].
    { by injection (proj1 (Hh l Hl) eq_refl) as ->. }
    destruct (decide (last_applied_decree env < e0)) as [H0|H0].
    { by injection (proj2 (Hh e0 H0) eq_refl) as ->. }
    split; intros [= E]; f_equal; lia.
  - destruct (decide (last_applied_decree env < l)) as [Hl|Hl]; [discriminate (proj1 (Hh l Hl) eq_refl)|].
    split; intros [= E]; f_equal; lia.
  - destruct (decide (last_applied_decree env < e0)) as [Hl|Hl]; [discriminate (proj2 (Hh e0 Hl) eq_refl)|].
    split; intros [= E]; f_equal; lia.
  - done.
Qed.

Section LockTheory.
Context (task_spec_get : task_code -> option task_spec).

(** Every request is a registered write. *)
Definition writes_ok (requests : list (option message)) : Prop :=
  forall r, Some r ∈ requests ->
    exists spec, task_spec_get (rpc_code r) = Some spec /\ rpc_request_is_write_operation spec = true.

Lemma check_write_ok {A} r rest (k : outcome A) :
  writes_ok (Some r :: rest) -> CHECK_RPC_REQUEST_IS_WRITE task_spec_get r k = k /\ writes_ok rest.
Proof.
  intros Hw. destruct (Hw r) as (spec & E & Ew); [by left|].
  unfold CHECK_RPC_REQUEST_IS_WRITE. rewrite E, Ew. split; [done|]. intros r' Hr'. apply Hw. by right.
Qed.

Lemma writes_ok_tail o rest : writes_ok (o :: rest) -> writes_ok rest.
Proof. intros Hw r Hr. apply Hw. by right. Qed.

Lemma enter_rows_refine env d requests s e :
  writes_ok requests -> locks_refine env s e ->
  exists s', enter_rows task_spec_get d requests s = Ret s' /\ locks_refine env s' (enter_spec d requests e).
Proof.
  revert s e. induction requests as [|[r|] rest IH]; intros s e Hw He; cbn [enter_rows enter_spec fold_left].
  - eauto.
  - destruct (check_write_ok r rest (let* s := enter_row d (partition_hash r) s in
      enter_rows task_spec_get d rest s) Hw) as [-> Hw'].
    destruct (enter_row_refine env d (partition_hash r) s e He) as (s1 & -> & He1). cbn [obind].
    by apply IH.
  - apply IH; [by eapply writes_ok_tail|done].
Qed.

(** The loops of [enter_2pc] leave the work lists alone. *)
Lemma enter_rows_content d requests s s' :
  enter_rows task_spec_get d requests s = Ret s' ->
  s' = with_locks (row_locks s') (lru_rows s') (next_node s') s.
Proof.
  revert s. induction requests as [|[r|] rest IH]; intros s; cbn [enter_rows].
  - intros [= <-]. by destruct s.
  - unfold CHECK_RPC_REQUEST_IS_WRITE. destruct (task_spec_get (rpc_code r)) as [spec|]; [|done].
    intros [_ (s1 & E1 & E)%obind_Ret_inv]%CHECK_Ret_inv. rewrite (IH s1 E) at 1. unfold enter_row in E1.
    destruct (row_locks s !! partition_hash r); [apply obind_Ret_inv in E1 as (x & _ & E1)|];
      by injection E1 as <-.
  - apply IH.
Qed.

Lemma evict_rows_content env fuel s s' :
  evict_rows env fuel s = Ret s' -> s' = with_locks (row_locks s') (lru_rows s') (next_node s') s.
Proof.
  revert s. induction fuel as [|fuel IH]; intros s; cbn [evict_rows]; [done|].
  destruct (_ >? _); [|intros [= <-]; by destruct s].
  intros (x & _ & E)%obind_Ret_inv. destruct (negb _); [injection E as <-; by destruct s|].
  rewrite (IH _ E) at 1. done.
Qed.

Lemma list_nil_or_snoc {A} (l : list A) : l = [] \/ exists l0 x, l = l0 ++ [x].
Proof. induction l using rev_ind; eauto. Qed.

(** Dropping the tail of the LRU list. *)
Lemma evict_wf s l x :
  lock_wf s -> lru_rows s = l ++ [x] ->
  lock_wf (with_locks (delete (row_hash x) (row_locks s)) l (next_node s) s).
Proof.
  intros Hwf El. pose proof (lw_nodup _ Hwf) as Hnd. rewrite El, map_app in Hnd.
  apply NoDup_app in Hnd as (Hnd & Hdis & _).
  assert (x ∈ lru_rows s) as Hx by (rewrite El; set_solver).
  split; cbn; [done| |].
  - intros y Hy. apply (lw_fresh _ Hwf). rewrite El. set_solver.
  - intros h n. rewrite lookup_delete_Some, (lw_agree _ Hwf). split.
    + intros (Hne & y & Hy & <- & <-). exists y. split_and!; [|done|done].
      rewrite El in Hy. apply elem_of_app in Hy as [Hy|Hy%list_elem_of_singleton]; [done|by subst].
    + intros (y & Hy & <- & <-). assert (y ∈ lru_rows s) as Hy' by (rewrite El; set_solver).
      split; [|eauto]. intros E. assert (x = y) as -> by (by apply (lru_same_hash s)).
      apply (Hdis (node_id y)); [apply list_elem_of_fmap; eauto|by left].
Qed.

Lemma evict_rows_refine env fuel s e :
  0 <= FLAGS_row_lock_map_capacity env -> (length (lru_rows s) < fuel)%nat ->
  locks_refine env s e ->
  exists s', evict_rows env fuel s = Ret s' /\ locks_refine env s' e.
Proof.
  intros Hcap. revert s. induction fuel as [|fuel IH]; intros s Hf He; [lia|]. cbn [evict_rows].
  destruct (Z.gtb_spec (Z.of_nat (size (row_locks s))) (FLAGS_row_lock_map_capacity env)) as [Hsz|]; [|eauto].
  destruct He as [Hwf He]. destruct (list_nil_or_snoc (lru_rows s)) as [El|(l0 & x0 & El)].
  { assert (row_locks s = ∅) as E.
    { apply map_empty. intros h. destruct (row_locks s !! h) eqn:E; [|done].
      apply (lw_agree _ Hwf) in E as (x & Hx & _). rewrite El in Hx. by apply not_elem_of_nil in Hx. }
    rewrite E, map_size_empty in Hsz. lia. }
  rewrite El in Hf |- *. rewrite last_snoc. cbn [deref obind]. unfold applied.
  destruct (Z.leb_spec (row_decree x0) (last_applied_decree env)) as [Ha|]; cbn [negb].
  2:{ eexists. split; [done|]. by split. }
  rewrite removelast_last. pose proof (evict_wf s l0 x0 Hwf El) as Hwf'.
  apply IH; [cbn; rewrite length_app in Hf; cbn in Hf; lia|]. split; [done|].
  intros h D HD. rewrite <- He by done. destruct (decide (h = row_hash x0)) as [->|Hne].
  - rewrite (lock_decree_node s _ x0 Hwf) by (rewrite ?El; set_solver).
    rewrite (proj2 (lock_decree_None _ _ Hwf')) by (cbn; apply lookup_delete_eq).
    split; [done|]. intros [= <-]. lia.
  - rewrite (lock_decree_keep s _ h Hwf Hwf'); [done|cbn; by rewrite lookup_delete_ne|].
    cbn. intros y Hy <-. rewrite El in Hy. apply elem_of_app in Hy as [Hy|Hy%list_elem_of_singleton]; [done|by subst].
Qed.

Lemma enter_2pc_refine env mu s e :
  0 <= FLAGS_row_lock_map_capacity env -> writes_ok (client_requests mu) -> locks_refine env s e ->
  exists s', enter_2pc task_spec_get env mu s = Ret s' /\
    locks_refine env s' (enter_spec (get_decree mu) (client_requests mu) e).
Proof.
  intros Hcap Hw He. unfold enter_2pc.
  destruct (enter_rows_refine env (get_decree mu) _ s e Hw He) as (s1 & -> & He1). cbn [obind].
  apply evict_rows_refine; [done|lia|done].
Qed.

Lemma row_locked_refine env mu s e :
  writes_ok (client_requests mu) -> locks_refine env s e ->
  exists b, row_locked task_spec_get env mu s = Ret b /\
    (b = true <-> exists r, Some r ∈ client_requests mu /\ held env e (partition_hash r)).
Proof.
  unfold row_locked. intros Hw [Hwf He]. induction (client_requests mu) as [|[r|] rest IH];
    cbn [row_locked_requests].
  - exists false. split; [done|]. split; [done|]. intros (r & Hr & _). by apply not_elem_of_nil in Hr.
  - destruct (check_write_ok r rest match row_locks s !! partition_hash r with
        | None => row_locked_requests task_spec_get env rest s
        | Some n =>
            let* x := deref (lru_find n (lru_rows s)) in
            if applied env (row_decree x) then row_locked_requests task_spec_get env rest s else Ret true
        end Hw) as [-> Hw'].
    destruct (IH Hw') as (b & Eb & Hb).
    assert ((exists d, lock_decree s (partition_hash r) = Some d /\ last_applied_decree env < d)
            <-> held env e (partition_hash r)) as Hheld.
    { split; intros (d & Hd & Hlt); exists d; (split; [|done]); by apply He. }
    assert (~ held env e (partition_hash r) -> b = true <->
       exists r0, Some r0 ∈ Some r :: rest /\ held env e (partition_hash r0)) as Hskip.
    { intros Hn. rewrite Hb. split; intros (r0 & Hr & Hh); exists r0; (split; [|done]); [by right|].
      apply elem_of_cons in Hr as [[= ->]|Hr]; done. }
    destruct (row_locks s !! partition_hash r) as [n|] eqn:E.
    + destruct (lock_find s _ n Hwf E) as (x & -> & Hx & _ & Hh). cbn [deref obind].
      rewrite (lock_decree_node s _ x Hwf Hx Hh) in Hheld. unfold applied.
      destruct (Z.leb_spec (row_decree x) (last_applied_decree env)).
      * exists b. split; [done|]. apply Hskip. rewrite <- Hheld. intros (d & [= <-] & ?). lia.
      * exists true. split; [done|]. split; [|done]. intros _. exists r. split; [by left|].
        apply Hheld. eauto.
    + exists b. split; [done|]. apply Hskip. rewrite <- Hheld.
      rewrite (proj2 (lock_decree_None s _ Hwf) E). by intros (d & ? & _).
  - destruct (IH (writes_ok_tail _ _ Hw)) as (b & Eb & Hb). exists b. split; [done|]. rewrite Hb.
    split; intros (r & Hr & Hh); exists r; (split; [|done]); [by right|].
    by apply elem_of_cons in Hr as [|Hr].
Qed.

End LockTheory.

(** ** The queue *)

(** The mutations of the queue, in its order. *)
Definition content (s : mutation_queue) : list mutation :=
  blocking_mutations s ++ queue s ++ option_list (pending_mutation s).

(** The client requests they carry. *)
Definition requests (s : mutation_queue) : list (option message) := concat (map client_requests (content s)).

Definition requests_of (mo : option mutation) : list (option message) :=
  concat (map client_requests (option_list mo)).

(** Only the work lists and the counters differ. *)
Definition same_locks (s s' : mutation_queue) : Prop :=
  row_locks s' = row_locks s /\ lru_rows s' = lru_rows s /\ next_node s' = next_node s /\
  max_concurrent_op s' = max_concurrent_op s /\ batch_write_disabled s' = batch_write_disabled s.

Lemma locks_refine_same env s s' e : same_locks s s' -> locks_refine env s e -> locks_refine env s' e.
Proof.
  intros (E1 & E2 & E3 & _) [[H1 H2 H3] He]. split.
  - split; rewrite ?E1, ?E2, ?E3; done.
  - intros h d Hd. rewrite <- He by done. unfold lock_decree. by rewrite E1, E2.
Qed.

Lemma same_locks_trans s1 s2 s3 : same_locks s1 s2 -> same_locks s2 s3 -> same_locks s1 s3.
Proof. intros (?&?&?&?&?) (?&?&?&?&?). split_and!; congruence. Qed.

(** [mu] may enter two-phase commit: it is not an atomic write, or none of its
    rows is locked. *)
Definition free (env : replica_env) (e : entered_map) (mu : mutation) : Prop :=
  is_blocking_candidate mu = true ->
  forall r, Some r ∈ client_requests mu -> ~ held env e (partition_hash r).

(** The effect of a dequeue: at most one mutation leaves, and it is free. *)
Record took (env : replica_env) (e : entered_map) (s : mutation_queue) (mo : option mutation)
  (s' : mutation_queue) : Prop := Took {
  took_content : content s ≡ₚ option_list mo ++ content s';
  took_locks : same_locks s s';
  took_count : current_op_count s' = current_op_count s + match mo with Some _ => 1 | None => 0 end;
  took_free mu : mo = Some mu -> free env e mu
}.

Lemma took_nothing env e s : took env e s None s.
Proof. split; [done|done|lia|done]. Qed.

(** Blocking some mutations first, then taking. *)
Lemma took_after env e s s1 mo s' :
  content s ≡ₚ content s1 -> same_locks s s1 -> current_op_count s1 = current_op_count s ->
  took env e s1 mo s' -> took env e s mo s'.
Proof.
  intros Hp Hl Hc [H1 H2 H3 H4]. split; [by rewrite Hp|by eapply same_locks_trans|lia|done].
Qed.

Section QueueTheory.
Context (task_spec_get : task_code -> option task_spec) (env : replica_env) (e : entered_map).

Abbreviation mutations_ok l := (Forall (fun m => writes_ok task_spec_get (client_requests m)) l).

Lemma row_locked_free mu s :
  locks_refine env s e -> writes_ok task_spec_get (client_requests mu) ->
  exists b, row_locked task_spec_get env mu s = Ret b /\ (b = false -> free env e mu).
Proof.
  intros He Hw. destruct (row_locked_refine task_spec_get env mu s e Hw He) as (b & E & Hb).
  exists b. split; [done|]. intros -> _ r Hr Hh. assert (false = true) by (apply Hb; eauto). done.
Qed.

Lemma try_unblock_scan_took before rest s :
  blocking_mutations s = before ++ rest -> locks_refine env s e -> mutations_ok rest ->
  exists mo s', try_unblock_scan task_spec_get env before rest s = Ret (mo, s') /\
    took env e s mo s' /\ pending_mutation s' = pending_mutation s /\ queue s' = queue s.
Proof.
  revert before. induction rest as [|mu rest IH]; intros before Eb He Hw; cbn [try_unblock_scan].
  { eexists _, _. split_and!; [done|apply took_nothing|done|done]. }
  apply Forall_cons in Hw as [Hmu Hrest].
  destruct (row_locked_free mu s He Hmu) as ([|] & -> & Hfree); cbn [obind].
  - apply IH; [by rewrite Eb, <- app_assoc|done|done].
  - eexists _, _. split_and!; [done| |done|done]. split; cbn; [|done|done|].
    + unfold content. cbn. rewrite Eb, <- !app_assoc. cbn. symmetry. apply Permutation_middle.
    + intros mu' [= <-]. by apply Hfree.
Qed.

Lemma try_unblock_took s :
  locks_refine env s e -> mutations_ok (content s) ->
  exists mo s', try_unblock task_spec_get env s = Ret (mo, s') /\
    took env e s mo s' /\ pending_mutation s' = pending_mutation s /\ queue s' = queue s.
Proof.
  intros He Hw. apply try_unblock_scan_took; [done|done|]. by apply Forall_app in Hw as [Hw _].
Qed.

(** A mutation taken off the front of the rest of the queue. *)
Lemma try_block_spec mu s :
  locks_refine env s e -> writes_ok task_spec_get (client_requests mu) ->
  exists b s', try_block task_spec_get env mu s = Ret (b, s') /\
    if b : bool
    then s' = with_work (current_op_count s) (pcount s) (pending_mutation s) (queue s)
                (blocking_mutations s ++ [mu]) s /\ is_blocking_candidate mu = true
    else s' = with_work (current_op_count s + 1) (pcount s) (pending_mutation s) (queue s)
                (blocking_mutations s) s /\ free env e mu.
Proof.
  intros He Hw. unfold try_block. destruct (is_blocking_candidate mu) eqn:Ec; cbn [negb].
  - destruct (row_locked_free mu s He Hw) as ([|] & -> & Hfree); cbn [obind negb].
    + by eexists true, _.
    + eexists false, _. split_and!; [done|done|by apply Hfree].
  - eexists false, _. split_and!; [done|done|]. intros E. congruence.
Qed.

Lemma pop_or_block_queue_took fuel s :
  (length (queue s) < fuel)%nat -> locks_refine env s e -> mutations_ok (queue s) ->
  exists mo s', pop_or_block_queue_loop task_spec_get env fuel s = Ret (mo, s') /\
    took env e s mo s' /\ pending_mutation s' = pending_mutation s.
Proof.
  revert s. induction fuel as [|fuel IH]; intros s Hf He Hw; [lia|]. cbn [pop_or_block_queue_loop].
  unfold pop_internal_queue. destruct (queue s) as [|mu q] eqn:Eq.
  { eexists _, _. split_and!; [done|apply took_nothing|done]. }
  apply Forall_cons in Hw as [Hmu Hw].
  set (s1 := with_work (current_op_count s) (pcount s - 1) (pending_mutation s) q (blocking_mutations s) s).
  assert (locks_refine env s1 e) as He1 by (by apply (locks_refine_same env s s1)).
  destruct (try_block_spec mu s1 He1 Hmu) as ([|] & s2 & -> & Hs2); cbn [obind].
  - destruct Hs2 as [-> _]. edestruct IH as (mo & s' & E & Ht & Ep); [| | |eexists _, _; split_and!; [exact E| |exact Ep]].
    + cbn in *. lia.
    + by apply (locks_refine_same env s).
    + done.
    + eapply took_after; [| | |exact Ht]; [|done|done]. unfold content. cbn. rewrite Eq.
      by rewrite <- app_assoc.
  - destruct Hs2 as [-> Hfree]. eexists _, _. split_and!; [done| |done]. split; cbn; [|done|done|].
    + unfold content. cbn. rewrite Eq. cbn. symmetry. apply Permutation_middle.
    + intros mu' [= <-]. done.
Qed.

Lemma pop_or_block_pending_took s m :
  pending_mutation s = Some m -> locks_refine env s e -> writes_ok task_spec_get (client_requests m) ->
  exists mo s', pop_or_block_pending task_spec_get env s = Ret (mo, s') /\
    took env e s mo s' /\ pending_mutation s' = None.
Proof.
  intros Ep He Hw. unfold pop_or_block_pending. rewrite Ep. cbn [deref obind].
  set (s1 := with_pending None s).
  assert (locks_refine env s1 e) as He1 by (by apply (locks_refine_same env s s1)).
  destruct (try_block_spec m s1 He1 Hw) as ([|] & s2 & -> & Hs2); cbn [obind].
  - destruct Hs2 as [-> _]. eexists _, _. split_and!; [done| |done]. split; cbn; [|done|lia|done].
    unfold content. cbn. rewrite Ep. cbn. rewrite app_nil_r, <- app_assoc. cbn.
    by rewrite (Permutation_app_comm (queue s) [m]).
  - destruct Hs2 as [-> Hfree]. eexists _, _. split_and!; [done| |done]. split; cbn; [|done|done|].
    + unfold content. cbn. rewrite Ep. cbn. rewrite app_nil_r, app_assoc.
      by rewrite <- Permutation_cons_append.
    + intros mu' [= <-]. done.
Qed.

(** *** Batching *)

Definition allow_batch (r : message) : bool :=
  match task_spec_get (rpc_code r) with
  | Some spec => rpc_request_is_write_allow_batch spec
  | None => false
  end.

Definition atomic (r : message) : bool :=
  match task_spec_get (rpc_code r) with
  | Some spec => need_make_idempotent env spec
  | None => false
  end.

(** A request that must not be batched is alone in its mutation, and a mutation
    with an atomic write is a blocking candidate. *)
Record mut_wf (m : mutation) : Prop := MutWf {
  mw_alone r : Some r ∈ client_requests m -> allow_batch r = false -> client_requests m = [Some r];
  mw_atomic r : Some r ∈ client_requests m -> atomic r = true -> is_blocking_candidate m = true
}.

Definition batchable (m : mutation) : Prop := forall r, Some r ∈ client_requests m -> allow_batch r = true.

(** The pending mutation can take more requests. *)
Definition pending_wf (s : mutation_queue) : Prop :=
  forall m, pending_mutation s = Some m ->
    batch_write_disabled s = false /\ is_full m = false /\ batchable m.

Definition batch_wf (s : mutation_queue) : Prop := Forall mut_wf (content s) /\ pending_wf s.

Lemma client_requests_add r m : client_requests (add_client_request (Some r) m) = client_requests m ++ [Some r].
Proof. done. Qed.

Lemma promote_pending_spec s m :
  pending_mutation s = Some m ->
  exists s', promote_pending s = Ret s' /\ content s' = content s /\ same_locks s s' /\
    current_op_count s' = current_op_count s /\ pending_mutation s' = None.
Proof.
  intros Ep. unfold promote_pending. rewrite Ep. eexists. split_and!; [done| |done|done|done].
  unfold content. cbn. rewrite Ep. cbn. by rewrite app_nil_r.
Qed.

Lemma try_promote_pending_spec spec s m :
  pending_mutation s = Some m -> (rpc_request_is_write_allow_batch spec = true -> batchable m) ->
  exists s', try_promote_pending spec s = Ret s' /\ content s' = content s /\ same_locks s s' /\
    current_op_count s' = current_op_count s /\ pending_wf s'.
Proof.
  intros Ep Hb. unfold try_promote_pending. rewrite Ep. cbn [deref obind].
  destruct (rpc_request_is_write_allow_batch spec && negb (is_full m) && negb (batch_write_disabled s)) eqn:E.
  - eexists. split_and!; try done. intros m'. rewrite Ep. intros [= <-].
    apply andb_true_iff in E as [[E1 E2]%andb_true_iff E3].
    split_and!; [by apply negb_true_iff|by apply negb_true_iff|auto].
  - destruct (promote_pending_spec s m Ep) as (s' & -> & Hc & Hl & Ho & Hp). exists s'.
    split_and!; try done. intros m'. by rewrite Hp.
Qed.

Lemma requests_perm s s' : content s ≡ₚ content s' -> requests s ≡ₚ requests s'.
Proof. intros H. unfold requests. by rewrite H. Qed.

Context (Hatomic : forall code spec, task_spec_get code = Some spec ->
  rpc_request_is_write_idempotent spec = false -> rpc_request_is_write_allow_batch spec = false).

Lemma atomic_not_batchable r : atomic r = true -> allow_batch r = false.
Proof.
  unfold atomic, allow_batch, need_make_idempotent. destruct (task_spec_get (rpc_code r)) as [spec|] eqn:E; [|done].
  destruct (atomic_idempotent env); cbn; [|done]. intros H%negb_true_iff. by eapply Hatomic.
Qed.

(** The mutation that takes the request. *)
Lemma mut_wf_add r spec m :
  task_spec_get (rpc_code r) = Some spec ->
  (rpc_request_is_write_allow_batch spec = true /\ batchable m /\ mut_wf m \/
   m = new_mutation env invalid_decree (need_make_idempotent env spec)) ->
  mut_wf (add_client_request (Some r) m) /\
  (rpc_request_is_write_allow_batch spec = true -> batchable (add_client_request (Some r) m)).
Proof.
  intros Es Hm. assert (allow_batch r = rpc_request_is_write_allow_batch spec) as Ea
    by (unfold allow_batch; by rewrite Es).
  destruct Hm as [(Hb & Hbm & Hm)| ->].
  - assert (batchable (add_client_request (Some r) m)) as Hb'.
    { intros r'. rewrite client_requests_add. intros [Hr|Hr%list_elem_of_singleton]%elem_of_app; [auto|].
      injection Hr as ->. congruence. }
    split; [|done]. split; intros r' Hr'; [rewrite (Hb' r' Hr'); done|].
    intros Ha%atomic_not_batchable. rewrite (Hb' r' Hr') in Ha. done.
  - split; [split|]; intros; cbn in *.
    + apply list_elem_of_singleton in H as [= ->]. done.
    + apply list_elem_of_singleton in H as [= ->]. unfold atomic in H0. by rewrite Es in H0.
    + intros r' [= ->]%list_elem_of_singleton. congruence.
Qed.

(** [s'] is [s] with request [r] in its pending mutation. *)
Record filled (r : message) (spec : task_spec) (s s' : mutation_queue) (m : mutation) : Prop := Filled {
  fl_pending : pending_mutation s' = Some m;
  fl_requests : requests s' = requests s ++ [Some r];
  fl_locks : same_locks s s';
  fl_count : current_op_count s' = current_op_count s;
  fl_wf : Forall mut_wf (content s');
  fl_batch : rpc_request_is_write_allow_batch spec = true -> batchable m
}.

Lemma filled_fresh r spec s s1 :
  task_spec_get (rpc_code r) = Some spec -> Forall mut_wf (content s) ->
  content s1 = content s -> same_locks s s1 -> current_op_count s1 = current_op_count s ->
  pending_mutation s1 = None ->
  let m := add_client_request (Some r) (new_mutation env invalid_decree (need_make_idempotent env spec)) in
  filled r spec s (with_pending (Some m) s1) m.
Proof.
  intros Es Hwf Hc Hl Ho Hn m.
  destruct (mut_wf_add r spec _ Es (or_intror eq_refl)) as [Hm Hb].
  rewrite <- Hc in Hwf. unfold content in Hwf, Hc. rewrite Hn in Hwf, Hc. cbn in Hwf, Hc.
  rewrite app_nil_r in Hwf, Hc. split; [done| |done|done| |done].
  - unfold requests, content. cbn. rewrite app_assoc, map_app, concat_app, Hc. done.
  - unfold content. cbn. rewrite app_assoc. apply Forall_app. split; [done|]. by constructor.
Qed.

Lemma filled_more r spec s m :
  task_spec_get (rpc_code r) = Some spec -> Forall mut_wf (content s) ->
  pending_mutation s = Some m -> rpc_request_is_write_allow_batch spec = true -> batchable m ->
  filled r spec s (with_pending (Some (add_client_request (Some r) m)) s) (add_client_request (Some r) m).
Proof.
  intros Es Hwf Ep Eb Hbm.
  assert (Forall mut_wf (blocking_mutations s ++ queue s) /\ mut_wf m) as [Hpre Hm].
  { unfold content in Hwf. rewrite Ep, app_assoc in Hwf. cbn in Hwf.
    apply Forall_app in Hwf as [Hpre Hm]. apply Forall_cons in Hm as [Hm _]. by split. }
  destruct (mut_wf_add r spec m Es) as [Hm' Hb']; [left; split_and!; assumption|].
  split; [done| |done|done| |done].
  - unfold requests, content. cbn. rewrite Ep, !app_assoc, !map_app, !concat_app. cbn.
    rewrite !app_nil_r. by rewrite <- !app_assoc.
  - unfold content. cbn. rewrite app_assoc. apply Forall_app. split; [done|]. by constructor.
Qed.

Lemma fill_pending_spec r spec s :
  task_spec_get (rpc_code r) = Some spec -> batch_wf s ->
  exists s' m, fill_pending env spec r s = Ret s' /\ filled r spec s s' m.
Proof.
  intros Es [Hwf Hp]. unfold fill_pending. destruct (pending_mutation s) as [m|] eqn:Ep.
  - destruct (rpc_request_is_write_allow_batch spec) eqn:Eb; cbn [negb obind].
    + rewrite Ep. cbn [obind deref]. rewrite Ep. cbn [obind deref]. destruct (Hp m Ep) as (_ & _ & Hbm).
      eexists _, _. split; [done|]. by apply filled_more.
    + destruct (promote_pending_spec s m Ep) as (s1 & -> & Hc & Hl & Ho & Hn).
      cbn [obind]. rewrite Hn. eexists _, _. split; [done|]. by apply (filled_fresh r spec s s1).
  - cbn [obind]. rewrite Ep. eexists _, _. split; [done|]. by apply (filled_fresh r spec s s).
Qed.

(** *** [add_work] and [next_work] *)

(** Everything the queue maintains between calls. *)
Record queue_inv (s : mutation_queue) : Prop := QueueInv {
  qi_locks : locks_refine env s e;
  qi_writes : mutations_ok (content s);
  qi_batch : batch_wf s
}.

Lemma mutations_ok_requests s : mutations_ok (content s) <-> writes_ok task_spec_get (requests s).
Proof.
  unfold requests, writes_ok. rewrite Forall_forall. setoid_rewrite list_elem_of_In. split.
  - intros H r (l & (m & <- & Hm)%in_map_iff & Hr)%in_concat. by apply (H m).
  - intros H m Hm r Hr. apply H, in_concat. exists (client_requests m). split; [by apply in_map|done].
Qed.

(** Taking a mutation keeps the invariant, if the pending one is still fine. *)
Lemma took_inv s mo s' :
  locks_refine env s e -> mutations_ok (content s) -> Forall mut_wf (content s) ->
  took env e s mo s' -> pending_wf s' -> queue_inv s'.
Proof.
  intros He Hw Hm [Hc Hl _ _] Hp. rewrite Hc in Hw, Hm.
  apply Forall_app in Hw as [_ Hw]. apply Forall_app in Hm as [_ Hm].
  split; [by apply (locks_refine_same env s)|done|by split].
Qed.

Lemma took_requests s mo s' : took env e s mo s' -> requests s ≡ₚ requests_of mo ++ requests s'.
Proof.
  intros [Hc _ _ _]. unfold requests, requests_of. rewrite Hc, map_app, concat_app. done.
Qed.

(** The outcome of a call that adds the requests [new] and gives out [mo]. *)
Record worked (new : list (option message)) (s : mutation_queue) (mo : option mutation)
  (s' : mutation_queue) : Prop := Worked {
  wk_requests : requests s ++ new ≡ₚ requests_of mo ++ requests s';
  wk_inv : queue_inv s';
  wk_free mu : mo = Some mu -> free env e mu;
  wk_throttle mu : mo = Some mu -> current_op_count s < max_concurrent_op s;
  wk_count : current_op_count s' = current_op_count s + match mo with Some _ => 1 | None => 0 end
}.

(** Finishing a call: the requests are in [s1], and [mo] is taken from there. *)
Lemma worked_of_took new s s1 mo s' :
  requests s1 = requests s ++ new -> same_locks s s1 -> current_op_count s1 = current_op_count s ->
  locks_refine env s1 e -> mutations_ok (content s1) -> Forall mut_wf (content s1) ->
  took env e s1 mo s' -> pending_wf s' ->
  (forall mu, mo = Some mu -> current_op_count s1 < max_concurrent_op s1) ->
  worked new s mo s'.
Proof.
  intros Hr Hl Ho He Hw Hwf Ht Hp Hth. assert (max_concurrent_op s1 = max_concurrent_op s) by apply Hl. split.
  - rewrite <- Hr. by apply took_requests.
  - by apply (took_inv s1 mo).
  - apply Ht.
  - intros mu E. specialize (Hth mu E). lia.
  - rewrite (took_count _ _ _ _ _ Ht). lia.
Qed.

Lemma took_promote spec s mo s1 m :
  took env e s mo s1 -> pending_mutation s1 = Some m ->
  (rpc_request_is_write_allow_batch spec = true -> batchable m) ->
  exists s2, try_promote_pending spec s1 = Ret s2 /\ pending_wf s2 /\ took env e s mo s2.
Proof.
  intros [Hc Hl Ho Hf] Ep Hbm.
  destruct (try_promote_pending_spec spec s1 m Ep Hbm) as (s2 & -> & Hc2 & Hl2 & Ho2 & Hp2).
  exists s2. split_and!; [done|done|]. split; [by rewrite Hc2|by eapply same_locks_trans|lia|done].
Qed.

(** Nothing was taken so far: go on with the queue, or with the pending mutation. *)
Lemma took_queue s s1 :
  locks_refine env s e -> mutations_ok (content s) -> took env e s None s1 -> pending_wf s1 ->
  exists mo s2, pop_or_block_queue task_spec_get env s1 = Ret (mo, s2) /\
    took env e s mo s2 /\ pending_wf s2.
Proof.
  intros He Hw [Hc Hl Ho _] Hp. cbn in Hc. rewrite Hc in Hw. unfold content in Hw. rewrite !Forall_app in Hw.
  destruct (pop_or_block_queue_took (S (length (queue s1))) s1) as (mo & s2 & E & Ht & Ep);
    [lia|by apply (locks_refine_same env s)|apply Hw|].
  exists mo, s2. split_and!; [done|apply (took_after env e s s1); [done|done|lia|done]|].
  intros m. rewrite Ep. intros Em. destruct (took_locks _ _ _ _ _ Ht) as (_ & _ & _ & _ & ->). by apply Hp.
Qed.

Lemma took_pending s s1 m :
  locks_refine env s e -> mutations_ok (content s) -> took env e s None s1 ->
  pending_mutation s1 = Some m ->
  exists mo s2, pop_or_block_pending task_spec_get env s1 = Ret (mo, s2) /\
    took env e s mo s2 /\ pending_wf s2.
Proof.
  intros He Hw [Hc Hl Ho _] Ep. cbn in Hc. rewrite Hc in Hw. unfold content in Hw.
  rewrite Ep, !Forall_app in Hw. destruct Hw as (_ & _ & [Hm _]%Forall_cons).
  destruct (pop_or_block_pending_took s1 m Ep) as (mo & s2 & E & Ht & Ep2);
    [by apply (locks_refine_same env s)|done|].
  exists mo, s2. split_and!; [done|apply (took_after env e s s1); [done|done|lia|done]|].
  intros m'. by rewrite Ep2.
Qed.

(** The effect of [add_work]. *)
Lemma add_work_worked r spec s :
  task_spec_get (rpc_code r) = Some spec -> rpc_request_is_write_operation spec = true ->
  queue_inv s ->
  exists mo s', add_work task_spec_get env r s = Ret (mo, s') /\ worked [Some r] s mo s'.
Proof.
  intros Es Ew [He Hw Hb]. unfold add_work. rewrite Es.
  destruct (fill_pending_spec r spec s Es Hb) as (s1 & m & -> & [Ep Hr Hl Ho Hwf Hbm]). cbn [obind].
  pose proof (locks_refine_same _ _ _ _ Hl He) as He1.
  assert (mutations_ok (content s1)) as Hw1.
  { apply mutations_ok_requests. rewrite Hr. intros r' [Hr'|[= ->]%list_elem_of_singleton]%elem_of_app; [|eauto].
    by apply (proj1 (mutations_ok_requests s) Hw). }
  pose proof (fun mo s' => worked_of_took _ _ _ mo s' Hr Hl Ho He1 Hw1 Hwf) as Hfin.
  destruct (Z.geb_spec (current_op_count s1) (max_concurrent_op s1)) as [Hfull|Hroom].
  { destruct (took_promote spec s1 None s1 m) as (s3 & -> & Hp3 & Ht3); [apply took_nothing|done..|].
    cbn [obind]. eexists _, _. split; [done|]. by apply Hfin. }
  destruct (try_unblock_took s1 He1 Hw1) as (mo & s2 & -> & Ht2 & Ep2 & Eq2). cbn [obind].
  rewrite Ep in Ep2. destruct mo as [mu|].
  { destruct (took_promote spec s1 (Some mu) s2 m Ht2 Ep2 Hbm) as (s3 & -> & Hp3 & Ht3). cbn [obind].
    eexists _, _. split; [done|]. by apply Hfin. }
  destruct (queue s2) as [|m0 q0].
  - destruct (took_pending s1 s2 m He1 Hw1 Ht2 Ep2) as (mo & s3 & -> & Ht3 & Hp3).
    eexists _, _. split; [done|]. by apply Hfin.
  - destruct (took_promote spec s1 None s2 m Ht2 Ep2 Hbm) as (s3 & -> & Hp3 & Ht3). cbn [obind].
    destruct (took_queue s1 s3 He1 Hw1 Ht3 Hp3) as (mo & s4 & -> & Ht4 & Hp4).
    eexists _, _. split; [done|]. by apply Hfin.
Qed.

(** A write request is never lost or duplicated, whatever [add_work] gives out:
    the queued requests plus the new one are those given out plus those still
    queued.  At most one mutation is given out, only below the concurrency
    limit, and an atomic write only when no decree of its rows is in flight. *)
Theorem add_work_correct r spec s :
  task_spec_get (rpc_code r) = Some spec -> rpc_request_is_write_operation spec = true ->
  queue_inv s ->
  exists mo s', add_work task_spec_get env r s = Ret (mo, s') /\ worked [Some r] s mo s'.
Proof. apply add_work_worked. Qed.

(** The effect of [next_work]. *)
Lemma next_work_worked n s :
  queue_inv s ->
  exists mo s', next_work task_spec_get env n s = Ret (mo, s') /\
    worked [] (with_work n (pcount s) (pending_mutation s) (queue s) (blocking_mutations s) s) mo s'.
Proof.
  intros [He Hw [Hwf Hp]]. unfold next_work.
  set (s1 := with_work n (pcount s) (pending_mutation s) (queue s) (blocking_mutations s) s).
  assert (locks_refine env s1 e) as He1 by (by apply (locks_refine_same env s)).
  pose proof (fun mo s' => worked_of_took [] s1 s1 mo s' ltac:(by rewrite app_nil_r) ltac:(done) eq_refl
                He1 Hw Hwf) as Hfin.
  destruct (Z.geb_spec (current_op_count s1) (max_concurrent_op s1)) as [Hfull|Hroom].
  { eexists _, _. split; [done|]. apply Hfin; [apply took_nothing|done|done]. }
  destruct (try_unblock_took s1 He1 Hw) as (mo & s2 & -> & Ht2 & Ep2 & Eq2). cbn [obind].
  assert (pending_wf s2) as Hp2.
  { intros m. rewrite Ep2. destruct (took_locks _ _ _ _ _ Ht2) as (_ & _ & _ & _ & ->). apply Hp. }
  destruct mo as [mu|]; [eexists _, _; split; [done|]; by apply Hfin|].
  destruct (queue s2) as [|m0 q0].
  - destruct (pending_mutation s2) as [m|] eqn:Em; [|eexists _, _; split; [done|]; by apply Hfin].
    destruct (took_pending s1 s2 m He1 Hw Ht2 Em) as (mo & s3 & -> & Ht3 & Hp3).
    eexists _, _. split; [done|]. by apply Hfin.
  - destruct (took_queue s1 s2 He1 Hw Ht2 Hp2) as (mo & s4 & -> & Ht4 & Hp4).
    eexists _, _. split; [done|]. by apply Hfin.
Qed.

(** [next_work] adds no request and loses or duplicates none: what was queued is
    what it gives out plus what stays queued.  It gives out at most one mutation,
    only below the concurrency limit, and an atomic write only when no decree of
    its rows is in flight. *)
Theorem next_work_correct n s :
  queue_inv s ->
  exists mo s', next_work task_spec_get env n s = Ret (mo, s') /\
    worked [] (with_work n (pcount s) (pending_mutation s) (queue s) (blocking_mutations s) s) mo s'.
Proof. apply next_work_worked. Qed.

End QueueTheory.

(** The effect of [enter_2pc]. *)
Lemma enter_2pc_inv task_spec_get env e mu s :
  0 <= FLAGS_row_lock_map_capacity env -> writes_ok task_spec_get (client_requests mu) ->
  queue_inv task_spec_get env e s ->
  exists s', enter_2pc task_spec_get env mu s = Ret s' /\ content s' = content s /\
    queue_inv task_spec_get env (enter_spec (get_decree mu) (client_requests mu) e) s'.
Proof.
  intros Hcap Hw [He Hws Hb].
  destruct (enter_2pc_refine task_spec_get env mu s e Hcap Hw He) as (s' & E & He'). exists s'.
  assert (s' = with_locks (row_locks s') (lru_rows s') (next_node s') s) as Es.
  { apply obind_Ret_inv in E as (s1 & E1%enter_rows_content & E2%evict_rows_content).
    rewrite E2 at 1. by rewrite E1. }
  split_and!; [done|by rewrite Es|]. split; [done|by rewrite Es|by rewrite Es].
Qed.

(** C21. Entering two-phase commit records the decree of [mu] for each of its rows and
    evicts only rows whose decrees are applied: the lock table keeps agreeing
    with the map of the largest decrees entered so far. *)
Theorem enter_2pc_correct task_spec_get env e mu s :
  0 <= FLAGS_row_lock_map_capacity env -> writes_ok task_spec_get (client_requests mu) ->
  queue_inv task_spec_get env e s ->
  exists s', enter_2pc task_spec_get env mu s = Ret s' /\ content s' = content s /\
    queue_inv task_spec_get env (enter_spec (get_decree mu) (client_requests mu) e) s'.
Proof. apply enter_2pc_inv. Qed.

(** Applying more decrees only releases rows. *)
Lemma queue_inv_applied task_spec_get env env' e s :
  atomic_idempotent env' = atomic_idempotent env -> last_applied_decree env <= last_applied_decree env' ->
  queue_inv task_spec_get env e s -> queue_inv task_spec_get env' e s.
Proof.
  intros Ea Hl [[Hwf He] Hw [Hm Hp]]. split; [split; [done|]|done|split; [|done]].
  - intros h d Hd. apply He. lia.
  - eapply Forall_impl; [exact Hm|]. intros m [H1 H2]. split; [done|]. intros r Hr.
    unfold atomic, need_make_idempotent in *. rewrite Ea. by apply H2.
Qed.

(** *** Runs of the queue *)

(** The queue of a primary during one term, with the replica's state, the
    decrees entered so far, the client requests added and those given out. *)
Record world := World {
  w_env : replica_env;
  w_entered : entered_map;
  w_queue : mutation_queue;
  w_added : list (option message);
  w_given : list (option message)
}.

Section Runs.
Context (task_spec_get : task_code -> option task_spec).
Context (Hatomic : forall code spec, task_spec_get code = Some spec ->
  rpc_request_is_write_idempotent spec = false -> rpc_request_is_write_allow_batch spec = false).

Definition write_request (r : message) : Prop :=
  exists spec, task_spec_get (rpc_code r) = Some spec /\ rpc_request_is_write_operation spec = true.

(** What the primary does with its queue, in any order: a client write arrives,
    a finished mutation asks for the next work, a mutation enters two-phase
    commit, decrees are applied, the concurrency limit is changed. *)
Inductive queue_step : world -> world -> Prop :=
| step_add_work env e s added given r mo s' :
    write_request r -> add_work task_spec_get env r s = Ret (mo, s') ->
    queue_step (World env e s added given)
      (World env e s' (added ++ [Some r]) (given ++ requests_of mo))
| step_next_work env e s added given n mo s' :
    next_work task_spec_get env n s = Ret (mo, s') ->
    queue_step (World env e s added given) (World env e s' added (given ++ requests_of mo))
| step_enter_2pc env e s added given mu s' :
    writes_ok task_spec_get (client_requests mu) -> enter_2pc task_spec_get env mu s = Ret s' ->
    queue_step (World env e s added given)
      (World env (enter_spec (get_decree mu) (client_requests mu) e) s' added given)
| step_applied env env' e s added given :
    atomic_idempotent env' = atomic_idempotent env ->
    FLAGS_row_lock_map_capacity env' = FLAGS_row_lock_map_capacity env ->
    last_applied_decree env <= last_applied_decree env' ->
    queue_step (World env e s added given) (World env' e s added given)
| step_reset_max env e s added given max :
    queue_step (World env e s added given) (World env e (reset_max_concurrent_ops max s) added given).

Record world_ok (w : world) : Prop := WorldOk {
  wo_capacity : 0 <= FLAGS_row_lock_map_capacity (w_env w);
  wo_inv : queue_inv task_spec_get (w_env w) (w_entered w) (w_queue w);
  wo_conserved : w_added w ≡ₚ w_given w ++ requests (w_queue w)
}.

Lemma worked_conserved env e new s mo s' added given :
  worked task_spec_get env e new s mo s' -> added ≡ₚ given ++ requests s ->
  added ++ new ≡ₚ (given ++ requests_of mo) ++ requests s'.
Proof.
  intros Hw Hc. rewrite Hc, <- !app_assoc. f_equiv. apply Hw.
Qed.

Lemma queue_step_ok w w' : queue_step w w' -> world_ok w -> world_ok w'.
Proof.
  intros Hstep [Hcap Hinv Hc].
  destruct Hstep as [env e s added given r mo s' (spec & Es & Ew) E|env e s added given n mo s' E
    |env e s added given mu s' Hw E|env env' e s added given Ea Ecap Hl|env e s added given max]; cbn in *.
  - destruct (add_work_worked _ _ e Hatomic r spec s Es Ew Hinv) as (mo' & s1 & E1 & Hwk).
    rewrite E in E1. injection E1 as <- <-. split; [done|apply Hwk|by eapply worked_conserved].
  - destruct (next_work_worked _ _ e n s Hinv) as (mo' & s1 & E1 & Hwk).
    rewrite E in E1. injection E1 as <- <-. split; [done|apply Hwk|].
    rewrite <- (app_nil_r added). by eapply worked_conserved.
  - destruct (enter_2pc_inv _ env e mu s Hcap Hw Hinv) as (s1 & E1 & Hcont & Hinv').
    rewrite E in E1. injection E1 as <-. split; [done|done|]. cbn. unfold requests in *. by rewrite Hcont.
  - split; [cbn; lia|by eapply queue_inv_applied|done].
  - split; [done| |done]. destruct Hinv as [[[H1 H2 H3] He] Hw [Hm Hp]]. split; [split; [by split|done]|done|by split].
Qed.

Lemma new_queue_ok env p max_op batch_disabled s :
  0 <= FLAGS_row_lock_map_capacity env -> new_mutation_queue p max_op batch_disabled = Ret s ->
  world_ok (World env ∅ s [] []).
Proof.
  intros Hcap [_ [= <-]]%CHECK_Ret_inv. split; [done| |done]. split; cbn.
  - split; [split|]; cbn.
    + constructor.
    + intros x Hx. by apply not_elem_of_nil in Hx.
    + intros h n. rewrite lookup_empty. split; [done|]. intros (x & Hx & _). by apply not_elem_of_nil in Hx.
    + intros h d _. unfold lock_decree. cbn. by rewrite !lookup_empty.
  - constructor.
  - split; [constructor|done].
Qed.

(** C20. In every state a new queue can reach, whatever the order of client writes,
    completions, prepares and applied decrees: no request was lost or given out
    twice, [add_work] and [next_work] return, and an atomic write they give out
    has no decree of its rows in flight. *)
Theorem reachable_queue_safe env p max_op batch_disabled s w :
  0 <= FLAGS_row_lock_map_capacity env -> new_mutation_queue p max_op batch_disabled = Ret s ->
  rtc queue_step (World env ∅ s [] []) w ->
  w_added w ≡ₚ w_given w ++ requests (w_queue w) /\
  (forall r, write_request r -> exists mo s', add_work task_spec_get (w_env w) r (w_queue w) = Ret (mo, s') /\
     forall mu, mo = Some mu -> free (w_env w) (w_entered w) mu) /\
  (forall n, exists mo s', next_work task_spec_get (w_env w) n (w_queue w) = Ret (mo, s') /\
     forall mu, mo = Some mu -> free (w_env w) (w_entered w) mu).
Proof.
  intros Hcap Hnew Hrun. assert (world_ok w) as [_ Hinv Hc].
  { pose proof (new_queue_ok env p max_op batch_disabled s Hcap Hnew) as Hok. clear Hnew.
    induction Hrun as [|w1 w2 w3 Hs _ IH]; [done|]. by eapply IH, queue_step_ok. }
  split_and!; [done|..].
  - intros r (spec & Es & Ew).
    destruct (add_work_worked _ _ _ Hatomic r spec _ Es Ew Hinv) as (mo & s' & E & Hwk).
    exists mo, s'. split; [done|apply Hwk].
  - intros n. destruct (next_work_worked _ _ _ n _ Hinv) as (mo & s' & E & Hwk).
    exists mo, s'. split; [done|apply Hwk].
Qed.

End Runs.

(** *** What the queue gives out was put in *)

Section Held.
Context (P : mutation -> Prop).

Lemma Forall_held m : Forall P (option_list (Some m)) <-> P m.
Proof. apply Forall_singleton. Qed.

Lemma promote_pending_content s s' : promote_pending s = Ret s' -> content s' = content s.
Proof.
  unfold promote_pending. intros E. inv_returns. unfold content. cbn. rewrite E0. cbn. by rewrite app_nil_r.
Qed.

Lemma try_promote_pending_content spec s s' : try_promote_pending spec s = Ret s' -> content s' = content s.
Proof. unfold try_promote_pending. intros E. inv_returns; [done|]. by apply promote_pending_content. Qed.

Context (get : task_code -> option task_spec) (env : replica_env).

Lemma try_unblock_content s mo s' :
  try_unblock get env s = Ret (mo, s') -> content s ≡ₚ option_list mo ++ content s'.
Proof.
  unfold try_unblock. assert (blocking_mutations s = [] ++ blocking_mutations s) as Hb by done. revert Hb.
  generalize (@nil mutation) as before. generalize (blocking_mutations s) at 2 3 as rest.
  induction rest as [|mu rest IH]; intros before Eb E; cbn [try_unblock_scan] in E; inv_returns; [done|..].
  - by apply (IH (before ++ [mu])); [rewrite <- app_assoc|].
  - unfold content. cbn. rewrite Eb, <- !app_assoc. cbn. symmetry. apply Permutation_middle.
Qed.

Lemma try_block_content mu s b s' :
  try_block get env mu s = Ret (b, s') -> mu :: content s ≡ₚ (if b then [] else [mu]) ++ content s'.
Proof.
  unfold try_block. intros E. inv_returns; try done.
  unfold content. cbn. rewrite <- !app_assoc. apply Permutation_middle.
Qed.

Lemma pop_or_block_queue_content s mo s' :
  pop_or_block_queue get env s = Ret (mo, s') -> content s ≡ₚ option_list mo ++ content s'.
Proof.
  unfold pop_or_block_queue. generalize (S (length (queue s))) as fuel. intros fuel. revert s.
  induction fuel as [|fuel IH]; intros s E; cbn [pop_or_block_queue_loop] in E; [done|].
  unfold pop_internal_queue in E. destruct (queue s) as [|mu q] eqn:Eq; inv_returns; [done|..].
  all: apply try_block_content in E0; unfold content in *; cbn in *; rewrite Eq; cbn.
  - rewrite <- IH by done. rewrite <- E0. symmetry. apply Permutation_middle.
  - rewrite <- E0. symmetry. apply Permutation_middle.
Qed.

Lemma pop_or_block_pending_content s mo s' :
  pop_or_block_pending get env s = Ret (mo, s') -> content s ≡ₚ option_list mo ++ content s'.
Proof.
  unfold pop_or_block_pending. intros E. inv_returns.
  apply try_block_content in E1. unfold content in *. cbn in *. rewrite E0.
  destruct b; cbn in *; rewrite <- E1, app_nil_r, app_assoc; symmetry; apply Permutation_cons_append.
Qed.

Lemma next_work_content n s mo s' :
  next_work get env n s = Ret (mo, s') -> content s ≡ₚ option_list mo ++ content s'.
Proof.
  unfold next_work. intros E. inv_returns; try done.
  all: apply try_unblock_content in E0; try exact E0.
  all: etransitivity; [apply E0|]; cbn [option_list app]; try done.
  - by apply pop_or_block_pending_content.
  - by apply pop_or_block_queue_content.
Qed.

Context (Hnew : forall b, P (new_mutation env invalid_decree b))
  (Hadd : forall r m, P m -> P (add_client_request r m)).

Lemma fill_pending_held spec r s s' :
  fill_pending env spec r s = Ret s' -> Forall P (content s) -> Forall P (content s').
Proof.
  assert (forall s s', (let* m := deref (pending_mutation s) in
      Ret (with_pending (Some (add_client_request (Some r) m)) s)) = Ret s' ->
      Forall P (content s) -> Forall P (content s')) as Hput.
  { intros s1 s1' E HP. inv_returns. revert HP. unfold content, with_pending.
    cbn [with_work blocking_mutations queue pending_mutation]. rewrite E0.
    rewrite !Forall_app, ?Forall_held. intuition. }
  unfold fill_pending. intros E HP. apply obind_Ret_inv in E as (s1 & E1 & E).
  assert (content s1 = content s) as Es by (inv_returns; eauto using promote_pending_content).
  rewrite <- Es in HP. eapply Hput; [exact E|]. destruct (pending_mutation s1) eqn:Ep; [done|].
  revert HP. unfold content, with_pending. cbn [with_work blocking_mutations queue pending_mutation].
  rewrite Ep. rewrite !Forall_app, ?Forall_held. intuition.
Qed.

(** Every mutation held or given out by [add_work] has a property that new
    mutations have and added requests keep. *)
Lemma add_work_held r s mo s' :
  add_work get env r s = Ret (mo, s') -> Forall P (content s) -> Forall P (option_list mo ++ content s').
Proof.
  unfold add_work. intros E HP. inv_returns.
  all: eapply fill_pending_held in HP; [|done].
  all: repeat match goal with
       | H : try_promote_pending _ _ = Ret _ |- _ => apply try_promote_pending_content in H; rewrite H in *
       | H : try_unblock _ _ _ = Ret _ |- _ => apply try_unblock_content in H; rewrite H in HP
       | H : pop_or_block_pending _ _ _ = Ret _ |- _ => apply pop_or_block_pending_content in H
       | H : pop_or_block_queue _ _ _ = Ret _ |- _ => apply pop_or_block_queue_content in H
       end; cbn in *; try done.
  all: by rewrite E in HP.
Qed.

End Held.

(** *** [clear] *)

Lemma drain_queue_spec fuel acc s :
  (length (queue s) < fuel)%nat ->
  exists pc, drain_queue fuel acc s =
    (acc ++ queue s, with_work (current_op_count s) pc (pending_mutation s) [] (blocking_mutations s) s).
Proof.
  revert acc s. induction fuel as [|fuel IH]; intros acc s Hf; [lia|]. cbn [drain_queue].
  unfold pop_internal_queue. destruct (queue s) as [|m q] eqn:Eq.
  - exists (pcount s). rewrite app_nil_r. destruct s; cbn in *. by subst.
  - edestruct IH as [pc E]; [|exists pc; rewrite E]; [cbn in *; lia|]. cbn. by rewrite <- app_assoc.
Qed.

(** [clear] gives out every queued mutation once, in queue order, and leaves no
    work and no row lock behind. *)
Theorem clear_drains s :
  let '(out, s') := clear s in
  out = content s /\ content s' = [] /\ row_locks s' = ∅ /\ current_op_count s' = current_op_count s.
Proof.
  unfold clear. edestruct drain_queue_spec as [pc ->]; [|]; [cbn; lia|]. cbn.
  destruct (pending_mutation s) eqn:Ep; cbn; unfold content; cbn; rewrite Ep; cbn;
    by rewrite ?app_nil_r, <- ?app_assoc.
Qed.

(** ** Two behaviours of the code that differ from its description *)

Module Examples.

Definition WRITE : task_code := String.list_byte_of_string "WRITE"%string.
Definition ATOMIC : task_code := String.list_byte_of_string "ATOMIC"%string.

Definition specs (c : task_code) : option task_spec :=
  if decide (c = WRITE) then Some (TaskSpec true true true)
  else if decide (c = ATOMIC) then Some (TaskSpec true false false) else None.

Definition req (c : task_code) (h : Z) : message := Message c 0 [] h 0.

(** Decrees up to 10 are applied; at most one row lock is kept. *)
Definition env : replica_env := ReplicaEnv (Gpid 1 0) 1 true 10 1 56.

Definition mu_of (c : task_code) (h d : Z) : mutation :=
  set_id 1 d (add_client_request (Some (req c h))
    (new_mutation env invalid_decree (bool_decide (c = ATOMIC)))).

Definition empty_queue : mutation_queue := MQ 0 10 false 0 None [] [] ∅ [] 0.

End Examples.
Import Examples.


(** [next_work] may return null while the pending mutation is free to go: when
    every mutation of [_queue] is blocked, [_pending_mutation] is not tried. *)
Theorem next_work_skips_pending :
  let locked := mu_of ATOMIC 7 invalid_decree in
  let ready := mu_of WRITE 9 invalid_decree in
  (let* s := enter_2pc specs env (mu_of WRITE 7 11) empty_queue in
   let s := with_work 0 1 (Some ready) [locked] [] s in
   let* (mo, s) := next_work specs env 0 s in
   Ret (mo, pending_mutation s, is_blocking_candidate ready))
  = Ret (None, Some ready, false).
Proof. vm_compute. reflexivity. Qed.

(** ** Concrete runs *)

Lemma specs_atomic code spec :
  specs code = Some spec -> rpc_request_is_write_idempotent spec = false ->
  rpc_request_is_write_allow_batch spec = false.
Proof. unfold specs. repeat case_decide; intros; simplify_eq; done. Qed.

Lemma empty_queue_inv : queue_inv specs env ∅ empty_queue.
Proof. apply (wo_inv _ _ (new_queue_ok specs env (Gpid 1 0) 10 false empty_queue ltac:(cbn; lia) eq_refl)). Qed.

Lemma add_work_correct_witness :
  exists mo s', add_work specs env (req ATOMIC 7) empty_queue = Ret (mo, s') /\
    requests empty_queue ++ [Some (req ATOMIC 7)] ≡ₚ requests_of mo ++ requests s'.
Proof.
  destruct (add_work_correct specs env ∅ specs_atomic (req ATOMIC 7) (TaskSpec true false false) empty_queue)
    as (mo & s' & E & H); [reflexivity|reflexivity|exact empty_queue_inv|].
  exists mo, s'. split; [exact E|]. exact (wk_requests _ _ _ _ _ _ _ H).
Defined.

Lemma next_work_correct_witness :
  exists mo s', next_work specs env 0 empty_queue = Ret (mo, s') /\ queue_inv specs env ∅ s'.
Proof.
  destruct (next_work_correct specs env ∅ 0 empty_queue) as (mo & s' & E & H); [exact empty_queue_inv|].
  exists mo, s'. split; [exact E|]. exact (wk_inv _ _ _ _ _ _ _ H).
Defined.

Lemma enter_2pc_correct_witness :
  exists s', enter_2pc specs env (mu_of WRITE 7 11) empty_queue = Ret s' /\
    queue_inv specs env {[ 7 := 11 ]} s'.
Proof.
  destruct (enter_2pc_correct specs env ∅ (mu_of WRITE 7 11) empty_queue) as (s' & E & _ & H).
  - cbn. lia.
  - intros r [= ->]%list_elem_of_singleton. eexists. split; reflexivity.
  - exact empty_queue_inv.
  - exists s'. split; [exact E|exact H].
Defined.

(** A new queue after one client write. *)
Lemma reachable_queue_safe_witness :
  exists w, rtc (queue_step specs) (World env ∅ empty_queue [] []) w /\
    w_added w = [Some (req WRITE 7)] /\ w_added w ≡ₚ w_given w ++ requests (w_queue w).
Proof.
  destruct (add_work specs env (req WRITE 7) empty_queue) as [[mo s']| |] eqn:E.
  - assert (queue_step specs (World env ∅ empty_queue [] [])
      (World env ∅ s' [Some (req WRITE 7)] (requests_of mo))) as Hs.
    { refine (step_add_work specs env ∅ empty_queue [] [] (req WRITE 7) mo s' _ E).
      exists (TaskSpec true true true). split; reflexivity. }
    assert (rtc (queue_step specs) (World env ∅ empty_queue [] [])
      (World env ∅ s' [Some (req WRITE 7)] (requests_of mo))) as Hr by (by apply rtc_once).
    exists (World env ∅ s' [Some (req WRITE 7)] (requests_of mo)). split; [exact Hr|]. split; [reflexivity|].
    refine (proj1 (reachable_queue_safe specs specs_atomic env (Gpid 1 0) 10 false empty_queue _ _ _ Hr)).
    + cbn. lia.
    + reflexivity.
  - exfalso. vm_compute in E. discriminate E.
  - exfalso. vm_compute in E. discriminate E.
Defined.

End MutationQueue.
