(* ===== verification/StringConv.v ===== *)
(** * Numbers as text

    Model of [src/utils/string_conv.h] (the [buf2*] parsers, on top of the C
    library's [strtoll] and [strtoull] in base 0), of [src/utils/safe_arithmetic.h],
    and of the decimal printing of integers ([std::to_string], [fmt::format]). *)
From S2P Require Import Prelude.

Module StringConv.

(** ** The C library *)

(** [isspace] of the C locale. *)
Definition isspace (b : byte) : bool :=
  let c := b2z b in (c =? 32) || ((9 <=? c) && (c <=? 13)).

(** The value of a digit or letter, 255 for anything else. *)
Definition digit_val (b : byte) : Z :=
  let c := b2z b in
  if (48 <=? c) && (c <=? 57) then c - 48
  else if (97 <=? c) && (c <=? 122) then c - 87
  else if (65 <=? c) && (c <=? 90) then c - 55
  else 255.

Fixpoint skip_spaces (s : blob) : blob :=
  match s with
  | b :: t => if isspace b then skip_spaces t else s
  | [] => []
  end.

(** The longest run of digits of [base]: its value, its length and the rest. *)
Fixpoint scan_digits (base acc : Z) (n : nat) (s : blob) : Z * nat * blob :=
  match s with
  | b :: t => if digit_val b <? base then scan_digits base (acc * base + digit_val b) (S n) t
              else (acc, n, s)
  | [] => (acc, n, s)
  end.

Definition char (z : Z) : byte := z2b z.
Abbreviation c_minus := (char 45).
Abbreviation c_plus := (char 43).
Abbreviation c_zero := (char 48).

Definition is_x (b : byte) : bool := bool_decide (b = char 120) || bool_decide (b = char 88).

(** The optional sign, then the rest. *)
Definition scan_sign (s : blob) : bool * blob :=
  match s with
  | b :: t => if decide (b = c_minus) then (true, t)
              else if decide (b = c_plus) then (false, t) else (false, s)
  | [] => (false, s)
  end.

(** The magnitude with the base read from the prefix: 0x, 0 or none.  A 0x
    without a digit after it is the number 0 followed by an x. *)
Definition scan_magnitude (s : blob) : option (Z * blob) :=
  let scan base s := match scan_digits base 0 0 s with
                     | (_, O, _) => None
                     | (v, S _, rest) => Some (v, rest)
                     end in
  match s with
  | b :: t =>
      if decide (b = c_zero) then
        match t with
        | x :: t' => if is_x x then match scan 16 t' with
                                    | Some r => Some r
                                    | None => Some (0, t)
                                    end
                     else scan 8 s
        | [] => scan 8 s
        end
      else scan 10 s
  | [] => None
  end.

(** Sign and magnitude, [None] when there is no number; the rest is what the
    end pointer points to. *)
Definition scan_number (s : blob) : option (bool * Z * blob) :=
  let '(neg, s1) := scan_sign (skip_spaces s) in
  match scan_magnitude s1 with
  | Some (m, rest) => Some (neg, m, rest)
  | None => None
  end.

(** [strtoll(s, &p, 0)]: value, remaining text, and whether errno is ERANGE. *)
Definition strtoll (s : blob) : Z * blob * bool :=
  match scan_number s with
  | None => (0, s, false)
  | Some (neg, m, rest) =>
      let v := if neg : bool then - m else m in
      if v >? INT64_MAX then (INT64_MAX, rest, true)
      else if v <? INT64_MIN then (INT64_MIN, rest, true)
      else (v, rest, false)
  end.

(** [strtoull(s, &p, 0)]: a minus sign negates modulo 2^64. *)
Definition strtoull (s : blob) : Z * blob * bool :=
  match scan_number s with
  | None => (0, s, false)
  | Some (neg, m, rest) =>
      if m >? 2 ^ 64 - 1 then (2 ^ 64 - 1, rest, true)
      else (if neg : bool then u64 (- m) else m, rest, false)
  end.

(** [std::to_string], [fmt::format("{}", n)]: 20 digits hold any 64-bit number. *)
Fixpoint decimal (fuel : nat) (n : Z) : blob :=
  match fuel with
  | O => []
  | S fuel' => if n <? 10 then [char (48 + n)]
               else decimal fuel' (n / 10) ++ [char (48 + n mod 10)]
  end.

Definition to_string (z : Z) : blob :=
  if z <? 0 then c_minus :: decimal 20 (- z) else decimal 20 z.

(** ** [buf2*] *)

Definition signed_max (w : Z) : Z := 2 ^ (w - 1) - 1.
Definition signed_min (w : Z) : Z := - 2 ^ (w - 1).
Definition unsigned_max (w : Z) : Z := 2 ^ w - 1.

Definition buf2signed (w : Z) (buf : blob) : option Z :=
  match buf with
  | [] => None
  | _ => let '(v, rest, erange) := strtoll buf in
         match rest with
         | _ :: _ => None
         | [] => if (v >? signed_max w) || (v <? signed_min w) || erange then None else Some v
         end
  end.

Definition buf2unsigned (w : Z) (buf : blob) : option Z :=
  match buf with
  | [] => None
  | _ => let '(v, rest, erange) := strtoull buf in
         match rest with
         | _ :: _ => None
         | [] => if (v >? unsigned_max w) || (v <? 0) || erange then None
                 else if negb (v =? 0) && bool_decide (c_minus ∈ buf) then None else Some v
         end
  end.

Definition buf2int32 : blob -> option Z := buf2signed 32.
Definition buf2int64 : blob -> option Z := buf2signed 64.
Definition buf2uint16 : blob -> option Z := buf2unsigned 16.
Definition buf2uint32 : blob -> option Z := buf2unsigned 32.
Definition buf2uint64 : blob -> option Z := buf2unsigned 64.

Definition tolower (b : byte) : byte :=
  if (65 <=? b2z b) && (b2z b <=? 90) then char (b2z b + 32) else b.

Definition buf2bool (buf : blob) (ignore_case : bool) : option bool :=
  let data := if ignore_case then map tolower buf else buf in
  if decide (data = String.list_byte_of_string "true"%string) then Some true
  else if decide (data = String.list_byte_of_string "false"%string) then Some false
  else None.

(** ** [safe_add] *)

Definition safe_add_signed (w a b : Z) : option Z :=
  if (b >? 0) && (a >? signed_max w - b) then None
  else if (b <? 0) && (a <? signed_min w - b) then None
  else Some (a + b).

(** The subtraction [max - b] cannot wrap: [b] is at most [max]. *)
Definition safe_add_unsigned (w a b : Z) : option Z :=
  if a >? unsigned_max w - b then None else Some (uwrap w (a + b)).

(** ** Theory *)

Lemma b2z_char z : 0 <= z < 256 -> b2z (char z) = z.
Proof. intros. unfold char. rewrite b2z_z2b. by apply Z.mod_small. Qed.

Lemma char_inj a b : 0 <= a < 256 -> 0 <= b < 256 -> char a = char b -> a = b.
Proof. intros Ha Hb E. rewrite <- (b2z_char a), <- (b2z_char b) by done. by rewrite E. Qed.

Lemma digit_val_char d : 0 <= d < 10 -> digit_val (char (48 + d)) = d.
Proof.
  intros. unfold digit_val. rewrite b2z_char by lia.
  destruct (Z.leb_spec 48 (48 + d)), (Z.leb_spec (48 + d) 57); cbn; lia.
Qed.

Lemma isspace_digit d : 0 <= d < 10 -> isspace (char (48 + d)) = false.
Proof.
  intros. unfold isspace. rewrite b2z_char by lia.
  destruct (Z.eqb_spec (48 + d) 32), (Z.leb_spec 9 (48 + d)), (Z.leb_spec (48 + d) 13); cbn; lia.
Qed.

(** Printing produces decimal digits, the first one not 0 unless the number is. *)
Lemma decimal_digits fuel n b : 0 <= n -> b ∈ decimal fuel n -> exists d, 0 <= d < 10 /\ b = char (48 + d).
Proof.
  revert n. induction fuel as [|fuel IH]; cbn; intros n Hn Hb; [by apply not_elem_of_nil in Hb|].
  destruct (Z.ltb_spec n 10).
  - apply list_elem_of_singleton in Hb as ->. exists n. split; [lia|done].
  - apply elem_of_app in Hb as [Hb|Hb].
    + apply (IH (n / 10)); [|done]. apply Z.div_pos; lia.
    + apply list_elem_of_singleton in Hb as ->. exists (n mod 10).
      pose proof (Z.mod_pos_bound n 10). split; [lia|done].
Qed.

(** The value of a run of decimal digits. *)
Definition digits_value (l : blob) : Z := fold_left (fun acc b => acc * 10 + digit_val b) l 0.

Lemma scan_digits_all l acc k :
  (forall b, b ∈ l -> exists d, 0 <= d < 10 /\ b = char (48 + d)) ->
  scan_digits 10 acc k l = (fold_left (fun acc b => acc * 10 + digit_val b) l acc, (k + length l)%nat, []).
Proof.
  revert acc k. induction l as [|b l IH]; intros acc k Hd; cbn [scan_digits fold_left length].
  - by rewrite Nat.add_0_r.
  - destruct (Hd b) as (d & Hd1 & ->); [by left|]. rewrite digit_val_char by done.
    destruct (Z.ltb_spec d 10); [|lia]. rewrite IH; [f_equal; f_equal; lia|].
    intros b Hb. apply Hd. by right.
Qed.

Lemma decimal_value fuel n : 0 <= n < 10 ^ Z.of_nat fuel -> digits_value (decimal fuel n) = n.
Proof.
  revert n. induction fuel as [|fuel IH]; intros n Hn; [cbn in *; lia|].
  cbn [decimal]. destruct (Z.ltb_spec n 10).
  - cbn. rewrite digit_val_char; lia.
  - unfold digits_value. rewrite fold_left_app. cbn [fold_left]. fold (digits_value (decimal fuel (n / 10))).
    rewrite IH.
    + rewrite digit_val_char by (apply Z.mod_pos_bound; lia). rewrite (Z.div_mod n 10) at 3 by lia. lia.
    + split; [apply Z.div_pos; lia|]. apply Z.div_lt_upper_bound; [lia|].
      rewrite Nat2Z.inj_succ, Z.pow_succ_r in Hn by lia. lia.
Qed.

Lemma decimal_not_nil fuel n : (0 < fuel)%nat -> decimal fuel n <> [].
Proof. destruct fuel; [lia|]. intros _. cbn. destruct (n <? 10); [done|]. by destruct (decimal fuel (n / 10)). Qed.

Lemma decimal_head fuel n :
  0 < n < 10 ^ Z.of_nat fuel -> exists d l, 0 < d < 10 /\ decimal fuel n = char (48 + d) :: l.
Proof.
  revert n. induction fuel as [|fuel IH]; intros n Hn; [cbn in *; lia|]. cbn [decimal].
  destruct (Z.ltb_spec n 10); [exists n, []; split; [lia|done]|].
  destruct (IH (n / 10)) as (d & l & Hd & ->).
  - split; [apply Z.div_str_pos; lia|]. apply Z.div_lt_upper_bound; [lia|].
    rewrite Nat2Z.inj_succ, Z.pow_succ_r in Hn by lia. lia.
  - by eexists d, _.
Qed.

(** A printed magnitude is read back whole. *)
Lemma scan_magnitude_decimal n : 0 <= n < 10 ^ 20 -> scan_magnitude (decimal 20 n) = Some (n, []).
Proof.
  intros Hn. destruct (decide (n = 0)) as [->|Hne]; [by vm_compute|].
  destruct (decimal_head 20 n) as (d & l & Hd & E); [cbn; lia|].
  pose proof (decimal_digits 20 n) as Hdig. pose proof (decimal_value 20 n ltac:(cbn; lia)) as Hval.
  rewrite E in *. unfold scan_magnitude. rewrite decide_False.
  2:{ intros Ec%char_inj; lia. }
  rewrite scan_digits_all by (intros b Hb; apply Hdig; [lia|done]). cbn [length plus].
  by rewrite <- Hval.
Qed.

Lemma skip_sign_decimal n : 0 <= n -> scan_sign (skip_spaces (decimal 20 n)) = (false, decimal 20 n).
Proof.
  intros Hn. destruct (decimal 20 n) as [|b l] eqn:E; [by apply decimal_not_nil in E; [|lia]|].
  destruct (decimal_digits 20 n b Hn) as (d & Hd & ->); [rewrite E; by left|].
  cbn [skip_spaces]. rewrite isspace_digit by done. unfold scan_sign.
  rewrite !decide_False; [done| |]; intros Ec%char_inj; lia.
Qed.

Lemma scan_number_to_string v :
  - 10 ^ 20 < v < 10 ^ 20 -> scan_number (to_string v) = Some (v <? 0, Z.abs v, []).
Proof.
  intros Hv. unfold to_string, scan_number. destruct (Z.ltb_spec v 0).
  - cbn [skip_spaces]. change (isspace c_minus) with false. cbn iota. unfold scan_sign.
    rewrite decide_True by done. rewrite scan_magnitude_decimal by lia. f_equal. f_equal. f_equal. lia.
  - rewrite skip_sign_decimal by done. rewrite scan_magnitude_decimal by lia. f_equal. f_equal. f_equal. lia.
Qed.

Lemma to_string_not_nil v : to_string v <> [].
Proof. unfold to_string. destruct (v <? 0); [done|]. by apply decimal_not_nil; lia. Qed.

Lemma buf2signed_to_string w v :
  1 <= w <= 64 -> signed_min w <= v <= signed_max w -> buf2signed w (to_string v) = Some v.
Proof.
  intros Hw Hv. unfold signed_min, signed_max in *.
  pose proof (Z.pow_le_mono_r 2 (w - 1) 63 ltac:(lia) ltac:(lia)).
  unfold buf2signed. destruct (to_string v) as [|b l] eqn:E; [by apply to_string_not_nil in E|]. rewrite <- E.
  unfold strtoll. rewrite scan_number_to_string by lia.
  replace (if v <? 0 then - Z.abs v else Z.abs v) with v by (destruct (Z.ltb_spec v 0); lia).
  unfold INT64_MAX, INT64_MIN, signed_max, signed_min.
  destruct (Z.gtb_spec v 9223372036854775807); [lia|].
  destruct (Z.ltb_spec v (- 9223372036854775808)); [lia|].
  destruct (Z.gtb_spec v (2 ^ (w - 1) - 1)); [lia|]. destruct (Z.ltb_spec v (- 2 ^ (w - 1))); [lia|]. done.
Qed.

(** A dot is part of no number. *)
Lemma dot_in_digits base acc n s : base <= 16 -> char 46 ∈ s -> char 46 ∈ (scan_digits base acc n s).2.
Proof.
  intros Hb. revert acc n. induction s as [|b s IH]; intros acc n Hin; [done|]. cbn [scan_digits].
  destruct (Z.ltb_spec (digit_val b) base); [|done]. apply IH. apply elem_of_cons in Hin as [<-|Hin]; [|done].
  change (digit_val (char 46)) with 255 in *. lia.
Qed.

Lemma dot_in_magnitude s m rest : scan_magnitude s = Some (m, rest) -> char 46 ∈ s -> char 46 ∈ rest.
Proof.
  assert (forall base t v rest', base <= 16 -> char 46 ∈ t ->
    match scan_digits base 0 0 t with (_, O, _) => None | (v, S _, rest) => Some (v, rest) end = Some (v, rest') -> char 46 ∈ rest') as Hs.
  { intros base t v rest' Hb Hin. pose proof (dot_in_digits base 0 0 t Hb Hin) as H.
    destruct (scan_digits base 0 0 t) as [[v' [|k]] r]; [done|]. by intros [= _ <-]. }
  unfold scan_magnitude. destruct s as [|b t]; [done|]. destruct (decide (b = c_zero)) as [->|Hb]; [|intros E Hin; by eapply (Hs 10)].
  destruct t as [|x t]; [intros E Hin; by eapply (Hs 8)|]. destruct (is_x x) eqn:Ex; [|intros E Hin; by eapply (Hs 8)].
  intros E Hin. apply elem_of_cons in Hin as [Hz|Hin]; [by vm_compute in Hz|]. pose proof Hin as Hin'.
  apply elem_of_cons in Hin as [<-|Hin]; [by vm_compute in Ex|].
  destruct (match scan_digits 16 0 0 t with (_, O, _) => None | (v, S _, rest) => Some (v, rest) end) as [[v r]|] eqn:E'.
  - injection E as <- <-. by apply (Hs 16 t v).
  - by injection E as <- <-.
Qed.

Lemma buf2signed_dot w s : char 46 ∈ s -> buf2signed w s = None.
Proof.
  intros Hin. unfold buf2signed. destruct s as [|b s]; [done|]. remember (b :: s) as t eqn:Et. clear Et b s.
  assert (char 46 ∈ skip_spaces t) as H1.
  { clear -Hin. induction t as [|b t IH]; [done|]. cbn. apply elem_of_cons in Hin as [<-|Hin]; [by left|].
    destruct (isspace b); [by apply IH|by right]. }
  assert (char 46 ∈ (scan_sign (skip_spaces t)).2) as H2.
  { destruct (skip_spaces t) as [|b u]; [done|]. unfold scan_sign.
    apply elem_of_cons in H1 as [<-|H1]; [rewrite !decide_False by done; by left|].
    repeat case_decide; cbn; [done|done|by right]. }
  unfold strtoll, scan_number. destruct (scan_sign (skip_spaces t)) as [neg u]. cbn in H2.
  destruct (scan_magnitude u) as [[m rest]|] eqn:E.
  - pose proof (dot_in_magnitude _ _ _ E H2) as H3. destruct rest as [|r rest]; [by apply not_elem_of_nil in H3|].
    repeat (case_match; simplify_eq; try done).
  - destruct t; [by apply not_elem_of_nil in Hin|done].
Qed.

Lemma minus_not_in_decimal fuel n : 0 <= n -> c_minus ∉ decimal fuel n.
Proof. intros Hn Hin. destruct (decimal_digits fuel n _ Hn Hin) as (d & Hd & Ec%char_inj); lia. Qed.

Lemma buf2unsigned_to_string w v :
  1 <= w <= 64 -> 0 <= v <= unsigned_max w -> buf2unsigned w (to_string v) = Some v.
Proof.
  intros Hw Hv. unfold unsigned_max in *. pose proof (Z.pow_le_mono_r 2 w 64 ltac:(lia) ltac:(lia)).
  unfold buf2unsigned. destruct (to_string v) as [|b l] eqn:E; [by apply to_string_not_nil in E|]. rewrite <- E.
  unfold strtoull. rewrite scan_number_to_string by lia.
  assert (c_minus ∉ to_string v) as Hm.
  { unfold to_string. destruct (Z.ltb_spec v 0); [lia|]. by apply minus_not_in_decimal. }
  rewrite Z.abs_eq by lia. destruct (Z.ltb_spec v 0); [lia|]. unfold unsigned_max.
  destruct (Z.gtb_spec v (2 ^ 64 - 1)); [lia|]. destruct (Z.gtb_spec v (2 ^ w - 1)); [lia|].
  destruct (Z.ltb_spec v 0); [lia|]. cbn [orb]. by rewrite (bool_decide_false _ Hm), andb_false_r.
Qed.

(** A number printed in decimal is read back, at every width. *)
Theorem buf2_to_string w v :
  1 <= w <= 64 ->
  (signed_min w <= v <= signed_max w -> buf2signed w (to_string v) = Some v) /\
  (0 <= v <= unsigned_max w -> buf2unsigned w (to_string v) = Some v).
Proof. intros Hw. split; intros Hv; [by apply buf2signed_to_string|by apply buf2unsigned_to_string]. Qed.

Lemma buf2_to_string_witness : buf2int64 (to_string INT64_MIN) = Some INT64_MIN.
Proof. apply (buf2_to_string 64 INT64_MIN); [lia|vm_compute; intuition discriminate]. Defined.

Lemma buf2signed_range w buf v : buf2signed w buf = Some v -> signed_min w <= v <= signed_max w.
Proof.
  unfold buf2signed. destruct buf as [|b l]; [done|].
  destruct (strtoll (b :: l)) as [[x [|? ?]] er]; [|done].
  destruct (Z.gtb_spec x (signed_max w)), (Z.ltb_spec x (signed_min w)), er; cbn; try done.
  intros [= <-]. done.
Qed.

(** What the parsers accept fits the type, and an accepted unsigned number with
    a minus sign is 0. *)
Theorem buf2_in_range w buf v :
  (buf2signed w buf = Some v -> signed_min w <= v <= signed_max w) /\
  (buf2unsigned w buf = Some v -> 0 <= v <= unsigned_max w /\ (c_minus ∈ buf -> v = 0)).
Proof.
  split; [apply buf2signed_range|]. unfold buf2unsigned. destruct buf as [|b l]; [done|].
  - destruct (strtoull (b :: l)) as [[x [|? ?]] er]; [|done].
    destruct (Z.gtb_spec x (unsigned_max w)), (Z.ltb_spec x 0), er; cbn [orb]; try done.
    destruct (Z.eqb_spec x 0) as [->|Hx]; cbn [negb andb].
    + intros [= <-]. done.
    + destruct (bool_decide_reflect (c_minus ∈ b :: l)); [done|]. intros [= <-]. done.
Qed.

Lemma buf2_in_range_witness : 0 <= 42 <= unsigned_max 16.
Proof. apply (buf2_in_range 16 (to_string 42) 42). vm_compute. reflexivity. Defined.

Lemma safe_add_signed_eq w a b :
  signed_min w <= a <= signed_max w -> signed_min w <= b <= signed_max w ->
  safe_add_signed w a b =
    if (signed_min w <=? a + b) && (a + b <=? signed_max w) then Some (a + b) else None.
Proof.
  intros Ha Hb. unfold safe_add_signed.
  destruct (Z.gtb_spec b 0), (Z.gtb_spec a (signed_max w - b)), (Z.ltb_spec b 0),
    (Z.ltb_spec a (signed_min w - b)), (Z.leb_spec (signed_min w) (a + b)),
    (Z.leb_spec (a + b) (signed_max w)); cbn; try lia; done.
Qed.

(** [safe_add] is addition where the sum fits, and a refusal elsewhere. *)
Theorem safe_add_correct w a b :
  0 < w ->
  (signed_min w <= a <= signed_max w -> signed_min w <= b <= signed_max w ->
   safe_add_signed w a b =
     if (signed_min w <=? a + b) && (a + b <=? signed_max w) then Some (a + b) else None) /\
  (0 <= a <= unsigned_max w -> 0 <= b <= unsigned_max w ->
   safe_add_unsigned w a b = if a + b <=? unsigned_max w then Some (a + b) else None).
Proof.
  intros Hw. split; intros Ha Hb; [by apply safe_add_signed_eq|]. unfold safe_add_unsigned.
  destruct (Z.gtb_spec a (unsigned_max w - b)), (Z.leb_spec (a + b) (unsigned_max w)); try lia; [done|].
  unfold unsigned_max in *. rewrite uwrap_small by lia. done.
Qed.

Lemma safe_add_correct_witness : safe_add_signed 64 INT64_MAX 1 = None.
Proof.
  destruct (safe_add_correct 64 INT64_MAX 1) as [H _]; [lia|].
  rewrite H; [vm_compute; reflexivity|vm_compute; intuition discriminate..].
Defined.

End StringConv.
