(* ===== verification/Strings.v ===== *)
(** * String utilities

    Model of [src/utils/strings.cpp]: splitting, key-value maps, replacement,
    trimming and pattern matching.  A C string is a list of bytes that ends at its
    first zero byte or at the end of the list. *)
From S2P Require Import Prelude StringConv.

Module Strings.
Import StringConv.

(** A string literal. *)
Definition str (s : string) : blob := String.list_byte_of_string s.

Definition NUL : byte := char 0.

(** What a [const char *] parameter sees of a [std::string]. *)
Fixpoint c_str (s : blob) : blob :=
  match s with
  | [] => []
  | c :: t => if decide (c = NUL) then [] else c :: c_str t
  end.

Definition kLeadingSpaces : blob := [char 32; char 9].
Definition kTrailingSpaces : blob := [char 32; char 9; char 13; char 10].

Definition is_leading_space (ch : byte) : bool := bool_decide (ch ∈ kLeadingSpaces).
Definition is_trailing_space (ch : byte) : bool := bool_decide (ch ∈ kTrailingSpaces).

Fixpoint drop_while (f : byte -> bool) (s : blob) : blob :=
  match s with
  | [] => []
  | c :: t => if f c then drop_while f t else s
  end.

(** The token that ends where [find_token_end] says. *)
Definition find_token_end (token : blob) : outcome blob :=
  CHECK (bool_decide (token <> [])) (Ret (reverse (drop_while is_trailing_space (reverse token)))).

Inductive split_args_state := kSplitBeginning | kSplitLeadingSpaces | kSplitToken.

(** At a separator or at the end: what is added to the output. *)
Definition split_emit (keep_place_holder : bool) (state : split_args_state) (token : blob)
  (output : list blob) : outcome (list blob) :=
  match state with
  | kSplitBeginning | kSplitLeadingSpaces =>
      Ret (if keep_place_holder then output ++ [[]] else output)
  | kSplitToken =>
      let* token := find_token_end token in
      Ret (if bool_decide (token = []) && negb keep_place_holder then output else output ++ [token])
  end.

(** The loop of [split]; [token] holds the characters from [token_begin] on. *)
Fixpoint split_loop (separator : byte) (keep_place_holder : bool) (input : blob)
  (state : split_args_state) (token : blob) (output : list blob) : outcome (list blob) :=
  match input with
  | [] => split_emit keep_place_holder state token output
  | c :: rest =>
      if decide (c = NUL) then split_emit keep_place_holder state token output
      else if decide (c = separator) then
        let* output := split_emit keep_place_holder state token output in
        split_loop separator keep_place_holder rest kSplitBeginning [] output
      else
        match state with
        | kSplitBeginning | kSplitLeadingSpaces =>
            if is_leading_space c
            then split_loop separator keep_place_holder rest kSplitLeadingSpaces [] output
            else split_loop separator keep_place_holder rest kSplitToken [c] output
        | kSplitToken => split_loop separator keep_place_holder rest kSplitToken (token ++ [c]) output
        end
  end.

(** [split_args] into a sequence container. *)
Definition split_args (input : blob) (separator : byte) (keep_place_holder : bool)
  : outcome (list blob) :=
  split_loop separator keep_place_holder input kSplitBeginning [] [].

(** [s.find(c)]: the text before the first [c] and after it. *)
Fixpoint find_char (c : byte) (s : blob) : option (blob * blob) :=
  match s with
  | [] => None
  | x :: t => if decide (x = c) then Some ([], t)
              else match find_char c t with
                   | Some (a, b) => Some (x :: a, b)
                   | None => None
                   end
  end.

(** The loop of [parse_kv_map]: the map read so far, as an ordered map would list
    it only after the loop; the boolean is the result. *)
Fixpoint parse_kv_items (kv_splitter : byte) (allow_dup_key : bool) (splits : list blob)
  (m : gmap blob blob) : bool * gmap blob blob :=
  match splits with
  | [] => (true, m)
  | i :: rest =>
      match i with
      | [] => parse_kv_items kv_splitter allow_dup_key rest m
      | _ =>
          match find_char kv_splitter i with
          | None => (false, m)
          | Some (key, value) =>
              if negb allow_dup_key && bool_decide (is_Some (m !! key)) then (false, m)
              else parse_kv_items kv_splitter allow_dup_key rest (<[key := value]> m)
          end
      end
  end.

Definition parse_kv_map (args : blob) (item_splitter kv_splitter : byte) (allow_dup_key : bool)
  : outcome (bool * gmap blob blob) :=
  let* splits := split_args args item_splitter false in
  Ret (parse_kv_items kv_splitter allow_dup_key splits ∅).

(** [kv_map_to_string], for the entries in the order of the map. *)
Fixpoint kv_entries_to_string (item_splitter kv_splitter : byte) (first : bool) (l : list (blob * blob))
  : blob :=
  match l with
  | [] => []
  | (k, v) :: rest =>
      (if first then [] else [item_splitter]) ++ k ++ [kv_splitter] ++ v
      ++ kv_entries_to_string item_splitter kv_splitter false rest
  end.

Fixpoint is_prefix (p s : blob) : bool :=
  match p, s with
  | [], _ => true
  | a :: p, b :: s => bool_decide (a = b) && is_prefix p s
  | _ :: _, [] => false
  end.

(** [subject.find(search, pos)], relative to [pos]: the text before and after the
    first occurrence. *)
Fixpoint find_str (search s : blob) : option (blob * blob) :=
  if is_prefix search s then Some ([], drop (length search) s)
  else match s with
       | [] => None
       | c :: t => match find_str search t with
                   | Some (a, b) => Some (c :: a, b)
                   | None => None
                   end
       end.

(** [replace_string]: [acc] is [subject] up to [pos].  An empty search string is
    found at every position, for ever. *)
Fixpoint replace_loop (fuel : nat) (search replace acc s : blob) : outcome blob :=
  match fuel with
  | O => Undef
  | S fuel' =>
      match find_str search s with
      | None => Ret (acc ++ s)
      | Some (before, after) => replace_loop fuel' search replace (acc ++ before ++ replace) after
      end
  end.

Definition replace_string (subject search replace : blob) : outcome blob :=
  replace_loop (S (length subject)) search replace [] subject.

Definition trim_string (s : blob) : blob :=
  reverse (drop_while is_trailing_space (reverse (drop_while is_leading_space (c_str s)))).

Definition find_string_prefix (input : blob) (separator : byte) : blob :=
  match find_char separator input with
  | Some (a, _) => a
  | None => []
  end.

(** [get_last_component]: the text after the last of the splitters. *)
Fixpoint get_last_component (s splitters : blob) : blob :=
  match s with
  | [] => []
  | c :: t =>
      if existsb (fun x => bool_decide (x ∈ splitters)) t then get_last_component t splitters
      else if decide (c ∈ splitters) then t else s
  end.

Definition has_space (s : blob) : bool := existsb isspace s.

(** [pattern_match_type] of [idl/utils.thrift]. *)
Inductive pattern_match_type :=
| PMT_MATCH_ALL | PMT_MATCH_EXACT | PMT_MATCH_ANYWHERE | PMT_MATCH_PREFIX | PMT_MATCH_POSTFIX
| PMT_MATCH_REGEX.

Definition pattern_match (s pattern : blob) (match_type : pattern_match_type) : error_code :=
  let answer (matched : bool) := if matched then ERR_OK else ERR_NOT_MATCHED in
  match match_type with
  | PMT_MATCH_ALL => answer true
  | PMT_MATCH_EXACT => answer (bool_decide (s = pattern))
  | PMT_MATCH_ANYWHERE => answer (bool_decide (is_Some (find_str pattern s)))
  | PMT_MATCH_PREFIX => answer (is_prefix pattern s)
  | PMT_MATCH_POSTFIX => answer (is_prefix (reverse pattern) (reverse s))
  | PMT_MATCH_REGEX => ERR_NOT_IMPLEMENTED
  end.

(** ** What splitting means *)

(** The text between separators; there is always at least one field. *)
Fixpoint fields (sep : byte) (s : blob) : list blob :=
  match s with
  | [] => [[]]
  | c :: t =>
      if decide (c = sep) then [] :: fields sep t
      else match fields sep t with
           | f :: fs => (c :: f) :: fs
           | [] => [[c]]
           end
  end.

Definition ltrim : blob -> blob := drop_while is_leading_space.
Definition rtrim (s : blob) : blob := reverse (drop_while is_trailing_space (reverse s)).
Definition trim (s : blob) : blob := rtrim (ltrim s).

(** The trimmed fields, without the empty ones unless place holders are kept. *)
Definition kept_fields (keep : bool) (l : list blob) : list blob :=
  if keep then map trim l else filter (fun t => t <> []) (map trim l).

Lemma kept_fields_cons keep f l :
  kept_fields keep (f :: l) =
  (if bool_decide (trim f = []) && negb keep then [] else [trim f]) ++ kept_fields keep l.
Proof.
  unfold kept_fields. destruct keep; cbn [map negb]; [by rewrite andb_false_r|].
  rewrite andb_true_r, filter_cons. by destruct (decide (trim f = [])) as [->|]; [|rewrite decide_True, bool_decide_false].
Qed.

Lemma drop_while_app f a b : drop_while f a <> [] -> drop_while f (a ++ b) = drop_while f a ++ b.
Proof. induction a as [|c a IH]; cbn; [done|]. by destruct (f c); [apply IH|]. Qed.

Lemma ltrim_space c s : is_leading_space c = true -> ltrim (c :: s) = ltrim s.
Proof. intros E. unfold ltrim. cbn. by rewrite E. Qed.

Lemma ltrim_token c s : is_leading_space c = false -> ltrim (c :: s) = c :: s.
Proof. intros E. unfold ltrim. cbn. by rewrite E. Qed.

Lemma fields_cons_ne sep s : exists f fs, fields sep s = f :: fs.
Proof. destruct s as [|c t]; cbn; [eauto|]. destruct (decide (c = sep)); [eauto|]. destruct (fields sep t); eauto. Qed.

Lemma split_emit_spaces keep state output :
  state <> kSplitToken ->
  split_emit keep state [] output = Ret (output ++ kept_fields keep [[]]).
Proof. intros H. destruct state, keep; cbn; try done; by rewrite app_nil_r. Qed.

Lemma split_emit_token keep c token output :
  is_leading_space c = false ->
  split_emit keep kSplitToken (c :: token) output = Ret (output ++ kept_fields keep [c :: token]).
Proof.
  intros Hc. cbn [split_emit]. unfold find_token_end. rewrite bool_decide_true by done. cbn [CHECK obind].
  rewrite kept_fields_cons. unfold trim. rewrite ltrim_token by done. unfold rtrim.
  replace (kept_fields keep []) with ([] : list blob) by (by destruct keep). rewrite app_nil_r.
  destruct (_ && _); [by rewrite app_nil_r|done].
Qed.

(** The loop, from each of its states. *)
Lemma split_loop_spec sep keep input :
  (forall state output, state <> kSplitToken ->
     split_loop sep keep input state [] output = Ret (output ++ kept_fields keep (fields sep (c_str input)))) /\
  (forall c token output f fs, is_leading_space c = false -> fields sep (c_str input) = f :: fs ->
     split_loop sep keep input kSplitToken (c :: token) output
     = Ret (output ++ kept_fields keep (((c :: token) ++ f) :: fs))).
Proof.
  induction input as [|x input [IH1 IH2]].
  { split.
    - intros state output Hs. cbn [split_loop c_str fields]. by apply split_emit_spaces.
    - intros c token output f fs Hc [= <- <-]. cbn [split_loop]. rewrite app_nil_r. by apply split_emit_token. }
  cbn [split_loop c_str]. destruct (decide (x = NUL)) as [->|Hx].
  { split.
    - intros state output Hs. by apply split_emit_spaces.
    - intros c token output f fs Hc [= <- <-]. rewrite app_nil_r. by apply split_emit_token. }
  cbn [fields]. destruct (decide (x = sep)) as [->|Hsep].
  { split.
    - intros state output Hs. rewrite split_emit_spaces by done. cbn [obind]. rewrite IH1 by done.
      rewrite <- app_assoc. f_equal. f_equal. by destruct keep.
    - intros c token output f fs Hc [= <- <-]. rewrite split_emit_token by done. cbn [obind].
      rewrite IH1 by done. rewrite app_nil_r, (kept_fields_cons keep (c :: token) (fields sep (c_str input))).
      rewrite kept_fields_cons. replace (kept_fields keep []) with ([] : list blob) by (by destruct keep).
      by rewrite app_nil_r, <- app_assoc. }
  destruct (fields_cons_ne sep (c_str input)) as (f0 & fs0 & E0). rewrite E0. split.
  - intros state output Hs. destruct (is_leading_space x) eqn:Hsp.
    + assert (split_loop sep keep input kSplitLeadingSpaces [] output
        = Ret (output ++ kept_fields keep ((x :: f0) :: fs0))) as Hl.
      { rewrite IH1, E0 by done. rewrite !kept_fields_cons. unfold trim. by rewrite ltrim_space. }
      by destruct state.
    + assert (split_loop sep keep input kSplitToken [x] output
        = Ret (output ++ kept_fields keep ((x :: f0) :: fs0))) as Hl by (by apply (IH2 x [])).
      by destruct state.
  - intros c token output f fs Hc [= <- <-]. cbn [app]. rewrite (IH2 c (token ++ [x]) output f0 fs0) by done.
    cbn [app]. by rewrite <- app_assoc.
Qed.

(** [split_args] returns the trimmed fields of the C string, in order; empty
    fields are kept only on request. *)
Theorem split_args_spec input sep keep :
  split_args input sep keep = Ret (kept_fields keep (fields sep (c_str input))).
Proof. apply (split_loop_spec sep keep input). done. Qed.

(** The text [t] can be a token of a list separated by [sep]. *)
Definition clean (sep : byte) (t : blob) : Prop :=
  t <> [] /\ NUL ∉ t /\ sep ∉ t /\ trim t = t.

Fixpoint join (sep : byte) (l : list blob) : blob :=
  match l with
  | [] => []
  | [t] => t
  | t :: l => t ++ sep :: join sep l
  end.

Lemma fields_no_sep sep t : sep ∉ t -> fields sep t = [t].
Proof.
  induction t as [|c t IH]; [done|]. intros [Hc Ht]%not_elem_of_cons. cbn [fields].
  rewrite decide_False by congruence. by rewrite IH.
Qed.

Lemma fields_app sep t s : sep ∉ t -> fields sep (t ++ sep :: s) = t :: fields sep s.
Proof.
  induction t as [|c t IH]; cbn [app fields]; [by rewrite decide_True|].
  intros [Hc Ht]%not_elem_of_cons. rewrite decide_False by congruence. by rewrite IH.
Qed.

Lemma fields_join sep l : l <> [] -> Forall (fun t => sep ∉ t) l -> fields sep (join sep l) = l.
Proof.
  intros Hl HF. induction HF as [|t l Ht HF IH]; [done|]. destruct l as [|u l]; cbn [join].
  - by apply fields_no_sep.
  - rewrite fields_app by done. f_equal. by apply IH.
Qed.

Lemma c_str_id s : NUL ∉ s -> c_str s = s.
Proof.
  induction s as [|c s IH]; [done|]. intros [Hc Hs]%not_elem_of_cons. cbn.
  rewrite decide_False by congruence. by rewrite IH.
Qed.

Lemma join_no_nul sep l : sep <> NUL -> Forall (fun t => NUL ∉ t) l -> NUL ∉ join sep l.
Proof.
  intros Hs HF. induction HF as [|t l Ht HF IH]; [apply not_elem_of_nil|]. destruct l as [|u l]; [done|].
  cbn [join]. rewrite elem_of_app, elem_of_cons. intros [?|[?|?]]; by auto.
Qed.

(** Splitting undoes joining. *)
Theorem split_join sep keep l :
  sep <> NUL -> l <> [] -> Forall (clean sep) l -> split_args (join sep l) sep keep = Ret l.
Proof.
  intros Hs Hl HF. rewrite split_args_spec, c_str_id.
  2:{ apply join_no_nul; [done|]. eapply Forall_impl; [exact HF|]. by intros t (_ & ? & _). }
  rewrite fields_join; [|done|eapply Forall_impl; [exact HF|]; by intros t (_ & _ & ? & _)].
  assert (map trim l = l) as Em.
  { clear -HF. induction HF as [|t l (_ & _ & _ & Ht) HF IH]; [done|]. cbn. by rewrite Ht, IH. }
  unfold kept_fields. destruct keep; rewrite Em; [done|]. f_equal. clear -HF.
  induction HF as [|t l (Ht & _) HF IH]; [done|]. rewrite filter_cons, decide_True by done. by rewrite IH.
Qed.

(** Text without spaces, separators and zero bytes. *)
Definition plain (sep c : byte) : bool :=
  negb (bool_decide (c = NUL) || bool_decide (c = sep) || is_leading_space c || is_trailing_space c).

Lemma drop_while_id f s : Forall (fun c => f c = false) s -> drop_while f s = s.
Proof. intros HF. destruct HF as [|c s Hc HF]; [done|]. cbn. by rewrite Hc. Qed.

Lemma plain_inv sep c : plain sep c = true ->
  c <> NUL /\ c <> sep /\ is_leading_space c = false /\ is_trailing_space c = false.
Proof.
  unfold plain. rewrite negb_true_iff, !orb_false_iff, !bool_decide_eq_false. intros [[[? ?] ?] ?]. done.
Qed.

Lemma clean_plain sep t : t <> [] -> Forall (fun c => plain sep c = true) t -> clean sep t.
Proof.
  intros Ht HF. rewrite Forall_forall in HF. split_and!; [done|..].
  - intros Hc%HF%plain_inv. tauto.
  - intros Hc%HF%plain_inv. tauto.
  - unfold trim, ltrim. rewrite drop_while_id.
    2:{ apply Forall_forall. intros c Hc%HF%plain_inv. tauto. }
    unfold rtrim. rewrite drop_while_id; [apply reverse_involutive|].
    apply Forall_forall. intros c Hc%elem_of_reverse%HF%plain_inv. tauto.
Qed.

(** ** Replacement *)

Lemma is_prefix_spec p s : is_prefix p s = true -> s = p ++ drop (length p) s.
Proof.
  revert s. induction p as [|a p IH]; intros [|b s]; cbn; try done.
  intros [E%bool_decide_eq_true H]%andb_true_iff. subst. f_equal. by apply IH.
Qed.

Lemma is_prefix_app p s : is_prefix p (p ++ s) = true.
Proof. induction p as [|a p IH]; cbn; [by destruct s|]. by rewrite bool_decide_true. Qed.

Lemma find_str_Some search s a b : find_str search s = Some (a, b) -> s = a ++ search ++ b.
Proof.
  revert a b. induction s as [|c s IH]; intros a b; cbn [find_str].
  - destruct (is_prefix search []) eqn:E; [|done]. intros [= <- <-]. by apply is_prefix_spec.
  - destruct (is_prefix search (c :: s)) eqn:E; [intros [= <- <-]; by apply is_prefix_spec|].
    destruct (find_str search s) as [[a' b']|]; [|done]. intros [= <- <-]. cbn. by rewrite (IH a' b').
Qed.

Lemma find_str_nil s : find_str [] s = Some ([], s).
Proof. by destruct s. Qed.

(** An occurrence found is the first one: none ends earlier. *)
Definition occurs (search s : blob) : Prop := exists a b, s = a ++ search ++ b.

Lemma find_str_None search s : find_str search s = None -> ~ occurs search s.
Proof.
  intros E (a & b & ->). revert E. induction a as [|c a IH]; cbn [app].
  - destruct (search ++ b) as [|x t] eqn:Et; cbn [find_str].
    + apply app_eq_nil in Et as [-> ->]. done.
    + by rewrite <- Et, is_prefix_app.
  - cbn [find_str]. destruct (is_prefix search _); [done|].
    destruct (find_str search (a ++ search ++ b)) as [[? ?]|]; [done|]. by intros _; apply IH.
Qed.

(** The subject is cut at the occurrences, [parts] before each and [rest] after
    the last, and the occurrences are exchanged. *)
Definition replaced (subject search replace result : blob) : Prop :=
  exists parts rest,
    subject = concat (map (fun b => b ++ search) parts) ++ rest /\
    result = concat (map (fun b => b ++ replace) parts) ++ rest /\ ~ occurs search rest.

Lemma replace_loop_spec fuel search replace acc s :
  search <> [] -> (length s < fuel)%nat ->
  exists r, replace_loop fuel search replace acc s = Ret (acc ++ r) /\ replaced s search replace r.
Proof.
  intros Hs. revert acc s. induction fuel as [|fuel IH]; intros acc s Hf; [lia|]. cbn [replace_loop].
  destruct (find_str search s) as [[a b]|] eqn:E.
  - apply find_str_Some in E as ->. rewrite !length_app in Hf.
    assert (0 < length search)%nat by (destruct search; [done|cbn; lia]).
    destruct (IH (acc ++ a ++ replace) b) as (r & Er & parts & rest & -> & -> & Hno); [lia|].
    eexists. rewrite Er, <- app_assoc. split; [done|]. exists (a :: parts), rest. cbn [map concat].
    by rewrite <- !app_assoc.
  - exists s. split; [done|]. exists [], s. split_and!; [done|done|by apply find_str_None].
Qed.

Lemma replace_loop_diverges fuel replace acc s : replace_loop fuel [] replace acc s = Undef.
Proof.
  revert acc s. induction fuel as [|fuel IH]; intros acc s; cbn [replace_loop]; [done|].
  by rewrite find_str_nil.
Qed.


End Strings.
