(* ===== verification/FileStreamer.v ===== *)
(** * The stream a log file is read through

    Model of [src/replica/log_file_stream.h] ([log_file::file_streamer]) and of the read of
    [src/aio/native_linux_aio_provider.cpp].  Two buffers of one block each are read ahead;
    a read takes bytes from the current one, then from the next one, then from the file
    itself.  The streamer implements a plain reader of the file ([streams]). *)
From S2P Require Import Prelude BinaryIO.

Module FileStreamer.
Import BinaryIO.

Definition block_size_bytes : Z := 1024 * 1024.

Section Streamer.
(** [rocksdb::RandomAccessFile::Read(offset, n)] on the file; [None] is an error status. *)
Context (Read : Z -> Z -> option blob).

(** [native_linux_aio_provider::read]: the error and the bytes transferred. *)
Definition file_read (offset n : Z) : error_code * blob :=
  match Read offset n with
  | None => (ERR_FILE_OPERATION_FAILED, [])
  | Some [] => (ERR_HANDLE_EOF, [])
  | Some result => (ERR_OK, result)
  end.

(** A read under way is the one of a block at [_file_offset_of_buffer]. *)
Record buffer_t := Buffer {
  _buffer : blob;
  _begin : Z;
  _end : Z;
  _file_offset_of_buffer : Z;
  _have_ongoing_task : bool
}.

Definition new_buffer : buffer_t := Buffer [] 0 0 0 false.

Definition blength (b : buffer_t) : Z := _end b - _begin b.
Definition bempty (b : buffer_t) : bool := blength b =? 0.

Definition set_begin (x : Z) (b : buffer_t) : buffer_t :=
  Buffer (_buffer b) x (_end b) (_file_offset_of_buffer b) (_have_ongoing_task b).

Definition clear_buffer (b : buffer_t) : buffer_t :=
  Buffer (_buffer b) 0 0 (_file_offset_of_buffer b) (_have_ongoing_task b).

(** The next [len] bytes of the buffer. *)
Definition peek (len : Z) (b : buffer_t) : blob :=
  take (Z.to_nat len) (drop (Z.to_nat (_begin b)) (_buffer b)).

Definition consume (dest : binary_writer) (len : Z) (b : buffer_t) : binary_writer * buffer_t :=
  (write (peek len b) dest, set_begin (_begin b + len) b).

Definition drain (dest : binary_writer) (b : buffer_t) : binary_writer * buffer_t :=
  consume dest (blength b) b.

Definition wait_ongoing_task (b : buffer_t) : outcome (error_code * buffer_t) :=
  if _have_ongoing_task b then
    let '(err, data) := file_read (_file_offset_of_buffer b) block_size_bytes in
    let e := _end b + Z.of_nat (length data) in
    CHECK (e <=? block_size_bytes) (Ret (err, Buffer data (_begin b) e (_file_offset_of_buffer b) false))
  else Ret (ERR_OK, b).

Record file_streamer := Streamer {
  current_buffer : buffer_t;
  next_buffer : buffer_t;
  file_dispatched_bytes : Z
}.

(** [while (!_current_buffer->_have_ongoing_task && _current_buffer->empty())]. *)
Fixpoint fill_loop (fuel : nat) (s : file_streamer) : outcome file_streamer :=
  match fuel with
  | O => Undef
  | S fuel' =>
      let c := current_buffer s in
      if negb (_have_ongoing_task c) && bempty c then
        fill_loop fuel' (Streamer (next_buffer s)
          (Buffer (_buffer c) 0 0 (file_dispatched_bytes s) true) (file_dispatched_bytes s + block_size_bytes))
      else Ret s
  end.

Definition fill_buffers : file_streamer -> outcome file_streamer := fill_loop 3.

Definition new_file_streamer (file_offset : Z) : outcome file_streamer :=
  fill_buffers (Streamer new_buffer new_buffer file_offset).

Definition reset (file_offset : Z) (s : file_streamer) : outcome file_streamer :=
  let* (_, c) := wait_ongoing_task (current_buffer s) in
  let* (_, n) := wait_ongoing_task (next_buffer s) in
  fill_buffers
    (if (_file_offset_of_buffer c <=? file_offset) && (_file_offset_of_buffer c + _end c >? file_offset)
     then Streamer (set_begin (file_offset - _file_offset_of_buffer c) c) n (file_dispatched_bytes s)
     else Streamer (clear_buffer c) (clear_buffer n) file_offset).

Definition finish_read (w : binary_writer) (s : file_streamer) : outcome (error_code * blob * file_streamer) :=
  let* s := fill_buffers s in Ret (ERR_OK, get_current_buffer w, s).

Definition total_size (w : binary_writer) : Z := Z.of_nat (bw_total_size w).

(** What both buffers lack is read straight into the room the writer has left. *)
Definition read_direct (size : Z) (w : binary_writer) (c n : buffer_t) (d : Z)
  : outcome (error_code * blob * file_streamer) :=
  let '(err, data) := file_read d (size - total_size w) in
  let w := write data w in
  let d := d + Z.of_nat (length data) in
  if negb (is_ok err) then Ret (err, get_current_buffer w, Streamer c n d)
  else finish_read w (Streamer c n d).

(** The part of [read_next] after the current buffer was drained. *)
Definition read_on (size : Z) (w : binary_writer) (c n : buffer_t) (d : Z)
  : outcome (error_code * blob * file_streamer) :=
  if size >? total_size w then
    let* (err, n) := wait_ongoing_task n in
    if negb (is_ok err) then Ret (err, get_current_buffer w, Streamer c n d)
    else
      let '(w, n) := consume w (Z.min (size - total_size w) (blength n)) n in
      if size >? total_size w then read_direct size w c n d
      else finish_read w (Streamer c n d)
  else finish_read w (Streamer c n d).

(** The writer is made for an [int] number of bytes, which a larger [size] overruns. *)
Definition read_next (size : Z) (s : file_streamer) : outcome (error_code * blob * file_streamer) :=
  let w := new_binary_writer (Z.to_nat size) in
  let* (err, c) := wait_ongoing_task (current_buffer s) in
  let n := next_buffer s in
  let d := file_dispatched_bytes s in
  if negb (is_ok err) then Ret (err, get_current_buffer w, Streamer c n d)
  else if size <? blength c then
    let* s := fill_buffers (Streamer (set_begin (_begin c + size) c) n d) in
    Ret (ERR_OK, peek size c, s)
  else if INT32_MAX <? size then Undef
  else
    let '(w, c) := drain w c in
    CHECK (total_size w >? 0) (read_on size w c n d).

(** ** The streamer is a reader of the file *)

(** Documented behaviour of the file: a read returns the bytes there are. *)
Definition slice (f : blob) (offset n : Z) : blob := take (Z.to_nat n) (drop (Z.to_nat offset) f).

Definition reads (f : blob) : Prop :=
  forall offset n, 0 <= offset -> 0 <= n -> Read offset n = Some (slice f offset n).

Section Theory.
Context (f : blob) (Hf : reads f).

(** The bytes of the file from an offset on. *)
Definition from (offset : Z) : blob := drop (Z.to_nat offset) f.

Local Abbreviation B := block_size_bytes.

Lemma B_pos : 0 < B.
Proof. done. Qed.

Lemma B_bounds : 1 < B /\ 2 * B <= INT32_MAX.
Proof. done. Qed.
#[local] Opaque block_size_bytes.

Definition block (offset : Z) : blob := slice f offset B.

(** A buffer is waiting for its block, or holds it. *)
Definition buf_ok (b : buffer_t) : Prop :=
  0 <= _file_offset_of_buffer b /\
  if _have_ongoing_task b then _begin b = 0 /\ _end b = 0
  else _buffer b = block (_file_offset_of_buffer b) /\
       0 <= _begin b <= _end b /\ _end b = Z.of_nat (length (_buffer b)).

(** Not read to its end. *)
Definition primed (b : buffer_t) : bool := _have_ongoing_task b || negb (bempty b).

Record streams (s : file_streamer) : Prop := Streams {
  st_current : buf_ok (current_buffer s);
  st_next : buf_ok (next_buffer s);
  st_unread : _begin (next_buffer s) = 0;
  st_chain : _file_offset_of_buffer (next_buffer s) = _file_offset_of_buffer (current_buffer s) + B;
  st_dispatched : file_dispatched_bytes s = _file_offset_of_buffer (next_buffer s) + B
}.

(** What is still to be read. *)
Definition rest (s : file_streamer) : blob :=
  from (_file_offset_of_buffer (current_buffer s) + _begin (current_buffer s)).

Lemma from_split o k : 0 <= o -> 0 <= k -> from o = slice f o k ++ from (o + k).
Proof.
  intros Ho Hk. unfold from, slice. rewrite Z2Nat.inj_add, <- drop_drop by done. by rewrite take_drop.
Qed.

Lemma from_app o a b : 0 <= o -> from o = a ++ b -> from (o + Z.of_nat (length a)) = b.
Proof.
  intros Ho E. unfold from in *. rewrite Z2Nat.inj_add, Nat2Z.id, <- drop_drop, E by lia. apply drop_app_length.
Qed.

Lemma from_block o : 0 <= o -> from o = block o ++ from (o + B).
Proof. intros Ho. apply from_split; [done|]. pose proof B_pos. lia. Qed.

Lemma slice_nil o n : 0 <= o -> 0 < n -> slice f o n = [] -> forall o', o <= o' -> from o' = [].
Proof.
  intros Ho Hn Hb. assert (from o = []) as E.
  { unfold slice, from in *. apply (f_equal length) in Hb. rewrite length_take in Hb.
    destruct (drop (Z.to_nat o) f); [done|]. cbn [length] in Hb. lia. }
  intros o' Hle. replace o' with (o + (o' - o)) by lia.
  unfold from in *. rewrite Z2Nat.inj_add, <- drop_drop, E by lia. apply drop_nil.
Qed.

Lemma slice_short o n : 0 <= o -> 0 <= n -> Z.of_nat (length (slice f o n)) < n -> from (o + n) = [].
Proof.
  intros Ho Hn. unfold slice, from. rewrite length_take, length_drop. intros Hlt. apply drop_ge. lia.
Qed.

Lemma block_nil o : 0 <= o -> block o = [] -> forall o', o <= o' -> from o' = [].
Proof. intros Ho. apply slice_nil; [done|apply B_pos]. Qed.

Lemma length_block o : Z.of_nat (length (block o)) <= B.
Proof. unfold block, slice. rewrite length_take. pose proof B_pos. lia. Qed.

(** A block that is not full is the last one. *)
Lemma block_end o : 0 <= o -> from (o + Z.of_nat (length (block o))) = from (o + B).
Proof.
  intros Ho. pose proof (from_split o (Z.of_nat (length (block o))) Ho ltac:(lia)) as E1.
  pose proof (from_block o Ho) as E2. rewrite E2 in E1. unfold slice in E1. rewrite Nat2Z.id in E1.
  fold (from o) in E1. rewrite E2, take_app_length in E1. by apply app_inv_head in E1.
Qed.

Lemma file_read_slice o n : 0 <= o -> 0 <= n ->
  file_read o n = (if decide (slice f o n = []) then ERR_HANDLE_EOF else ERR_OK, slice f o n).
Proof using Hf. intros Ho Hn. unfold file_read. rewrite Hf by done. by destruct (slice f o n). Qed.

(** The part of a loaded buffer not read yet. *)
Definition unread (b : buffer_t) : blob := peek (blength b) b.

Definition loaded (b : buffer_t) : Prop := buf_ok b /\ _have_ongoing_task b = false.

Lemma loaded_inv b : loaded b ->
  0 <= _file_offset_of_buffer b /\ _buffer b = block (_file_offset_of_buffer b) /\
  0 <= _begin b <= _end b /\ _end b = Z.of_nat (length (_buffer b)) /\
  unread b = drop (Z.to_nat (_begin b)) (_buffer b).
Proof.
  intros [[Ho Hb] Hn]. rewrite Hn in Hb. destruct Hb as (E1 & E2 & E3). split_and!; try done; try lia.
  unfold unread, peek, blength. apply take_ge. rewrite length_drop. lia.
Qed.

Lemma unread_length b : loaded b -> Z.of_nat (length (unread b)) = blength b.
Proof. intros (_ & _ & H1 & H2 & ->)%loaded_inv. unfold blength. rewrite length_drop. lia. Qed.

Lemma unread_from b : loaded b ->
  from (_file_offset_of_buffer b + _begin b) = unread b ++ from (_file_offset_of_buffer b + B).
Proof.
  intros (Ho & Eb & H1 & H2 & ->)%loaded_inv. unfold from at 1.
  rewrite Z2Nat.inj_add, <- drop_drop by lia. fold (from (_file_offset_of_buffer b)).
  rewrite from_block, <- Eb by done. rewrite drop_app_le; [done|lia].
Qed.

Lemma peek_unread k b : loaded b -> 0 <= k <= blength b -> peek k b = take (Z.to_nat k) (unread b).
Proof. intros (_ & _ & H1 & H2 & ->)%loaded_inv Hk. done. Qed.

Lemma loaded_advance k b : loaded b -> 0 <= k <= blength b ->
  loaded (set_begin (_begin b + k) b) /\
  unread (set_begin (_begin b + k) b) = drop (Z.to_nat k) (unread b).
Proof.
  intros Hl Hk. pose proof (loaded_inv b Hl) as (Ho & Eb & H1 & H2 & E). unfold blength in Hk.
  assert (loaded (set_begin (_begin b + k) b)) as Hl'.
  { destruct Hl as [_ Hn]. split; [|done]. split; [done|]. cbn. rewrite Hn. split_and!; try done; lia. }
  split; [done|]. destruct (loaded_inv _ Hl') as (_ & _ & _ & _ & ->). cbn.
  rewrite E, drop_drop. f_equal. lia.
Qed.

Lemma wait_spec b : buf_ok b ->
  exists err b', wait_ongoing_task b = Ret (err, b') /\ loaded b' /\
    _file_offset_of_buffer b' = _file_offset_of_buffer b /\ _begin b' = _begin b /\
    (err = ERR_OK \/ err = ERR_HANDLE_EOF /\ block (_file_offset_of_buffer b) = []) /\
    (err = ERR_OK -> primed b = true -> unread b' <> []).
Proof using Hf.
  intros Hok. pose proof Hok as [Ho Hb]. unfold wait_ongoing_task, primed.
  destruct (_have_ongoing_task b) eqn:Hn.
  - destruct Hb as [Eb Ee]. rewrite file_read_slice by (pose proof B_pos; lia). fold (block (_file_offset_of_buffer b)).
    cbv zeta. rewrite Ee, Z.add_0_l. pose proof (length_block (_file_offset_of_buffer b)) as Hl.
    rewrite (proj2 (Z.leb_le _ _) Hl).
    cbn [CHECK]. do 2 eexists. split; [reflexivity|]. rewrite Eb.
    set (b' := Buffer _ _ _ _ _). assert (loaded b') as Hl'.
    { split; [|done]. split; [done|]. cbn. split_and!; [done|lia|lia|done]. }
    split_and!; [done|done|done|case_decide; auto|].
    intros Herr _. destruct (loaded_inv b' Hl') as (_ & _ & _ & _ & ->). cbn. by case_decide.
  - assert (loaded b) as Hl by (by split). do 2 eexists. split; [reflexivity|]. split_and!; [done|done|done|by left|].
    intros _ Hne. intros E. pose proof (unread_length b Hl) as El. rewrite E in El. cbn in *.
    unfold bempty in Hne. apply negb_true_iff, Z.eqb_neq in Hne. lia.
Qed.

(** *** Reading ahead *)

(** A buffer for which the block at [o] has been asked. *)
Definition asked (o : Z) (b : buffer_t) : Prop :=
  _begin b = 0 /\ _end b = 0 /\ _file_offset_of_buffer b = o /\ _have_ongoing_task b = true.

Lemma asked_ok o b : 0 <= o -> asked o b -> buf_ok b /\ primed b = true.
Proof. intros Ho (E1 & E2 & E3 & E4). split; [|unfold primed; by rewrite E4]. split; [lia|]. by rewrite E4. Qed.

Lemma fill_keep s : primed (current_buffer s) = true -> fill_buffers s = Ret s.
Proof.
  unfold primed, fill_buffers. cbn [fill_loop]. destruct (_have_ongoing_task _), (bempty _); done.
Qed.

Lemma fill_next c n d :
  primed c = false -> primed n = true ->
  exists b, fill_buffers (Streamer c n d) = Ret (Streamer n b (d + B)) /\ asked d b.
Proof.
  unfold primed, fill_buffers. intros Hc Hn. cbn [fill_loop current_buffer next_buffer file_dispatched_bytes].
  destruct (_have_ongoing_task c), (bempty c); try done. cbn [negb andb].
  exists (Buffer (_buffer c) 0 0 d true). split; [|by split_and!].
  destruct (_have_ongoing_task n), (bempty n); done.
Qed.

Lemma fill_both c n d :
  primed c = false -> primed n = false ->
  exists b b', fill_buffers (Streamer c n d) = Ret (Streamer b b' (d + B + B)) /\ asked d b /\ asked (d + B) b'.
Proof.
  unfold primed, fill_buffers. intros Hc Hn. cbn [fill_loop current_buffer next_buffer file_dispatched_bytes].
  destruct (_have_ongoing_task c), (bempty c); try done. cbn [negb andb].
  destruct (_have_ongoing_task n), (bempty n); try done. cbn.
  do 2 eexists. split; [reflexivity|by split_and!].
Qed.

Lemma asked_streams o b b' : 0 <= o -> asked o b -> asked (o + B) b' ->
  streams (Streamer b b' (o + B + B)) /\ primed b = true /\ rest (Streamer b b' (o + B + B)) = from o.
Proof.
  intros Ho Hb Hb'. pose proof B_pos. destruct (asked_ok o b Ho Hb) as [H1 H2].
  destruct (asked_ok (o + B) b' ltac:(lia) Hb') as [H3 H4].
  destruct Hb as (E1 & E2 & E3 & E4), Hb' as (E1' & E2' & E3' & E4').
  split_and!; [split; cbn; [done|done|done|lia|lia]|done|].
  unfold rest. cbn. f_equal. lia.
Qed.

Lemma not_primed b : loaded b -> primed b = false <-> unread b = [].
Proof.
  intros Hl. pose proof (unread_length b Hl) as El. destruct Hl as [_ Hn]. unfold primed, bempty.
  rewrite Hn. cbn [orb]. rewrite negb_false_iff, Z.eqb_eq. split; [|by intros E; rewrite E in El].
  intros E. destruct (unread b); [done|cbn in El; lia].
Qed.

Lemma primed_unread b : loaded b -> primed b = true <-> unread b <> [].
Proof. intros Hl. rewrite <- (not_primed b Hl). by destruct (primed b). Qed.

(** After the current buffer is used up, and a part of the next one, the stream goes
    on with the next one, or behind it. *)
Lemma fill_after c n d :
  loaded c -> unread c = [] -> buf_ok n -> (_have_ongoing_task n = true -> _begin n = 0) ->
  d = _file_offset_of_buffer n + B ->
  exists s', fill_buffers (Streamer c n d) = Ret s' /\ streams s' /\ primed (current_buffer s') = true /\
    rest s' = from (_file_offset_of_buffer n + _begin n).
Proof using Hf.
  intros Hc Ec Hn Hb ->. apply not_primed in Ec; [|done]. pose proof B_pos. pose proof (proj1 Hn) as Ho.
  destruct (primed n) eqn:Hp.
  - destruct (fill_next c n (_file_offset_of_buffer n + B) Ec Hp) as (b & E & Ha).
    destruct (asked_ok (_file_offset_of_buffer n + B) b ltac:(lia) Ha) as [H1 _]. destruct Ha as (E1 & E2 & E3 & E4).
    eexists. split; [exact E|]. split_and!; [|done|done]. split; cbn; [done|done|done|lia|lia].
  - destruct (fill_both c n (_file_offset_of_buffer n + B) Ec Hp) as (b & b' & E & Ha & Ha').
    destruct (asked_streams (_file_offset_of_buffer n + B) b b' ltac:(lia) Ha Ha') as (H1 & H2 & H3).
    eexists. split; [exact E|]. split_and!; [done|done|]. rewrite H3. symmetry.
    assert (loaded n) as Hl.
    { split; [done|]. unfold primed in Hp. by destruct (_have_ongoing_task n). }
    apply not_primed in Hp; [|done]. by rewrite (unread_from n Hl), Hp.
Qed.

(** *** Opening and moving *)

Lemma new_streamer_spec o : 0 <= o ->
  exists s, new_file_streamer o = Ret s /\ streams s /\ primed (current_buffer s) = true /\ rest s = from o.
Proof.
  intros Ho. unfold new_file_streamer.
  destruct (fill_both new_buffer new_buffer o eq_refl eq_refl) as (b & b' & E & Ha & Ha').
  destruct (asked_streams o b b' Ho Ha Ha') as (H1 & H2 & H3). eauto 10.
Qed.

Lemma reset_spec o s : streams s -> 0 <= o ->
  exists s', reset o s = Ret s' /\ streams s' /\ primed (current_buffer s') = true /\ rest s' = from o.
Proof using Hf.
  intros [H1 H2 H3 H4 H5] Ho. unfold reset.
  destruct (wait_spec _ H1) as (err & c & -> & Hc & Eo & _ & _). cbn [obind].
  destruct (wait_spec _ H2) as (err' & n & -> & Hn & Eo' & Eb' & _). cbn [obind].
  destruct (loaded_inv c Hc) as (Hoc & Ebc & Hbc & Hec & _).
  destruct ((_file_offset_of_buffer c <=? o) && (_file_offset_of_buffer c + _end c >? o)) eqn:Hfast.
  - apply andb_true_iff in Hfast as [Hge Hlt]. set (c' := set_begin _ c).
    assert (loaded c') as Hc'.
    { destruct Hc as [[Hco Hcb] Hcn]. rewrite Hcn in Hcb. split; [|done]. split; [done|]. cbn. rewrite Hcn.
      split_and!; [apply Hcb|lia|lia|apply Hcb]. }
    assert (primed c' = true) as Hp.
    { apply primed_unread; [done|]. intros E. pose proof (unread_length c' Hc') as El. rewrite E in El.
      unfold blength in El. cbn in El. lia. }
    eexists. rewrite fill_keep by done. split; [reflexivity|]. split_and!; [|done|unfold rest; cbn; f_equal; lia].
    split; cbn; [apply Hc'|apply Hn|congruence|congruence|congruence].
  - assert (primed (clear_buffer c) = false /\ primed (clear_buffer n) = false) as [Hp Hp'].
    { unfold primed, clear_buffer, bempty, blength. cbn. by rewrite (proj2 Hc), (proj2 Hn). }
    destruct (fill_both _ _ o Hp Hp') as (b & b' & E & Ha & Ha').
    destruct (asked_streams o b b' Ho Ha Ha') as (S1 & S2 & S3). eauto 10.
Qed.

(** *** Reading *)

(** What a read of [size] bytes gives when [r] is left of the file: all it can, with
    [ERR_OK] when that is enough; an empty file is always reported as such. *)
Definition read_result (r : blob) (size : Z) (err : error_code) (result : blob) (s' : file_streamer) : Prop :=
  result = take (Z.to_nat size) r /\
  if decide (r = []) then err = ERR_HANDLE_EOF
  else if size <=? Z.of_nat (length r) then
    err = ERR_OK /\ streams s' /\ primed (current_buffer s') = true /\ rest s' = drop (Z.to_nat size) r
  else err = ERR_OK \/ err = ERR_HANDLE_EOF.

Lemma read_short r size err s' :
  r <> [] -> Z.of_nat (length r) < size -> err = ERR_OK \/ err = ERR_HANDLE_EOF -> read_result r size err r s'.
Proof.
  intros Hr Hlt Herr. split; [by rewrite take_ge by lia|]. rewrite decide_False by done.
  by destruct (Z.leb_spec size (Z.of_nat (length r))); [lia|].
Qed.

(** The stream goes on after [got], the last part of which came from [n]. *)
Lemma finish_read_spec r size w got c n d :
  rep w got -> Z.of_nat (length got) = size -> got <> [] ->
  loaded c -> unread c = [] -> buf_ok n -> (_have_ongoing_task n = true -> _begin n = 0) ->
  d = _file_offset_of_buffer n + B -> r = got ++ from (_file_offset_of_buffer n + _begin n) ->
  exists err result s', finish_read w (Streamer c n d) = Ret (err, result, s') /\ read_result r size err result s'.
Proof using Hf.
  intros Hw Hlen Hgot Hc Ec Hn Hb Hd ->. destruct (fill_after c n d Hc Ec Hn Hb Hd) as (s' & E & H1 & H2 & H3).
  unfold finish_read. rewrite E. cbn [obind]. do 3 eexists. split; [reflexivity|]. unfold read_result.
  assert (Z.to_nat size = length got) as -> by lia.
  split; [by rewrite take_app_length, (get_current_buffer_rep _ _ Hw)|].
  rewrite decide_False by (by destruct got). rewrite length_app.
  destruct (Z.leb_spec size (Z.of_nat (length got + length (from (_file_offset_of_buffer n + _begin n)))%nat)); [|lia].
  by rewrite drop_app_length.
Qed.

Lemma read_direct_spec r size w got c n d :
  rep w got -> got <> [] -> Z.of_nat (length got) < size ->
  loaded c -> unread c = [] -> loaded n -> unread n = [] -> 0 <= d -> r = got ++ from d ->
  exists err result s', read_direct size w c n d = Ret (err, result, s') /\ read_result r size err result s'.
Proof using Hf.
  intros Hw Hgot Hlt Hc Ec Hn En Hd Hr. unfold read_direct, total_size. rewrite (rep_length _ _ Hw).
  rewrite file_read_slice by lia. set (want := size - _). set (data := slice f d want).
  pose proof (write_rep _ _ data Hw) as Hw2. cbv zeta.
  rewrite (from_split d want), app_assoc in Hr by lia. fold data in Hr.
  destruct (decide (data = [])) as [Ed|Ed].
  { cbn. do 3 eexists. split; [reflexivity|]. rewrite (get_current_buffer_rep _ _ Hw2).
    rewrite (slice_nil d want) in Hr by (done || lia). rewrite Ed, !app_nil_r in *. subst r.
    apply read_short; [done|lia|by right]. }
  cbn [negb is_ok]. unfold finish_read. apply not_primed in Ec, En; [|done|done].
  destruct (fill_both c n (d + Z.of_nat (length data)) Ec En) as (b & b' & E & Ha & Ha').
  rewrite E. cbn [obind]. rewrite (get_current_buffer_rep _ _ Hw2).
  destruct (asked_streams (d + Z.of_nat (length data)) b b' ltac:(lia) Ha Ha') as (S1 & S2 & S3).
  do 3 eexists. split; [reflexivity|].
  assert (length data <= Z.to_nat want)%nat as Hdl by (subst data; unfold slice; rewrite length_take; lia).
  destruct (decide (Z.of_nat (length data) = want)) as [Efull|Hshort].
  - split.
    + rewrite Hr, (take_app_length' (got ++ data)); [done|rewrite !length_app; lia].
    + rewrite decide_False by (rewrite Hr; by destruct got).
      rewrite (proj2 (Z.leb_le _ _)) by (rewrite Hr, !length_app; lia). split_and!; [done|done|done|].
      rewrite S3, Hr, Efull, (drop_app_length' (got ++ data)); [done|rewrite !length_app; lia].
  - assert (from (d + want) = []) as Ew.
    { apply slice_short; [lia|lia|]. fold data. lia. }
    rewrite Ew, app_nil_r in Hr. subst r.
    apply read_short; [by destruct got|rewrite !length_app; lia|by left].
Qed.

Lemma read_on_spec r size w uc c n d :
  rep w uc -> uc <> [] -> Z.of_nat (length uc) <= size ->
  loaded c -> unread c = [] -> buf_ok n -> _begin n = 0 -> d = _file_offset_of_buffer n + B ->
  r = uc ++ from (_file_offset_of_buffer n) ->
  exists err result s', read_on size w c n d = Ret (err, result, s') /\ read_result r size err result s'.
Proof using Hf.
  intros Hw Huc Hle Hc Ec Hn Hbn Hd Hr. unfold read_on, total_size. rewrite (rep_length _ _ Hw).
  pose proof (proj1 Hn) as Ho. pose proof B_pos.
  destruct (Z.gtb_spec size (Z.of_nat (length uc))) as [Hgt|Heq].
  2:{ eapply finish_read_spec; try done; [lia|]. by rewrite Hbn, Z.add_0_r. }
  destruct (wait_spec n Hn) as (err & n' & -> & Hln & Eo & Eb & Herr & _). cbn [obind].
  destruct Herr as [->|[-> Hnil]].
  2:{ cbn. do 3 eexists. split; [reflexivity|]. rewrite (get_current_buffer_rep _ _ Hw).
      rewrite (block_nil _ Ho Hnil), app_nil_r in Hr by lia. subst r. apply read_short; [done|lia|by right]. }
  cbn [negb is_ok]. pose proof (unread_from n' Hln) as Efrom. rewrite Eo, Eb, Hbn, Z.add_0_r in Efrom.
  pose proof (unread_length n' Hln) as Elen. set (k := Z.min _ _). unfold consume.
  assert (0 <= k <= blength n') as Hk by lia. destruct (loaded_advance k n' Hln Hk) as [Hl1 Hu1].
  rewrite (peek_unread k n' Hln Hk). set (n1 := set_begin _ n') in *.
  pose proof (write_rep _ _ (take (Z.to_nat k) (unread n')) Hw) as Hw1. set (w1 := write _ w) in *.
  rewrite (rep_length _ _ Hw1), length_app, length_take.
  assert (uc ++ take (Z.to_nat k) (unread n') <> []) as Hne by (by destruct uc).
  assert (from (_file_offset_of_buffer n) = take (Z.to_nat k) (unread n') ++
    from (_file_offset_of_buffer n1 + _begin n1)) as Er.
  { rewrite (unread_from n1 Hl1), Hu1, app_assoc, take_drop. cbn. by rewrite Eo. }
  destruct (Z.gtb_spec size (Z.of_nat (length uc + Z.to_nat k `min` length (unread n'))%nat)) as [Hgt1|Hle1].
  2:{ eapply finish_read_spec; [exact Hw1|rewrite length_app, length_take; lia|done|done|done|apply Hl1| | |].
      - intros Hon. by rewrite (proj2 Hl1) in Hon.
      - cbn. congruence.
      - by rewrite Hr, Er, app_assoc. }
  assert (k = blength n') as Ek by lia. rewrite Ek, <- Elen, Nat2Z.id, drop_ge in Hu1 by lia.
  rewrite Ek, <- Elen, Nat2Z.id, firstn_all in *. rewrite Nat.min_id in *.
  eapply read_direct_spec; [exact Hw1|done|rewrite length_app; lia|done|done|done|done|lia|].
  by rewrite Hr, Efrom, <- Hd, app_assoc.
Qed.

Lemma read_next_spec size s :
  streams s -> primed (current_buffer s) = true -> 0 <= size <= INT32_MAX ->
  exists err result s', read_next size s = Ret (err, result, s') /\ read_result (rest s) size err result s'.
Proof using Hf.
  intros [H1 H2 H3 H4 H5] Hp Hsize. unfold read_next. cbv zeta.
  destruct (wait_spec _ H1) as (err & c & -> & Hc & Eo & Eb & Herr & Hne). cbn [obind].
  unfold rest. rewrite <- Eo, <- Eb. pose proof (loaded_inv c Hc) as (Ho & _ & Hb & _ & _).
  destruct Herr as [->|[-> Hnil]].
  2:{ cbn. do 3 eexists. split; [reflexivity|]. rewrite <- Eo in Hnil.
      rewrite (block_nil _ Ho Hnil) by lia. split; [by rewrite take_nil|by rewrite decide_True]. }
  cbn [negb is_ok]. specialize (Hne eq_refl Hp). pose proof (unread_from c Hc) as Er.
  pose proof (unread_length c Hc) as Elen. destruct (Z.ltb_spec size (blength c)) as [Hlt|Hge].
  - destruct (loaded_advance size c Hc ltac:(lia)) as [Hc' Hu']. set (c' := set_begin _ c) in *.
    assert (unread c' <> []) as Hne' by (rewrite Hu'; intros E%(f_equal length); rewrite length_drop in E; cbn in E; lia).
    rewrite fill_keep by (by apply primed_unread). cbn [obind]. do 3 eexists. split; [reflexivity|].
    rewrite Er, peek_unread by (done || lia). split; [by rewrite take_app_le by lia|].
    rewrite decide_False by (by destruct (unread c)).
    rewrite (proj2 (Z.leb_le _ _)) by (rewrite length_app; lia). split_and!; [done| |by apply primed_unread|].
    + split; cbn; [apply Hc'|done|done|congruence|done].
    + unfold rest. cbn [current_buffer]. rewrite (unread_from c' Hc'), Hu', drop_app_le by lia. done.
  - destruct (Z.ltb_spec INT32_MAX size); [lia|]. unfold drain, consume.
    destruct (loaded_advance (blength c) c Hc ltac:(lia)) as [Hc' Hu'].
    rewrite drop_ge in Hu' by lia. pose proof (write_rep _ _ (unread c) (rep_new (Z.to_nat size))) as Hw.
    fold (unread c). cbn [app] in Hw. unfold total_size at 1. rewrite (rep_length _ _ Hw).
    rewrite (proj2 (Z.gtb_lt _ _)) by (destruct (unread c); [done|cbn; lia]). cbn [CHECK].
    eapply read_on_spec; [exact Hw|done|lia|exact Hc'|exact Hu'|done|done|done|].
    by rewrite H4, <- Eo, Er.
Qed.

(** *** After a read that ran into the end *)

Lemma read_past size c n n' d :
  loaded c -> unread c <> [] -> wait_ongoing_task n = Ret (ERR_OK, n') -> loaded n' ->
  blength c + blength n' < size <= INT32_MAX -> 0 <= d -> from d = [] ->
  read_next size (Streamer c n d) =
    Ret (ERR_HANDLE_EOF, unread c ++ unread n', Streamer (set_begin (_end c) c) (set_begin (_end n') n') d).
Proof using Hf.
  intros Hc Hu En Hn Hsize Hd Hend. unfold read_next. cbv zeta. cbn [current_buffer next_buffer file_dispatched_bytes].
  assert (wait_ongoing_task c = Ret (ERR_OK, c)) as -> by (unfold wait_ongoing_task; by rewrite (proj2 Hc)).
  cbn [obind is_ok negb]. pose proof (unread_length c Hc) as Lc. pose proof (unread_length n' Hn) as Ln.
  destruct (Z.ltb_spec size (blength c)); [lia|]. destruct (Z.ltb_spec INT32_MAX size); [lia|].
  unfold drain, consume. fold (unread c). pose proof (write_rep _ _ (unread c) (rep_new (Z.to_nat size))) as Hw.
  cbn [app] in Hw. unfold total_size at 1. rewrite (rep_length _ _ Hw).
  rewrite (proj2 (Z.gtb_lt _ _)) by (destruct (unread c); [done|cbn; lia]). cbn [CHECK].
  unfold read_on, total_size at 1. rewrite (rep_length _ _ Hw), (proj2 (Z.gtb_lt _ _)), En by lia. cbn [obind is_ok negb].
  unfold consume, total_size. rewrite !(rep_length _ _ Hw), Z.min_r by lia. fold (unread n').
  pose proof (write_rep _ _ (unread n') Hw) as Hw1. set (w1 := write (unread n') _) in *.
  rewrite (rep_length _ _ Hw1), length_app, (proj2 (Z.gtb_lt _ _)) by lia.
  unfold read_direct, total_size. rewrite (rep_length _ _ Hw1), length_app, file_read_slice by lia.
  assert (forall k, slice f d k = []) as E by (intros k; unfold slice; fold (from d); rewrite Hend; apply take_nil).
  rewrite E. cbn [is_ok negb length]. rewrite decide_True, Z.add_0_r by done. cbn [is_ok negb].
  pose proof (write_rep _ _ [] Hw1) as Hw2. rewrite (get_current_buffer_rep _ _ Hw2), app_nil_r.
  assert (forall b, _begin b + blength b = _end b) as Eb by (intros b; unfold blength; lia). by rewrite !Eb.
Qed.

(** The block at [o], read. *)
Definition holding (o : Z) : buffer_t := Buffer (block o) 0 (Z.of_nat (length (block o))) o false.

Lemma holding_loaded o : 0 <= o -> loaded (holding o).
Proof. intros Ho. split; [|done]. split; [done|]. cbn. split_and!; [done|lia|lia|done]. Qed.

Lemma wait_asked o b : 0 <= o -> asked o b -> block o <> [] -> wait_ongoing_task b = Ret (ERR_OK, holding o).
Proof using Hf.
  intros Ho (E1 & E2 & E3 & E4) Hne. unfold wait_ongoing_task. rewrite E1, E2, E3, E4.
  rewrite file_read_slice by (pose proof B_pos; lia). fold (block o). rewrite decide_False by done. cbv zeta.
  by rewrite Z.add_0_l, (proj2 (Z.leb_le _ _) (length_block o)).
Qed.

(** Moving back within the current buffer leaves the next one used up: the bytes it held are
    read no more, and the end of the file is reported in their place. *)
Theorem reset_loses_next_buffer :
  B < Z.of_nat (length f) < 2 * B ->
  (let* s := new_file_streamer 0 in
   let* (_, _, s) := read_next (B - 1) s in
   let* (_, _, s) := read_next (2 * B) s in
   let* s := reset (B - 1) s in
   let* (err, result, _) := read_next 2 s in Ret (err, result)) = Ret (ERR_HANDLE_EOF, slice f (B - 1) 1) /\
  length (slice f (B - 1) 2) = 2%nat.
Proof using Hf.
  intros Hlen. pose proof B_bounds as HB. split; [|unfold slice; rewrite length_take, length_drop; lia].
  assert (Z.of_nat (length (block 0)) = B) as L0 by (unfold block, slice; rewrite length_take, length_drop; lia).
  assert (0 < Z.of_nat (length (block B)) < B) as L1 by (unfold block, slice; rewrite length_take, length_drop; lia).
  unfold new_file_streamer.
  destruct (fill_both new_buffer new_buffer 0 eq_refl eq_refl) as (b & b' & -> & Ha & Ha'). cbn [obind].
  unfold read_next at 1. cbn [current_buffer next_buffer file_dispatched_bytes].
  rewrite (wait_asked 0 b) by (done || by intros E; rewrite E in L0; cbn in L0; lia). cbn [obind].
  assert (blength (holding 0) = B) as E0 by (unfold blength; cbn; lia). rewrite E0.
  destruct (Z.ltb_spec (B - 1) B); [|lia]. destruct (loaded_advance (B - 1) (holding 0) (holding_loaded 0 ltac:(lia)) ltac:(lia)) as [Hl Hu].
  set (c := set_begin _ _) in *. pose proof (unread_length c Hl) as Lu.
  assert (blength c = 1) as Ec by (unfold blength; cbn; lia).
  assert (unread c <> []) as Hne by (intros E; rewrite E in Lu; cbn in Lu; lia).
  rewrite fill_keep by (by apply primed_unread). change (negb (is_ok ERR_OK)) with false. cbn [obind].
  assert (blength (holding B) = Z.of_nat (length (block B))) as E1 by (unfold blength; cbn; lia).
  pose proof (holding_loaded B ltac:(lia)) as Hl1. pose proof (unread_length _ Hl1) as Lu1. rewrite E1 in Lu1.
  assert (from (0 + B + B) = []) as Hend by (unfold from; apply drop_ge; lia).
  assert (wait_ongoing_task b' = Ret (ERR_OK, holding B)) as Ew.
  { apply wait_asked; [lia|done|]. intros E. rewrite E in L1. cbn in L1. lia. }
  rewrite (read_past (2 * B) c b' (holding B) (0 + B + B)); [|exact Hl|exact Hne|exact Ew|exact Hl1|lia|lia|exact Hend].
  cbn [obind]. unfold reset. cbn [current_buffer next_buffer file_dispatched_bytes].
  set (c1 := set_begin (_end c) c). set (n1 := set_begin _ (holding B)).
  assert (loaded n1 /\ unread n1 = []) as [Hn1 Hu1].
  { destruct (loaded_advance (blength (holding B)) (holding B) Hl1 ltac:(lia)) as [H1 H2].
    rewrite drop_ge in H2 by lia. unfold blength in H1, H2. cbn in H1, H2. rewrite Z.sub_0_r in H1, H2. exact (conj H1 H2). }
  change (wait_ongoing_task c1) with (Ret (ERR_OK, c1)). change (wait_ongoing_task n1) with (Ret (ERR_OK, n1)). cbn [obind].
  rewrite (proj2 (Z.leb_le (_file_offset_of_buffer c1) (B - 1))) by (cbn; lia).
  rewrite (proj2 (Z.gtb_lt (_file_offset_of_buffer c1 + _end c1) (B - 1))) by (cbn; lia). cbn [andb].
  assert (set_begin (B - 1 - _file_offset_of_buffer c1) c1 = c) as ->.
  { subst c1 c. unfold set_begin. cbn. by rewrite Z.sub_0_r. }
  rewrite fill_keep by (by apply primed_unread). cbn [obind].
  rewrite (read_past 2 c n1 n1 (0 + B + B)); [|done|done|done|apply Hn1|cbn; unfold blength; cbn; lia|lia|done].
  cbn [obind]. repeat f_equal.
  pose proof (unread_from c Hl) as Er. cbn [_file_offset_of_buffer _begin c set_begin holding] in Er.
  rewrite Hu1, app_nil_r. unfold slice. fold (from (B - 1)). rewrite !Z.add_0_l in Er.
  by rewrite Er, (take_app_length' (unread c)) by lia.
Qed.

End Theory.

(** ** Sessions with a file *)

Inductive stream_op := Seek (offset : Z) | Take (size : Z).

(** A session stops at the first read that does not get all it asked for. *)
Fixpoint stream_session (ops : list stream_op) (s : file_streamer) : outcome (list blob) :=
  match ops with
  | [] => Ret []
  | Seek o :: ops => let* s := reset o s in stream_session ops s
  | Take size :: ops =>
      let* (err, result, s) := read_next size s in
      if is_ok err && (Z.of_nat (length result) =? size) then
        let* l := stream_session ops s in Ret (result :: l)
      else Ret [result]
  end.

(** The same on the bytes of the file. *)
Fixpoint plain_session (f : blob) (ops : list stream_op) (pos : Z) : list blob :=
  match ops with
  | [] => []
  | Seek o :: ops => plain_session f ops o
  | Take size :: ops =>
      let result := slice f pos size in
      if Z.of_nat (length result) =? size then result :: plain_session f ops (pos + size) else [result]
  end.

Definition op_ok (op : stream_op) : Prop :=
  match op with Seek o => 0 <= o | Take size => 0 < size <= INT32_MAX end.

Lemma session_agrees f ops s pos :
  reads f -> Forall op_ok ops -> streams f s -> primed (current_buffer s) = true ->
  0 <= pos -> rest f s = from f pos -> stream_session ops s = Ret (plain_session f ops pos).
Proof.
  intros Hf HF. revert s pos. induction HF as [|[o|size] ops Hop HF IH]; intros s pos Hs Hp Hpos Er; [done|..].
  - destruct (reset_spec f Hf o s Hs Hop) as (s' & E & H1 & H2 & H3). cbn [stream_session plain_session].
    rewrite E. cbn [obind]. by apply IH.
  - cbn in Hop. destruct (read_next_spec f Hf size s Hs Hp ltac:(lia)) as (err & result & s' & E & -> & Hres).
    cbn [stream_session plain_session]. rewrite E. cbn [obind]. rewrite Er in *. fold (slice f pos size).
    unfold slice. fold (from f pos). rewrite length_take.
    destruct (Z.eqb_spec (Z.of_nat (Z.to_nat size `min` length (from f pos))) size) as [Efull|Hshort].
    + rewrite decide_False in Hres by (intros E'; rewrite E' in Efull; cbn in Efull; lia).
      rewrite (proj2 (Z.leb_le _ _)) in Hres by lia. destruct Hres as (-> & H1 & H2 & H3). cbn [is_ok andb].
      rewrite (IH s' (pos + size)); [done|done|done|lia|].
      rewrite H3. unfold from. rewrite drop_drop. f_equal. lia.
    + by rewrite andb_false_r.
Qed.

(** C26. Whatever is sought and read, the streamer gives the bytes of the file: reading ahead
    in two buffers cannot be told from reading the file, until a read fails. *)
Theorem file_streamer_refines f ops offset :
  reads f -> 0 <= offset -> Forall op_ok ops ->
  (let* s := new_file_streamer offset in stream_session ops s) = Ret (plain_session f ops offset).
Proof.
  intros Hf Ho HF. destruct (new_streamer_spec f offset Ho) as (s & -> & H1 & H2 & H3). cbn [obind].
  by apply session_agrees.
Qed.

End Streamer.

(** A file of three bytes. *)
Definition sample_file : blob := [x01; x02; x03].

Definition sample_Read (offset n : Z) : option blob :=
  let size := Z.of_nat (length sample_file) in
  Some (slice sample_file (Z.min offset size) (Z.min n size)).

(** Bounding an offset or a count by the length of the file changes no read. *)
Lemma slice_bound f offset n : 0 <= offset -> 0 <= n ->
  slice f (Z.min offset (Z.of_nat (length f))) (Z.min n (Z.of_nat (length f))) = slice f offset n.
Proof.
  intros Ho Hn. unfold slice.
  destruct (Z.le_ge_cases offset (Z.of_nat (length f))) as [H1|H1].
  - rewrite (Z.min_l offset) by lia. destruct (Z.le_ge_cases n (Z.of_nat (length f))) as [H2|H2].
    + by rewrite (Z.min_l n) by lia.
    + rewrite Z.min_r by lia. rewrite !take_ge; rewrite ?length_drop; [done|lia|lia].
  - rewrite (Z.min_r offset) by lia. rewrite !drop_ge by lia. by rewrite !take_nil.
Qed.

Lemma sample_reads : reads sample_Read sample_file.
Proof. intros offset n Ho Hn. unfold sample_Read. f_equal. by apply (slice_bound sample_file). Qed.

Lemma file_streamer_refines_witness :
  (let* s := new_file_streamer 1 in stream_session sample_Read [Take 1; Seek 0; Take 2; Take 5] s)
  = Ret [[x02]; [x01; x02]; [x03]].
Proof.
  apply (file_streamer_refines sample_Read sample_file [Take 1; Seek 0; Take 2; Take 5] 1 sample_reads).
  - lia.
  - repeat (apply Forall_cons_2; [cbn; unfold INT32_MAX; lia|]). apply Forall_nil_2.
Defined.

End FileStreamer.
