(* ===== verification/LogBlock.v ===== *)
(** * Log blocks

    Model of [src/replica/log_block.{h,cpp}]: the unit in which mutations are appended to a
    log file, and the appender that fills blocks until they are written.  The theory fixes
    the format: a block is a header with the length and the running checksum of its body,
    and the body is the mutations, each stamped with its own position in the log. *)
From S2P Require Import Prelude Endians BinaryIO Mutation Crc.

Module LogBlock.
Import BinaryIO Mutation Crc.

Definition MAGIC : Z := 0xdeadbeef.

Record log_block_header := LogBlockHeader {
  magic : Z;          (* int32_t *)
  body_length : Z;    (* int32_t *)
  body_crc : Z;       (* int32_t *)
  local_offset : Z    (* uint32_t *)
}.

Definition new_log_block_header : log_block_header := LogBlockHeader (i32 MAGIC) 0 0 0.

Definition sizeof_log_block_header : Z := 16.

(** The representation of the structure in memory, and back. *)
Definition header_bytes (h : log_block_header) : blob :=
  le_bytes 4 (magic h) ++ le_bytes 4 (body_length h) ++ le_bytes 4 (body_crc h) ++ le_bytes 4 (local_offset h).

Definition header_of_bytes (b : blob) : log_block_header :=
  LogBlockHeader (i32 (le_val (take 4 b))) (i32 (le_val (take 4 (drop 4 b))))
    (i32 (le_val (take 4 (drop 8 b)))) (le_val (take 4 (drop 12 b))).

Record log_block := LogBlockObj {
  lb_data : list blob;
  lb_size : Z;
  lb_start_offset : Z
}.

Definition front (b : log_block) : outcome blob :=
  match lb_data b with
  | [] => Abort
  | x :: _ => Ret x
  end.

Definition add (bb : blob) (b : log_block) : log_block :=
  LogBlockObj (lb_data b ++ [bb]) (lb_size b + Z.of_nat (length bb)) (lb_start_offset b).

Definition init (b : log_block) : log_block :=
  let temp_writer := write (header_bytes new_log_block_header) (new_binary_writer 0) in
  add (fst (get_buffer temp_writer)) b.

Definition new_log_block (start_offset : Z) : log_block := init (LogBlockObj [] 0 start_offset).

(** The [mutations] are pointers in the code; what the log reads through them, header and
    updates, does not change after they were appended. *)
Record log_appender := LogAppender {
  blocks : list log_block;
  full_blocks_size : Z;
  full_blocks_blob_cnt : Z;
  callbacks : list Z;
  mutations : list mutation
}.

Definition new_log_appender (start_offset : Z) : log_appender :=
  LogAppender [new_log_block start_offset] 0 0 [] [].

(** [log_appender(start_offset, block)]. *)
Definition appender_of_block (start_offset : Z) (b : log_block) : log_appender :=
  LogAppender [LogBlockObj (lb_data b) (lb_size b) start_offset] 0 0 [] [].

Definition DEFAULT_MAX_BLOCK_BYTES : Z := 1 * 1024 * 1024.

(** The vector of blocks is never empty. *)
Definition back (a : log_appender) : outcome log_block := deref (last (blocks a)).

Definition appender_size (a : log_appender) : outcome Z :=
  let* blk := back a in Ret (full_blocks_size a + lb_size blk).

Definition blob_count (a : log_appender) : outcome Z :=
  let* blk := back a in Ret (full_blocks_blob_cnt a + Z.of_nat (length (lb_data blk))).

Definition appender_start_offset (a : log_appender) : outcome Z :=
  let* blk := deref (head (blocks a)) in Ret (lb_start_offset blk).

Definition with_back (blk : log_block) (a : log_appender) : log_appender :=
  LogAppender (removelast (blocks a) ++ [blk]) (full_blocks_size a) (full_blocks_blob_cnt a) (callbacks a) (mutations a).

(** The mutation is returned with its position in the log. *)
Definition append_mutation (mu : mutation) (cb : option Z) (a : log_appender) : outcome (mutation * log_appender) :=
  let* blk := back a in
  let '(a, blk) :=
    if lb_size blk >? DEFAULT_MAX_BLOCK_BYTES then
      let blk' := new_log_block (lb_start_offset blk + lb_size blk) in
      (LogAppender (blocks a ++ [blk']) (full_blocks_size a + lb_size blk)
         (full_blocks_blob_cnt a + Z.of_nat (length (lb_data blk))) (callbacks a) (mutations a), blk')
    else (a, blk) in
  let mu := set_log_offset (lb_start_offset blk + lb_size blk) mu in
  let a := with_back (fold_left (fun b bb => add bb b) (write_to_inserter mu) blk) a in
  Ret (mu, LogAppender (blocks a) (full_blocks_size a) (full_blocks_blob_cnt a)
             (callbacks a ++ from_option (fun c => [c]) [] cb) (mutations a ++ [mu])).

(** ** The format *)

Definition wire_size (m : mutation) : Z := Z.of_nat (length (mutation_wire m)).

(** Mutations logged one after the other from a position on. *)
Fixpoint place (o : Z) (ms : list mutation) : list mutation :=
  match ms with
  | [] => []
  | m :: ms => set_log_offset o m :: place (o + wire_size m) ms
  end.

Definition entries_wire (o : Z) (ms : list mutation) : blob := concat (map mutation_wire (place o ms)).

Definition entries_size (ms : list mutation) : Z :=
  Z.of_nat (sum_list_with (fun m => length (mutation_wire m)) ms).

(** Blocks one after the other: each is given by its mutations. *)
Definition group_size (ms : list mutation) : Z := sizeof_log_block_header + entries_size ms.

Fixpoint groups_size (gs : list (list mutation)) : Z :=
  match gs with
  | [] => 0
  | ms :: gs => group_size ms + groups_size gs
  end.

Fixpoint place_groups (o : Z) (gs : list (list mutation)) : list mutation :=
  match gs with
  | [] => []
  | ms :: gs => place (o + sizeof_log_block_header) ms ++ place_groups (o + group_size ms) gs
  end.

Fixpoint group_bodies (o : Z) (gs : list (list mutation)) : list blob :=
  match gs with
  | [] => []
  | ms :: gs => entries_wire (o + sizeof_log_block_header) ms :: group_bodies (o + group_size ms) gs
  end.

Lemma length_header_wire h : length (header_wire h) = 56%nat.
Proof. unfold header_wire. by rewrite !length_app, !length_le_bytes. Qed.

Lemma wire_size_offset o m : wire_size (set_log_offset o m) = wire_size m.
Proof.
  unfold wire_size, mutation_wire. rewrite !length_app, !length_header_wire. done.
Qed.

Lemma wire_size_pos m : 60 <= wire_size m.
Proof. unfold wire_size, mutation_wire. rewrite !length_app, length_header_wire, length_le_bytes. lia. Qed.

Lemma mutation_ok_offset o m : int64_ok o -> mutation_ok m -> mutation_ok (set_log_offset o m).
Proof. intros Ho ((H1 & H2 & H3 & H4 & _ & H5 & H6) & HF & Hl). by split_and!. Qed.

Lemma entries_size_cons m ms : entries_size (m :: ms) = wire_size m + entries_size ms.
Proof. unfold entries_size, wire_size. cbn. lia. Qed.

Lemma entries_size_app a b : entries_size (a ++ b) = entries_size a + entries_size b.
Proof. unfold entries_size. rewrite sum_list_with_app. lia. Qed.

Lemma entries_size_nonneg ms : 0 <= entries_size ms.
Proof. unfold entries_size. lia. Qed.

Lemma length_entries_wire o ms : Z.of_nat (length (entries_wire o ms)) = entries_size ms.
Proof.
  unfold entries_wire. revert o; induction ms as [|m ms IH]; intros o; [done|].
  cbn [place map concat]. rewrite length_app, entries_size_cons, Nat2Z.inj_add, IH.
  fold (wire_size (set_log_offset o m)). by rewrite wire_size_offset.
Qed.

Lemma place_app o a b : place o (a ++ b) = place o a ++ place (o + entries_size a) b.
Proof.
  revert o; induction a as [|m a IH]; intros o; cbn [place app].
  - unfold entries_size. cbn. by rewrite Z.add_0_r.
  - rewrite IH, entries_size_cons. do 3 f_equal. lia.
Qed.

Lemma entries_wire_app o a b : entries_wire o (a ++ b) = entries_wire o a ++ entries_wire (o + entries_size a) b.
Proof. unfold entries_wire. by rewrite place_app, map_app, concat_app. Qed.

Lemma entries_wire_single o m : entries_wire o [m] = mutation_wire (set_log_offset o m).
Proof. unfold entries_wire. cbn. by rewrite app_nil_r. Qed.

Lemma groups_size_app a b : groups_size (a ++ b) = groups_size a + groups_size b.
Proof. induction a as [|ms a IH]; cbn [groups_size app]; lia. Qed.

Lemma place_groups_app o a b : place_groups o (a ++ b) = place_groups o a ++ place_groups (o + groups_size a) b.
Proof.
  revert o; induction a as [|ms a IH]; intros o; cbn [place_groups groups_size app]; [by rewrite Z.add_0_r|].
  rewrite IH, <- app_assoc. do 3 f_equal. lia.
Qed.

Lemma group_bodies_app o a b : group_bodies o (a ++ b) = group_bodies o a ++ group_bodies (o + groups_size a) b.
Proof.
  revert o; induction a as [|ms a IH]; intros o; cbn [group_bodies groups_size app]; [by rewrite Z.add_0_r|].
  rewrite IH. do 3 f_equal. lia.
Qed.

(** ** The appender *)

(** The block that starts at [o] and holds [ms]. *)
Record block_rep (o : Z) (ms : list mutation) (b : log_block) : Prop := BlockRep {
  br_start : lb_start_offset b = o;
  br_data : exists rest, lb_data b = header_bytes new_log_block_header :: rest /\
    concat rest = entries_wire (o + sizeof_log_block_header) ms;
  br_size : lb_size b = group_size ms
}.

Fixpoint blocks_rep (o : Z) (gs : list (list mutation)) (bs : list log_block) : Prop :=
  match gs, bs with
  | [], [] => True
  | ms :: gs, b :: bs => block_rep o ms b /\ blocks_rep (o + group_size ms) gs bs
  | _, _ => False
  end.

Definition sum_blobs (bs : list log_block) : Z :=
  Z.of_nat (sum_list_with (fun b => length (lb_data b)) bs).

(** The appender that starts at [o]; all but the last block are full. *)
Record appender_rep (o : Z) (gs : list (list mutation)) (a : log_appender) : Prop := AppenderRep {
  ar_blocks : blocks_rep o gs (blocks a);
  ar_nonempty : gs <> [];
  ar_size : full_blocks_size a + from_option group_size 0 (last gs) = groups_size gs;
  ar_blobs : full_blocks_blob_cnt a + from_option (fun b => Z.of_nat (length (lb_data b))) 0 (last (blocks a)) = sum_blobs (blocks a);
  ar_mutations : mutations a = place_groups o gs
}.

Lemma header_written : fst (get_buffer (write (header_bytes new_log_block_header) (new_binary_writer 0)))
  = header_bytes new_log_block_header.
Proof. apply (get_buffer_rep _ _ (write_rep _ _ _ (rep_new 0))). Qed.

Lemma new_log_block_rep o : block_rep o [] (new_log_block o).
Proof.
  unfold new_log_block, init. rewrite header_written. split; [done| |done].
  exists []. done.
Qed.

Lemma new_log_appender_rep o : appender_rep o [[]] (new_log_appender o).
Proof. split; [split; [apply new_log_block_rep|done]|done|done|done|done]. Qed.

Lemma add_all_spec l b :
  fold_left (fun b bb => add bb b) l b =
    LogBlockObj (lb_data b ++ l) (lb_size b + Z.of_nat (length (concat l))) (lb_start_offset b).
Proof.
  revert b; induction l as [|x l IH]; intros b; cbn [fold_left concat].
  - rewrite app_nil_r, Z.add_0_r. by destruct b.
  - rewrite IH. cbn. rewrite <- app_assoc, length_app. f_equal. lia.
Qed.

Lemma block_add o ms b m :
  block_rep o ms b -> mutation_ok m -> int64_ok (o + group_size ms) ->
  let m' := set_log_offset (lb_start_offset b + lb_size b) m in
  block_rep o (ms ++ [m]) (fold_left (fun b bb => add bb b) (write_to_inserter m') b).
Proof.
  intros [<- (rest & Ed & Ec) Es] Hm Ho. cbv zeta. rewrite add_all_spec, Es.
  rewrite write_to_inserter_wire by (by apply mutation_ok_offset).
  unfold group_size in *. rewrite Z.add_assoc. split; cbn [lb_start_offset lb_data lb_size].
  - done.
  - eexists. rewrite Ed. split; [reflexivity|].
    rewrite concat_app, Ec, entries_wire_app, entries_wire_single.
    by rewrite write_to_inserter_wire by (apply mutation_ok_offset; [by rewrite Z.add_assoc in Ho|done]).
  - unfold group_size. rewrite entries_size_app, entries_size_cons. fold (wire_size (set_log_offset (lb_start_offset b + sizeof_log_block_header + entries_size ms) m)).
    rewrite wire_size_offset. change (entries_size []) with 0. lia.
Qed.

Lemma blocks_rep_app o gs gs' bs bs' :
  blocks_rep o gs bs -> blocks_rep (o + groups_size gs) gs' bs' -> blocks_rep o (gs ++ gs') (bs ++ bs').
Proof.
  revert o bs; induction gs as [|ms gs IH]; intros o [|b bs] H H'; cbn in *; try done.
  - by rewrite Z.add_0_r in H'.
  - destruct H as [H1 H2]. split; [done|]. apply IH; [done|]. by rewrite <- Z.add_assoc.
Qed.

Lemma blocks_rep_snoc_inv o gs ms bs :
  blocks_rep o (gs ++ [ms]) bs ->
  exists bs' b, bs = bs' ++ [b] /\ blocks_rep o gs bs' /\ block_rep (o + groups_size gs) ms b.
Proof.
  revert o bs; induction gs as [|ms' gs IH]; intros o [|b bs] H; cbn in *; try done.
  - destruct H as [H1 H2]. destruct bs; [|done]. exists [], b. by rewrite Z.add_0_r.
  - destruct H as [H1 H2]. destruct (IH _ _ H2) as (bs' & b' & -> & H3 & H4).
    exists (b :: bs'), b'. by rewrite Z.add_assoc.
Qed.

(** Where a mutation goes: into the last block, or into a new one when that is full. *)
Definition add_to_groups (m : mutation) (gs : list (list mutation)) : list (list mutation) :=
  match rev gs with
  | [] => [[m]]
  | ms :: r =>
      if group_size ms >? DEFAULT_MAX_BLOCK_BYTES then gs ++ [[m]] else rev r ++ [ms ++ [m]]
  end.

Lemma add_to_groups_snoc m gs ms :
  add_to_groups m (gs ++ [ms]) =
    if group_size ms >? DEFAULT_MAX_BLOCK_BYTES then gs ++ [ms; [m]] else gs ++ [ms ++ [m]].
Proof. unfold add_to_groups. rewrite rev_app_distr. cbn. by rewrite rev_involutive, <- app_assoc. Qed.

Lemma add_to_groups_concat m gs : concat (add_to_groups m gs) = concat gs ++ [m].
Proof.
  destruct gs as [|ms gs _] using rev_ind; [done|]. rewrite add_to_groups_snoc.
  destruct (_ >? _); rewrite !concat_app; cbn; by rewrite ?app_nil_r, <- ?app_assoc.
Qed.

(** Blocks that a reader can take: not empty, and with a length that fits the header. *)
Definition max_wire : Z := 2 ^ 30.
Definition group_fits (ms : list mutation) : Prop := entries_size ms <= DEFAULT_MAX_BLOCK_BYTES + max_wire.

Lemma add_to_groups_fits m gs :
  wire_size m <= max_wire -> Forall group_fits gs -> Forall group_fits (add_to_groups m gs).
Proof.
  intros Hm. assert (group_fits [m]) as H1.
  { unfold group_fits. rewrite entries_size_cons. change (entries_size []) with 0.
    unfold DEFAULT_MAX_BLOCK_BYTES. lia. }
  destruct gs as [|ms gs _] using rev_ind; intros H; [by repeat constructor|]. rewrite add_to_groups_snoc.
  apply Forall_app in H as [Hgs [Hms _]%Forall_cons].
  destruct (Z.gtb_spec (group_size ms) DEFAULT_MAX_BLOCK_BYTES); apply Forall_app; split; try done.
  - by repeat constructor.
  - repeat constructor. unfold group_fits, group_size, sizeof_log_block_header in *.
    rewrite entries_size_app, entries_size_cons. change (entries_size []) with 0. lia.
Qed.

Lemma add_to_groups_filled m gs :
  gs = [[]] \/ Forall (fun ms => ms <> []) gs -> Forall (fun ms => ms <> []) (add_to_groups m gs).
Proof.
  intros [->|H]; [by repeat constructor|].
  destruct gs as [|ms gs _] using rev_ind; [by repeat constructor|]. rewrite add_to_groups_snoc.
  apply Forall_app in H as [Hgs [Hms _]%Forall_cons].
  destruct (_ >? _); apply Forall_app; (split; [done|]); repeat constructor; [done|done|by destruct ms].
Qed.

Lemma groups_size_nonneg gs : 0 <= groups_size gs.
Proof.
  induction gs as [|ms gs IH]; cbn [groups_size]; [done|]. unfold group_size, sizeof_log_block_header.
  pose proof (entries_size_nonneg ms). lia.
Qed.

Lemma appender_pos o gs a : appender_rep o gs a -> 0 < groups_size gs.
Proof.
  intros [_ Hne _ _ _]. destruct gs as [|ms gs]; [done|]. cbn [groups_size].
  unfold group_size, sizeof_log_block_header. pose proof (entries_size_nonneg ms). pose proof (groups_size_nonneg gs). lia.
Qed.

Lemma appender_size_rep o gs a : appender_rep o gs a -> appender_size a = Ret (groups_size gs).
Proof.
  intros [Hb Hne Hs _ _]. destruct gs as [|ms gs _] using rev_ind; [done|].
  destruct (blocks_rep_snoc_inv _ _ _ _ Hb) as (bs & b & Eb & _ & Hb').
  unfold appender_size, back. rewrite Eb, last_snoc. cbn. rewrite last_snoc in Hs. cbn in Hs.
  by rewrite (br_size _ _ _ Hb'), Hs.
Qed.

Lemma appender_start_rep o gs a : appender_rep o gs a -> appender_start_offset a = Ret o.
Proof.
  intros [Hb Hne _ _ _]. unfold appender_start_offset. destruct gs as [|ms gs]; [done|].
  destruct (blocks a) as [|b bs]; [done|]. destruct Hb as [[E _ _] _]. cbn. by rewrite E.
Qed.

Lemma blob_count_rep o gs a : appender_rep o gs a -> blob_count a = Ret (sum_blobs (blocks a)).
Proof.
  intros [Hb Hne _ Hc _]. destruct gs as [|ms gs _] using rev_ind; [done|].
  destruct (blocks_rep_snoc_inv _ _ _ _ Hb) as (bs & b & Eb & _ & Hb').
  unfold blob_count, back. rewrite Eb, last_snoc in *. cbn in *. by rewrite Hc.
Qed.

Lemma sum_blobs_snoc bs b : sum_blobs (bs ++ [b]) = sum_blobs bs + Z.of_nat (length (lb_data b)).
Proof. unfold sum_blobs. rewrite sum_list_with_app. cbn [sum_list_with]. lia. Qed.

(** A new block is started behind a full one. *)
Lemma roll_rep o gs a blk :
  appender_rep o gs a -> back a = Ret blk ->
  appender_rep o (gs ++ [[]])
    (LogAppender (blocks a ++ [new_log_block (lb_start_offset blk + lb_size blk)]) (full_blocks_size a + lb_size blk)
       (full_blocks_blob_cnt a + Z.of_nat (length (lb_data blk))) (callbacks a) (mutations a)).
Proof.
  intros [Hb Hne Hs Hc Hm] Eblk. destruct gs as [|ms gs _] using rev_ind; [done|].
  destruct (blocks_rep_snoc_inv _ _ _ _ Hb) as (bs & b & Eb & Hbs & Hb').
  unfold back in Eblk. rewrite Eb, last_snoc in *. cbn in Eblk. injection Eblk as <-.
  rewrite last_snoc in Hs. cbn in Hs, Hc. pose proof (br_size _ _ _ Hb') as Es.
  split; cbn [blocks full_blocks_size full_blocks_blob_cnt mutations].
  - apply blocks_rep_app; [done|]. split; [|done]. rewrite (br_start _ _ _ Hb'), Es.
    rewrite groups_size_app. cbn [groups_size]. rewrite Z.add_0_r, Z.add_assoc. apply new_log_block_rep.
  - by destruct gs.
  - rewrite last_snoc. cbn. rewrite groups_size_app. cbn. lia.
  - rewrite last_snoc. cbn [from_option]. rewrite !sum_blobs_snoc in *. lia.
  - rewrite place_groups_app. cbn. by rewrite app_nil_r.
Qed.

Lemma fill_rep o gs ms a blk m cb :
  appender_rep o (gs ++ [ms]) a -> back a = Ret blk -> mutation_ok m -> int64_ok (o + groups_size (gs ++ [ms])) ->
  let m' := set_log_offset (lb_start_offset blk + lb_size blk) m in
  let a' := with_back (fold_left (fun b bb => add bb b) (write_to_inserter m') blk) a in
  appender_rep o (gs ++ [ms ++ [m]])
    (LogAppender (blocks a') (full_blocks_size a') (full_blocks_blob_cnt a') cb (mutations a' ++ [m'])).
Proof.
  intros [Hb Hne Hs Hc Hm] Eblk Hok Hlim. cbv zeta.
  destruct (blocks_rep_snoc_inv _ _ _ _ Hb) as (bs & b & Eb & Hbs & Hb').
  unfold back in Eblk. unfold with_back. cbn [blocks full_blocks_size full_blocks_blob_cnt mutations].
  rewrite Eb, last_snoc in *. cbn in Eblk. injection Eblk as <-. rewrite removelast_last.
  rewrite last_snoc in Hs. cbn in Hs, Hc. rewrite groups_size_app in Hs, Hlim. cbn in Hs, Hlim.
  rewrite Z.add_0_r, Z.add_assoc in Hlim. pose proof (block_add _ _ _ m Hb' Hok Hlim) as Hadd. cbv zeta in Hadd.
  set (b2 := fold_left _ _ b) in *. split; cbn [blocks full_blocks_size full_blocks_blob_cnt mutations].
  - apply blocks_rep_app; [done|]. by split.
  - by destruct gs.
  - rewrite last_snoc, groups_size_app. cbn [from_option groups_size]. lia.
  - rewrite last_snoc. cbn [from_option]. rewrite sum_blobs_snoc in *. lia.
  - rewrite Hm, !place_groups_app. cbn [place_groups]. rewrite !app_nil_r, place_app, <- app_assoc. cbn [place].
    rewrite (br_start _ _ _ Hb'), (br_size _ _ _ Hb'). unfold group_size. by rewrite !Z.add_assoc.
Qed.

Lemma append_mutation_rep o gs a m cb :
  appender_rep o gs a -> mutation_ok m -> 0 <= o -> o + groups_size gs + sizeof_log_block_header <= INT64_MAX ->
  exists p a', append_mutation m cb a = Ret (set_log_offset p m, a') /\ appender_rep o (add_to_groups m gs) a' /\
    mutations a' = mutations a ++ [set_log_offset p m] /\
    callbacks a' = callbacks a ++ from_option (fun c => [c]) [] cb.
Proof.
  intros Ha Hok Ho Hlim. pose proof Ha as [Hb Hne _ _ _]. destruct gs as [|ms gs _] using rev_ind; [done|].
  destruct (blocks_rep_snoc_inv _ _ _ _ Hb) as (bs & b & Eb & _ & Hb').
  assert (back a = Ret b) as Eblk by (unfold back; by rewrite Eb, last_snoc).
  unfold append_mutation. rewrite Eblk, add_to_groups_snoc. cbn [obind]. rewrite (br_size _ _ _ Hb').
  assert (0 <= groups_size (gs ++ [ms])) as Hnn.
  { clear. induction (gs ++ [ms]) as [|g l IH]; cbn; [done|].
    unfold group_size, sizeof_log_block_header. pose proof (entries_size_nonneg g). lia. }
  unfold INT64_MAX, sizeof_log_block_header in *.
  destruct (group_size ms >? DEFAULT_MAX_BLOCK_BYTES) eqn:Efull; cbv zeta.
  - do 2 eexists. split; [reflexivity|]. split; [|done].
    pose proof (roll_rep _ _ _ _ Ha Eblk) as Hroll. rewrite (br_size _ _ _ Hb') in Hroll.
    change (gs ++ [ms; [m]]) with (gs ++ [ms] ++ [[] ++ [m]]). rewrite app_assoc.
    eapply (fill_rep _ _ _ _ _ m _ Hroll); [|done|].
    + unfold back. cbn. by rewrite last_snoc.
    + rewrite groups_size_app. unfold int64_ok. change (groups_size [[]]) with 16. lia.
  - do 2 eexists. split; [reflexivity|]. split; [|done].
    apply (fill_rep _ _ _ _ _ m _ Ha Eblk Hok). unfold int64_ok. lia.
Qed.

End LogBlock.
