(* ===== verification/LogFile.v ===== *)
(** * Log files

    Model of [src/replica/log_file.{h,cpp}].  A log file is named by its index and by the
    position in the log it starts at; it is a sequence of blocks, the first of which starts
    with the file header.  The checksum of a block continues that of the block before it, so
    that a block is only accepted behind the one it was written behind. *)
From S2P Require Import Prelude Endians BinaryIO Mutation Crc StringConv Strings FileStreamer LogBlock.

Module LogFile.
Import BinaryIO Mutation Crc StringConv Strings FileStreamer LogBlock.

Abbreviation path := blob.

#[global] Instance gpid_countable : Countable gpid.
Proof.
  refine (inj_countable' (fun p => (app_id p, partition_index p)) (fun p => Gpid p.1 p.2) _). by intros [].
Defined.

Record log_file_header := LogFileHeader {
  fh_magic : Z;               (* int32_t *)
  fh_version : Z;             (* int32_t *)
  start_global_offset : Z     (* int64_t *)
}.

Record replica_log_info := ReplicaLogInfo { max_decree : Z; valid_start_offset : Z }.

Abbreviation replica_log_info_map := (gmap gpid replica_log_info).

Definition file_header_bytes (h : log_file_header) : blob :=
  le_bytes 4 (fh_magic h) ++ le_bytes 4 (fh_version h) ++ le_bytes 8 (start_global_offset h).

Definition file_header_of_bytes (b : blob) : log_file_header :=
  LogFileHeader (i32 (le_val (take 4 b))) (i32 (le_val (take 4 (drop 4 b)))) (i64 (le_val (take 8 (drop 8 b)))).

Definition gpid_bytes (p : gpid) : blob := le_bytes 8 (gpid_value p).

Definition log_info_bytes (i : replica_log_info) : blob := le_bytes 8 (max_decree i) ++ le_bytes 8 (valid_start_offset i).

Definition log_info_of_bytes (b : blob) : replica_log_info :=
  ReplicaLogInfo (i64 (le_val (take 8 b))) (i64 (le_val (take 8 (drop 8 b)))).

Record log_file := LogFileObj {
  lf_crc32 : Z;
  lf_start_offset : Z;
  lf_end_offset : Z;
  lf_stream : option file_streamer;
  lf_handle : bool;                  (* still open *)
  lf_is_read : bool;
  lf_path : path;
  lf_index : Z;
  lf_header : log_file_header;
  lf_last_write_time : Z;
  previous_log_max_decrees : replica_log_info_map
}.

Definition with_stream (s : option file_streamer) (lf : log_file) : log_file :=
  LogFileObj (lf_crc32 lf) (lf_start_offset lf) (lf_end_offset lf) s (lf_handle lf) (lf_is_read lf) (lf_path lf)
    (lf_index lf) (lf_header lf) (lf_last_write_time lf) (previous_log_max_decrees lf).

Definition with_crc (c : Z) (lf : log_file) : log_file :=
  LogFileObj c (lf_start_offset lf) (lf_end_offset lf) (lf_stream lf) (lf_handle lf) (lf_is_read lf) (lf_path lf)
    (lf_index lf) (lf_header lf) (lf_last_write_time lf) (previous_log_max_decrees lf).

Definition with_file_header (h : log_file_header) (ds : replica_log_info_map) (lf : log_file) : log_file :=
  LogFileObj (lf_crc32 lf) (lf_start_offset lf) (lf_end_offset lf) (lf_stream lf) (lf_handle lf) (lf_is_read lf)
    (lf_path lf) (lf_index lf) h (lf_last_write_time lf) ds.

Definition with_end_offset (o : Z) (lf : log_file) : log_file :=
  LogFileObj (lf_crc32 lf) (lf_start_offset lf) o (lf_stream lf) (lf_handle lf) (lf_is_read lf) (lf_path lf)
    (lf_index lf) (lf_header lf) (lf_last_write_time lf) (previous_log_max_decrees lf).

Definition with_handle (h : bool) (lf : log_file) : log_file :=
  LogFileObj (lf_crc32 lf) (lf_start_offset lf) (lf_end_offset lf) (lf_stream lf) h (lf_is_read lf) (lf_path lf)
    (lf_index lf) (lf_header lf) (lf_last_write_time lf) (previous_log_max_decrees lf).

Definition set_last_write_time (t : Z) (lf : log_file) : log_file :=
  LogFileObj (lf_crc32 lf) (lf_start_offset lf) (lf_end_offset lf) (lf_stream lf) (lf_handle lf) (lf_is_read lf)
    (lf_path lf) (lf_index lf) (lf_header lf) t (previous_log_max_decrees lf).

(** ** Names *)

Definition c_dot : byte := char 46.
Definition c_slash : byte := char 47.
Definition c_backslash : byte := char 92.
Definition kLogPrefix : blob := str "log.".

(** The index and the start offset; [None] is [ERR_INVALID_PARAMETERS]. *)
Definition parse_log_file_name (p : path) : option (Z * Z) :=
  let file_name := get_last_component (c_str p) [c_backslash; c_slash] in
  if negb (is_prefix kLogPrefix file_name) then None
  else match find_char c_dot (drop (length kLogPrefix) file_name) with
       | None => None
       | Some (index_str, start_offset_str) =>
           if bool_decide (index_str = []) || bool_decide (start_offset_str = []) then None
           else match buf2int32 index_str, buf2int64 start_offset_str with
                | Some index, Some start_offset => Some (index, start_offset)
                | _, _ => None
                end
       end.

(** [sprintf(path, "%s/log.%d.%ld", dir, index, start_offset)] into 512 bytes. *)
Definition log_file_name (dir : path) (index start_offset : Z) : path :=
  dir ++ [c_slash] ++ kLogPrefix ++ to_string index ++ [c_dot] ++ to_string start_offset.

(** ** Blocks written *)

(** The header that completes a block: its length and the checksum so far. *)
Definition commit_block (file_start crc : Z) (b : log_block) : outcome (Z * log_block) :=
  let* f := front b in
  let hdr := header_of_bytes f in
  CHECK (u32 (magic hdr) =? MAGIC)
    (let crc' := fold_left (fun c blk => i32 (crc32_calc blk (u32 c))) (tail (lb_data b)) (i32 crc) in
     let hdr := LogBlockHeader (magic hdr) (i32 (lb_size b - sizeof_log_block_header)) crc'
                  (u32 (lb_start_offset b - file_start)) in
     Ret (u32 crc', LogBlockObj (header_bytes hdr :: tail (lb_data b)) (lb_size b) (lb_start_offset b))).

Fixpoint commit_all (file_start crc : Z) (bs : list log_block) : outcome (Z * list log_block) :=
  match bs with
  | [] => Ret (crc, [])
  | b :: bs =>
      let* (crc, b) := commit_block file_start crc b in
      let* (crc, bs) := commit_all file_start crc bs in
      Ret (crc, b :: bs)
  end.

(** The offset in the file and the bytes given to [file::write_vector]; [None] when the
    file is closed.  A vector of [blob_count] buffers is filled. *)
Definition commit_log_blocks (pending : log_appender) (lf : log_file)
  : outcome (option (Z * blob) * log_file) :=
  CHECK (negb (lf_is_read lf))
    (let* size := appender_size pending in
     CHECK (size >? 0)
       (if negb (lf_handle lf) then Ret (None, lf)
        else
          let* vec_size := blob_count pending in
          let* (crc, bs) := commit_all (lf_start_offset lf) (lf_crc32 lf) (blocks pending) in
          let buffers := concat (map lb_data bs) in
          if Z.of_nat (length buffers) >? vec_size then Undef
          else
            let* start := appender_start_offset pending in
            Ret (Some (u64 (start - lf_start_offset lf), concat buffers),
                 with_end_offset (lf_end_offset lf + size) (with_crc crc lf)))).

Definition commit_log_block (b : log_block) (offset : Z) : log_file -> outcome (option (Z * blob) * log_file) :=
  commit_log_blocks (appender_of_block offset b).

(** ** The file header *)

Definition sizeof_log_file_header : Z := 16.

Definition get_file_header_size (lf : log_file) : Z :=
  let count := i32 (Z.of_nat (size (previous_log_max_decrees lf))) in
  i32 (sizeof_log_file_header + 4 + (8 + 16) * count).

Definition is_right_header (lf : log_file) : bool :=
  (u32 (fh_magic (lf_header lf)) =? MAGIC) && (start_global_offset (lf_header lf) =? lf_start_offset lf).

Definition previous_log_max_decree (pid : gpid) (lf : log_file) : Z :=
  from_option max_decree 0 (previous_log_max_decrees lf !! pid).

Fixpoint read_log_infos (count : nat) (r : binary_reader) (ds : replica_log_info_map)
  : outcome (replica_log_info_map * binary_reader) :=
  match count with
  | O => Ret (ds, r)
  | S count =>
      let* (g, r) := read_pod 8 r in
      let* (b, r) := read_blob 16 r in
      read_log_infos count r (<[gpid_of_value g := log_info_of_bytes b]> ds)
  end.

Definition read_file_header (r : binary_reader) (lf : log_file) : outcome (Z * binary_reader * log_file) :=
  let* (h, r) := read_blob sizeof_log_file_header r in
  let* (count, r) := read_int 4 r in
  let* (ds, r) := read_log_infos (Z.to_nat count) r (previous_log_max_decrees lf) in
  let lf := with_file_header (file_header_of_bytes h) ds lf in
  Ret (get_file_header_size lf, r, lf).

Section Writing.
(** The order in which an [unordered_map] is iterated. *)
Context (iteration : replica_log_info_map -> list (gpid * replica_log_info)).

Definition write_file_header (w : binary_writer) (init_max_decrees : replica_log_info_map) (lf : log_file)
  : Z * binary_writer * log_file :=
  let h := LogFileHeader (i32 MAGIC) 1 (lf_start_offset lf) in
  let lf := with_file_header h init_max_decrees lf in
  let w := write (file_header_bytes h) w in
  let w := write_pod 4 (i32 (Z.of_nat (size init_max_decrees))) w in
  let w := fold_left (fun w kv => write (log_info_bytes (snd kv)) (write (gpid_bytes (fst kv)) w))
             (iteration init_max_decrees) w in
  (get_file_header_size lf, w, lf).
End Writing.

(** ** Opening and reading *)

Section Reading.
(** The file system: whether a path exists and can be opened, the size of a file, and
    reading from it. *)
Context (path_exists : path -> bool) (file_open : path -> bool) (file_size : path -> option Z)
  (file_close : path -> bool) (file_flush : path -> bool) (Read : path -> Z -> Z -> option blob).

Definition new_log_file (p : path) (index start_offset : Z) (is_read : bool) : outcome log_file :=
  let lf e := LogFileObj 0 start_offset e None true is_read p index (LogFileHeader 0 0 0) 0 ∅ in
  if is_read then
    match file_size p with
    | None => Abort
    | Some sz => Ret (lf (start_offset + sz))
    end
  else Ret (lf start_offset).

(** The path has to fit a buffer of 512 bytes. *)
Definition create_write (dir : path) (index start_offset : Z) : outcome (option log_file) :=
  let p := log_file_name dir index start_offset in
  if Z.of_nat (length p) >=? 512 then Undef
  else if path_exists p then Ret None
  else if negb (file_open p) then Ret None
  else let* lf := new_log_file p index start_offset false in Ret (Some lf).

Definition close (lf : log_file) : outcome log_file :=
  let lf := with_stream None lf in
  if lf_handle lf then CHECK (file_close (lf_path lf)) (Ret (with_handle false lf)) else Ret lf.

Definition flush (lf : log_file) : outcome unit :=
  CHECK (negb (lf_is_read lf))
    (if lf_handle lf then CHECK (file_flush (lf_path lf)) (Ret tt) else Ret tt).

Definition reset_stream (offset : Z) (lf : log_file) : outcome log_file :=
  let* s := match lf_stream lf with
            | None => new_file_streamer offset
            | Some s => reset (Read (lf_path lf)) offset s
            end in
  let lf := with_stream (Some s) lf in
  Ret (if offset =? 0 then with_crc 0 lf else lf).

(** The end of the file may be reported with or without the bytes before it. *)
Definition ended (err : error_code) : bool := is_ok err || bool_decide (err = ERR_HANDLE_EOF).

Definition read_next_log_block (lf : log_file) : outcome (error_code * blob * log_file) :=
  CHECK (lf_is_read lf)
    (let* s := deref (lf_stream lf) in
     let* (err, bb, s) := read_next (Read (lf_path lf)) sizeof_log_block_header s in
     let lf := with_stream (Some s) lf in
     if negb (is_ok err) || negb (Z.of_nat (length bb) =? sizeof_log_block_header) then
       Ret (if ended err then if (length bb =? 0)%nat then ERR_HANDLE_EOF else ERR_INCOMPLETE_DATA else err, bb, lf)
     else
       let hdr := header_of_bytes bb in
       if negb (u32 (magic hdr) =? MAGIC) then Ret (ERR_INVALID_DATA, bb, lf)
       else
         let* (err, bb, s) := read_next (Read (lf_path lf)) (u64 (body_length hdr)) s in
         let lf := with_stream (Some s) lf in
         if negb (is_ok err) || negb (u32 (body_length hdr) =? Z.of_nat (length bb)) then
           Ret (if ended err then ERR_INCOMPLETE_DATA else err, bb, lf)
         else
           let crc := crc32_calc bb (lf_crc32 lf) in
           if negb (crc =? u32 (body_crc hdr)) then Ret (ERR_INVALID_DATA, bb, lf)
           else Ret (ERR_OK, bb, with_crc crc lf)).

(** [open_read]: the error, the file when there is none, and whether the file was renamed
    to [path.removed] because its first block is not right. *)
Definition open_read (p : path) : outcome (error_code * option log_file * bool) :=
  match parse_log_file_name p with
  | None => Ret (ERR_INVALID_PARAMETERS, None, false)
  | Some (index, start_offset) =>
      if negb (file_open p) then Ret (ERR_FILE_OPERATION_FAILED, None, false)
      else
        let* lf := new_log_file p index start_offset true in
        let* lf := reset_stream 0 lf in
        let* (err, hdr_blob, lf) := read_next_log_block lf in
        if bool_decide (err ∈ [ERR_INVALID_DATA; ERR_INCOMPLETE_DATA; ERR_HANDLE_EOF; ERR_FILE_OPERATION_FAILED])
        then Ret (err, None, true)
        else
          let* (_, _, lf) := read_file_header (BinaryReader hdr_blob) lf in
          if negb (is_right_header lf) then Ret (ERR_INVALID_DATA, None, true)
          else Ret (ERR_OK, Some lf, false)
  end.
End Reading.

(** ** Names round-trip *)

Lemma no_splitter (s sp : blob) :
  Forall (fun c => c ∉ sp) s -> existsb (fun x => bool_decide (x ∈ sp)) s = false.
Proof.
  intros HF. apply not_true_is_false. intros (x & Hin & Hx)%existsb_exists. apply bool_decide_eq_true in Hx.
  rewrite Forall_forall in HF. apply (HF x); [by apply list_elem_of_In|done].
Qed.

Lemma get_last_component_app (d : blob) (c : byte) (s sp : blob) :
  c ∈ sp -> Forall (fun c => c ∉ sp) s -> get_last_component (d ++ c :: s) sp = s.
Proof.
  intros Hc HF. induction d as [|x d IH]; cbn [app get_last_component].
  - by rewrite no_splitter, decide_True.
  - rewrite (proj2 (existsb_exists _ _)); [done|]. exists c. split; [|by apply bool_decide_eq_true].
    apply in_or_app. right. by left.
Qed.

Lemma find_char_app c a b : c ∉ a -> find_char c (a ++ c :: b) = Some (a, b).
Proof.
  induction a as [|x a IH]; intros Hn; cbn.
  - by rewrite decide_True.
  - apply not_elem_of_cons in Hn as [Hx Hn]. rewrite decide_False by congruence. by rewrite IH.
Qed.

(** A number is written with digits and a sign. *)
Lemma to_string_chars z b : b ∈ to_string z -> b = c_minus \/ exists d, 0 <= d < 10 /\ b = char (48 + d).
Proof.
  unfold to_string. destruct (Z.ltb_spec z 0); intros Hb.
  - apply elem_of_cons in Hb as [->|Hb]; [by left|]. right. by apply (decimal_digits 20 (- z)); [lia|].
  - right. by apply (decimal_digits 20 z).
Qed.

Lemma not_in_to_string k z : 0 <= k < 256 -> k <> 45 -> ~ (48 <= k < 58) -> char k ∉ to_string z.
Proof.
  intros Hk H1 H2 [E|(d & Hd & E)]%to_string_chars; apply char_inj in E; lia.
Qed.

Definition plain_name (index start_offset : Z) : blob :=
  kLogPrefix ++ to_string index ++ [c_dot] ++ to_string start_offset.

Lemma not_in_plain_name k index start_offset :
  k = 0 \/ k = 47 \/ k = 92 -> char k ∉ plain_name index start_offset.
Proof.
  intros Hk. unfold plain_name. rewrite !not_elem_of_app. split_and!.
  - destruct Hk as [->|[->| ->]]; (apply (bool_decide_eq_true_1 _); by vm_compute).
  - apply not_in_to_string; lia.
  - intros E%list_elem_of_singleton. apply char_inj in E; lia.
  - apply not_in_to_string; lia.
Qed.

(** What is parsed of a name in the directory. *)
Lemma parse_in_dir dir index start_offset suffix :
  NUL ∉ dir -> Forall (fun c => c <> NUL /\ c <> c_slash /\ c <> c_backslash) suffix ->
  parse_log_file_name (log_file_name dir index start_offset ++ suffix) =
    match buf2int32 (to_string index), buf2int64 (to_string start_offset ++ suffix) with
    | Some index, Some start_offset => Some (index, start_offset)
    | _, _ => None
    end.
Proof.
  intros Hd Hs. unfold parse_log_file_name, log_file_name.
  fold (plain_name index start_offset). rewrite <- app_assoc. cbn [app].
  assert (forall k, k = 0 \/ k = 47 \/ k = 92 -> char k ∉ plain_name index start_offset ++ suffix) as Hno.
  { intros k Hk. rewrite not_elem_of_app. split; [by apply not_in_plain_name|]. intros Hin.
    rewrite Forall_forall in Hs. destruct (Hs _ Hin) as (H1 & H2 & H3). by destruct Hk as [->|[->| ->]]. }
  rewrite c_str_id.
  2:{ rewrite not_elem_of_app, not_elem_of_cons. split_and!; [done| |apply (Hno 0); lia].
      intros E. apply char_inj in E; lia. }
  rewrite get_last_component_app.
  2:{ right. by left. }
  2:{ apply Forall_forall. intros c Hc Hin.
      apply elem_of_cons in Hin as [->|Hin%list_elem_of_singleton]; [|subst c]; revert Hc; apply Hno; lia. }
  unfold plain_name. rewrite <- !app_assoc, is_prefix_app. cbn [negb]. rewrite drop_app_length. cbn [app].
  rewrite find_char_app by (apply not_in_to_string; lia).
  rewrite !bool_decide_eq_false_2; [done| |apply to_string_not_nil].
  intros E. apply app_nil in E as [E _]. by apply to_string_not_nil in E.
Qed.

Lemma log_file_name_parsed dir index start_offset :
  NUL ∉ dir -> int32_ok index -> int64_ok start_offset ->
  parse_log_file_name (log_file_name dir index start_offset) = Some (index, start_offset).
Proof.
  unfold int32_ok, int64_ok. intros Hd Hi Ho. pose proof (parse_in_dir dir index start_offset [] Hd ltac:(constructor)) as E.
  rewrite !app_nil_r in E. rewrite E. unfold buf2int32, buf2int64.
  by rewrite !buf2signed_to_string by (unfold signed_min, signed_max; cbn; lia).
Qed.

(** A file that was put away is no log file any more. *)
Lemma removed_parsed dir index start_offset :
  NUL ∉ dir -> parse_log_file_name (log_file_name dir index start_offset ++ str ".removed") = None.
Proof.
  intros Hd. rewrite parse_in_dir; [|done|].
  - unfold buf2int64. rewrite (buf2signed_dot 64); [by destruct (buf2int32 _)|].
    apply elem_of_app. right. apply (bool_decide_eq_true_1 _). by vm_compute.
  - apply (bool_decide_eq_true_1 _). by vm_compute.
Qed.

(** C28. The name a log file is created with is parsed back to its index and start offset. *)
Theorem log_file_name_roundtrip dir index start_offset :
  NUL ∉ dir -> int32_ok index -> int64_ok start_offset ->
  parse_log_file_name (log_file_name dir index start_offset) = Some (index, start_offset).
Proof. apply log_file_name_parsed. Qed.

Lemma log_file_name_roundtrip_witness :
  parse_log_file_name (log_file_name (str "/data/plog") 7 33554432) = Some (7, 33554432).
Proof.
  apply (log_file_name_roundtrip (str "/data/plog") 7 33554432); [|done|done].
  apply (bool_decide_eq_true_1 _). by vm_compute.
Defined.

(** ** The format of a file *)

Lemma header_of_header_bytes h :
  header_of_bytes (header_bytes h) =
    LogBlockHeader (i32 (magic h)) (i32 (body_length h)) (i32 (body_crc h)) (u32 (local_offset h)).
Proof.
  transitivity (LogBlockHeader (i32 (le_val (le_bytes 4 (magic h)))) (i32 (le_val (le_bytes 4 (body_length h))))
    (i32 (le_val (le_bytes 4 (body_crc h)))) (le_val (le_bytes 4 (local_offset h)))); [done|].
  rewrite !le_val_le_bytes. change (8 * Z.of_nat 4) with 32. by rewrite !swrap_mod.
Qed.

Lemma length_header_bytes h : length (header_bytes h) = 16%nat.
Proof. done. Qed.

Definition block_header (crc lo : Z) (body : blob) : log_block_header :=
  LogBlockHeader (i32 MAGIC) (i32 (Z.of_nat (length body))) (i32 (crc32_calc body crc)) (u32 lo).

Definition block_wire (crc lo : Z) (body : blob) : blob := header_bytes (block_header crc lo body) ++ body.

(** Blocks from the offset [lo] of a file on, where the checksum is [crc]. *)
Fixpoint bodies_wire (crc lo : Z) (bodies : list blob) : blob :=
  match bodies with
  | [] => []
  | b :: bs => block_wire crc lo b ++ bodies_wire (crc32_calc b crc) (lo + sizeof_log_block_header + Z.of_nat (length b)) bs
  end.

Definition crc_after (crc : Z) (bodies : list blob) : Z := fold_left (fun c b => crc32_calc b c) bodies crc.

Lemma length_block_wire crc lo b : Z.of_nat (length (block_wire crc lo b)) = sizeof_log_block_header + Z.of_nat (length b).
Proof. unfold block_wire. rewrite length_app, length_header_bytes. unfold sizeof_log_block_header. lia. Qed.

Lemma bodies_wire_app crc lo a b :
  bodies_wire crc lo (a ++ b) =
    bodies_wire crc lo a ++ bodies_wire (crc_after crc a) (lo + Z.of_nat (length (bodies_wire crc lo a))) b.
Proof.
  revert crc lo; induction a as [|x a IH]; intros crc lo; cbn [bodies_wire app length].
  - by rewrite Z.add_0_r.
  - rewrite IH, <- app_assoc, length_app, Nat2Z.inj_add, length_block_wire.
    change (crc_after crc (x :: a)) with (crc_after (crc32_calc x crc) a). do 3 f_equal. lia.
Qed.

Lemma crc_after_range crc bodies : 0 <= crc < 2 ^ 32 -> 0 <= crc_after crc bodies < 2 ^ 32.
Proof.
  revert crc; induction bodies as [|b bs IH]; intros crc H; [done|]. cbn. by apply IH, crc32_calc_range.
Qed.

Lemma crc_after_app crc a b : crc_after crc (a ++ b) = crc_after (crc_after crc a) b.
Proof. apply fold_left_app. Qed.

Lemma length_group_wire crc lo o gs : Z.of_nat (length (bodies_wire crc lo (group_bodies o gs))) = groups_size gs.
Proof.
  revert crc lo o; induction gs as [|ms gs IH]; intros crc lo o; [done|].
  cbn [group_bodies bodies_wire groups_size]. rewrite length_app, Nat2Z.inj_add, length_block_wire, IH, length_entries_wire.
  done.
Qed.

(** *** What is written *)

Lemma body_crc_loop rest crc :
  0 <= crc < 2 ^ 32 ->
  fold_left (fun c blk => i32 (crc32_calc blk (u32 c))) rest (i32 crc) = i32 (crc32_calc (concat rest) crc).
Proof.
  revert crc; induction rest as [|b rest IH]; intros crc Hc; cbn [fold_left concat].
  - unfold crc32_calc. by rewrite compute_nil.
  - rewrite u32_i32, IH, crc32_calc_app by (done || by apply crc32_calc_range). done.
Qed.

(** A block that was not committed yet, with whatever body. *)
Lemma commit_block_raw fs crc o b rest :
  lb_start_offset b = o -> lb_data b = header_bytes new_log_block_header :: rest ->
  lb_size b = sizeof_log_block_header + Z.of_nat (length (concat rest)) -> 0 <= crc < 2 ^ 32 ->
  commit_block fs crc b = Ret (crc32_calc (concat rest) crc,
    LogBlockObj (header_bytes (block_header crc (o - fs) (concat rest)) :: rest) (lb_size b) (lb_start_offset b)).
Proof.
  intros Eo Ed Es Hc. unfold commit_block, front. rewrite Ed. cbn [obind tail]. rewrite header_of_header_bytes.
  change (u32 (magic _) =? MAGIC) with true. cbn [CHECK].
  rewrite body_crc_loop by done. unfold block_header. rewrite Es, Eo.
  rewrite u32_i32 by (by apply crc32_calc_range).
  by replace (sizeof_log_block_header + Z.of_nat (length (concat rest)) - sizeof_log_block_header)
    with (Z.of_nat (length (concat rest))) by lia.
Qed.

Lemma commit_block_rep fs crc o ms b :
  block_rep o ms b -> 0 <= crc < 2 ^ 32 ->
  let body := entries_wire (o + sizeof_log_block_header) ms in
  exists rest, concat rest = body /\ length (lb_data b) = S (length rest) /\
    commit_block fs crc b = Ret (crc32_calc body crc,
      LogBlockObj (header_bytes (block_header crc (o - fs) body) :: rest) (lb_size b) (lb_start_offset b)).
Proof.
  intros [Eo (rest & Ed & Ec) Es] Hc. cbv zeta. exists rest. split; [done|]. rewrite Ed. split; [done|].
  rewrite <- Ec. apply commit_block_raw; [done|done| |done]. rewrite Ec, length_entries_wire. done.
Qed.

Lemma commit_all_rep fs crc o gs bs :
  blocks_rep o gs bs -> 0 <= crc < 2 ^ 32 ->
  exists bs', commit_all fs crc bs = Ret (crc_after crc (group_bodies o gs), bs') /\
    concat (concat (map lb_data bs')) = bodies_wire crc (o - fs) (group_bodies o gs) /\
    Z.of_nat (length (concat (map lb_data bs'))) = sum_blobs bs.
Proof.
  revert crc o bs; induction gs as [|ms gs IH]; intros crc o [|b bs] H Hc; try done.
  - by exists [].
  - destruct H as [Hb Hbs]. destruct (commit_block_rep fs crc o ms b Hb Hc) as (rest & Er & El & E).
    set (body := entries_wire _ _) in *. cbn [commit_all]. rewrite E. cbn [obind].
    destruct (IH (crc32_calc body crc) _ _ Hbs) as (bs' & -> & Ew & Es); [by apply crc32_calc_range|].
    cbn [obind]. eexists. split; [reflexivity|]. cbn [map lb_data concat group_bodies bodies_wire].
    fold body. split.
    + rewrite concat_app. cbn [concat]. rewrite Er, Ew. unfold block_wire. do 3 f_equal.
      unfold group_size. subst body. rewrite length_entries_wire. lia.
    + rewrite length_app, Nat2Z.inj_add, Es. unfold sum_blobs. cbn [sum_list_with length]. lia.
Qed.

(** The bytes of a commit continue the file, whatever the blocks. *)
Lemma commit_log_blocks_rep o gs a lf :
  appender_rep o gs a -> lf_is_read lf = false -> lf_handle lf = true -> 0 <= lf_crc32 lf < 2 ^ 32 ->
  0 <= o - lf_start_offset lf < 2 ^ 64 ->
  commit_log_blocks a lf =
    Ret (Some (o - lf_start_offset lf, bodies_wire (lf_crc32 lf) (o - lf_start_offset lf) (group_bodies o gs)),
         with_end_offset (lf_end_offset lf + groups_size gs)
           (with_crc (crc_after (lf_crc32 lf) (group_bodies o gs)) lf)).
Proof.
  intros Ha Hr Hh Hc Ho. unfold commit_log_blocks. rewrite Hr. cbn [CHECK negb].
  rewrite (appender_size_rep _ _ _ Ha). cbn [obind].
  pose proof (appender_pos _ _ _ Ha) as Hpos.
  rewrite (proj2 (Z.gtb_lt _ _)), Hh by lia. cbn [CHECK negb].
  rewrite (blob_count_rep _ _ _ Ha). cbn [obind].
  destruct (commit_all_rep (lf_start_offset lf) (lf_crc32 lf) _ _ _ (ar_blocks _ _ _ Ha) Hc) as (bs & -> & Ew & Es).
  cbn [obind]. rewrite Es. destruct (Z.gtb_spec (sum_blobs (blocks a)) (sum_blobs (blocks a))); [lia|].
  rewrite (appender_start_rep _ _ _ Ha). cbn [obind]. by rewrite Ew, uwrap_small.
Qed.

(** A single block, as a file header is written. *)
Lemma commit_log_block_raw o body lf :
  lf_is_read lf = false -> lf_handle lf = true -> 0 <= lf_crc32 lf < 2 ^ 32 -> 0 <= o - lf_start_offset lf < 2 ^ 64 ->
  commit_log_block (add body (new_log_block 0)) o lf =
    Ret (Some (o - lf_start_offset lf, block_wire (lf_crc32 lf) (o - lf_start_offset lf) body),
         with_end_offset (lf_end_offset lf + (sizeof_log_block_header + Z.of_nat (length body)))
           (with_crc (crc32_calc body (lf_crc32 lf)) lf)).
Proof.
  intros Hr Hh Hc Ho. unfold commit_log_block, commit_log_blocks. rewrite Hr. cbn [CHECK negb].
  set (b := add body (new_log_block 0)).
  assert (lb_data b = [header_bytes new_log_block_header; body]) as Ed.
  { unfold b, new_log_block, init. by rewrite header_written. }
  assert (lb_size b = sizeof_log_block_header + Z.of_nat (length body)) as Es.
  { unfold b, new_log_block, init. by rewrite header_written. }
  assert (appender_size (appender_of_block o b) = Ret (lb_size b)) as -> by done. cbn [obind].
  rewrite (proj2 (Z.gtb_lt _ _)), Hh by (rewrite Es; unfold sizeof_log_block_header; lia). cbn [CHECK negb].
  assert (blob_count (appender_of_block o b) = Ret 2) as ->.
  { unfold blob_count, back, appender_of_block. cbn [blocks last deref obind lb_data]. by rewrite Ed. }
  cbn [obind blocks appender_of_block commit_all].
  rewrite (commit_block_raw _ _ o _ [body]); [|done|exact Ed| |done].
  2:{ cbn [lb_size concat]. by rewrite app_nil_r. }
  cbn [obind map lb_data concat app length Z.of_nat]. rewrite app_nil_r.
  change (Z.pos (Pos.of_succ_nat 1) >? 2) with false. cbn [obind].
  assert (appender_start_offset (appender_of_block o b) = Ret o) as -> by done. cbn [obind].
  by rewrite uwrap_small, Es by done.
Qed.

(** *** The file header *)

Definition info_ok (kv : gpid * replica_log_info) : Prop :=
  int32_ok (app_id kv.1) /\ int32_ok (partition_index kv.1) /\
  int64_ok (max_decree kv.2) /\ int64_ok (valid_start_offset kv.2).

Definition info_wire (kv : gpid * replica_log_info) : blob := gpid_bytes kv.1 ++ log_info_bytes kv.2.

Section FileHeader.
Context (iteration : replica_log_info_map -> list (gpid * replica_log_info)).
Context (iteration_ok : forall m, iteration m ≡ₚ map_to_list m).

Definition file_header_wire (start : Z) (ds : replica_log_info_map) : blob :=
  file_header_bytes (LogFileHeader (i32 MAGIC) 1 start) ++ le_bytes 4 (Z.of_nat (size ds))
  ++ concat (map info_wire (iteration ds)).

Definition infos_ok (ds : replica_log_info_map) : Prop :=
  Forall info_ok (map_to_list ds) /\ Z.of_nat (size ds) <= 2 ^ 20.

Lemma write_infos_rep l w bs :
  rep w bs ->
  rep (fold_left (fun w kv => write (log_info_bytes (snd kv)) (write (gpid_bytes (fst kv)) w)) l w)
    (bs ++ concat (map info_wire l)).
Proof.
  revert w bs; induction l as [|kv l IH]; intros w bs H; cbn [fold_left map concat].
  - by rewrite app_nil_r.
  - unfold info_wire at 1. rewrite !app_assoc. by apply IH, write_rep, write_rep.
Qed.

Lemma read_infos_wire l rest ds :
  Forall info_ok l ->
  read_log_infos (length l) (BinaryReader (concat (map info_wire l) ++ rest)) ds
  = Ret (foldl (fun ds kv => <[kv.1 := kv.2]> ds) ds l, BinaryReader rest).
Proof.
  revert ds; induction l as [|[g i] l IH]; intros ds HF; [done|]. apply Forall_cons in HF as [(H1 & H2 & H3 & H4) HF].
  unfold int32_ok, int64_ok in *. cbn in H1, H2, H3, H4. cbn [length read_log_infos map concat foldl fst snd].
  unfold info_wire at 1, gpid_bytes. rewrite <- !app_assoc. cbn [fst snd].
  rewrite read_pod_le by apply gpid_value_range. cbn [obind]. rewrite gpid_value_roundtrip by done.
  rewrite app_assoc. change 16 with (Z.of_nat (length (log_info_bytes i))) at 1. rewrite <- app_assoc, read_blob_app.
  cbn [obind]. rewrite IH by done. do 3 f_equal.
  assert (log_info_of_bytes (log_info_bytes i) = i) as ->; [|done].
  transitivity (ReplicaLogInfo (i64 (le_val (le_bytes 8 (max_decree i)))) (i64 (le_val (le_bytes 8 (valid_start_offset i))))); [done|].
  rewrite !le_val_le_bytes. change (8 * Z.of_nat 8) with 64. rewrite !swrap_mod, !swrap_small by (cbn; lia). by destruct i.
Qed.

Lemma foldl_insert_union (l : list (gpid * replica_log_info)) (ds : replica_log_info_map) :
  NoDup l.*1 -> foldl (fun ds kv => <[kv.1 := kv.2]> ds) ds l = list_to_map l ∪ ds.
Proof.
  revert ds; induction l as [|[g i] l IH]; intros ds Hnd; cbn [foldl].
  - by rewrite left_id_L by apply _.
  - cbn in Hnd. apply NoDup_cons in Hnd as [Hn Hnd]. rewrite IH by done. cbn [fst snd list_to_map foldr].
    rewrite <- insert_union_r, insert_union_l; [done|]. by apply not_elem_of_list_to_map.
Qed.

Lemma iteration_length ds : length (iteration ds) = size ds.
Proof using iteration_ok. by rewrite (Permutation_length (iteration_ok ds)), length_map_to_list. Qed.

Lemma iteration_map ds : list_to_map (iteration ds) = ds.
Proof using iteration_ok.
  rewrite (list_to_map_proper (iteration ds) (map_to_list ds)); [apply list_to_map_to_list| |apply iteration_ok].
  rewrite (iteration_ok ds). apply NoDup_fst_map_to_list.
Qed.

Lemma length_file_header_wire ds start :
  Z.of_nat (length (file_header_wire start ds)) = 20 + 24 * Z.of_nat (size ds).
Proof using iteration_ok.
  unfold file_header_wire, file_header_bytes.
  assert (forall l, length (concat (map info_wire l)) = (24 * length l)%nat) as El.
  { induction l as [|kv l IH]; [done|]. cbn [map concat]. rewrite length_app, IH.
    change (length (info_wire kv)) with 24%nat. cbn [length]. lia. }
  rewrite !length_app, !length_le_bytes, El, iteration_length. lia.
Qed.

Lemma file_header_size lf ds start :
  previous_log_max_decrees lf = ds -> infos_ok ds ->
  get_file_header_size lf = Z.of_nat (length (file_header_wire start ds)).
Proof using iteration_ok.
  intros E [_ Hsz]. rewrite length_file_header_wire. unfold get_file_header_size, sizeof_log_file_header. rewrite E.
  rewrite (swrap_small 32 (Z.of_nat (size ds))), swrap_small by (cbn; lia). lia.
Qed.

Lemma write_file_header_rep ds lf :
  infos_ok ds ->
  let '(len, w, lf') := write_file_header iteration (new_binary_writer 0) ds lf in
  fst (get_buffer w) = file_header_wire (lf_start_offset lf) ds /\
  len = Z.of_nat (length (file_header_wire (lf_start_offset lf) ds)) /\
  lf' = with_file_header (LogFileHeader (i32 MAGIC) 1 (lf_start_offset lf)) ds lf.
Proof using iteration_ok.
  intros Hok. unfold write_file_header. split_and!; [|by apply file_header_size|done].
  destruct Hok as [_ Hsz]. rewrite swrap_small by (cbn; lia).
  apply get_buffer_rep. unfold file_header_wire. rewrite !app_assoc.
  apply write_infos_rep. unfold write_pod. apply write_rep. apply (write_rep _ []), rep_new.
Qed.

(** Read into an empty table, or into one that was read from the same header. *)
Lemma read_file_header_wire start ds lf rest :
  int64_ok start -> infos_ok ds -> previous_log_max_decrees lf = ∅ \/ previous_log_max_decrees lf = ds ->
  read_file_header (BinaryReader (file_header_wire start ds ++ rest)) lf =
    Ret (Z.of_nat (length (file_header_wire start ds)), BinaryReader rest,
         with_file_header (LogFileHeader (i32 MAGIC) 1 start) ds lf).
Proof using iteration_ok.
  intros Hs Hok Hds. pose proof Hok as [HF Hsz]. unfold read_file_header, file_header_wire at 1. rewrite <- !app_assoc.
  change sizeof_log_file_header with (Z.of_nat (length (file_header_bytes (LogFileHeader (i32 MAGIC) 1 start)))).
  rewrite read_blob_app. cbn [obind]. rewrite read_int_le by (cbn; lia). cbn [obind].
  rewrite Nat2Z.id, <- iteration_length, read_infos_wire by (by rewrite iteration_ok). cbn [obind].
  rewrite foldl_insert_union, iteration_map by (rewrite iteration_ok; apply NoDup_fst_map_to_list).
  assert (ds ∪ previous_log_max_decrees lf = ds) as ->.
  { destruct Hds as [-> | ->]; [by rewrite right_id_L by apply _|by rewrite idemp_L by apply _]. }
  assert (file_header_of_bytes (file_header_bytes (LogFileHeader (i32 MAGIC) 1 start)) = LogFileHeader (i32 MAGIC) 1 start) as ->.
  { transitivity (LogFileHeader (i32 MAGIC) 1 (i64 (le_val (le_bytes 8 start)))); [done|].
    rewrite le_val_le_bytes. change (8 * Z.of_nat 8) with 64. unfold int64_ok in Hs.
    by rewrite (swrap_mod 64), (swrap_small 64 start) by (cbn; lia). }
  by rewrite (file_header_size _ ds start) by done.
Qed.

Lemma right_header start ds lf :
  lf_start_offset lf = start -> is_right_header (with_file_header (LogFileHeader (i32 MAGIC) 1 start) ds lf) = true.
Proof. intros <-. unfold is_right_header. apply andb_true_intro. split; [done|apply Z.eqb_refl]. Qed.

End FileHeader.

(** *** What is read *)

Section ReadingTheory.
Context (Read : path -> Z -> Z -> option blob) (p : path) (f : blob) (Hf : reads (Read p) f).

(** The file [f], open for reading, with [r] still to be read. *)
Record reading (r : blob) (lf : log_file) : Prop := Reading {
  rd_read : lf_is_read lf = true;
  rd_path : lf_path lf = p;
  rd_stream : exists s, lf_stream lf = Some s /\ streams f s /\ primed (current_buffer s) = true /\ rest f s = r
}.

Lemma reset_stream_spec o lf :
  lf_is_read lf = true -> lf_path lf = p ->
  lf_stream lf = None \/ (exists r, reading r lf) -> 0 <= o ->
  exists s, reset_stream Read o lf = Ret (with_stream (Some s) (if o =? 0 then with_crc 0 lf else lf)) /\
    reading (from f o) (with_stream (Some s) (if o =? 0 then with_crc 0 lf else lf)).
Proof using Hf.
  intros Hr Hp Hs Ho. unfold reset_stream.
  assert (exists s, match lf_stream lf with
    | None => new_file_streamer o | Some s => reset (Read (lf_path lf)) o s end = Ret s /\
    streams f s /\ primed (current_buffer s) = true /\ rest f s = from f o) as (s & -> & H1 & H2 & H3).
  { destruct Hs as [->|(r & [_ _ (s & -> & Hs & _)])]; [by apply new_streamer_spec|]. rewrite Hp. by apply reset_spec. }
  cbn [obind]. exists s. split; [by destruct (o =? 0)|]. destruct (o =? 0); (split; [done|done|by exists s]).
Qed.

Lemma read_next_log_block_whole lf crc lo body tl :
  reading (block_wire crc lo body ++ tl) lf -> lf_crc32 lf = crc -> 0 <= crc < 2 ^ 32 ->
  0 < Z.of_nat (length body) <= INT32_MAX ->
  exists s', read_next_log_block Read lf =
      Ret (ERR_OK, body, with_crc (crc32_calc body crc) (with_stream (Some s') lf)) /\
    reading tl (with_crc (crc32_calc body crc) (with_stream (Some s') lf)).
Proof using Hf.
  intros [Hr Hp (s & Es & Hs & Hpr & Er)] Ec Hc Hlen. unfold INT32_MAX in Hlen.
  unfold read_next_log_block. rewrite Hr, Es, Hp. cbn [CHECK deref obind].
  set (hb := header_bytes (block_header crc lo body)) in *.
  assert (Z.of_nat (length (rest f s)) = 16 + Z.of_nat (length body) + Z.of_nat (length tl)) as El.
  { rewrite Er, length_app, Nat2Z.inj_add, length_block_wire. done. }
  destruct (read_next_spec _ _ Hf sizeof_log_block_header s Hs Hpr ltac:(done)) as (err & bb & s1 & E1 & Ebb & Hres).
  rewrite E1. cbn [obind]. rewrite decide_False in Hres by (intros E; rewrite E in El; cbn in El; lia).
  rewrite (proj2 (Z.leb_le _ _)) in Hres by (unfold sizeof_log_block_header; lia). destruct Hres as (-> & Hs1 & Hp1 & Er1).
  rewrite Er in Ebb, Er1. unfold block_wire in Ebb, Er1. fold hb in Ebb, Er1.
  change (Z.to_nat sizeof_log_block_header) with (length hb) in Ebb, Er1.
  rewrite <- app_assoc, take_app_length in Ebb. rewrite <- app_assoc, drop_app_length in Er1. subst bb.
  change (Z.of_nat (length hb) =? sizeof_log_block_header) with true. change (negb (is_ok ERR_OK) || negb true) with false.
  cbv iota beta zeta. unfold hb. rewrite header_of_header_bytes.
  change (u32 (magic _) =? MAGIC) with true. cbn [negb body_length body_crc block_header].
  rewrite !(swrap_small 32 (Z.of_nat (length body))), (uwrap_small 64) by (cbn; lia).
  destruct (read_next_spec _ _ Hf (Z.of_nat (length body)) s1 Hs1 Hp1 ltac:(unfold INT32_MAX; lia)) as (err & bb & s2 & E2 & Ebb & Hres).
  change (lf_path (with_stream (Some s1) lf)) with (lf_path lf). rewrite Hp, E2. cbn [obind]. rewrite Er1 in Ebb, Hres. rewrite decide_False in Hres by (intros E%(f_equal length); rewrite length_app in E; cbn in E; lia).
  rewrite (proj2 (Z.leb_le _ _)) in Hres by (rewrite length_app; lia). destruct Hres as (-> & Hs2 & Hp2 & Er2).
  rewrite Nat2Z.id, take_app_length in Ebb. rewrite Nat2Z.id, drop_app_length in Er2. subst bb.
  rewrite (uwrap_small 32), Z.eqb_refl by lia. change (negb (is_ok ERR_OK) || negb true) with false. cbv iota.
  change (lf_crc32 (with_stream _ (with_stream _ lf))) with (lf_crc32 lf). rewrite Ec.
  pose proof (crc32_calc_range body crc Hc) as Hcr.
  rewrite swrap_swrap, u32_i32, Z.eqb_refl by done. cbn [negb].
  exists s2. split; [done|]. split; [done|done|by exists s2].
Qed.

(** A block of which only a part is there ends the file. *)
Lemma read_next_log_block_torn lf crc lo body n :
  reading (take n (block_wire crc lo body)) lf -> (n < length (block_wire crc lo body))%nat ->
  0 <= crc < 2 ^ 32 -> Z.of_nat (length body) <= INT32_MAX ->
  exists bb st, read_next_log_block Read lf =
    Ret (if (n =? 0)%nat then ERR_HANDLE_EOF else ERR_INCOMPLETE_DATA, bb, with_stream st lf).
Proof using Hf.
  intros [Hr Hp (s & Es & Hs & Hpr & Er)] Hn Hc Hlen. unfold INT32_MAX in Hlen.
  pose proof (length_block_wire crc lo body) as Lw. unfold sizeof_log_block_header in Lw.
  unfold read_next_log_block. rewrite Hr, Es, Hp. cbn [CHECK deref obind].
  destruct (read_next_spec _ _ Hf sizeof_log_block_header s Hs Hpr ltac:(done)) as (err & bb & s1 & E1 & Ebb & Hres).
  rewrite E1. cbn [obind]. rewrite Er in Ebb, Hres. rewrite take_take in Ebb. change (Z.to_nat sizeof_log_block_header) with 16%nat in Ebb.
  destruct (Nat.ltb_spec n 16) as [Hsmall|Hbig].
  - rewrite Nat.min_r in Ebb by lia. assert (length bb = n) as Lb by (rewrite Ebb, length_take; lia).
    assert (err = ERR_OK \/ err = ERR_HANDLE_EOF) as Herr.
    { case_decide; [by right|]. destruct (Z.leb_spec sizeof_log_block_header (Z.of_nat (length (take n (block_wire crc lo body))))) as [Hle|];
        [|done]. rewrite length_take in Hle. unfold sizeof_log_block_header in Hle. lia. }
    rewrite Lb. unfold sizeof_log_block_header. destruct (Z.eqb_spec (Z.of_nat n) 16); [lia|]. rewrite orb_true_r.
    do 2 eexists. by destruct Herr as [-> | ->].
  - rewrite decide_False in Hres by (intros E%(f_equal length); rewrite length_take in E; cbn in E; lia).
    rewrite (proj2 (Z.leb_le _ _)) in Hres by (rewrite length_take; unfold sizeof_log_block_header; lia).
    destruct Hres as (-> & Hs1 & Hp1 & Er1). rewrite Nat.min_l in Ebb by lia.
    unfold block_wire in Ebb, Er1. set (hb := header_bytes (block_header crc lo body)) in *.
    change 16%nat with (length hb) in Ebb. rewrite take_app_length in Ebb. subst bb.
    change (Z.to_nat sizeof_log_block_header) with (length hb) in Er1. rewrite skipn_firstn_comm, drop_app_length in Er1.
    change (Z.of_nat (length hb) =? sizeof_log_block_header) with true. change (negb (is_ok ERR_OK) || negb true) with false.
    cbv iota beta zeta. unfold hb. rewrite header_of_header_bytes.
    change (u32 (magic _) =? MAGIC) with true. cbn [negb body_length body_crc block_header].
    rewrite !(swrap_small 32 (Z.of_nat (length body))), (uwrap_small 64) by (cbn; lia).
    destruct (read_next_spec _ _ Hf (Z.of_nat (length body)) s1 Hs1 Hp1 ltac:(unfold INT32_MAX; lia)) as (err & bb & s2 & E2 & Ebb & Hres).
    change (lf_path (with_stream (Some s1) lf)) with (lf_path lf). rewrite Hp, E2. cbn [obind].
    change (length hb) with 16%nat in Er1. assert (length (rest f s1) = (n - 16)%nat) as L1 by (rewrite Er1, length_take; lia).
    assert (length bb = (n - 16)%nat) as Lb by (rewrite Ebb, length_take; lia).
    assert (err = ERR_OK \/ err = ERR_HANDLE_EOF) as Herr.
    { case_decide; [by right|]. destruct (Z.leb_spec (Z.of_nat (length body)) (Z.of_nat (length (rest f s1)))); [lia|done]. }
    rewrite Lb, (uwrap_small 32) by lia. destruct (Z.eqb_spec (Z.of_nat (length body)) (Z.of_nat (n - 16))); [lia|]. rewrite orb_true_r.
    destruct (Nat.eqb_spec n 0); [lia|]. do 2 eexists. by destruct Herr as [-> | ->].
Qed.

End ReadingTheory.

End LogFile.
