(* ===== verification/LogReplay.v ===== *)
(** * Replaying a log

    Model of [src/replica/mutation_log_replay.cpp] and [mutation_log_utils.cpp]: the blocks
    of a log file are read one after the other, their mutations are handed to a callback,
    and a file that ends in an incomplete block is given up there.  The files of a log are
    replayed in the order of their indices, which must have no gap, each from the position
    the one before it ended at.

    A callback only sees the mutations; what it was called with is returned as a list. *)
From stdpp Require Import sorting.
From S2P Require Import Prelude Endians BinaryIO Mutation Crc StringConv Strings FileStreamer LogBlock LogFile.

Module LogReplay.
Import BinaryIO Mutation Crc FileStreamer LogBlock LogFile.

(** [std::map<int, log_file_ptr>]: in the order of the keys. *)
Abbreviation log_file_map_by_index := (list (Z * log_file)).

Fixpoint map_put {A : Type} (k : Z) (v : A) (l : list (Z * A)) : list (Z * A) :=
  match l with
  | [] => [(k, v)]
  | (k', v') :: t =>
      if k <? k' then (k, v) :: l else if k =? k' then (k, v) :: t else (k', v') :: map_put k v t
  end.

Fixpoint map_find {A : Type} (k : Z) (l : list (Z * A)) : option A :=
  match l with
  | [] => None
  | (k', v) :: t => if k =? k' then Some v else map_find k t
  end.

(** [check_log_files_continuity(logs)]: [++last_file_index != kv.first]. *)
Fixpoint indices_follow {A : Type} (last_file_index : Z) (logs : list (Z * A)) : bool :=
  match logs with
  | [] => true
  | (k, _) :: logs => (last_file_index + 1 =? k) && indices_follow (last_file_index + 1) logs
  end.

Definition check_log_files_continuity {A : Type} (logs : list (Z * A)) : outcome error_code :=
  match logs with
  | [] => Ret ERR_OK
  | (k, _) :: _ =>
      if k =? - 2 ^ 31 then Undef
      else Ret (if indices_follow (k - 1) logs then ERR_OK else ERR_OBJECT_NOT_FOUND)
  end.

Section Replay.
Context (path_exists : path -> bool) (file_open : path -> bool) (file_size : path -> option Z)
  (file_close : path -> bool) (Read : path -> Z -> Z -> option blob).
Context (registered : task_code -> bool) (hdr_size : Z).

(** What the callback was called with: the length of the entry and the mutation. *)
Abbreviation replayed_entries := (list (Z * mutation)).

Definition read_block (lf : log_file) (start_offset : Z) : outcome (error_code * Z * binary_reader * log_file) :=
  let* lf := reset_stream Read start_offset lf in
  let global_start_offset := start_offset + lf_start_offset lf in
  let* (err, bb, lf) := read_next_log_block Read lf in
  if negb (is_ok err) then Ret (err, global_start_offset, BinaryReader [], lf)
  else
    let r := BinaryReader bb in
    let end_offset := global_start_offset + sizeof_log_block_header in
    if global_start_offset =? lf_start_offset lf then
      let* (n, r, lf) := read_file_header r lf in
      let end_offset := end_offset + n in
      if negb (is_right_header lf) then Ret (ERR_INVALID_DATA, end_offset, r, lf)
      else Ret (ERR_OK, end_offset, r, lf)
    else Ret (ERR_OK, end_offset, r, lf).

(** [while (!reader->is_eof())]; every mutation takes bytes from the reader. *)
Fixpoint replay_mutations (fuel : nat) (r : binary_reader) (end_offset : Z)
  : outcome (error_code * Z * replayed_entries) :=
  if is_eof r then Ret (ERR_OK, end_offset, [])
  else match fuel with
       | O => Undef
       | S fuel =>
           let old_size := Z.of_nat (length (br_rest r)) in
           let* (mu, r) := read_from registered hdr_size None r in
           let* mu := set_logged mu in
           if negb (log_offset (header mu) =? end_offset) then Ret (ERR_INVALID_DATA, end_offset, [])
           else
             let log_length := i32 (old_size - Z.of_nat (length (br_rest r))) in
             let* (err, end_offset, l) := replay_mutations fuel r (end_offset + log_length) in
             Ret (err, end_offset, (log_length, mu) :: l)
       end.

Definition replay_block (lf : log_file) (start_offset : Z)
  : outcome (error_code * Z * replayed_entries * log_file) :=
  let* (err, end_offset, r, lf) := read_block lf start_offset in
  if negb (is_ok err) then Ret (err, end_offset, [], lf)
  else
    let* (err, end_offset, l) := replay_mutations (length (br_rest r)) r end_offset in
    Ret (err, end_offset, l, lf).

(** [while (true)]: a block is at least its header, so that a file of [n] bytes has no more
    than [n / 16] of them. *)
Fixpoint replay_blocks (fuel : nat) (lf : log_file) (start_offset : Z)
  : outcome (error_code * Z * replayed_entries * log_file) :=
  match fuel with
  | O => Undef
  | S fuel =>
      let* (err, end_offset, l, lf) := replay_block lf start_offset in
      if negb (is_ok err) then Ret (err, end_offset, l, lf)
      else
        let* (err, end_offset, l', lf) := replay_blocks fuel lf (u64 (end_offset - lf_start_offset lf)) in
        Ret (err, end_offset, l ++ l', lf)
  end.

(** [replay(log, callback, end_offset)]. *)
Definition replay_file (fuel : nat) (lf : log_file) : outcome (error_code * Z * replayed_entries * log_file) :=
  let* lf := reset_stream Read 0 lf in replay_blocks fuel lf 0.

(** The loop of [replay(logs, callback, end_offset)]; the boolean is a [return] from it.
    The files are shared with the caller, who sees them closed. *)
Fixpoint replay_each (fuel : nat) (logs : log_file_map_by_index) (err : error_code) (end_offset : Z)
  : outcome (error_code * bool * Z * replayed_entries * log_file_map_by_index) :=
  match logs with
  | [] => Ret (err, false, end_offset, [], [])
  | (k, lf) :: logs' =>
      if negb (lf_start_offset lf =? end_offset) then Ret (ERR_INVALID_DATA, true, end_offset, [], logs)
      else
        let* (err, end_offset, l, lf) := replay_file fuel lf in
        let* lf := close file_close lf in
        if ended err || bool_decide (err = ERR_INCOMPLETE_DATA) then
          let* (err, early, end_offset, l', logs') := replay_each fuel logs' err end_offset in
          Ret (err, early, end_offset, l ++ l', (k, lf) :: logs')
        else Ret (err, false, end_offset, l, (k, lf) :: logs')
  end.

Definition replay_logs (fuel : nat) (logs : log_file_map_by_index) (end_offset : Z)
  : outcome (error_code * Z * replayed_entries * log_file_map_by_index) :=
  let g_start_offset := from_option (fun kv => lf_start_offset (snd kv)) 0 (head logs) in
  let g_end_offset := from_option (fun kv => lf_end_offset (snd kv)) 0 (last logs) in
  let* error := check_log_files_continuity logs in
  if negb (is_ok error) then Ret (error, end_offset, [], logs)
  else
    let* (err, early, end_offset, l, logs) := replay_each fuel logs ERR_OK g_start_offset in
    if early : bool then Ret (err, end_offset, l, logs)
    else if ended err then CHECK (g_end_offset <=? end_offset) (Ret (ERR_OK, end_offset, l, logs))
    else if bool_decide (err = ERR_INCOMPLETE_DATA) then Ret (ERR_OK, end_offset, l, logs)
    else Ret (err, end_offset, l, logs).

(** The files of a directory, opened; a file that has no first block is left out.  The first
    component is the error to return at once, the last one the files renamed. *)
Fixpoint open_files (paths : list path) (logs : log_file_map_by_index)
  : outcome (option error_code * log_file_map_by_index * list path) :=
  match paths with
  | [] => Ret (None, logs, [])
  | p :: paths =>
      let* (err, log, removed) := open_read file_open file_size Read p in
      let keep := if removed : bool then [p] else [] in
      match log with
      | None =>
          if bool_decide (err ∈ [ERR_HANDLE_EOF; ERR_INCOMPLETE_DATA; ERR_INVALID_PARAMETERS]) then
            let* (stop, logs, removed) := open_files paths logs in Ret (stop, logs, keep ++ removed)
          else Ret (Some err, logs, keep)
      | Some lf =>
          match map_find (lf_index lf) logs with
          | Some _ => Abort
          | None =>
              let* (stop, logs, removed) := open_files paths (map_put (lf_index lf) lf logs) in
              Ret (stop, logs, keep ++ removed)
          end
      end
  end.

(** [replay(log_files, callback, end_offset)]. *)
Definition replay_log_files (fuel : nat) (paths : list path) (end_offset : Z)
  : outcome (error_code * Z * replayed_entries * list path) :=
  let* (stop, logs, removed) := open_files paths [] in
  match stop with
  | Some err => Ret (err, end_offset, [], removed)
  | None =>
      let* (err, end_offset, l, _) := replay_logs fuel logs end_offset in Ret (err, end_offset, l, removed)
  end.
End Replay.

(** ** Replaying what was written *)

Section Theory.
Context (registered : task_code -> bool) (hdr_size : Z) (g : gpid).

(** A mutation of the partition [g] that can be logged and read back. *)
Definition loggable (m : mutation) : Prop :=
  pid (header m) = g /\ mutation_ok m /\ Forall (fun u => registered (code u) = true) (updates m) /\ wire_size m <= max_wire.

(** The mutation as it comes out of the log. *)
Definition from_log (m : mutation) : mutation :=
  with_flags false 0 0 false false (received hdr_size None (header m) (updates m)).

Definition entry (m : mutation) : Z * mutation := (wire_size m, from_log m).

Lemma replay_mutations_wire fuel o ms :
  (length ms <= fuel)%nat -> Forall loggable ms -> 0 <= o -> o + entries_size ms <= INT64_MAX ->
  replay_mutations registered hdr_size fuel (BinaryReader (entries_wire o ms)) o
  = Ret (ERR_OK, o + entries_size ms, map entry (place o ms)).
Proof.
  intros Hfuel HF. revert fuel o Hfuel. induction HF as [|m ms (_ & Hok & Hreg & Hw) HF IH]; intros fuel o Hfuel Ho Hlim.
  - destruct fuel; cbn; by rewrite Z.add_0_r.
  - destruct fuel as [|fuel]; [cbn in Hfuel; lia|]. rewrite entries_size_cons in *.
    pose proof (wire_size_pos m). pose proof (entries_size_nonneg ms). unfold INT64_MAX, max_wire in *.
    assert (entries_wire o (m :: ms) = mutation_wire (set_log_offset o m) ++ entries_wire (o + wire_size m) ms) as -> by done.
    set (mw := mutation_wire (set_log_offset o m)). set (tl := entries_wire _ ms).
    assert (Z.of_nat (length mw) = wire_size m) as Lmw by apply wire_size_offset.
    cbn [replay_mutations]. assert (is_eof (BinaryReader (mw ++ tl)) = false) as ->.
    { apply Nat.eqb_neq. cbn. rewrite length_app. lia. }
    subst mw. rewrite read_from_wire; [|apply mutation_ok_offset; [unfold int64_ok; lia|done]|done].
    cbn [obind]. unfold set_logged. cbn [CHECK negb is_logged not_logged received obind].
    cbn [header with_flags received log_offset set_log_offset with_header]. rewrite Z.eqb_refl. cbn [negb br_rest].
    rewrite length_app, Nat2Z.inj_add, Lmw. replace (wire_size m + Z.of_nat (length tl) - Z.of_nat (length tl)) with (wire_size m) by lia.
    rewrite swrap_small by (cbn; lia). subst tl. rewrite IH; [|cbn in Hfuel; lia|lia|lia].
    cbn [obind place map]. unfold entry at 2. rewrite wire_size_offset. do 3 f_equal. lia.
Qed.

Lemma replayed_fuel ms o : Forall loggable ms -> (length ms <= length (entries_wire o ms))%nat.
Proof.
  intros HF. pose proof (length_entries_wire o ms) as E. assert (Z.of_nat (length ms) <= entries_size ms); [|lia].
  clear E. induction HF as [|m ms _ HF IH]; [done|]. rewrite entries_size_cons. pose proof (wire_size_pos m). cbn [length]. lia.
Qed.
(** What an interrupted write leaves behind the last whole block: a part of a block, or
    nothing. *)
Definition torn (crc lo : Z) (t : blob) : Prop :=
  exists body n, Z.of_nat (length body) <= INT32_MAX /\ (n < length (block_wire crc lo body))%nat /\
    t = take n (block_wire crc lo body).

(** How the replay of a file ends. *)
Definition final_error (t : blob) : error_code :=
  if decide (t = []) then ERR_HANDLE_EOF else ERR_INCOMPLETE_DATA.

Lemma final_error_take n (l : blob) :
  (n < length l)%nat -> final_error (take n l) = if (n =? 0)%nat then ERR_HANDLE_EOF else ERR_INCOMPLETE_DATA.
Proof.
  intros Hn. unfold final_error. destruct (Nat.eqb_spec n 0) as [->|Hn0]; [done|].
  rewrite decide_False; [done|]. intros E%(f_equal length). rewrite length_take in E. cbn in E. lia.
Qed.

Definition group_loggable (ms : list mutation) : Prop := ms <> [] /\ group_fits ms /\ Forall loggable ms.

Lemma torn_nil crc lo : torn crc lo [].
Proof. exists [], 0%nat. split_and!; [done|cbn; lia|done]. Qed.

(** Whatever part of a sequence of blocks is there, it is a number of whole blocks and a torn
    one; blocks that were written completely are among the whole ones. *)
Lemma take_bodies n crc lo bodies :
  Forall (fun b => Z.of_nat (length b) <= INT32_MAX) bodies ->
  exists k t, take n (bodies_wire crc lo bodies) = bodies_wire crc lo (take k bodies) ++ t /\
    torn (crc_after crc (take k bodies)) (lo + Z.of_nat (length (bodies_wire crc lo (take k bodies)))) t /\
    (forall j, (j <= length bodies)%nat -> (length (bodies_wire crc lo (take j bodies)) <= n)%nat -> (j <= k)%nat).
Proof.
  intros HF. revert n crc lo. induction HF as [|b bs Hb HF IH]; intros n crc lo.
  - exists 0%nat, []. cbn. rewrite take_nil. split_and!; [done|apply torn_nil|lia].
  - destruct (Nat.ltb_spec n (length (block_wire crc lo b))) as [Hlt|Hge].
    + exists 0%nat, (take n (block_wire crc lo b)). cbn [take bodies_wire crc_after fold_left length app]. split_and!.
      * by rewrite take_app_le by lia.
      * rewrite Z.add_0_r. by exists b, n.
      * intros [|j] _ Hj; [lia|]. cbn [take bodies_wire] in Hj. rewrite length_app in Hj. lia.
    + destruct (IH (n - length (block_wire crc lo b))%nat (crc32_calc b crc)
        (lo + sizeof_log_block_header + Z.of_nat (length b))) as (k & t & E & Ht & Hmax).
      exists (S k), t. cbn [take bodies_wire]. split_and!.
      * rewrite take_app_ge, E, app_assoc by lia. done.
      * change (crc_after crc (b :: take k bs)) with (crc_after (crc32_calc b crc) (take k bs)).
        rewrite length_app, Nat2Z.inj_add, length_block_wire. rewrite <- !Z.add_assoc in Ht. by rewrite <- !Z.add_assoc.
      * intros [|j] Hj Hlen; [lia|]. cbn [take bodies_wire length] in *. rewrite length_app in Hlen.
        specialize (Hmax j ltac:(lia) ltac:(lia)). lia.
Qed.

Section OneFile.
Context (Read : path -> Z -> Z -> option blob) (p : path) (f : blob) (Hf : reads (Read p) f).

(** A file opened for reading. *)
Definition opened (lf : log_file) : Prop :=
  lf_is_read lf = true /\ lf_path lf = p /\ (lf_stream lf = None \/ exists r, reading p f r lf).

Lemma reading_opened r lf : reading p f r lf -> opened lf.
Proof. intros Hr. split_and!; [apply Hr|apply Hr|right; by exists r]. Qed.

Lemma group_body_bounds ms o : group_loggable ms -> 0 < Z.of_nat (length (entries_wire o ms)) <= INT32_MAX.
Proof.
  intros (Hne & Hfit & _). rewrite length_entries_wire. unfold group_fits, DEFAULT_MAX_BLOCK_BYTES, max_wire, INT32_MAX in *.
  destruct ms as [|m ms]; [done|]. rewrite entries_size_cons in *. pose proof (wire_size_pos m).
  pose proof (entries_size_nonneg ms). lia.
Qed.

Lemma replay_block_group lf lo ms tl :
  opened lf -> 0 < lo -> 0 <= lf_crc32 lf < 2 ^ 32 -> 0 <= lf_start_offset lf -> group_loggable ms ->
  let o := lf_start_offset lf + lo in
  let body := entries_wire (o + sizeof_log_block_header) ms in
  from f lo = block_wire (lf_crc32 lf) lo body ++ tl -> o + group_size ms <= INT64_MAX ->
  exists s, let lf' := with_crc (crc32_calc body (lf_crc32 lf)) (with_stream (Some s) lf) in
    replay_block Read registered hdr_size lf lo =
      Ret (ERR_OK, o + group_size ms, map entry (place (o + sizeof_log_block_header) ms), lf') /\ reading p f tl lf'.
Proof using Hf.
  intros (Hr & Hp & Hs) Hlo Hc Hst Hms o body Ef Hlim. unfold replay_block, read_block.
  destruct (reset_stream_spec Read p f Hf lo lf Hr Hp Hs ltac:(lia)) as (s1 & -> & Hrd). cbn [obind].
  destruct (Z.eqb_spec lo 0) as [|_]; [lia|]. rewrite Ef in Hrd.
  destruct (read_next_log_block_whole Read p f Hf _ _ lo body tl Hrd eq_refl Hc (group_body_bounds ms _ Hms)) as (s2 & -> & Hrd2).
  change (lf_crc32 (with_stream (Some s1) lf)) with (lf_crc32 lf) in *. ok_step.
  cbn [lf_start_offset with_stream with_crc]. destruct (Z.eqb_spec (lo + lf_start_offset lf) (lf_start_offset lf)); [lia|].
  ok_step. cbn [br_rest]. replace (lo + lf_start_offset lf + sizeof_log_block_header) with (o + sizeof_log_block_header) by lia.
  destruct Hms as (Hne & Hfit & Hlog). pose proof (entries_size_nonneg ms). unfold group_size in *.
  assert (0 < sizeof_log_block_header) by done. subst body.
  rewrite replay_mutations_wire; [|by apply replayed_fuel|done|lia|lia].
  cbn [obind]. exists s2. split; [|done]. do 4 f_equal. lia.
Qed.

Lemma replay_block_torn lf lo t :
  opened lf -> 0 < lo -> 0 <= lf_crc32 lf < 2 ^ 32 -> from f lo = t -> torn (lf_crc32 lf) lo t ->
  exists st, replay_block Read registered hdr_size lf lo =
    Ret (final_error t, lf_start_offset lf + lo, [], with_stream st lf).
Proof using Hf.
  intros (Hr & Hp & Hs) Hlo Hc Ef (body & n & Hb & Hn & ->). unfold replay_block, read_block.
  destruct (reset_stream_spec Read p f Hf lo lf Hr Hp Hs ltac:(lia)) as (s1 & -> & Hrd). cbn [obind].
  destruct (Z.eqb_spec lo 0) as [|_]; [lia|]. rewrite Ef in Hrd.
  destruct (read_next_log_block_torn Read p f Hf _ _ lo body n Hrd Hn Hc Hb) as (bb & st & ->). cbn [obind].
  exists st. cbn [lf_start_offset with_stream]. rewrite (Z.add_comm lo).
  rewrite final_error_take by done. by destruct (n =? 0)%nat.
Qed.

Lemma replay_blocks_groups fuel gs lf lo t :
  (length gs < fuel)%nat -> opened lf -> 0 < lo -> 0 <= lf_crc32 lf < 2 ^ 32 -> 0 <= lf_start_offset lf ->
  Forall group_loggable gs ->
  let o := lf_start_offset lf + lo in
  let bodies := group_bodies o gs in
  from f lo = bodies_wire (lf_crc32 lf) lo bodies ++ t ->
  torn (crc_after (lf_crc32 lf) bodies) (lo + groups_size gs) t -> o + groups_size gs <= INT64_MAX ->
  exists c s, replay_blocks Read registered hdr_size fuel lf lo =
    Ret (final_error t, o + groups_size gs, map entry (place_groups o gs), with_crc c (with_stream s lf)).
Proof using Hf.
  intros Hfuel Ho Hlo Hc Hst HF. revert fuel lf lo t Hfuel Ho Hlo Hc Hst.
  induction HF as [|ms gs Hms HF IH]; intros fuel lf lo t Hfuel Ho Hlo Hc Hst o bodies Ef Ht Hlim;
    (destruct fuel as [|fuel]; [cbn in Hfuel; lia|]); cbn [replay_blocks].
  - cbn [bodies bodies_wire group_bodies app groups_size crc_after fold_left place_groups map] in *. rewrite Z.add_0_r in *.
    destruct (replay_block_torn lf lo t Ho Hlo Hc Ef Ht) as (st & ->). cbn [obind].
    replace (negb (is_ok (final_error t))) with true by (unfold final_error; by case_decide).
    exists (lf_crc32 lf), st. by destruct lf.
  - cbn [bodies group_bodies bodies_wire groups_size place_groups map] in *. rewrite <- app_assoc in Ef.
    set (body := entries_wire _ ms) in *. pose proof (group_body_bounds ms (o + sizeof_log_block_header) Hms) as Hbb. fold body in Hbb.
    assert (0 <= groups_size gs) as Hgs by (rewrite <- (length_group_wire 0 0 0); lia).
    destruct (replay_block_group lf lo ms _ Ho Hlo Hc Hst Hms Ef ltac:(lia)) as (s & E & Hrd).
    rewrite E. ok_step. cbv zeta in Hrd. set (lf' := with_crc _ _) in *.
    change (lf_start_offset lf') with (lf_start_offset lf). fold o.
    assert (u64 (o + group_size ms - lf_start_offset lf) = lo + group_size ms) as ->.
    { pose proof (entries_size_nonneg ms). unfold group_size, INT64_MAX, sizeof_log_block_header in *.
      rewrite uwrap_small; subst o; lia. }
    pose proof (from_app f lo _ _ ltac:(lia) Ef) as Ef'. rewrite length_block_wire in Ef'. subst body.
    rewrite length_entries_wire in *. fold (group_size ms) in Ef'. set (body := entries_wire _ ms) in *.
    assert (lo + sizeof_log_block_header + entries_size ms = lo + group_size ms) as El by (unfold group_size; lia). rewrite El in *.
    destruct (IH fuel lf' (lo + group_size ms) t) as (c & st & E2).
    + cbn in Hfuel. lia.
    + by apply (reading_opened _ _ Hrd).
    + unfold group_size, sizeof_log_block_header in *. pose proof (entries_size_nonneg ms). lia.
    + by apply crc32_calc_range.
    + done.
    + change (lf_start_offset lf') with (lf_start_offset lf). rewrite Z.add_assoc. fold o. exact Ef'.
    + change (lf_start_offset lf') with (lf_start_offset lf). rewrite Z.add_assoc. fold o. rewrite <- Z.add_assoc. exact Ht.
    + change (lf_start_offset lf') with (lf_start_offset lf). lia.
    + rewrite E2. cbn [obind]. change (lf_start_offset lf') with (lf_start_offset lf). rewrite !Z.add_assoc. fold o.
      exists c, st. by rewrite map_app.
Qed.
End OneFile.

(** ** A log file as a whole *)

Section Segments.
Context (iteration : replica_log_info_map -> list (gpid * replica_log_info)).
Context (iteration_ok : forall m, iteration m ≡ₚ map_to_list m).

(** A file of the log: what its header says, the blocks behind it, and what an interrupted
    write may have left. *)
Record segment := Segment {
  sg_index : Z;
  sg_start : Z;
  sg_previous : replica_log_info_map;
  sg_groups : list (list mutation);
  sg_torn : blob
}.

Definition sg_header (sg : segment) : blob := file_header_wire iteration (sg_start sg) (sg_previous sg).
Definition sg_first (sg : segment) : Z := sizeof_log_block_header + Z.of_nat (length (sg_header sg)).
Definition sg_bodies (sg : segment) : list blob :=
  sg_header sg :: group_bodies (sg_start sg + sg_first sg) (sg_groups sg).
Definition sg_whole (sg : segment) : blob := bodies_wire 0 0 (sg_bodies sg).
Definition sg_wire (sg : segment) : blob := sg_whole sg ++ sg_torn sg.
Definition sg_end (sg : segment) : Z := sg_start sg + sg_first sg + groups_size (sg_groups sg).
Definition sg_mutations (sg : segment) : list mutation := place_groups (sg_start sg + sg_first sg) (sg_groups sg).

Record segment_ok (sg : segment) : Prop := SegmentOk {
  sgo_index : int32_ok (sg_index sg);
  sgo_start : 0 <= sg_start sg;
  sgo_previous : infos_ok (sg_previous sg);
  sgo_groups : Forall group_loggable (sg_groups sg);
  sgo_torn : torn (crc_after 0 (sg_bodies sg)) (sg_first sg + groups_size (sg_groups sg)) (sg_torn sg);
  sgo_end : sg_end sg <= INT64_MAX
}.

Lemma length_sg_header sg : segment_ok sg -> 0 < Z.of_nat (length (sg_header sg)) <= INT32_MAX.
Proof using iteration_ok.
  intros Hok. pose proof (sgo_previous _ Hok) as [_ Hsz]. unfold sg_header.
  rewrite (length_file_header_wire iteration iteration_ok). unfold INT32_MAX. lia.
Qed.

Lemma start_ok sg : segment_ok sg -> int64_ok (sg_start sg).
Proof.
  intros Hok. pose proof (sgo_start _ Hok). pose proof (sgo_end _ Hok). unfold sg_end, sg_first, sizeof_log_block_header in *.
  rewrite <- (length_group_wire 0 0 0) in *. unfold int64_ok, INT64_MAX in *. lia.
Qed.

Lemma length_sg_whole sg : Z.of_nat (length (sg_whole sg)) = sg_first sg + groups_size (sg_groups sg).
Proof.
  unfold sg_whole, sg_bodies. cbn [bodies_wire]. rewrite length_app, Nat2Z.inj_add, length_block_wire, length_group_wire. done.
Qed.

Lemma from_zero sg :
  from (sg_wire sg) 0 = block_wire 0 0 (sg_header sg) ++
    bodies_wire (crc32_calc (sg_header sg) 0) (sg_first sg) (group_bodies (sg_start sg + sg_first sg) (sg_groups sg)) ++ sg_torn sg.
Proof. unfold from, sg_wire, sg_whole, sg_bodies. cbn [bodies_wire]. by rewrite <- app_assoc. Qed.

Lemma from_first sg :
  from (sg_wire sg) (sg_first sg) =
    bodies_wire (crc32_calc (sg_header sg) 0) (sg_first sg) (group_bodies (sg_start sg + sg_first sg) (sg_groups sg)) ++ sg_torn sg.
Proof.
  assert (sg_first sg = 0 + Z.of_nat (length (block_wire 0 0 (sg_header sg)))) as E by (by rewrite length_block_wire).
  rewrite E at 1. apply from_app; [done|apply from_zero].
Qed.

Lemma groups_bound gs : Z.of_nat (length gs) <= groups_size gs.
Proof.
  induction gs as [|ms gs IH]; [done|]. cbn [groups_size length]. unfold group_size, sizeof_log_block_header.
  pose proof (entries_size_nonneg ms). lia.
Qed.

Lemma group_bodies_take o j gs : group_bodies o (take j gs) = take j (group_bodies o gs).
Proof.
  revert o j; induction gs as [|ms gs IH]; intros o [|j]; [done|done|done|].
  cbn [take group_bodies]. by rewrite IH.
Qed.

Lemma length_group_bodies o gs : length (group_bodies o gs) = length gs.
Proof. revert o; induction gs as [|ms gs IH]; intros o; [done|]. cbn. by rewrite IH. Qed.

Lemma groups_size_take j gs : groups_size (take j gs) <= groups_size gs.
Proof.
  rewrite <- (take_drop j gs) at 2. rewrite groups_size_app.
  pose proof (groups_bound (drop j gs)). lia.
Qed.

Lemma bodies_fit o gs :
  Forall group_loggable gs -> Forall (fun b => Z.of_nat (length b) <= INT32_MAX) (group_bodies o gs).
Proof.
  intros HF. revert o. induction HF as [|ms gs Hms HF IH]; intros o; cbn; [constructor|].
  constructor; [|done]. by apply group_body_bounds.
Qed.

Definition cut_at (j : nat) (t : blob) (sg : segment) : segment :=
  Segment (sg_index sg) (sg_start sg) (sg_previous sg) (take j (sg_groups sg)) t.

(** A file of which only a part is there. *)
Lemma cut_segment n sg :
  segment_ok sg -> sg_torn sg = [] ->
  if (n <? length (block_wire 0 0 (sg_header sg)))%nat then torn 0 0 (take n (sg_wire sg))
  else exists j t, take n (sg_wire sg) = sg_wire (cut_at j t sg) /\ segment_ok (cut_at j t sg) /\
    forall i, (i <= length (sg_groups sg))%nat -> sg_first sg + groups_size (take i (sg_groups sg)) <= Z.of_nat n -> (i <= j)%nat.
Proof using iteration_ok.
  intros Hok Ht. unfold sg_wire at 1 2. rewrite Ht, app_nil_r. pose proof (length_sg_header sg Hok) as Lh.
  pose proof (sgo_groups _ Hok) as HF. set (o := sg_start sg + sg_first sg).
  assert (Forall (fun b => Z.of_nat (length b) <= INT32_MAX) (group_bodies o (sg_groups sg))) as Hb by (by apply bodies_fit).
  destruct (Nat.ltb_spec n (length (block_wire 0 0 (sg_header sg)))) as [Hlt|Hge].
  - exists (sg_header sg), n. split_and!; [lia|done|]. unfold sg_whole, sg_bodies. cbn [bodies_wire].
    by rewrite take_app_le by lia.
  - unfold sg_whole, sg_bodies. cbn [bodies_wire]. rewrite take_app_ge by lia. rewrite Z.add_0_l. fold (sg_first sg). fold o.
    pose proof (length_block_wire 0 0 (sg_header sg)) as Lb.
    destruct (take_bodies (n - length (block_wire 0 0 (sg_header sg))) (crc32_calc (sg_header sg) 0) (sg_first sg)
      (group_bodies o (sg_groups sg)) Hb) as (j & t & E & Htorn & Hmax).
    exists j, t. rewrite E. rewrite <- group_bodies_take in *. split_and!.
    + unfold sg_wire, sg_whole, sg_bodies. cbn [bodies_wire cut_at sg_start sg_previous sg_groups sg_torn].
      unfold sg_header at 2. cbn [sg_start sg_previous]. fold (sg_header sg). by rewrite <- app_assoc, Z.add_0_l.
    + rewrite length_group_wire in Htorn. pose proof (groups_size_take j (sg_groups sg)). destruct Hok as [H1 H2 H3 H4 H5 H6].
      split; [done|done|done|by apply Forall_take|exact Htorn|]. unfold sg_end in *. cbn [cut_at sg_groups sg_start].
      change (sg_first (cut_at j t sg)) with (sg_first sg). lia.
    + intros i Hi Hle. apply Hmax; [by rewrite length_group_bodies|]. rewrite <- group_bodies_take.
      apply Nat2Z.inj_le. rewrite length_group_wire. unfold sg_first in Hle. lia.
Qed.

Section Files.
Context (Read : path -> Z -> Z -> option blob).

(** A file object opened on the segment. *)
Record opens (sg : segment) (lf : log_file) : Prop := Opens {
  op_file : opened (lf_path lf) (sg_wire sg) lf;
  op_reads : reads (Read (lf_path lf)) (sg_wire sg);
  op_index : lf_index lf = sg_index sg;
  op_start : lf_start_offset lf = sg_start sg;
  op_end : lf_end_offset lf = sg_start sg + Z.of_nat (length (sg_wire sg));
  op_previous : previous_log_max_decrees lf = ∅ \/ previous_log_max_decrees lf = sg_previous sg
}.

(** The first block: the header of the file. *)
Lemma replay_block_header sg lf :
  segment_ok sg -> opens sg lf ->
  exists c s, let lf' := with_file_header (LogFileHeader (i32 MAGIC) 1 (sg_start sg)) (sg_previous sg) (with_crc c (with_stream (Some s) lf)) in
    replay_block Read registered hdr_size lf 0 = Ret (ERR_OK, sg_start sg + sg_first sg, [], lf') /\
    c = crc32_calc (sg_header sg) 0 /\ exists r, reading (lf_path lf) (sg_wire sg) r lf'.
Proof using iteration_ok.
  intros Hok [(Hr & Hp & Hs) Hf Hi Hst He Hprev]. unfold replay_block, read_block.
  destruct (reset_stream_spec Read _ _ Hf 0 lf Hr Hp Hs ltac:(lia)) as (s1 & -> & Hrd). cbn [obind Z.eqb] in *.
  rewrite from_zero in Hrd.
  destruct (read_next_log_block_whole Read _ _ Hf _ 0 0 (sg_header sg) _ Hrd eq_refl ltac:(lia) (length_sg_header sg Hok)) as (s2 & -> & Hrd2).
  ok_step. cbn [lf_start_offset with_stream with_crc]. rewrite Z.add_0_l, Z.eqb_refl.
  assert (BinaryReader (sg_header sg) = BinaryReader (file_header_wire iteration (sg_start sg) (sg_previous sg) ++ [])) as ->
    by (by rewrite app_nil_r).
  rewrite (read_file_header_wire iteration iteration_ok); [|by apply start_ok|apply (sgo_previous _ Hok)|exact Hprev].
  ok_step. rewrite right_header by (exact Hst). ok_step. cbn [br_rest length replay_mutations is_eof Nat.eqb]. ok_step.
  exists (crc32_calc (sg_header sg) 0), s2. split; [|split; [done|]].
  - unfold sg_first, sg_header. rewrite Hst. do 4 f_equal. lia.
  - destruct Hrd2 as [H1 H2 H3]. eexists. by split.
Qed.

(** What reading leaves of a file object. *)
Definition read_through (lf lf' : log_file) : Prop :=
  lf_index lf' = lf_index lf /\ lf_start_offset lf' = lf_start_offset lf /\ lf_end_offset lf' = lf_end_offset lf /\
  lf_path lf' = lf_path lf /\ lf_is_read lf' = lf_is_read lf /\ lf_handle lf' = lf_handle lf.

Lemma replay_file_segment fuel sg lf :
  segment_ok sg -> opens sg lf -> (length (sg_whole sg) < fuel)%nat ->
  exists lf', replay_file Read registered hdr_size fuel lf =
      Ret (final_error (sg_torn sg), sg_end sg, map entry (sg_mutations sg), lf') /\
    read_through lf lf' /\ previous_log_max_decrees lf' = sg_previous sg.
Proof using iteration_ok.
  intros Hok Hop Hfuel. pose proof (length_sg_whole sg) as Lw. pose proof (length_sg_header sg Hok) as Lh.
  pose proof (groups_bound (sg_groups sg)) as Hgb. pose proof (sgo_start _ Hok) as Hst0. pose proof (sgo_end _ Hok) as Hend.
  unfold sg_first, sizeof_log_block_header in Lw. destruct fuel as [|fuel]; [lia|]. unfold replay_file.
  destruct Hop as [(Hr & Hp & Hs) Hf Hi Hst He Hprev].
  destruct (reset_stream_spec Read _ _ Hf 0 lf Hr Hp Hs ltac:(lia)) as (s0 & -> & Hrd0). cbn [obind Z.eqb replay_blocks] in *.
  set (lf0 := with_stream (Some s0) (with_crc 0 lf)) in *.
  assert (opens sg lf0) as Hop0 by (split; [by apply (reading_opened _ _ _ _ Hrd0)|done|done|done|done|done]).
  destruct (replay_block_header sg lf0 Hok Hop0) as (c & s1 & E & Ec & r & Hrd1). cbv zeta in E, Hrd1. rewrite E. ok_step.
  set (lf1 := with_file_header _ _ _) in *. change (lf_start_offset lf1) with (lf_start_offset lf). rewrite Hst.
  assert (u64 (sg_start sg + sg_first sg - sg_start sg) = sg_first sg) as ->.
  { unfold sg_end, sg_first, sizeof_log_block_header, INT64_MAX in *. rewrite uwrap_small; lia. }
  assert (0 < sg_first sg) as Hpos by (unfold sg_first, sizeof_log_block_header; lia).
  destruct (replay_blocks_groups Read (lf_path lf) (sg_wire sg) Hf fuel (sg_groups sg) lf1 (sg_first sg) (sg_torn sg)) as (c' & s' & E').
  - lia.
  - by apply (reading_opened _ _ _ _ Hrd1).
  - done.
  - cbn [lf_crc32 lf1 with_file_header with_crc]. rewrite Ec. by apply crc32_calc_range.
  - cbn. by rewrite Hst.
  - apply Hok.
  - cbn [lf_crc32 lf_start_offset lf1 lf0 with_file_header with_crc with_stream]. rewrite Hst, Ec.
    apply from_first.
  - cbn [lf_crc32 lf_start_offset lf1 lf0 with_file_header with_crc with_stream]. rewrite Hst, Ec. apply (sgo_torn _ Hok).
  - cbn [lf_start_offset lf1 lf0 with_file_header with_crc with_stream]. by rewrite Hst.
  - rewrite E'. cbn [lf_start_offset lf1 lf0 with_file_header with_crc with_stream obind app]. rewrite Hst.
    eexists. split; [reflexivity|]. by split_and!.
Qed.
(** *** The files of a log *)

(** Files follow one another when their indices do, and each starts where the blocks of the
    one before it end. *)
Fixpoint chained (index offset : Z) (sgs : list segment) : Prop :=
  match sgs with
  | [] => True
  | sg :: sgs => sg_index sg = index /\ sg_start sg = offset /\ chained (index + 1) (sg_end sg) sgs
  end.

Fixpoint chain_end (offset : Z) (sgs : list segment) : Z :=
  match sgs with
  | [] => offset
  | sg :: sgs => chain_end (sg_end sg) sgs
  end.

Definition log_mutations (sgs : list segment) : list mutation := concat (map sg_mutations sgs).

Definition opened_log (sg : segment) (kv : Z * log_file) : Prop := kv.1 = sg_index sg /\ opens sg kv.2.

(** A file that was replayed. *)
Record replayed_log (sg : segment) (kv : Z * log_file) : Prop := ReplayedLog {
  rl_key : kv.1 = sg_index sg;
  rl_index : lf_index kv.2 = sg_index sg;
  rl_start : lf_start_offset kv.2 = sg_start sg;
  rl_end : lf_end_offset kv.2 = sg_start sg + Z.of_nat (length (sg_wire sg));
  rl_previous : previous_log_max_decrees kv.2 = sg_previous sg;
  rl_closed : lf_handle kv.2 = false /\ lf_stream kv.2 = None /\ lf_is_read kv.2 = true
}.

Section Chain.
Context (file_close : path -> bool) (close_ok : forall p, file_close p = true).

Lemma close_replayed sg k lf lf' :
  opened_log sg (k, lf) -> read_through lf lf' -> previous_log_max_decrees lf' = sg_previous sg ->
  exists lf'', close file_close lf' = Ret lf'' /\ replayed_log sg (k, lf'') /\ lf_path lf'' = lf_path lf.
Proof using close_ok.
  intros [Ek [(Hr & _) _ Hi Hst He _]] (E1 & E2 & E3 & E4 & E5 & E6) Hprev. cbn in *.
  unfold close. cbn [lf_handle with_stream lf_path]. rewrite close_ok.
  destruct (lf_handle lf') eqn:Hh; eexists; (split; [reflexivity|]); (split; [|done]); split; cbn; try congruence; (split_and!; [done|done|congruence]).
Qed.

Lemma final_error_goes_on t : ended (final_error t) || bool_decide (final_error t = ERR_INCOMPLETE_DATA) = true.
Proof. unfold final_error. by case_decide. Qed.

Lemma replay_each_chain fuel sgs logs err index offset :
  Forall2 opened_log sgs logs -> Forall segment_ok sgs -> chained index offset sgs ->
  Forall (fun sg => (length (sg_whole sg) < fuel)%nat) sgs ->
  exists logs', replay_each file_close Read registered hdr_size fuel logs err offset =
      Ret (from_option (fun sg => final_error (sg_torn sg)) err (last sgs), false, chain_end offset sgs,
           map entry (log_mutations sgs), logs') /\
    Forall2 replayed_log sgs logs' /\ map (fun kv => lf_path kv.2) logs' = map (fun kv => lf_path kv.2) logs.
Proof using iteration_ok close_ok.
  intros H2 Hok. revert logs err index offset H2. induction Hok as [|sg sgs Hsg Hok IH]; intros logs err index offset H2 Hch Hfuel.
  - inversion H2; subst. by exists [].
  - destruct Hch as (Ei & Eo & Hch). inversion H2 as [|? [k lf] ? logs0 [Ek Hop] H2']; subst.
    apply Forall_cons in Hfuel as [Hf Hfuel]. cbn [fst snd] in *. cbn [replay_each].
    rewrite (op_start _ _ Hop), Z.eqb_refl. cbn [negb].
    destruct (replay_file_segment fuel sg lf Hsg Hop Hf) as (lf1 & -> & Hthru & Hprev). cbn [obind].
    destruct (close_replayed sg k lf lf1 (conj Ek Hop) Hthru Hprev) as (lf2 & -> & Hrl & Ep). cbn [obind].
    rewrite final_error_goes_on.
    destruct (IH logs0 (final_error (sg_torn sg)) _ _ H2' Hch Hfuel) as (logs1 & -> & H3 & H4). cbn [obind].
    exists ((k, lf2) :: logs1). split_and!.
    + rewrite last_cons. unfold log_mutations. cbn [map concat chain_end]. rewrite map_app. by destruct (last sgs).
    + by constructor.
    + cbn. by rewrite Ep, H4.
Qed.

Lemma indices_follow_chain sgs logs index offset :
  Forall2 opened_log sgs logs -> chained index offset sgs -> indices_follow (index - 1) logs = true.
Proof.
  intros H2. revert index offset. induction H2 as [|sg [k lf] sgs logs [Ek _] H2 IH]; intros index offset; [done|].
  intros (Ei & _ & Hch). cbn in *. rewrite Z.sub_add, Ek, Ei, Z.eqb_refl. cbn.
  specialize (IH _ _ Hch). by rewrite Z.add_simpl_r in IH.
Qed.

Lemma continuity_chain sgs logs index offset :
  Forall2 opened_log sgs logs -> chained index offset sgs -> 0 <= index ->
  check_log_files_continuity logs = Ret ERR_OK.
Proof.
  intros H2 Hch Hi. unfold check_log_files_continuity. pose proof (indices_follow_chain _ _ _ _ H2 Hch) as E.
  destruct H2 as [|sg [k lf] sgs logs [Ek _] H2]; [done|]. destruct Hch as (Ei & _ & _). cbn [fst] in Ek.
  destruct (Z.eqb_spec k (- 2 ^ 31)); [lia|]. by rewrite Ek, Ei, E in *.
Qed.

Lemma chain_end_last offset sgs sg : last sgs = Some sg -> chain_end offset sgs = sg_end sg.
Proof.
  revert offset; induction sgs as [|x sgs IH]; intros offset; [done|]. rewrite last_cons. cbn [chain_end].
  destruct (last sgs) eqn:E; intros [= ->]; [by apply IH|]. by apply last_None in E as ->.
Qed.

(** Whatever the files hold behind their last whole block, replaying the log hands over
    all mutations of whole blocks, in order, and ends where the last of them ends. *)
Lemma replay_logs_chain fuel sgs logs index offset e0 :
  Forall2 opened_log sgs logs -> Forall segment_ok sgs -> chained index offset sgs -> 0 <= index ->
  (sgs = [] -> offset = 0) -> Forall (fun sg => (length (sg_whole sg) < fuel)%nat) sgs ->
  exists logs', replay_logs file_close Read registered hdr_size fuel logs e0 =
      Ret (ERR_OK, chain_end offset sgs, map entry (log_mutations sgs), logs') /\
    Forall2 replayed_log sgs logs' /\ map (fun kv => lf_path kv.2) logs' = map (fun kv => lf_path kv.2) logs.
Proof using iteration_ok close_ok.
  intros H2 Hok Hch Hi H0 Hfuel. unfold replay_logs. rewrite (continuity_chain _ _ _ _ H2 Hch Hi). ok_step.
  assert (from_option (fun kv => lf_start_offset kv.2) 0 (head logs) = offset) as ->.
  { destruct H2 as [|sg [k lf] sgs logs [_ Hop] H2]; [by rewrite H0|]. cbn in *. rewrite (op_start _ _ Hop). apply Hch. }
  destruct (replay_each_chain fuel sgs logs ERR_OK index offset H2 Hok Hch Hfuel) as (logs' & -> & H3 & H4). cbn [obind].
  exists logs'. split; [|done]. destruct sgs as [|sg sgs _] using rev_ind.
  { inversion H2; subst. cbn. by rewrite H0. }
  rewrite last_snoc. cbn [from_option]. apply Forall2_app_inv_l in H2 as (l1 & l2 & _ & H2 & ->).
  inversion H2 as [|? [k lf] ? ? [_ Hop] H2']; subst. inversion H2'; subst. rewrite last_snoc. cbn [from_option snd] in *.
  unfold final_error. destruct (decide (sg_torn sg = [])) as [Et|Et]; [|done].
  change (ended ERR_HANDLE_EOF) with true. cbn [bool_decide]. rewrite (op_end _ _ Hop).
  rewrite (chain_end_last _ _ sg) by apply last_snoc. unfold sg_wire. rewrite Et, app_nil_r, length_sg_whole.
  rewrite (proj2 (Z.leb_le _ _)); [done|]. unfold sg_end. lia.
Qed.
End Chain.
(** *** A directory of log files *)

Section Directory.
Context (file_open : path -> bool) (file_size : path -> option Z).

(** What a directory of the log may hold: a log file, a log file whose first block was not
    written to the end, and a file that is no log file. *)
Inductive dir_item :=
| Whole (sg : segment)
| Headless (content : blob)
| Foreign.

Definition item_at (p : path) (i : dir_item) : Prop :=
  match i with
  | Whole sg =>
      parse_log_file_name p = Some (sg_index sg, sg_start sg) /\ file_open p = true /\
      file_size p = Some (Z.of_nat (length (sg_wire sg))) /\ reads (Read p) (sg_wire sg) /\ segment_ok sg
  | Headless f =>
      parse_log_file_name p <> None /\ file_open p = true /\
      file_size p = Some (Z.of_nat (length f)) /\ reads (Read p) f /\ torn 0 0 f
  | Foreign => parse_log_file_name p = None
  end.

Lemma open_read_whole p sg :
  item_at p (Whole sg) -> exists lf, open_read file_open file_size Read p = Ret (ERR_OK, Some lf, false) /\
    opens sg lf /\ lf_path lf = p /\ previous_log_max_decrees lf = sg_previous sg /\ lf_handle lf = true.
Proof using iteration_ok.
  intros (Ep & Eo & Es & Hf & Hok). unfold open_read. rewrite Ep, Eo. cbn [negb]. unfold new_log_file. rewrite Es. cbn [obind].
  set (lf0 := LogFileObj _ _ _ _ _ _ _ _ _ _ _).
  destruct (reset_stream_spec Read p (sg_wire sg) Hf 0 lf0 eq_refl eq_refl (or_introl eq_refl) ltac:(lia)) as (s1 & -> & Hrd).
  cbn [obind Z.eqb] in *.
  rewrite from_zero in Hrd.
  destruct (read_next_log_block_whole Read _ _ Hf _ 0 0 (sg_header sg) _ Hrd eq_refl ltac:(lia) (length_sg_header sg Hok)) as (s2 & -> & Hrd2).
  cbn [obind]. rewrite bool_decide_eq_false_2 by (rewrite !elem_of_cons, elem_of_nil; naive_solver).
  assert (BinaryReader (sg_header sg) = BinaryReader (file_header_wire iteration (sg_start sg) (sg_previous sg) ++ [])) as ->
    by (by rewrite app_nil_r).
  rewrite (read_file_header_wire iteration iteration_ok); [|by apply start_ok|apply (sgo_previous _ Hok)|by left].
  cbn [obind]. rewrite right_header by done. cbn [negb]. eexists. split; [reflexivity|]. split_and!; [|done|done|done].
  destruct Hrd2 as [H1 H2 H3]. split; [|done|done|done|done|by right].
  split_and!; [done|done|right]. eexists. by split.
Qed.

Lemma open_read_headless p f :
  item_at p (Headless f) -> exists err, open_read file_open file_size Read p = Ret (err, None, true) /\
    err = final_error f.
Proof.
  intros (Ep & Eo & Es & Hf & (body & n & Hb & Hn & ->)). unfold open_read.
  destruct (parse_log_file_name p) as [[i o]|]; [|done]. rewrite Eo. cbn [negb]. unfold new_log_file. rewrite Es. cbn [obind].
  set (lf0 := LogFileObj _ _ _ _ _ _ _ _ _ _ _).
  destruct (reset_stream_spec Read p _ Hf 0 lf0 eq_refl eq_refl (or_introl eq_refl) ltac:(lia)) as (s1 & -> & Hrd).
  cbn [obind Z.eqb] in *. change (from ?f 0) with f in Hrd.
  destruct (read_next_log_block_torn Read _ _ Hf _ 0 0 body n Hrd Hn ltac:(lia) Hb) as (bb & st & ->). cbn [obind].
  rewrite final_error_take by done. destruct (n =? 0)%nat; eexists; by split.
Qed.

Definition whole_of (pi : path * dir_item) : option segment :=
  match pi.2 with Whole sg => Some sg | _ => None end.
Definition headless_of (pi : path * dir_item) : option path :=
  match pi.2 with Headless _ => Some pi.1 | _ => None end.

Definition index_lt (a b : segment) : Prop := sg_index a < sg_index b.

(** Segments with the files opened on them, in the order of the map. *)
Definition paired (all : list (path * dir_item)) (l : list (segment * (Z * log_file))) : Prop :=
  Forall (fun x => opened_log x.1 x.2 /\ (lf_path x.2.2, Whole x.1) ∈ all) l /\ StronglySorted index_lt l.*1.

Lemma map_put_paired all sg lf l :
  paired all l -> opens sg lf -> (lf_path lf, Whole sg) ∈ all ->
  sg_index sg ∉ map sg_index l.*1 ->
  map_find (lf_index lf) l.*2 = None /\
  exists l', map_put (lf_index lf) lf l.*2 = l'.*2 /\ l' ≡ₚ (sg, (lf_index lf, lf)) :: l /\ paired all l'.
Proof.
  intros [HF HS] Hop Hall. pose proof (op_index _ _ Hop) as Ei.
  assert (opened_log sg (lf_index lf, lf)) as Ho by (by split).
  induction l as [|[sg' [k lf']] l IH]; intros Hn; cbn in *.
  - split; [done|]. exists [(sg, (lf_index lf, lf))]. split_and!; [done|done|].
    split; [apply Forall_singleton; by split_and!|repeat constructor].
  - apply Forall_cons in HF as [((Ek & Hop') & Hrest) HF]. inversion HS as [|? ? HS' Hlt]; subst. cbn in *.
    apply not_elem_of_cons in Hn as [Hne Hn]. subst k. rewrite Ei in *.
    destruct (IH HF HS' Hn) as (Hfind & l' & El & Hp & [HF' HSl]).
    destruct (Z.eqb_spec (sg_index sg) (sg_index sg')); [done|]. split; [done|].
    destruct (Z.ltb_spec (sg_index sg) (sg_index sg')) as [Hlt'|Hge].
    + exists ((sg, (sg_index sg, lf)) :: (sg', (sg_index sg', lf')) :: l). split_and!; [reflexivity|reflexivity|].
      split; [constructor; [by split_and!|]; constructor; [split; [by split|exact Hrest]|done]|]. cbn. constructor; [done|].
      constructor; [done|]. eapply Forall_impl; [exact Hlt|]. unfold index_lt. cbn. lia.
    + exists ((sg', (sg_index sg', lf')) :: l'). split_and!; [cbn; by rewrite El|rewrite Hp; apply perm_swap|].
      split; [constructor; [split; [by split|exact Hrest]|done]|]. cbn. constructor; [done|].
      assert (l'.*1 ≡ₚ sg :: l.*1) as -> by (by rewrite Hp). constructor; [unfold index_lt; lia|done].
Qed.

Lemma open_files_items all items l :
  Forall (fun pi => item_at pi.1 pi.2) items -> items ⊆ all -> paired all l ->
  NoDup (map sg_index (l.*1 ++ omap whole_of items)) ->
  exists l', open_files file_open file_size Read items.*1 l.*2 = Ret (None, l'.*2, omap headless_of items) /\
    paired all l' /\ l'.*1 ≡ₚ l.*1 ++ omap whole_of items.
Proof using iteration_ok.
  revert l; induction items as [|[p i] items IH]; intros l HF Hall Hl Hnd.
  { exists l. cbn. by rewrite app_nil_r. }
  apply Forall_cons in HF as [Hi HF]. assert ((p, i) ∈ all) as Hin by (apply Hall; by left).
  assert (items ⊆ all) as Hall' by (intros x Hx; apply Hall; by right). clear Hall; rename Hall' into Hall.
  cbn [fmap list_fmap fst open_files]. cbn [fst snd] in Hi. destruct i as [sg|f|].
  - destruct (open_read_whole p sg Hi) as (lf & -> & Hop & Ep & _). cbn [obind].
    cbn [omap list_omap whole_of snd] in *.
    assert (sg_index sg ∉ map sg_index l.*1) as Hn.
    { rewrite map_app in Hnd. apply NoDup_app in Hnd as (_ & Hd & _). intros Hin'. apply (Hd _ Hin'). by left. }
    rewrite <- Ep in Hin. destruct (map_put_paired all sg lf l Hl Hop Hin Hn) as (-> & l1 & -> & Hp1 & Hl1).
    destruct (IH l1 HF Hall Hl1) as (l2 & -> & Hl2 & Hp2).
    { assert (l1.*1 ≡ₚ sg :: l.*1) as -> by (by rewrite Hp1). cbn. rewrite map_app in *. cbn [map] in Hnd. by rewrite <- Permutation_middle in Hnd. }
    cbn [obind]. exists l2. split_and!; [done|done|]. rewrite Hp2.
    assert (l1.*1 ≡ₚ sg :: l.*1) as -> by (by rewrite Hp1). cbn. by rewrite Permutation_middle.
  - destruct (open_read_headless p f Hi) as (err & -> & ->). cbn [obind].
    rewrite bool_decide_eq_true_2 by (unfold final_error; case_decide; set_solver).
    destruct (IH l HF Hall Hl Hnd) as (l2 & -> & Hl2 & Hp2). exists l2. by split_and!.
  - unfold open_read. rewrite Hi. cbn [obind].
    rewrite bool_decide_eq_true_2 by set_solver.
    destruct (IH l HF Hall Hl Hnd) as (l2 & -> & Hl2 & Hp2). exists l2. by split_and!.
Qed.

Lemma chained_sorted index offset sgs :
  chained index offset sgs -> StronglySorted index_lt sgs /\ Forall (fun sg => index <= sg_index sg) sgs.
Proof.
  revert index offset; induction sgs as [|sg sgs IH]; intros index offset Hch; [by repeat constructor|].
  destruct Hch as (Ei & _ & Hch). destruct (IH _ _ Hch) as [HS HF]. split; constructor; try done; try lia.
  - eapply Forall_impl; [exact HF|]. unfold index_lt. cbn. lia.
  - eapply Forall_impl; [exact HF|]. cbn. lia.
Qed.

Lemma sorted_nodup sgs : StronglySorted index_lt sgs -> NoDup (map sg_index sgs).
Proof.
  induction 1 as [|sg sgs HS IH HF]; cbn; constructor; [|done].
  rewrite list_elem_of_In, in_map_iff. intros (x & E & Hx%list_elem_of_In). rewrite Forall_forall in HF.
  specialize (HF _ Hx). unfold index_lt in HF. lia.
Qed.

#[local] Instance index_lt_antisymm : AntiSymm (=) index_lt.
Proof. intros a b. unfold index_lt. lia. Qed.

(** A directory whose log files form a chain is opened to that chain, in whatever order its
    files are listed. *)
Lemma open_directory items sgs index offset :
  Forall (fun pi => item_at pi.1 pi.2) items -> omap whole_of items ≡ₚ sgs -> chained index offset sgs ->
  exists l, open_files file_open file_size Read items.*1 [] = Ret (None, l.*2, omap headless_of items) /\
    l.*1 = sgs /\ paired items l.
Proof using iteration_ok.
  intros HF Hp Hch. destruct (chained_sorted _ _ _ Hch) as [HS _].
  destruct (open_files_items items items [] HF) as (l & E & Hl & Hpl); [done|..].
  { split; constructor. }
  { cbn. rewrite Hp. by apply sorted_nodup. }
  exists l. split; [done|]. split; [|done]. cbn in Hpl. rewrite Hp in Hpl.
  by apply (StronglySorted_unique index_lt); [apply Hl| |].
Qed.

Lemma paired_opened all l : paired all l -> Forall2 opened_log l.*1 l.*2.
Proof. intros [HF _]. induction HF as [|[sg kv] l [Ho _] HF IH]; cbn; constructor; done. Qed.
End Directory.
End Files.
End Segments.
End Theory.

(** ** Theorems *)

(** Crash safety of replaying: a directory that holds a chain of log files, each cut off
    anywhere behind its last whole block by an interrupted write, files whose first block
    was cut off, and files of other kinds, is replayed without an error, whatever the order
    its files are listed in.  The callback gets every mutation of a whole block once, in
    the order of the log and with the position and length it has there, the log ends where
    the last whole block does, and the files without a first block are moved away. *)
Theorem replay_directory (registered : task_code -> bool) (hdr_size : Z) (g : gpid)
  (iteration : replica_log_info_map -> list (gpid * replica_log_info))
  (file_open : path -> bool) (file_size : path -> option Z) (file_close : path -> bool)
  (Read : path -> Z -> Z -> option blob) items sgs index offset fuel e0 :
  (forall m, iteration m ≡ₚ map_to_list m) -> (forall p, file_close p = true) ->
  Forall (fun pi => item_at registered g iteration Read file_open file_size pi.1 pi.2) items ->
  omap whole_of items ≡ₚ sgs -> chained iteration index offset sgs -> 0 <= index -> (sgs = [] -> offset = 0) ->
  Forall (fun sg => (length (sg_whole iteration sg) < fuel)%nat) sgs ->
  replay_log_files file_open file_size file_close Read registered hdr_size fuel items.*1 e0 =
    Ret (ERR_OK, chain_end iteration offset sgs, map (entry hdr_size) (log_mutations iteration sgs),
         omap headless_of items).
Proof.
  intros Hit Hcl HF Hp Hch Hi H0 Hfuel. unfold replay_log_files.
  destruct (open_directory registered g iteration Hit Read file_open file_size items sgs index offset HF Hp Hch) as (l & -> & El & Hl).
  cbn [obind]. pose proof (paired_opened iteration Read items l Hl) as H2. rewrite El in H2.
  assert (Forall (segment_ok registered g iteration) sgs) as Hok.
  { rewrite <- Hp. clear -HF. induction HF as [|[p [sg|f|]] items Hi HF IH]; cbn; [constructor| |done|done].
    constructor; [apply Hi|done]. }
  destruct (replay_logs_chain registered hdr_size g iteration Hit Read file_close Hcl fuel sgs l.*2 index offset e0
    H2 Hok Hch Hi H0 Hfuel) as (logs' & -> & _). done.
Qed.

End LogReplay.
