(* ===== verification/MutationLog.v ===== *)
(** * The private mutation log

    Model of [src/replica/mutation_log.{h,cpp}] ([mutation_log] and [mutation_log_private]):
    the log of one replica, a sequence of log files.  Mutations are appended to a buffer; one
    buffer at a time is written to the current file while the next one fills.  Files are
    switched when they are large enough, and removed when what they hold is no longer needed.

    Writes are asynchronous: an operation returns the writes it has issued, and the
    completion of a write is an operation of its own.  Locks are not part of the model:
    an operation is one critical section, or the two the code runs one after the other. *)
From stdpp Require Import sorting.
From S2P Require Import Prelude Endians BinaryIO Mutation Crc StringConv Strings FileStreamer LogBlock LogFile LogReplay.

Module MutationLog.
Import BinaryIO Mutation FileStreamer LogBlock LogFile LogReplay.

(** ** State *)

(** The log files, by index, and the range of the log they cover.  [current] points to a file
    of the map. *)
Record log_files := LogFiles {
  switch_file_hint : bool;
  switch_file_demand : bool;
  last_file_index : Z;
  files : log_file_map_by_index;
  current_log_file : option Z;
  global_start_offset : Z;
  global_end_offset : Z
}.

Record log_decrees := LogDecrees {
  private_log_info : replica_log_info;
  plog_max_decree_on_disk : Z;
  plog_max_commit_on_disk : Z;
  cleanable_decree : Z
}.

(** The buffers: [issued_write] is there as long as its write is not done. *)
Record log_buffers := LogBuffers {
  is_writing : bool;
  issued_write : option log_appender;
  pending_write : option log_appender;
  pending_write_max_commit : Z;
  pending_write_max_decree : Z
}.

Record log_config := LogConfig {
  ml_dir : path;
  is_private : bool;
  private_gpid : gpid;
  max_log_file_size_in_bytes : Z;
  min_log_file_size_in_bytes : Z
}.

Record mutation_log := MutationLogObj {
  config : log_config;
  is_opened : bool;
  on_files : log_files;
  decrees : log_decrees;
  buffers : log_buffers
}.

Definition with_files (f : log_files -> log_files) (l : mutation_log) : mutation_log :=
  MutationLogObj (config l) (is_opened l) (f (on_files l)) (decrees l) (buffers l).
Definition with_decrees (f : log_decrees -> log_decrees) (l : mutation_log) : mutation_log :=
  MutationLogObj (config l) (is_opened l) (on_files l) (f (decrees l)) (buffers l).
Definition with_buffers (f : log_buffers -> log_buffers) (l : mutation_log) : mutation_log :=
  MutationLogObj (config l) (is_opened l) (on_files l) (decrees l) (f (buffers l)).

Definition put_file (k : Z) (lf : log_file) : mutation_log -> mutation_log :=
  with_files (fun s => LogFiles (switch_file_hint s) (switch_file_demand s) (last_file_index s) (map_put k lf (files s))
                         (current_log_file s) (global_start_offset s) (global_end_offset s)).

Definition set_global_end (o : Z) : mutation_log -> mutation_log :=
  with_files (fun s => LogFiles (switch_file_hint s) (switch_file_demand s) (last_file_index s) (files s)
                         (current_log_file s) (global_start_offset s) o).

Definition set_hints (hint demand : bool) : mutation_log -> mutation_log :=
  with_files (fun s => LogFiles hint demand (last_file_index s) (files s) (current_log_file s)
                         (global_start_offset s) (global_end_offset s)).

(** The writes issued to the disk: a file header, and a buffer of mutations together with
    what its completion has to know. *)
Inductive log_io :=
| WriteHeader (index local_offset : Z) (bytes : blob)
| WriteBuffer (index local_offset : Z) (bytes : blob) (pending : log_appender) (max_decree max_commit : Z).

(** [mutation_log::mutation_log]; [max_log_file_mb] is an [int32_t]. *)
Definition init_files : log_files := LogFiles false false 0 [] None 0 0.
Definition init_decrees : log_decrees := LogDecrees (ReplicaLogInfo 0 0) 0 0 0.
Definition init_buffers : log_buffers := LogBuffers false None None 0 0.

Definition init_states (l : mutation_log) : mutation_log :=
  MutationLogObj (config l) false init_files init_decrees init_buffers.

Definition new_mutation_log (dir : path) (max_log_file_mb : Z) (g : gpid) : mutation_log :=
  let max_size := max_log_file_mb * 1024 * 1024 in
  MutationLogObj (LogConfig dir (negb (gpid_value g =? 0)) g max_size (max_size ÷ 10)) false init_files init_decrees init_buffers.

(** ** Decrees *)

Definition update_max_decree (g : gpid) (d : Z) (l : mutation_log) : outcome mutation_log :=
  CHECK (is_private (config l)) (CHECK (bool_decide (g = private_gpid (config l)))
    (Ret (with_decrees (fun s =>
       LogDecrees (if d >? max_decree (private_log_info s)
                   then ReplicaLogInfo d (valid_start_offset (private_log_info s)) else private_log_info s)
         (plog_max_decree_on_disk s) (plog_max_commit_on_disk s) (cleanable_decree s)) l))).

Definition update_max_decree_on_disk (d c : Z) (l : mutation_log) : outcome mutation_log :=
  CHECK (is_private (config l))
    (Ret (with_decrees (fun s =>
       LogDecrees (private_log_info s) (Z.max d (plog_max_decree_on_disk s)) (Z.max c (plog_max_commit_on_disk s))
         (cleanable_decree s)) l)).

Definition set_cleanable_decree (d : Z) : mutation_log -> mutation_log :=
  with_decrees (fun s => LogDecrees (private_log_info s) (plog_max_decree_on_disk s) (plog_max_commit_on_disk s) d).

Definition set_valid_start_offset_on_open (g : gpid) (o : Z) (l : mutation_log) : outcome mutation_log :=
  CHECK (is_private (config l)) (CHECK (bool_decide (g = private_gpid (config l)))
    (Ret (with_decrees (fun s =>
       LogDecrees (ReplicaLogInfo (max_decree (private_log_info s)) o) (plog_max_decree_on_disk s)
         (plog_max_commit_on_disk s) (cleanable_decree s)) l))).

(** Returns the end of the log, from which on it is valid. *)
Definition on_partition_reset (g : gpid) (d : Z) (l : mutation_log) : outcome (Z * mutation_log) :=
  CHECK (is_private (config l)) (CHECK (bool_decide (private_gpid (config l) = g))
    (let o := global_end_offset (on_files l) in
     Ret (o, with_decrees (fun s =>
       LogDecrees (ReplicaLogInfo d o) (plog_max_decree_on_disk s) (plog_max_commit_on_disk s) (cleanable_decree s)) l))).

Definition max_decree_of (g : gpid) (l : mutation_log) : outcome Z :=
  CHECK (is_private (config l)) (CHECK (bool_decide (g = private_gpid (config l)))
    (Ret (max_decree (private_log_info (decrees l))))).

Definition check_valid_start_offset (o : Z) (l : mutation_log) : outcome unit :=
  CHECK (is_private (config l)) (CHECK (o =? valid_start_offset (private_log_info (decrees l))) (Ret tt)).

Definition total_size (l : mutation_log) : Z :=
  match files (on_files l) with
  | [] => 0
  | _ => global_end_offset (on_files l) - global_start_offset (on_files l)
  end.

Definition max_gced_decree (g : gpid) (l : mutation_log) : outcome Z :=
  CHECK (is_private (config l))
    (Ret (fold_left (fun result kv =>
       match previous_log_max_decrees (snd kv) !! g with
       | None => result
       | Some i => if result =? invalid_decree then max_decree i else Z.min result (max_decree i)
       end) (files (on_files l)) invalid_decree)).

(** ** Appending *)

Section Appending.
Context (path_exists : path -> bool) (file_open : path -> bool) (file_flush : path -> bool) (plog_force_flush : bool).
Context (iteration : replica_log_info_map -> list (gpid * replica_log_info)).

(** The error, and the write of the header. *)
Definition create_new_log_file (l : mutation_log) : outcome (error_code * mutation_log * list log_io) :=
  let s := on_files l in
  let index := last_file_index s + 1 in
  let* logf := create_write path_exists file_open (fun _ => None) (ml_dir (config l)) index (global_end_offset s) in
  match logf with
  | None => Ret (ERR_FILE_OPERATION_FAILED, l, [])
  | Some lf =>
      CHECK (lf_end_offset lf =? lf_start_offset lf) (CHECK (global_end_offset s =? lf_end_offset lf)
        (CHECK (bool_decide (map_find index (files s) = None)) (CHECK (is_private (config l))
          (let info := private_log_info (decrees l) in
           let ds := {[ private_gpid (config l) := ReplicaLogInfo (max_decree info) (valid_start_offset info) ]} in
           let '(header_len, w, lf) := write_file_header iteration (new_binary_writer 0) ds lf in
           let blk := add (fst (get_buffer w)) (new_log_block 0) in
           let end_offset := global_end_offset s + lb_size blk in
           let* (write, lf) := commit_log_block blk (lf_start_offset lf) lf in
           CHECK (end_offset =? lf_start_offset lf + sizeof_log_block_header + header_len)
             (Ret (ERR_OK,
                   with_files (fun s => LogFiles (switch_file_hint s) (switch_file_demand s) index
                     (map_put index lf (files s)) (Some index) (global_start_offset s) end_offset) l,
                   match write with None => [] | Some (o, b) => [WriteHeader index o b] end))))))
  end.

(** The file [current_log_file] points to. *)
Definition current_file (l : mutation_log) : outcome (Z * log_file) :=
  let* k := deref (current_log_file (on_files l)) in
  let* lf := deref (map_find k (files (on_files l))) in Ret (k, lf).

Definition must_create (l : mutation_log) : outcome bool :=
  match current_log_file (on_files l) with
  | None => Ret true
  | Some _ =>
      let* (_, lf) := current_file l in
      let s := on_files l in
      let file_size := global_end_offset s - lf_start_offset lf in
      Ret (switch_file_demand s || (file_size >=? max_log_file_size_in_bytes (config l))
           || (switch_file_hint s && (file_size >=? min_log_file_size_in_bytes (config l))))
  end.

(** [mark_new_offset(size, create_new_log_if_needed)]: the offset to write at. *)
Definition mark_new_offset (size : Z) (create_new_log_if_needed : bool) (l : mutation_log)
  : outcome (Z * mutation_log * list log_io) :=
  let* (l, io) :=
    if create_new_log_if_needed then
      let* create_file := must_create l in
      if create_file : bool then
        let* (ec, l, io) := create_new_log_file l in
        CHECK (is_ok ec) (Ret (set_hints false false l, io))
      else Ret (l, [])
    else match current_log_file (on_files l) with
         | None => Abort
         | Some _ => Ret (l, [])
         end in
  let o := global_end_offset (on_files l) in
  Ret (o, set_global_end (o + size) l, io).

(** [write_pending_mutations] and [commit_pending_mutations]: no write is issued when the
    current file is closed. *)
Definition write_pending_mutations (l : mutation_log) : outcome (mutation_log * list log_io) :=
  let b := buffers l in
  CHECK (negb (is_writing b))
    (match pending_write b with
     | None => Abort
     | Some pending =>
         let* size := appender_size pending in
         CHECK (size >? 0)
           (let* (o, l, _) := mark_new_offset size false l in
            let* start := appender_start_offset pending in
            CHECK (o =? start)
              (let d := pending_write_max_decree b in
               let c := pending_write_max_commit b in
               let* l := update_max_decree (private_gpid (config l)) d l in
               let l := with_buffers (fun _ => LogBuffers true (Some pending) None 0 0) l in
               let* (k, lf) := current_file l in
               let* (write, lf) := commit_log_blocks pending lf in
               Ret (put_file k lf l,
                    match write with None => [] | Some (o, bytes) => [WriteBuffer k o bytes pending d c] end)))
     end).

(** The mutation with its position, and the [pending_size] reported to the caller. *)
Definition append (mu : mutation) (cb : option Z) (l : mutation_log)
  : outcome (mutation * Z * mutation_log * list log_io) :=
  let* (pending, l, io) :=
    match pending_write (buffers l) with
    | Some pending => Ret (pending, l, [])
    | None => let* (o, l, io) := mark_new_offset 0 true l in Ret (new_log_appender o, l, io)
    end in
  let* (mu, pending) := append_mutation mu cb pending in
  let l := with_buffers (fun b =>
    LogBuffers (is_writing b) (issued_write b) (Some pending)
      (Z.max (pending_write_max_commit b) (last_committed_decree (header mu)))
      (Z.max (pending_write_max_decree b) (decree (header mu)))) l in
  if negb (is_writing (buffers l)) then
    let* (l, io') := write_pending_mutations l in Ret (mu, 0, l, io ++ io')
  else let* size := appender_size pending in Ret (mu, size, l, io).

(** What the completion of a write does outside of the log: the callbacks it enqueues, and
    the failure it reports. *)
Inductive log_notice :=
| Callback (cb : Z) (err : error_code) (size : Z)
| IoError (err : error_code).

(** [lf->flush()]; a file that is no longer in the map was closed. *)
Definition flush_written (k : Z) (l : mutation_log) : outcome unit :=
  if plog_force_flush then
    match map_find k (files (on_files l)) with
    | None => Ret tt
    | Some lf => LogFile.flush file_flush lf
    end
  else Ret tt.

(** The headers of the blocks, which the write has completed in place, still have their magic. *)
Fixpoint check_magic (bs : list log_block) : outcome unit :=
  match bs with
  | [] => Ret tt
  | b :: bs => let* f := front b in CHECK (u32 (magic (header_of_bytes f)) =? MAGIC) (check_magic bs)
  end.

(** The completion of the write of a buffer, in a log that was opened with a callback for failures. *)
Definition write_buffer_done (k : Z) (pending : log_appender) (d c : Z) (err : error_code) (sz : Z) (l : mutation_log)
  : outcome (mutation_log * list log_notice * list log_io) :=
  CHECK (is_writing (buffers l))
    (let* _ := check_magic (blocks pending) in
     let called := map (fun cb => Callback cb err sz) (callbacks pending) in
     let idle := with_buffers (fun b => LogBuffers false None (pending_write b) (pending_write_max_commit b)
                                         (pending_write_max_decree b)) in
     if negb (is_ok err) then Ret (idle l, called ++ [IoError err], [])
     else
       let* size := appender_size pending in
       CHECK (sz =? size)
         (let* _ := flush_written k l in
          let* l := update_max_decree_on_disk d c l in
          let l := idle l in
          match pending_write (buffers l) with
          | Some _ => let* (l, io) := write_pending_mutations l in Ret (l, called, io)
          | None => Ret (l, called, [])
          end)).

(** The completion of the write of a header, likewise. *)
Definition write_header_done (err : error_code) : list log_notice :=
  if is_ok err then [] else [IoError err].

End Appending.

(** ** What a learner is given *)

Definition learned (start_decree : Z) (l : mutation_log) : list mutation :=
  filter (fun mu => start_decree <= get_decree mu)
    (from_option mutations [] (issued_write (buffers l)) ++ from_option mutations [] (pending_write (buffers l))).

(** Whether there was any, and the writer. *)
Definition get_learn_state_in_memory (start_decree : Z) (w : binary_writer) (l : mutation_log) : bool * binary_writer :=
  let ms := learned start_decree l in
  (negb (bool_decide (ms = [])), fold_left (fun w mu => write_to mu w) ms w).

(** A mutation of the parent that its child has to get. *)
Definition wanted (start_decree start_ballot : Z) (mu : mutation) : bool :=
  let current_ballot := if start_ballot =? invalid_ballot then invalid_ballot else get_ballot mu in
  ((get_decree mu >=? start_decree) && (start_ballot =? current_ballot)) || (current_ballot >? start_ballot).

Definition get_in_memory_mutations (hdr_size start_decree start_ballot : Z) (l : mutation_log) : list mutation :=
  map (copy_no_reply hdr_size)
    (filter (fun mu => wanted start_decree start_ballot mu = true)
       (from_option mutations [] (issued_write (buffers l)) ++ from_option mutations [] (pending_write (buffers l)))).

Section Learning.
Context (iteration : replica_log_info_map -> list (gpid * replica_log_info)).

(** The loop over the files, from the last one on: the files to learn, in that order, the
    decree the oldest of them starts after, and where it starts. *)
Fixpoint learn_files (valid start : Z) (rfiles : list log_file) (skip_next : bool)
  (found : list log_file) (last_max_decree start_offset : Z) : list log_file * Z * Z :=
  match rfiles with
  | [] => (found, last_max_decree, start_offset)
  | log :: rfiles =>
      if lf_end_offset log <=? valid then (found, last_max_decree, start_offset)
      else
        let skip := (size (previous_log_max_decrees log) =? 0)%nat in
        if skip_next then learn_files valid start rfiles skip found last_max_decree start_offset
        else
          let '(found, start_offset) :=
            if lf_end_offset log >? lf_start_offset log then (found ++ [log], lf_start_offset log)
            else (found, start_offset) in
          if skip then learn_files valid start rfiles skip found last_max_decree start_offset
          else
            let last_max_decree :=
              from_option (fun kv => max_decree kv.2) 0 (head (iteration (previous_log_max_decrees log))) in
            if last_max_decree <? start then (found, last_max_decree, start_offset)
            else learn_files valid start rfiles skip found last_max_decree start_offset
  end.

(** Whether the private log surely covers the range, the mutations in memory and the files. *)
Definition get_learn_state (g : gpid) (start : Z) (l : mutation_log) : outcome (bool * blob * list path) :=
  CHECK (is_private (config l)) (CHECK (bool_decide (private_gpid (config l) = g))
    (let '(some, w) := get_learn_state_in_memory start (new_binary_writer 0) l in
     let meta := if some : bool then fst (get_buffer w) else [] in
     let info := private_log_info (decrees l) in
     if bool_decide (meta = []) && (start >? max_decree info) then Ret (false, meta, [])
     else
       let '(found, last_max_decree, start_offset) :=
         learn_files (valid_start_offset info) start (rev (map snd (files (on_files l)))) false [] 0 0 in
       Ret ((start_offset >=? valid_start_offset info) && (last_max_decree >? 0) && (last_max_decree <? start),
            meta, map lf_path (rev found)))).

(** The mutations in memory, the files a child of a split has to replay, and their size. *)
Definition get_parent_mutations_and_logs (hdr_size : Z) (g : gpid) (start_decree start_ballot : Z) (l : mutation_log)
  : outcome (list mutation * list path * Z) :=
  CHECK (is_private (config l)) (CHECK (bool_decide (private_gpid (config l) = g))
    (let ms := get_in_memory_mutations hdr_size start_decree start_ballot l in
     let info := private_log_info (decrees l) in
     if bool_decide (ms = []) && (start_decree >? max_decree info) then Ret (ms, [], 0)
     else
       let '(found, _, _) :=
         learn_files (valid_start_offset info) start_decree (rev (map snd (files (on_files l)))) false [] 0 0 in
       Ret (ms, map lf_path (rev found),
            fold_left (fun total log => total + (lf_end_offset log - lf_start_offset log)) found 0))).
End Learning.

(** ** Garbage collection *)

Section GarbageCollection.
(** The file system: the time a file was last written, its removal, and closing it. *)
Context (last_write_time : path -> option Z) (remove_path : path -> bool) (file_close : path -> bool) (now_ms : Z).

(** The file object remembers the time. *)
Definition should_reserve_file (log : log_file) (already_reserved_size reserve_max_size reserve_max_time : Z)
  : bool * log_file :=
  if (reserve_max_size =? 0) || (reserve_max_time =? 0) then (false, log)
  else
    let file_size := lf_end_offset log - lf_start_offset log in
    if already_reserved_size + file_size >? reserve_max_size then (false, log)
    else
      let fresh t := negb (u64 (t + reserve_max_time) <? now_ms / 1000) in
      if lf_last_write_time log =? 0 then
        match last_write_time (lf_path log) with
        | None => (true, log)
        | Some tm => (fresh (u64 tm), set_last_write_time (u64 tm) log)
        end
      else (fresh (lf_last_write_time log), log).

(** The loop from the last file on: the largest file that can be deleted.  [max_decree_here]
    is the largest decree up to the end of the file. *)
Fixpoint gc_scan (g : gpid) (current cleanable valid reserve_size reserve_time : Z)
  (rfiles : log_file_map_by_index) (max_decree_here already_reserved_size : Z)
  : outcome (option Z * log_file_map_by_index) :=
  match rfiles with
  | [] => Ret (None, [])
  | (k, log) :: rfiles' =>
      CHECK (k =? lf_index log)
        (let '(keep, log) :=
           if current =? lf_index log then (true, log)
           else
             let '(reserve, log) := should_reserve_file log already_reserved_size reserve_size reserve_time in
             (reserve || negb ((valid >=? lf_end_offset log) || (cleanable >=? max_decree_here)), log) in
         if keep then
           match previous_log_max_decrees log !! g with
           | None => Abort
           | Some i =>
               let* (found, rest) := gc_scan g current cleanable valid reserve_size reserve_time rfiles' (max_decree i)
                 (already_reserved_size + (lf_end_offset log - lf_start_offset log)) in
               Ret (found, (k, log) :: rest)
           end
         else Ret (Some (lf_index log), (k, log) :: rfiles'))
  end.

(** The files up to the largest one are deleted in the order of their indices, until a
    file cannot be removed; a file that was erased is no longer in the map. *)
Fixpoint gc_delete (largest : Z) (fs : log_file_map_by_index) : outcome (Z * log_file_map_by_index) :=
  match fs with
  | [] => Ret (0, [])
  | (k, log) :: fs' =>
      if lf_index log <=? largest then
        CHECK (k =? lf_index log)
          (let* log := close file_close log in
           if negb (remove_path (lf_path log)) then Ret (0, (k, log) :: fs')
           else let* (deleted, fs') := gc_delete largest fs' in Ret (deleted + 1, fs'))
      else Ret (0, fs)
  end.

Definition set_remaining (fs : log_file_map_by_index) : mutation_log -> mutation_log :=
  with_files (fun s => LogFiles (switch_file_hint s) (switch_file_demand s) (last_file_index s) fs (current_log_file s)
    (from_option (fun kv => lf_start_offset kv.2) 0 (head fs)) (global_end_offset s)).

Definition garbage_collection (g : gpid) (cleanable valid reserve_max_size reserve_max_time : Z) (l : mutation_log)
  : outcome (Z * mutation_log) :=
  CHECK (is_private (config l))
    (let fs := files (on_files l) in
     let current := match current_file l with Ret (_, lf) => lf_index lf | _ => -1 end in
     if (length fs <=? 1)%nat then Ret (0, l)
     else
       CHECK ((current =? -1) || bool_decide (fst <$> last fs = Some current))
         (let* (mark, rfs) := gc_scan g current cleanable valid reserve_max_size reserve_max_time (rev fs)
            (max_decree (private_log_info (decrees l))) 0 in
          let fs := rev rfs in
          match mark with
          | None => Ret (0, with_files (fun s => LogFiles (switch_file_hint s) (switch_file_demand s) (last_file_index s)
                              fs (current_log_file s) (global_start_offset s) (global_end_offset s)) l)
          | Some largest =>
              let* (deleted, fs) := gc_delete largest fs in
              Ret (deleted,
                   if deleted =? 0 then with_files (fun s => LogFiles (switch_file_hint s) (switch_file_demand s)
                       (last_file_index s) fs (current_log_file s) (global_start_offset s) (global_end_offset s)) l
                   else set_remaining fs l)
          end)).
End GarbageCollection.

(** ** Opening and closing *)

(** [operator<] of strings compares bytes as unsigned. *)
Fixpoint path_leb (a b : path) : bool :=
  match a, b with
  | [], _ => true
  | _, [] => false
  | x :: a, y :: b => if b2z x <? b2z y then true else if b2z y <? b2z x then false else path_leb a b
  end.

Definition path_le (a b : path) : Prop := path_leb a b = true.

#[global] Instance path_le_dec : RelDecision path_le.
Proof. intros a b. unfold path_le. apply _. Defined.

Definition sort_paths : list path -> list path := merge_sort path_le.

Section Opening.
Context (path_exists : path -> bool) (create_directory : path -> bool) (get_subfiles : path -> option (list path))
  (file_open : path -> bool) (file_size : path -> option Z) (file_close : path -> bool)
  (Read : path -> Z -> Z -> option blob) (registered : task_code -> bool) (hdr_size : Z).

(** The files behind the last one that starts at or before the decree. *)
Fixpoint skip_useless (g : gpid) (d : Z) (fs : log_file_map_by_index) : nat :=
  match fs with
  | [] => O
  | (_, lf) :: fs' =>
      if previous_log_max_decree g lf <=? d then
        match fs' with
        | (_, lf') :: _ => if previous_log_max_decree g lf' <=? d then S (skip_useless g d fs') else O
        | [] => O
        end
      else O
  end.

(** The callback of [open]: [read_callback] tells whether the mutation counts. *)
Definition note_replayed (read_callback : option (Z -> mutation -> bool)) (l : mutation_log) (x : Z * mutation)
  : outcome mutation_log :=
  let '(len, mu) := x in
  let ret := from_option (fun callback => callback len mu) true read_callback in
  if ret then
    let* l := update_max_decree (pid (header mu)) (decree (header mu)) l in
    update_max_decree_on_disk (decree (header mu)) (last_committed_decree (header mu)) l
  else Ret l.

Fixpoint note_all (read_callback : option (Z -> mutation -> bool)) (xs : list (Z * mutation)) (l : mutation_log)
  : outcome mutation_log :=
  match xs with
  | [] => Ret l
  | x :: xs => let* l := note_replayed read_callback l x in note_all read_callback xs l
  end.

Fixpoint close_all (fs : log_file_map_by_index) : outcome unit :=
  match fs with
  | [] => Ret tt
  | (_, lf) :: fs => let* _ := close file_close lf in close_all fs
  end.

(** The end of [open], after the files were replayed. *)
Definition finish_open (err : error_code) (end_offset : Z) (l : mutation_log) : outcome mutation_log :=
  let fs := files (on_files l) in
  if is_ok err then
    Ret (MutationLogObj (config l) true
      (LogFiles (switch_file_hint (on_files l)) (switch_file_demand (on_files l))
         (from_option fst 0 (last fs)) fs (current_log_file (on_files l))
         (from_option (fun kv => lf_start_offset kv.2) 0 (head fs)) end_offset)
      (decrees l) (buffers l))
  else let* _ := close_all fs in Ret (init_states l).

(** [open] of a private log.  The result has what the read callback was called with, and the files moved away. *)
Definition open (fuel : nat) (read_callback : option (Z -> mutation -> bool)) (replay_condition : gmap gpid Z) (l : mutation_log)
  : outcome (error_code * mutation_log * list (Z * mutation) * list path) :=
  CHECK (negb (is_opened l)) (CHECK (bool_decide (current_log_file (on_files l) = None))
    (let dir := ml_dir (config l) in
     if negb (path_exists dir) && negb (create_directory dir) then Ret (ERR_FILE_OPERATION_FAILED, l, [], [])
     else
       let set_map fs := with_files (fun s => LogFiles (switch_file_hint s) (switch_file_demand s) (last_file_index s)
                           fs (current_log_file s) (global_start_offset s) (global_end_offset s)) in
       match get_subfiles dir with
       | None => Ret (ERR_FILE_OPERATION_FAILED, set_map [] l, [], [])
       | Some file_list =>
           CHECK (bool_decide (is_Some read_callback) || bool_decide (file_list = []))
          (let* (stop, fs, removed) := open_files file_open file_size Read (sort_paths file_list) [] in
           match stop with
           | Some err => Ret (err, set_map fs l, [], removed)
           | None =>
               let* skipped :=
                 if (size replay_condition =? 0)%nat then Ret O
                 else match replay_condition !! private_gpid (config l) with
                      | None => Abort
                      | Some d => Ret (skip_useless (private_gpid (config l)) d fs)
                      end in
               let* (err, end_offset, xs, replayed) :=
                 replay_logs file_close Read registered hdr_size fuel (drop skipped fs) 0 in
               let* l := note_all read_callback xs (set_map (take skipped fs ++ replayed) l) in
               let* l := finish_open err end_offset l in Ret (err, l, xs, removed)
           end)
       end)).

(** [close], from the point on where [flush] has written everything. *)
Definition close_flushed (l : mutation_log) : outcome mutation_log :=
  if negb (is_opened l) then Ret l
  else
    let* _ := match current_file l with
              | Ret (_, lf) => let* _ := close file_close lf in Ret tt
              | _ => Ret tt
              end in
    Ret (init_states l).

(** [open_log_file_map(dir)], every file of which must be a log file. *)
Fixpoint open_log_file_map (paths : list path) (fs : log_file_map_by_index)
  : outcome (error_code * log_file_map_by_index) :=
  match paths with
  | [] => Ret (ERR_OK, fs)
  | p :: paths =>
      let* (err, log, _) := open_read file_open file_size Read p in
      match log with
      | Some lf => if is_ok err then open_log_file_map paths (map_put (lf_index lf) lf fs) else Ret (err, fs)
      | None => Ret (err, fs)
      end
  end.

Definition check_dir_continuity (dir : path) : outcome error_code :=
  match get_subfiles dir with
  | None => Ret ERR_FILE_OPERATION_FAILED
  | Some paths =>
      let* (err, fs) := open_log_file_map paths [] in
      if negb (is_ok err) then Ret err else check_log_files_continuity fs
  end.

End Opening.

(** ** Replacing the log *)

(** What [reset_from] does to directories. *)
Inductive dir_op :=
| RemoveDir (d : path)
| RenameDir (from to : path).

(** The file system [open] and the check of a directory work on. *)
Record file_system := FileSystem {
  fs_path_exists : path -> bool;
  fs_create_directory : path -> bool;
  fs_get_subfiles : path -> option (list path);
  fs_file_open : path -> bool;
  fs_file_size : path -> option Z;
  fs_file_close : path -> bool;
  fs_Read : path -> Z -> Z -> option blob
}.

Section Reset.
(** The file system after some operations on directories, and whether one succeeds. *)
Context (fs_after : list dir_op -> file_system) (succeeds : dir_op -> bool).
Context (registered : task_code -> bool) (hdr_size : Z).

Definition open_on (fs : file_system) (fuel : nat) (read_callback : option (Z -> mutation -> bool)) (l : mutation_log)
  : outcome (error_code * mutation_log * list (Z * mutation) * list path) :=
  open (fs_path_exists fs) (fs_create_directory fs) (fs_get_subfiles fs) (fs_file_open fs) (fs_file_size fs)
    (fs_file_close fs) (fs_Read fs) registered hdr_size fuel read_callback ∅ l.

(** [reset_from(dir)]; [now_ns] makes the name of the temporary directory.  The operations
    on directories are listed in order, those of the two deferred actions at the end, the
    last one deferred first. *)
Definition reset_from (fuel : nat) (dir : path) (now_ns : Z) (read_callback : option (Z -> mutation -> bool)) (l : mutation_log)
  : outcome (error_code * mutation_log * list dir_op) :=
  let cur := ml_dir (config l) in
  let fs := fs_after [] in
  let* l := close_flushed (fs_file_close fs) l in
  let* es := check_dir_continuity (fs_get_subfiles fs) (fs_file_open fs) (fs_file_size fs) (fs_Read fs) dir in
  if negb (is_ok es) then
    Ret (if succeeds (RemoveDir dir) then es else ERR_FILE_OPERATION_FAILED, l, [RemoveDir dir])
  else
    let temp := cur ++ [c_dot] ++ StringConv.to_string now_ns in
    if negb (succeeds (RenameDir cur temp)) then Ret (ERR_FILE_OPERATION_FAILED, l, [RenameDir cur temp])
    else
      let temp_dir_resolve err :=
        if is_ok err then Ret [RemoveDir temp]
        else CHECK (succeeds (RenameDir temp cur)) (Ret [RenameDir temp cur]) in
      if negb (succeeds (RenameDir dir cur)) then
        let* ops := temp_dir_resolve ERR_OK in
        Ret (ERR_OK, l, [RenameDir cur temp; RenameDir dir cur] ++ ops)
      else
        let* (err, l, _, _) := open_on (fs_after [RenameDir cur temp; RenameDir dir cur]) fuel read_callback l in
        let* back := if is_ok err then Ret []
                     else CHECK (succeeds (RenameDir cur dir)) (Ret [RenameDir cur dir]) in
        let* ops := temp_dir_resolve err in
        Ret (err, l, [RenameDir cur temp; RenameDir dir cur] ++ back ++ ops).
End Reset.

End MutationLog.
