(* ===== verification/LogReset.v ===== *)
(** * Replacing the private log by the files of another directory

    What [mutation_log::reset_from] (replica/mutation_log.cpp) does to the directory of the
    log, the source directory and the temporary one: they are a map from paths to their
    contents, on which the operations that succeed take effect in order.  A reset that fails
    leaves both directories as they were; one that succeeds puts the source in place of the
    log; and one whose second rename fails reports success although it removed the log. *)
From S2P Require Import Prelude Crc StringConv Strings BinaryIO Mutation FileStreamer LogBlock LogFile LogReplay MutationLog.
Import Strings BinaryIO Mutation LogBlock LogFile LogReplay MutationLog.
Open Scope Z_scope.

Module LogReset.

Section Theory.
(** The contents of directories. *)
Context {content : Type}.

Definition dir_step (succeeds : dir_op -> bool) (dirs : gmap path content) (op : dir_op) : gmap path content :=
  if succeeds op then
    match op with
    | RemoveDir d => delete d dirs
    | RenameDir a b => match dirs !! a with None => dirs | Some c => <[b := c]> (delete a dirs) end
    end
  else dirs.

Definition dirs_after (succeeds : dir_op -> bool) : list dir_op -> gmap path content -> gmap path content :=
  fun ops dirs => fold_left (dir_step succeeds) ops dirs.

Lemma dirs_rename (succeeds : dir_op -> bool) (a b : path) (c : content) (dirs : gmap path content) :
  succeeds (RenameDir a b) = true -> dirs !! a = Some c -> dir_step succeeds dirs (RenameDir a b) = <[b := c]> (delete a dirs).
Proof. intros H E. unfold dir_step. by rewrite H, E. Qed.

(** Two renames, taken back in the opposite order. *)
Lemma renames_undone (cur dir temp : path) (old new : content) (dirs : gmap path content) :
  dirs !! cur = Some old -> dirs !! dir = Some new -> dirs !! temp = None -> dir <> cur ->
  <[cur := old]> (delete temp (<[dir := new]> (delete cur (<[cur := new]> (delete dir (<[temp := old]> (delete cur dirs))))))) = dirs.
Proof.
  intros Hc Hd Ht Hne. assert (dir <> temp /\ cur <> temp) as [N1 N2] by (split; congruence).
  apply map_eq. intros p.
  destruct (decide (p = cur)) as [->|]; [by simplify_map_eq|]. destruct (decide (p = dir)) as [->|]; [by simplify_map_eq|].
  destruct (decide (p = temp)) as [->|]; by simplify_map_eq.
Qed.
End Theory.

(** ** The state of the log *)

Lemma close_flushed_closed file_close l l' :
  close_flushed file_close l = Ret l' -> is_opened l' = false /\ config l' = config l.
Proof.
  unfold close_flushed. destruct (is_opened l) eqn:E; cbn [negb]; [|by intros [= <-]].
  destruct (current_file l) as [[k lf]| |]; cbn [obind]; [|by intros [= <-]..].
  destruct (close file_close lf); by intros [= <-].
Qed.

Lemma note_all_opened cb xs l l' : note_all cb xs l = Ret l' -> is_opened l' = is_opened l.
Proof.
  revert l; induction xs as [|[n m] xs IH]; intros l; cbn [note_all]; [by intros [= <-]|].
  destruct (note_replayed cb l (n, m)) as [l1| |] eqn:E; [|done|done]. cbn [obind]. intros ->%IH.
  revert E. unfold note_replayed, update_max_decree, update_max_decree_on_disk.
  destruct (from_option _ _ cb); [|by intros [= <-]].
  destruct (is_private (config l)) eqn:Ep; [|done]. cbn [CHECK]. destruct (bool_decide _); [|done]. cbn [CHECK obind].
  cbn [with_decrees config]. rewrite Ep. cbn [CHECK]. by intros [= <-].
Qed.

Lemma open_read_none file_open file_size Read p err b :
  open_read file_open file_size Read p = Ret (err, None, b) -> is_ok err = false.
Proof.
  unfold open_read. destruct (parse_log_file_name p) as [[i o]|]; [|by intros [= <- <-]].
  destruct (file_open p); cbn [negb]; [|by intros [= <- <-]]. destruct (new_log_file _ _ _ _ _) as [lf| |]; [|done|done]. cbn [obind].
  destruct (reset_stream _ _ _) as [lf'| |]; [|done|done]. cbn [obind].
  destruct (read_next_log_block _ _) as [[[e bb] lf2]| |]; [|done|done]. cbn [obind].
  destruct (bool_decide (e ∈ _)) eqn:Ee.
  { apply bool_decide_eq_true in Ee. intros [= <- <-]. unfold is_ok. apply bool_decide_eq_false. intros ->. clear -Ee. set_solver. }
  destruct (read_file_header _ _) as [[[? ?] ?]| |]; [|done|done]. cbn [obind].
  destruct (is_right_header _); cbn [negb]; by intros [= <- <-].
Qed.

Lemma open_files_stopped file_open file_size Read paths logs err logs' removed :
  open_files file_open file_size Read paths logs = Ret (Some err, logs', removed) -> is_ok err = false.
Proof.
  revert logs removed; induction paths as [|p paths IH]; intros logs removed; cbn [open_files]; [done|].
  destruct (open_read _ _ _ p) as [[[e [lf|]] b]| |] eqn:Er; cbn [obind]; [| |done|done].
  - destruct (map_find _ logs); [done|]. destruct (open_files _ _ _ _ _) as [[[st ls] rm]| |] eqn:Eo; [|done|done].
    cbn [obind]. intros [= -> -> _]. by eapply IH.
  - destruct (bool_decide _).
    + destruct (open_files _ _ _ _ _) as [[[st ls] rm]| |] eqn:Eo; [|done|done]. cbn [obind]. intros [= -> -> _]. by eapply IH.
    + intros [= <- _ _]. by eapply open_read_none.
Qed.

(** [open] opens the log exactly when it reports no error. *)
Lemma open_on_opened registered hdr_size fs fuel cb l err l' xs removed :
  open_on registered hdr_size fs fuel cb l = Ret (err, l', xs, removed) -> is_opened l' = is_ok err.
Proof.
  unfold open_on, open. destruct (is_opened l) eqn:Eo; [done|]. cbn [negb CHECK]. destruct (bool_decide _); [|done]. cbn [CHECK].
  destruct (_ && _); [by intros [= <- <- <- <-]|]. destruct (fs_get_subfiles fs _) as [paths|]; [|by intros [= <- <- <- <-]].
  destruct (_ || _); [|done]. cbn [CHECK].
  destruct (open_files _ _ _ _ _) as [[[[stop|] logs] rm]| |] eqn:Ef; cbn [obind]; [| |done|done].
  { intros [= <- <- <- <-]. cbn [with_files is_opened]. rewrite Eo. symmetry. by eapply open_files_stopped. }
  rewrite map_size_empty. cbn [Nat.eqb obind].
  destruct (replay_logs _ _ _ _ _ _ _) as [[[[e o] ys] logs']| |]; [|done|done]. cbn [obind].
  destruct (note_all _ _ _) as [l1| |] eqn:En; [|done|done]. cbn [obind].
  unfold finish_open. destruct (is_ok e) eqn:Ee; [by intros [= <- <- <- <-]|].
  destruct (close_all _ _) as [[]| |]; [|done|done]. cbn [obind]. by intros [= <- <- <- <-].
Qed.

(** ** The outcome *)

Section Outcome.
Context {content : Type} (fs_after : list dir_op -> file_system) (succeeds : dir_op -> bool).
Context (registered : task_code -> bool) (hdr_size : Z).

(** Where the log is moved to while its replacement is tried. *)
Definition temp_dir (cur : path) (now_ns : Z) : path := cur ++ [c_dot] ++ StringConv.to_string now_ns.

(** C16. When [reset_from] reports an error the log is closed and its directory, as every other one but
    possibly the source, is as it was.  When it reports success the source has taken the place
    of the log, which is opened, if the source could be renamed; if it could not, the log is
    closed and its directory is gone. *)
Theorem reset_from_outcome (fuel : nat) (dir : path) (now_ns : Z) (cb : option (Z -> mutation -> bool)) (l l' : mutation_log)
  (err : error_code) (ops : list dir_op) (dirs : gmap path content) (old new : content) :
  let cur := ml_dir (config l) in
  dirs !! cur = Some old -> dirs !! dir = Some new -> dirs !! temp_dir cur now_ns = None -> dir <> cur ->
  reset_from fs_after succeeds registered hdr_size fuel dir now_ns cb l = Ret (err, l', ops) ->
  let after := dirs_after succeeds ops dirs in
  if is_ok err then
    if succeeds (RenameDir dir cur) then after !! cur = Some new /\ after !! dir = None /\ is_opened l' = true
    else after !! cur = None /\ after !! dir = Some new /\ is_opened l' = false
  else (forall p, p <> dir -> after !! p = dirs !! p) /\ is_opened l' = false.
Proof.
  cbv zeta. intros Hc Hd Ht Hne. unfold reset_from. set (cur := ml_dir (config l)) in *.
  change (cur ++ [c_dot] ++ StringConv.to_string now_ns) with (temp_dir cur now_ns). set (temp := temp_dir cur now_ns) in *. clearbody temp cur.
  assert (dir <> temp /\ cur <> temp) as [N1 N2] by (split; congruence).
  destruct (close_flushed _ l) as [l1| |] eqn:Ec; [|done|done]. cbn [obind]. destruct (close_flushed_closed _ _ _ Ec) as [Ho _].
  destruct (check_dir_continuity _ _ _ _ dir) as [es| |]; [|done|done]. cbn [obind].
  destruct (is_ok es) eqn:Ees; cbn [negb].
  2:{ intros [= <- <- <-]. destruct (succeeds (RemoveDir dir)) eqn:Er; rewrite ?Ees; cbn [is_ok]; split; try done;
      intros p Hp; unfold dirs_after, dir_step; cbn [fold_left]; rewrite Er; [by rewrite lookup_delete_ne|done]. }
  destruct (succeeds (RenameDir cur temp)) eqn:E1; cbn [negb].
  2:{ intros [= <- <- <-]. split; [|done]. intros p Hp. unfold dirs_after, dir_step. cbn [fold_left]. by rewrite E1. }
  destruct (succeeds (RenameDir dir cur)) eqn:E2; cbn [negb].
  2:{ change (is_ok ERR_OK) with true. cbn [obind]. intros [= <- <- <-]. change (is_ok ERR_OK) with true. cbn [app].
      unfold dirs_after. cbn [fold_left]. rewrite (dirs_rename _ cur temp old) by done. unfold dir_step. rewrite E2.
      destruct (succeeds (RemoveDir temp)); split_and!; by simplify_map_eq. }
  destruct (open_on _ _ _ _ _ l1) as [[[[e l2] xs] rm]| |] eqn:Eop; [|done|done]. cbn [obind]. apply open_on_opened in Eop.
  destruct (is_ok e) eqn:Ee; cbn [obind].
  - intros [= <- <- <-]. rewrite Ee, Eop. cbn [app]. unfold dirs_after. cbn [fold_left].
    rewrite (dirs_rename _ cur temp old) by done. rewrite (dirs_rename _ dir cur new); [|done|by simplify_map_eq].
    unfold dir_step. destruct (succeeds (RemoveDir temp)); split_and!; by simplify_map_eq.
  - destruct (succeeds (RenameDir cur dir)) eqn:E3; [|done]. destruct (succeeds (RenameDir temp cur)) eqn:E4; [|done].
    cbn [CHECK obind app]. intros [= <- <- <-]. rewrite Ee. split; [|done]. intros p _. unfold dirs_after. cbn [fold_left].
    rewrite (dirs_rename _ cur temp old) by done. rewrite (dirs_rename _ dir cur new); [|done|by simplify_map_eq].
    rewrite (dirs_rename _ cur dir new); [|done|by simplify_map_eq]. rewrite (dirs_rename _ temp cur old); [|done|by simplify_map_eq].
    by rewrite renames_undone.
Qed.
End Outcome.

(** ** A log without files, reset from a directory without files *)

Definition empty_fs : file_system :=
  FileSystem (fun _ => true) (fun _ => true) (fun _ => Some []) (fun _ => false) (fun _ => None) (fun _ => true) (fun _ _ _ => None).

Definition sample_log : mutation_log := new_mutation_log (str "log"%string) 32 (Gpid 1 0).
Definition sample_dirs : gmap path Z := {[ str "log"%string := 1; str "learn"%string := 2 ]}.

Definition sample_reset (succeeds : dir_op -> bool) : outcome (error_code * mutation_log * list dir_op) :=
  reset_from (fun _ => empty_fs) succeeds (fun _ => true) 0 1 (str "learn"%string) 7 None sample_log.

Definition is_rename_of (d : path) (op : dir_op) : bool :=
  match op with RenameDir a _ => bool_decide (a = d) | RemoveDir _ => false end.

Lemma reset_from_outcome_witness : exists l' ops,
  sample_reset (fun _ => true) = Ret (ERR_OK, l', ops) /\
  (dirs_after (fun _ => true) ops sample_dirs !! str "log"%string = Some 2 /\
   dirs_after (fun _ => true) ops sample_dirs !! str "learn"%string = None /\ is_opened l' = true).
Proof.
  eexists _, _. split; [vm_compute; reflexivity|].
  refine (reset_from_outcome (fun _ => empty_fs) (fun _ => true) (fun _ => true) 0 1 (str "learn"%string) 7 None sample_log _ ERR_OK _
    sample_dirs 1 2 _ _ _ _ _); [reflexivity|reflexivity|reflexivity|by vm_compute|vm_compute; reflexivity].
Defined.

(** When the source cannot be renamed, the log is removed, and the reset reported as done. *)
Lemma reset_from_drops_log :
  match sample_reset (fun op => negb (is_rename_of (str "learn"%string) op)) with
  | Ret (err, l', ops) => err = ERR_OK /\ is_opened l' = false /\
      dirs_after (fun op => negb (is_rename_of (str "learn"%string) op)) ops sample_dirs = {[ str "learn"%string := 2 ]}
  | _ => False
  end.
Proof. by vm_compute. Qed.

End LogReset.
