(* ===== verification/LogTheory.v ===== *)
(** * The private log keeps a chain of files

    Theory of [MutationLog].  [log_rep] relates the state of the log to the segments its files
    hold: they form a chain, the log ends where the last one does, and the buffer that fills
    starts there.  Every operation keeps it, and none of the assertions of the code fails. *)
From stdpp Require Import sorting.
From S2P Require Import Prelude Endians BinaryIO Mutation Crc StringConv Strings FileStreamer LogBlock LogFile LogReplay MutationLog.

Module LogTheory.
Import BinaryIO Mutation Crc LogBlock LogFile LogReplay MutationLog.

#[local] Opaque crc32_calc.

(** ** Ordered maps *)

Definition keys_below {A : Type} (k : Z) (l : list (Z * A)) : Prop := Forall (fun kv => kv.1 < k) l.

Lemma map_put_new {A : Type} k (v : A) l : keys_below k l -> map_put k v l = l ++ [(k, v)].
Proof.
  induction 1 as [|[k' v'] l Hlt HF IH]; [done|]. cbn in *.
  destruct (Z.ltb_spec k k'); [lia|]. destruct (Z.eqb_spec k k'); [lia|]. by rewrite IH.
Qed.

Lemma map_put_last {A : Type} k (v v' : A) l : keys_below k l -> map_put k v (l ++ [(k, v')]) = l ++ [(k, v)].
Proof.
  induction 1 as [|[k' w] l Hlt HF IH]; cbn in *.
  - by rewrite Z.ltb_irrefl, Z.eqb_refl.
  - destruct (Z.ltb_spec k k'); [lia|]. destruct (Z.eqb_spec k k'); [lia|]. by rewrite IH.
Qed.

Lemma map_find_below {A : Type} k (l : list (Z * A)) : keys_below k l -> map_find k l = None.
Proof. induction 1 as [|[k' v'] l Hlt HF IH]; [done|]. cbn in *. by destruct (Z.eqb_spec k k'); [lia|]. Qed.

Lemma map_find_last {A : Type} k (v : A) l : keys_below k l -> map_find k (l ++ [(k, v)]) = Some v.
Proof.
  induction 1 as [|[k' v'] l Hlt HF IH]; cbn in *; [by rewrite Z.eqb_refl|]. by destruct (Z.eqb_spec k k'); [lia|].
Qed.

Lemma map_find_app {A : Type} k (v : A) l l' : map_find k l = Some v -> map_find k (l ++ l') = Some v.
Proof. induction l as [|[k' v'] l IH]; cbn; [done|]. by destruct (k =? k'). Qed.

Lemma map_find_put {A : Type} k k' (v v' : A) l :
  map_find k l = Some v -> keys_below k' l -> map_find k (map_put k' v' l) = Some v.
Proof. intros Hk Hb. rewrite map_put_new by done. by apply map_find_app. Qed.

(** The last entry replaced by one that differs in neither mode nor name. *)
Lemma map_find_replace k k' (lf lf1 lf2 : log_file) fs :
  keys_below k' fs -> map_find k (fs ++ [(k', lf1)]) = Some lf -> lf_is_read lf2 = lf_is_read lf1 -> lf_path lf2 = lf_path lf1 ->
  exists lf', map_find k (fs ++ [(k', lf2)]) = Some lf' /\ lf_is_read lf' = lf_is_read lf /\ lf_path lf' = lf_path lf.
Proof.
  intros Hb Hk E1 E2. induction Hb as [|[k1 v1] fs Hlt Hb IH]; cbn in *.
  - destruct (k =? k'); [|done]. injection Hk as <-. by exists lf2.
  - destruct (k =? k1); [|by apply IH]. injection Hk as <-. by exists v1.
Qed.

(** The files of a log stay what they were opened for. *)
Definition files_kept (l l' : mutation_log) : Prop :=
  forall k lf, map_find k (files (on_files l)) = Some lf ->
    exists lf', map_find k (files (on_files l')) = Some lf' /\ lf_is_read lf' = lf_is_read lf /\ lf_path lf' = lf_path lf.

Lemma files_kept_same l l' : files (on_files l') = files (on_files l) -> files_kept l l'.
Proof. intros E k lf H. exists lf. by rewrite E. Qed.

Lemma files_kept_trans a b c : files_kept a b -> files_kept b c -> files_kept a c.
Proof.
  intros H1 H2 k lf Hk. destruct (H1 k lf Hk) as (lf1 & Hk1 & E1 & E2). destruct (H2 k lf1 Hk1) as (lf2 & Hk2 & E3 & E4).
  exists lf2. split_and!; [done|congruence|congruence].
Qed.

Section Theory.
Context (registered : task_code -> bool) (g : gpid) (dir : path).
Context (iteration : replica_log_info_map -> list (gpid * replica_log_info)).
Context (iteration_ok : forall m, iteration m ≡ₚ map_to_list m).

Local Abbreviation sg_first := (sg_first iteration).
Local Abbreviation sg_end := (sg_end iteration).
Local Abbreviation sg_wire := (sg_wire iteration).
Local Abbreviation sg_whole := (sg_whole iteration).
Local Abbreviation sg_bodies := (sg_bodies iteration).
Local Abbreviation sg_header := (sg_header iteration).
Local Abbreviation segment_ok := (segment_ok registered g iteration).
Local Abbreviation chained := (chained iteration).
Local Abbreviation group_loggable := (group_loggable registered g).

(** ** Chains *)

Lemma chained_snoc i o sgs sg :
  chained i o sgs -> sgs <> [] ->
  (forall x, last sgs = Some x -> sg_index sg = sg_index x + 1 /\ sg_start sg = sg_end x) ->
  chained i o (sgs ++ [sg]).
Proof.
  revert i o; induction sgs as [|x sgs IH]; intros i o Hch Hne Hl; [done|]. cbn in *. destruct Hch as (Ei & Eo & Hch).
  split_and!; [done|done|]. destruct sgs as [|y sgs].
  - cbn in *. destruct (Hl x eq_refl) as [E1 E2]. split_and!; [lia|done|done].
  - apply IH; [done|done|]. intros z Hz. by apply Hl.
Qed.

Lemma chained_prefix i o sgs sg : chained i o (sgs ++ [sg]) -> chained i o sgs.
Proof. revert i o; induction sgs as [|x sgs IH]; intros i o; [done|]. cbn. intros (? & ? & ?). split_and!; eauto. Qed.

(** The last segment replaced by one with the same index and start. *)
Lemma chained_replace i o sgs sg sg' :
  sg_index sg' = sg_index sg -> sg_start sg' = sg_start sg -> chained i o (sgs ++ [sg]) -> chained i o (sgs ++ [sg']).
Proof.
  intros E1 E2. revert i o; induction sgs as [|x sgs IH]; intros i o; cbn.
  - intros (? & ? & _). split_and!; [congruence|congruence|done].
  - intros (? & ? & ?). split_and!; [done|done|by apply IH].
Qed.

(** ** The state of the log *)

Record file_rep (sg : segment) (kv : Z * log_file) : Prop := FileRep {
  fr_key : kv.1 = sg_index sg;
  fr_index : lf_index kv.2 = sg_index sg;
  fr_start : lf_start_offset kv.2 = sg_start sg;
  fr_end : lf_end_offset kv.2 = sg_start sg + Z.of_nat (length (sg_wire sg));
  fr_previous : previous_log_max_decrees kv.2 = sg_previous sg;
  fr_path : lf_path kv.2 = log_file_name dir (sg_index sg) (sg_start sg)
}.

(** The file that is written. *)
Definition writable (sg : segment) (lf : log_file) : Prop :=
  lf_is_read lf = false /\ lf_handle lf = true /\ lf_crc32 lf = crc_after 0 (sg_bodies sg) /\ sg_torn sg = [].

Definition gpid_ok (g : gpid) : Prop := int32_ok (app_id g) /\ int32_ok (partition_index g).
Definition log_info_ok (i : replica_log_info) : Prop := int64_ok (max_decree i) /\ int64_ok (valid_start_offset i).

Record log_rep (l : mutation_log) (sgs : list segment) : Prop := LogRep {
  lr_private : is_private (config l) = true;
  lr_gpid : private_gpid (config l) = g /\ gpid_ok g;
  lr_dir : ml_dir (config l) = dir /\ Z.of_nat (length dir) <= 400;
  lr_info : log_info_ok (private_log_info (decrees l));
  lr_chain : exists i o, 0 <= i /\ chained i o sgs;
  lr_ok : Forall segment_ok sgs;
  lr_files : Forall2 file_rep sgs (files (on_files l));
  lr_index : 0 <= last_file_index (on_files l) /\ 0 <= global_end_offset (on_files l);
  lr_last : forall sg, last sgs = Some sg ->
    sg_end sg = global_end_offset (on_files l) /\ sg_index sg = last_file_index (on_files l);
  lr_current : forall k, current_log_file (on_files l) = Some k ->
    exists sg lf, last sgs = Some sg /\ k = sg_index sg /\ map_find k (files (on_files l)) = Some lf /\ writable sg lf;
  lr_pending : forall a, pending_write (buffers l) = Some a ->
    current_log_file (on_files l) <> None /\
    exists gs, appender_rep (global_end_offset (on_files l)) gs a /\ Forall group_loggable gs;
  lr_pending_max : int64_ok (pending_write_max_decree (buffers l))
}.

Lemma chained_below i o sgs sg fs :
  chained i o (sgs ++ [sg]) -> Forall2 file_rep sgs fs -> keys_below (sg_index sg) fs.
Proof.
  intros Hch H2. revert i o Hch. induction H2 as [|x kv sgs fs Hx H2 IH]; intros i o Hch; [constructor|].
  cbn in Hch. destruct Hch as (Ei & _ & Hch). constructor; [|by eapply IH]. rewrite (fr_key _ _ Hx), Ei.
  assert (forall i o l, chained i o (l ++ [sg]) -> i <= sg_index sg) as Hle; [|apply Hle in Hch; lia].
  clear. intros i o l. revert i o. induction l as [|x l IH]; intros i o; cbn; [lia|]. intros (_ & _ & H). apply IH in H. lia.
Qed.

(** The files when there is a last one. *)
Lemma files_last l sgs sg :
  log_rep l (sgs ++ [sg]) ->
  exists fs lf, files (on_files l) = fs ++ [(sg_index sg, lf)] /\ Forall2 file_rep sgs fs /\
    file_rep sg (sg_index sg, lf) /\ keys_below (sg_index sg) fs.
Proof.
  intros H. destruct (lr_chain _ _ H) as (i & o & _ & Hch).
  destruct (proj1 (Forall2_app_inv_l _ _ _ _) (lr_files _ _ H)) as (fs & l2 & H1 & H2 & E).
  inversion H2 as [|? [k lf] ? ? Hf H3]; subst. inversion H3; subst. pose proof (fr_key _ _ Hf) as Ek. cbn in Ek. subst k.
  exists fs, lf. split_and!; [done|done|done|]. by eapply chained_below.
Qed.

Lemma below_next l sgs : log_rep l sgs -> keys_below (last_file_index (on_files l) + 1) (files (on_files l)).
Proof.
  intros H. destruct sgs as [|sg sgs _] using rev_ind.
  { pose proof (lr_files _ _ H) as H2. inversion H2. constructor. }
  destruct (files_last _ _ _ H) as (fs & lf & -> & _ & _ & Hb). destruct (lr_last _ _ H sg) as [_ Ei]; [apply last_snoc|].
  apply Forall_app. split; [eapply Forall_impl; [exact Hb|]; cbn; lia|]. apply Forall_singleton. cbn. lia.
Qed.

(** ** A new file *)

Definition fresh_segment (l : mutation_log) : segment :=
  Segment (last_file_index (on_files l) + 1) (global_end_offset (on_files l))
    {[ private_gpid (config l) := private_log_info (decrees l) ]} [] [].

Lemma sg_first_fresh l : sg_first (fresh_segment l) = 60.
Proof using iteration_ok.
  unfold LogReplay.sg_first, LogReplay.sg_header. cbn [fresh_segment sg_start sg_previous].
  rewrite (length_file_header_wire iteration iteration_ok), map_size_singleton. done.
Qed.

(** What a new file needs: room in the numbers, and a name that is free. *)
Record can_create (path_exists file_open : path -> bool) (l : mutation_log) : Prop := CanCreate {
  cc_index : last_file_index (on_files l) < INT32_MAX;
  cc_offset : global_end_offset (on_files l) + 60 <= INT64_MAX;
  cc_path : let p := log_file_name (ml_dir (config l)) (last_file_index (on_files l) + 1) (global_end_offset (on_files l)) in
    path_exists p = false /\ file_open p = true
}.

Lemma fresh_segment_ok path_exists file_open l sgs :
  log_rep l sgs -> can_create path_exists file_open l -> segment_ok (fresh_segment l).
Proof using iteration_ok.
  intros H [Hi Ho _]. pose proof (lr_index _ _ H) as [Hi0 Ho0]. unfold INT32_MAX, INT64_MAX in *. split.
  - unfold int32_ok. cbn. lia.
  - cbn. lia.
  - split.
    + cbn [fresh_segment sg_previous]. rewrite map_to_list_singleton. apply Forall_singleton.
      pose proof (lr_gpid _ _ H) as [-> []]. pose proof (lr_info _ _ H) as []. by split_and!.
    + cbn [fresh_segment sg_previous]. rewrite map_size_singleton. done.
  - constructor.
  - apply torn_nil.
  - unfold LogReplay.sg_end. rewrite sg_first_fresh. cbn [fresh_segment sg_start sg_groups groups_size]. unfold INT64_MAX. lia.
Qed.

Lemma length_to_string z : (length (StringConv.to_string z) <= 21)%nat.
Proof.
  assert (forall fuel n, (length (StringConv.decimal fuel n) <= fuel)%nat) as Hd.
  { induction fuel as [|fuel IH]; intros n; cbn [StringConv.decimal length]; [done|].
    destruct (n <? 10); [cbn; lia|]. rewrite length_app. specialize (IH (n / 10)). cbn. lia. }
  unfold StringConv.to_string. destruct (z <? 0); cbn [length]; [pose proof (Hd 20%nat (- z))|pose proof (Hd 20%nat z)]; lia.
Qed.

Lemma log_file_name_fits l sgs i o :
  log_rep l sgs -> (Z.of_nat (length (log_file_name (ml_dir (config l)) i o)) >=? 512) = false.
Proof.
  intros H. pose proof (lr_dir _ _ H) as [-> ?]. unfold log_file_name. rewrite !length_app.
  pose proof (length_to_string i). pose proof (length_to_string o).
  destruct (Z.geb_spec (Z.of_nat (length dir + (length [c_slash] + (length kLogPrefix +
    (length (StringConv.to_string i) + (length [c_dot] + length (StringConv.to_string o))))))%nat) 512) as [Hge|]; [|done].
  change (length kLogPrefix) with 4%nat in Hge. cbn [length] in Hge. lia.
Qed.

Lemma sg_whole_fresh l : sg_whole (fresh_segment l) = block_wire 0 0 (sg_header (fresh_segment l)).
Proof. unfold LogReplay.sg_whole, LogReplay.sg_bodies. cbn [bodies_wire fresh_segment sg_groups group_bodies]. apply app_nil_r. Qed.

Section Creating.
Context (path_exists file_open : path -> bool).

(** The state with the new file as the current one. *)
Definition with_new_file (lf : log_file) (l : mutation_log) : mutation_log :=
  let index := last_file_index (on_files l) + 1 in
  with_files (fun s => LogFiles (switch_file_hint s) (switch_file_demand s) index (map_put index lf (files s)) (Some index)
    (global_start_offset s) (global_end_offset s + 60)) l.

Lemma create_new_log_file_spec l sgs :
  log_rep l sgs -> can_create path_exists file_open l ->
  exists lf, create_new_log_file path_exists file_open iteration l =
      Ret (ERR_OK, with_new_file lf l,
           [WriteHeader (last_file_index (on_files l) + 1) 0 (sg_whole (fresh_segment l))]) /\
    file_rep (fresh_segment l) (last_file_index (on_files l) + 1, lf) /\ writable (fresh_segment l) lf.
Proof using iteration_ok.
  intros H Hcc. pose proof (fresh_segment_ok _ _ _ _ H Hcc) as Hok. destruct Hcc as [Hi Ho [Hp1 Hp2]].
  pose proof (lr_index _ _ H) as [Hi0 Ho0]. unfold create_new_log_file, create_write. cbv zeta.
  rewrite (log_file_name_fits l sgs _ _ H), Hp1, Hp2. cbn [negb new_log_file obind].
  set (lf0 := LogFileObj _ _ _ _ _ _ _ _ _ _ _). cbn [lf_end_offset lf_start_offset lf0]. rewrite !Z.eqb_refl. cbn [CHECK].
  rewrite (map_find_below _ _ (below_next _ _ H)), bool_decide_eq_true_2, (lr_private _ _ H) by done. cbn [CHECK].
  assert (ReplicaLogInfo (max_decree (private_log_info (decrees l))) (valid_start_offset (private_log_info (decrees l)))
    = private_log_info (decrees l)) as -> by (by destruct (private_log_info (decrees l))).
  pose proof (write_file_header_rep iteration iteration_ok (sg_previous (fresh_segment l)) lf0 (sgo_previous _ _ _ _ Hok)) as Hw.
  cbn [fresh_segment sg_previous] in Hw. destruct (write_file_header _ _ _ _) as [[len w] lf1]. destruct Hw as (Ew & Elen & Elf).
  change (file_header_wire iteration (lf_start_offset lf0) _) with (sg_header (fresh_segment l)) in Ew, Elen.
  rewrite Ew. subst lf1. set (lf1 := with_file_header _ _ lf0).
  rewrite commit_log_block_raw; [|done|done|done|cbn; lia]. cbn [obind].
  pose proof (sg_first_fresh l) as Ef. unfold LogReplay.sg_first in Ef.
  assert (lb_size (add (sg_header (fresh_segment l)) (new_log_block 0)) = 60) as Es.
  { unfold new_log_block, init. rewrite header_written. cbn [add lb_size]. rewrite <- Ef. done. }
  rewrite Es, Elen. cbn [lf_start_offset lf1 with_end_offset with_crc with_file_header lf0].
  rewrite <- Z.add_assoc, Ef, Z.eqb_refl. cbn [CHECK]. rewrite Z.sub_diag.
  eexists. split; [rewrite sg_whole_fresh; reflexivity|]. split.
  - split; cbn [fst snd fresh_segment sg_index sg_start sg_previous lf_index lf_start_offset lf_end_offset previous_log_max_decrees
      with_end_offset with_crc with_file_header lf1 lf0]; [done|done|done| |done|cbn; by rewrite (proj1 (lr_dir _ _ H))].
    unfold LogReplay.sg_wire. cbn [sg_torn fresh_segment]. fold (fresh_segment l).
    rewrite app_nil_r, sg_whole_fresh, length_block_wire. lia.
  - unfold writable. by split_and!.
Qed.

Lemma with_new_file_rep lf l sgs :
  log_rep l sgs -> can_create path_exists file_open l -> pending_write (buffers l) = None ->
  file_rep (fresh_segment l) (last_file_index (on_files l) + 1, lf) -> writable (fresh_segment l) lf ->
  log_rep (with_new_file lf l) (sgs ++ [fresh_segment l]).
Proof using iteration_ok.
  intros H Hcc Hp Hfr Hwr. pose proof (fresh_segment_ok _ _ _ _ H Hcc) as Hok. pose proof (lr_index _ _ H) as [Hi0 Ho0].
  pose proof (below_next _ _ H) as Hb. destruct H as [H1 H2 H3 H4 (i & o & Hi & Hch) H6 H7 H8 H9 H10 H11 H12].
  split; cbn [with_new_file with_files config decrees buffers on_files files last_file_index global_end_offset current_log_file]; try done.
  - destruct sgs as [|x sgs]; [exists (last_file_index (on_files l) + 1), (global_end_offset (on_files l)); split; [lia|by cbn]|].
    exists i, o. split; [done|]. apply chained_snoc; [done|done|]. intros y Hy. destruct (H9 y Hy) as [E1 E2].
    cbn [fresh_segment sg_index sg_start]. split; [lia|done].
  - apply Forall_app. split; [done|]. by apply Forall_singleton.
  - rewrite map_put_new by done. apply Forall2_app; [done|]. constructor; [done|constructor].
  - lia.
  - intros sg. rewrite last_snoc. intros [= <-]. unfold LogReplay.sg_end. rewrite sg_first_fresh.
    cbn [fresh_segment sg_start sg_index sg_groups groups_size]. split; lia.
  - intros k [= <-]. exists (fresh_segment l), lf. rewrite last_snoc, map_put_new by done. split_and!; [done|done| |done].
    by apply map_find_last.
  - intros a Ha. by rewrite Hp in Ha.
Qed.

(** Where the next buffer starts: in the current file, or in a new one. *)
Lemma mark_new_offset_spec l sgs :
  log_rep l sgs -> pending_write (buffers l) = None ->
  (must_create l = Ret true -> can_create path_exists file_open l) ->
  exists l' io sgs', mark_new_offset path_exists file_open iteration 0 true l = Ret (global_end_offset (on_files l'), l', io) /\
    log_rep l' sgs' /\ current_log_file (on_files l') <> None /\
    config l' = config l /\ decrees l' = decrees l /\ buffers l' = buffers l /\ is_opened l' = is_opened l /\ files_kept l l' /\
    ((sgs' = sgs /\ io = [] /\ l' = l) \/
     (sgs' = sgs ++ [fresh_segment l] /\ can_create path_exists file_open l /\
      io = [WriteHeader (sg_index (fresh_segment l)) 0 (sg_whole (fresh_segment l))] /\
      global_start_offset (on_files l') = global_start_offset (on_files l))).
Proof using iteration_ok.
  intros H Hp Hcc. unfold mark_new_offset.
  assert (exists b, must_create l = Ret b /\ (b = false -> current_log_file (on_files l) <> None)) as (b & Eb & Hcur).
  { unfold must_create, current_file. destruct (current_log_file (on_files l)) as [k|] eqn:Ek; [|by exists true].
    destruct (lr_current _ _ H k Ek) as (sg & lf & _ & _ & E & _). cbn [deref obind]. rewrite E. cbn [deref obind].
    eexists. split; [reflexivity|done]. }
  rewrite Eb. cbn [obind]. destruct b; cbn [obind].
  - specialize (Hcc Eb). destruct (create_new_log_file_spec l sgs H Hcc) as (lf & -> & Hfr & Hwr). ok_step. cbn [CHECK]. ok_step.
    pose proof (with_new_file_rep lf l sgs H Hcc Hp Hfr Hwr) as Hrep.
    do 3 eexists. split; [rewrite Z.add_0_r; reflexivity|]. split; [|split_and!; [done..| |by right]].
    2:{ intros k lf' Hk. exists lf'. split; [|done]. by apply map_find_put; [|eapply below_next]. }
    destruct Hrep as [R1 R2 R3 R4 R5 R6 R7 R8 R9 R10 R11 R12]. by split.
  - assert (set_global_end (global_end_offset (on_files l) + 0) l = l) as ->.
    { rewrite Z.add_0_r. by destruct l as [? ? [] ? ?]. }
    exists l, [], sgs. split_and!; [done|exact H|by apply Hcur|done|done|done|done|by apply files_kept_same|by left].
Qed.
End Creating.

(** ** Writing the buffer *)

Definition extend (gs : list (list mutation)) (sg : segment) : segment :=
  Segment (sg_index sg) (sg_start sg) (sg_previous sg) (sg_groups sg ++ gs) (sg_torn sg).

Lemma extend_whole gs sg :
  sg_whole (extend gs sg) = sg_whole sg ++
    bodies_wire (crc_after 0 (sg_bodies sg)) (sg_first sg + groups_size (sg_groups sg)) (group_bodies (sg_end sg) gs).
Proof.
  unfold LogReplay.sg_whole. assert (sg_bodies (extend gs sg) = sg_bodies sg ++ group_bodies (sg_end sg) gs) as ->.
  { unfold LogReplay.sg_bodies, LogReplay.sg_end. cbn [extend sg_groups sg_start app]. by rewrite group_bodies_app. }
  rewrite bodies_wire_app. fold (sg_whole sg). by rewrite length_sg_whole, Z.add_0_l.
Qed.

Lemma extend_bodies gs sg : sg_bodies (extend gs sg) = sg_bodies sg ++ group_bodies (sg_end sg) gs.
Proof. unfold LogReplay.sg_bodies, LogReplay.sg_end. cbn [extend sg_groups sg_start app]. by rewrite group_bodies_app. Qed.

Lemma extend_end gs sg : sg_end (extend gs sg) = sg_end sg + groups_size gs.
Proof.
  unfold LogReplay.sg_end. change (sg_first (extend gs sg)) with (sg_first sg). cbn [extend sg_start sg_groups].
  rewrite groups_size_app. lia.
Qed.

Lemma extend_ok gs sg :
  segment_ok sg -> sg_torn sg = [] -> Forall group_loggable gs -> sg_end sg + groups_size gs <= INT64_MAX ->
  segment_ok (extend gs sg).
Proof.
  intros [H1 H2 H3 H4 H5 H6] Ht Hgs Hlim. split; [done|done|done|by apply Forall_app| |by rewrite extend_end].
  cbn [extend sg_torn]. rewrite Ht. apply torn_nil.
Qed.

Lemma log_mutations_snoc sgs sg : log_mutations iteration (sgs ++ [sg]) = log_mutations iteration sgs ++ sg_mutations iteration sg.
Proof. unfold log_mutations. rewrite map_app, concat_app. cbn. by rewrite app_nil_r. Qed.

Lemma extend_mutations gs sg a :
  appender_rep (sg_end sg) gs a -> sg_mutations iteration (extend gs sg) = sg_mutations iteration sg ++ mutations a.
Proof.
  intros Ha. unfold sg_mutations. change (LogReplay.sg_first iteration (extend gs sg)) with (sg_first sg). cbn [extend sg_start sg_groups].
  rewrite place_groups_app. f_equal. by rewrite (ar_mutations _ _ _ Ha).
Qed.

(** The file object after the write was issued. *)
Definition grown (gs : list (list mutation)) (sg : segment) (lf : log_file) : log_file :=
  with_end_offset (lf_end_offset lf + groups_size gs)
    (with_crc (crc_after (crc_after 0 (sg_bodies sg)) (group_bodies (sg_end sg) gs)) lf).

Lemma grown_file gs sg lf :
  file_rep sg (sg_index sg, lf) -> writable sg lf ->
  file_rep (extend gs sg) (sg_index sg, grown gs sg lf) /\ writable (extend gs sg) (grown gs sg lf).
Proof.
  intros [F1 F2 F3 F4 F5 F6] (W1 & W2 & W3 & W4). cbn [fst snd] in *. split.
  - split; cbn [fst snd grown with_end_offset with_crc lf_index lf_start_offset lf_end_offset previous_log_max_decrees lf_path
      extend sg_index sg_start sg_previous]; try done.
    rewrite F4. unfold LogReplay.sg_wire. change (sg_torn (extend gs sg)) with (sg_torn sg).
    rewrite W4, !app_nil_r, !length_sg_whole. change (sg_first (extend gs sg)) with (sg_first sg).
    cbn [extend sg_groups]. rewrite groups_size_app. lia.
  - unfold writable. cbn [grown with_end_offset with_crc lf_is_read lf_handle lf_crc32 extend sg_torn].
    by rewrite extend_bodies, crc_after_app.
Qed.

(** The write that was issued for a buffer. *)
Definition buffer_write (sg : segment) (gs : list (list mutation)) (a : log_appender) (d c : Z) : log_io :=
  WriteBuffer (sg_index sg) (sg_first sg + groups_size (sg_groups sg))
    (bodies_wire (crc_after 0 (sg_bodies sg)) (sg_first sg + groups_size (sg_groups sg)) (group_bodies (sg_end sg) gs)) a d c.

(** A buffer was issued to the file of the segment. *)
Definition issued_to (sg : segment) (gs : list (list mutation)) (a : log_appender) (l : mutation_log) : Prop :=
  sg_torn sg = [] /\ appender_rep (sg_end sg) gs a /\
  exists lf, map_find (sg_index sg) (files (on_files l)) = Some lf /\ lf_is_read lf = false.

Section Writing.
Context (path_exists file_open : path -> bool).

(** The state after the buffer was issued. *)
Lemma write_pending_spec l sgs a gs :
  log_rep l sgs -> is_writing (buffers l) = false -> pending_write (buffers l) = Some a ->
  appender_rep (global_end_offset (on_files l)) gs a -> Forall group_loggable gs ->
  global_end_offset (on_files l) + groups_size gs <= INT64_MAX ->
  exists sgs0 sg l', sgs = sgs0 ++ [sg] /\
    write_pending_mutations path_exists file_open iteration l =
      Ret (l', [buffer_write sg gs a (pending_write_max_decree (buffers l)) (pending_write_max_commit (buffers l))]) /\
    log_rep l' (sgs0 ++ [extend gs sg]) /\ current_log_file (on_files l') = Some (sg_index sg) /\ files_kept l l' /\
    issued_to sg gs a l' /\
    config l' = config l /\ is_opened l' = is_opened l /\ buffers l' = LogBuffers true (Some a) None 0 0 /\
    global_start_offset (on_files l') = global_start_offset (on_files l) /\
    private_log_info (decrees l') = ReplicaLogInfo
      (Z.max (pending_write_max_decree (buffers l)) (max_decree (private_log_info (decrees l))))
      (valid_start_offset (private_log_info (decrees l))).
Proof.
  intros H Hw Hp Ha Hgs Hlim. destruct (lr_pending _ _ H a Hp) as [Hcur _].
  destruct (current_log_file (on_files l)) as [k|] eqn:Ek; [|done].
  destruct (lr_current _ _ H k Ek) as (sg & lf & Hl & -> & Hf & Hwr & Hh & Hcrc & Ht).
  apply last_Some in Hl as (sgs0 & ->). exists sgs0, sg.
  destruct (files_last _ _ _ H) as (fs & lf' & Efs & Hfs & Hfr & Hb).
  assert (lf' = lf) as -> by (rewrite Efs, map_find_last in Hf by done; congruence).
  destruct (lr_last _ _ H sg ltac:(apply last_snoc)) as [Eend Eidx].
  unfold write_pending_mutations. rewrite Hw, Hp. cbn [negb CHECK]. rewrite (appender_size_rep _ _ _ Ha). cbn [obind].
  pose proof (appender_pos _ _ _ Ha) as Hpos. rewrite (proj2 (Z.gtb_lt _ _)) by lia. cbn [CHECK].
  unfold mark_new_offset. rewrite Ek. cbn [obind]. rewrite (appender_start_rep _ _ _ Ha). cbn [obind].
  rewrite Z.eqb_refl. cbn [CHECK]. unfold update_max_decree. cbn [config set_global_end with_files].
  rewrite (lr_private _ _ H), bool_decide_eq_true_2 by done. cbn [CHECK obind].
  unfold current_file. cbn [on_files with_buffers with_decrees set_global_end with_files current_log_file files].
  rewrite Ek. cbn [deref obind]. rewrite Hf. cbn [deref obind].
  pose proof (fr_start _ _ Hfr) as Est. pose proof (fr_end _ _ Hfr) as Elf. cbn [snd] in Est, Elf.
  pose proof (groups_size_nonneg (sg_groups sg)) as Hgn.
  pose proof (lr_ok _ _ H) as Hoks. apply Forall_app in Hoks as [Hoks [Hok _]%Forall_cons].
  assert (0 <= sg_first sg) as Hfp by (unfold LogReplay.sg_first, sizeof_log_block_header; lia).
  assert (global_end_offset (on_files l) - sg_start sg = sg_first sg + groups_size (sg_groups sg)) as Eo
    by (rewrite <- Eend; unfold LogReplay.sg_end; lia).
  pose proof (sgo_start _ _ _ _ Hok) as Hst0. unfold INT64_MAX in Hlim.
  rewrite (commit_log_blocks_rep _ gs a lf Ha Hwr Hh); [|rewrite Hcrc; by apply crc_after_range|rewrite Est; lia].
  cbn [obind]. rewrite Est, Eo, Hcrc, <- Eend.
  destruct (grown_file gs sg lf Hfr (conj Hwr (conj Hh (conj Hcrc Ht)))) as [Hfr2 Hwr2].
  assert (lf_path (grown gs sg lf) = lf_path lf) as Ep2 by done. change (with_end_offset _ _) with (grown gs sg lf).
  set (lf2 := grown gs sg lf) in *. clearbody lf2. eexists. split; [done|]. split; [reflexivity|].
  split; [|split_and!; [done| | |done|done|done|done|]].
  - destruct H as [H1 H2 H3 H4 (i & o & Hi & Hch) H6 H7 H8 H9 H10 H11 H12].
    split; cbn [put_file with_buffers with_decrees set_global_end with_files config is_opened on_files decrees buffers files
      last_file_index current_log_file global_end_offset private_log_info pending_write pending_write_max_decree]; try done.
    + destruct H4. destruct (Z.gtb_spec (pending_write_max_decree (buffers l)) (max_decree (private_log_info (decrees l)))); by split.
    + exists i, o. split; [done|]. by eapply chained_replace; [..|exact Hch].
    + apply Forall_app. split; [done|]. apply Forall_singleton. apply extend_ok; [done|done|done|]. rewrite Eend. unfold INT64_MAX. lia.
    + rewrite Efs, map_put_last by done. apply Forall2_app; [done|]. by constructor; [|constructor].
    + lia.
    + intros x. rewrite last_snoc. intros [= <-]. rewrite extend_end. done.
    + intros k. rewrite Ek. intros [= <-]. exists (extend gs sg), lf2. rewrite last_snoc, Efs, map_put_last, map_find_last by done.
      by split_and!.
  - intros k lf' Hk. cbn [put_file with_buffers with_decrees set_global_end with_files on_files files]. rewrite Efs in Hk |- *.
    rewrite map_put_last by done. eapply map_find_replace; [exact Hb|exact Hk|by rewrite (proj1 Hwr2)|done].
  - split_and!; [done|by rewrite Eend|]. exists lf2. cbn [put_file with_buffers with_decrees set_global_end with_files on_files files].
    rewrite Efs, map_put_last, map_find_last by done. split; [done|apply Hwr2].
  - cbn [put_file with_buffers with_decrees set_global_end with_files decrees private_log_info].
    destruct (Z.gtb_spec (pending_write_max_decree (buffers l)) (max_decree (private_log_info (decrees l)))).
    + by rewrite Z.max_l by lia.
    + rewrite Z.max_r by lia. by destruct (private_log_info (decrees l)).
Qed.

(** ** Appending *)

(** The end of the log with what is buffered. *)
Definition buffered (l : mutation_log) : Z :=
  match pending_write (buffers l) with
  | Some a => match appender_size a with Ret n => n | _ => 0 end
  | None => 0
  end.

Definition log_extent (l : mutation_log) : Z := global_end_offset (on_files l) + buffered l.

Definition pending_mutations (l : mutation_log) : list mutation := from_option mutations [] (pending_write (buffers l)).

(** The log with a buffer to append to: the files may have been switched. *)
Definition positioned (l : mutation_log) (sgs : list segment) (l1 : mutation_log) (io : list log_io) (sgs1 : list segment) : Prop :=
  (sgs1 = sgs /\ io = [] /\ l1 = l) \/
  (sgs1 = sgs ++ [fresh_segment l] /\ can_create path_exists file_open l /\
   io = [WriteHeader (sg_index (fresh_segment l)) 0 (sg_whole (fresh_segment l))] /\
   global_start_offset (on_files l1) = global_start_offset (on_files l) /\ pending_write (buffers l) = None).

Definition with_pending (a : log_appender) (m : mutation) : mutation_log -> mutation_log :=
  with_buffers (fun b => LogBuffers (is_writing b) (issued_write b) (Some a)
    (Z.max (pending_write_max_commit b) (last_committed_decree (header m)))
    (Z.max (pending_write_max_decree b) (decree (header m)))).

Lemma with_pending_rep l sgs gs a m :
  log_rep l sgs -> current_log_file (on_files l) <> None -> mutation_ok m ->
  appender_rep (global_end_offset (on_files l)) gs a -> Forall group_loggable gs -> log_rep (with_pending a m l) sgs.
Proof.
  intros [H1 H2 H3 H4 H5 H6 H7 H8 H9 H10 H11 H12] Hc Hm Ha Hgs. split; try done.
  - intros a' [= <-]. split; [done|]. by exists gs.
  - cbn. destruct Hm as ((_ & _ & _ & Hd & _) & _). unfold int64_ok in *. lia.
Qed.

(** A buffer to append to: the one that fills, or a new one. *)
Lemma position_spec l sgs :
  log_rep l sgs -> log_extent l + 100 <= INT64_MAX ->
  (pending_write (buffers l) = None -> must_create l = Ret true -> can_create path_exists file_open l) ->
  exists a l1 io sgs1 gs,
    match pending_write (buffers l) with
    | Some pending => Ret (pending, l, [])
    | None => let* (o, l, io) := mark_new_offset path_exists file_open iteration 0 true l in Ret (new_log_appender o, l, io)
    end = Ret (a, l1, io) /\
    positioned l sgs l1 io sgs1 /\ log_rep l1 sgs1 /\ current_log_file (on_files l1) <> None /\
    appender_rep (global_end_offset (on_files l1)) gs a /\ (gs = [[]] \/ Forall group_loggable gs) /\
    mutations a = pending_mutations l /\ global_end_offset (on_files l1) + groups_size gs <= log_extent l + 76 /\
    callbacks a = from_option callbacks [] (pending_write (buffers l)) /\
    config l1 = config l /\ decrees l1 = decrees l /\ buffers l1 = buffers l /\ is_opened l1 = is_opened l /\ files_kept l l1.
Proof using iteration_ok.
  intros H Hroom Hcc. unfold log_extent, buffered, pending_mutations, positioned in *.
  destruct (pending_write (buffers l)) as [a|] eqn:Ep.
  - destruct (lr_pending _ _ H a Ep) as (Hc & gs & Ha & Hgs). exists a, l, [], sgs, gs.
    rewrite (appender_size_rep _ _ _ Ha) in *. split_and!; try done; [by left|by right|lia|by apply files_kept_same].
  - destruct (mark_new_offset_spec path_exists file_open l sgs H Ep (Hcc eq_refl))
      as (l1 & io & sgs1 & -> & H1 & Hc & E1 & E2 & E3 & E4 & Hk & Hpos). cbn [obind].
    exists (new_log_appender (global_end_offset (on_files l1))), l1, io, sgs1, [[]].
    split_and!; try done; [naive_solver|apply new_log_appender_rep|by left|].
    change (groups_size [[]]) with 16. destruct Hpos as [(_ & _ & ->)|(-> & _)]; [lia|].
    destruct (lr_last _ _ H1 (fresh_segment l)) as [E _]; [by rewrite last_snoc|]. rewrite <- E. unfold LogReplay.sg_end.
    rewrite sg_first_fresh. cbn [fresh_segment sg_start sg_groups groups_size]. lia.
Qed.

Lemma add_groups_loggable m gs :
  loggable registered g m -> gs = [[]] \/ Forall group_loggable gs -> Forall group_loggable (add_to_groups m gs).
Proof.
  intros Hm Hgs. assert (Forall (Forall (loggable registered g)) (add_to_groups m gs)) as Hl.
  { assert (Forall (loggable registered g) (concat (add_to_groups m gs))) as H0.
    { rewrite add_to_groups_concat. apply Forall_app. split; [|by apply Forall_singleton].
      destruct Hgs as [->|Hgs]; [constructor|]. apply Forall_concat. eapply Forall_impl; [exact Hgs|]. by intros ms (_ & _ & ?). }
    by apply Forall_concat. }
  assert (Forall group_fits (add_to_groups m gs)) as Hf.
  { apply add_to_groups_fits; [apply Hm|]. destruct Hgs as [->|Hgs]; [by repeat constructor|].
    eapply Forall_impl; [exact Hgs|]. by intros ms (_ & ? & _). }
  assert (Forall (fun ms => ms <> []) (add_to_groups m gs)) as Hne.
  { apply add_to_groups_filled. destruct Hgs as [->|Hgs]; [by left|right].
    eapply Forall_impl; [exact Hgs|]. by intros ms (? & _). }
  rewrite Forall_forall in *. intros ms Hms. split_and!; auto.
Qed.

Lemma add_groups_size m gs : groups_size (add_to_groups m gs) <= groups_size gs + sizeof_log_block_header + wire_size m.
Proof.
  assert (forall ms, groups_size [ms] = sizeof_log_block_header + entries_size ms) as E1.
  { intros ms. cbn [groups_size]. unfold group_size. lia. }
  assert (entries_size [m] = wire_size m) as E2 by (rewrite entries_size_cons; change (entries_size []) with 0; lia).
  destruct gs as [|ms gs _] using rev_ind; [unfold add_to_groups; cbn [rev]; rewrite E1, E2; cbn; lia|].
  rewrite add_to_groups_snoc. destruct (_ >? _).
  - change (gs ++ [ms; [m]]) with (gs ++ [ms] ++ [[m]]). rewrite app_assoc, groups_size_app, E1, E2. lia.
  - rewrite !groups_size_app, !E1, entries_size_app, E2. unfold sizeof_log_block_header. lia.
Qed.

(** What [append] did: the mutation is at the end of the buffer, and the buffer is issued
    unless another one is being written. *)
Record appended (l : mutation_log) (sgs : list segment) (m' : mutation) (cb : option Z)
  (l' : mutation_log) (io : list log_io) (sgs' : list segment) : Prop := Appended {
  ap_log : log_rep l' sgs';
  ap_config : config l' = config l /\ is_opened l' = is_opened l /\
    global_start_offset (on_files l') = global_start_offset (on_files l) /\
    valid_start_offset (private_log_info (decrees l')) = valid_start_offset (private_log_info (decrees l));
  ap_kept : files_kept l l';
  ap_room : log_extent l' <= log_extent l + 100 + wire_size m' /\
    last_file_index (on_files l') <= last_file_index (on_files l) + 1;
  ap_case : exists l1 io1 sgs1 a' gs,
    positioned l sgs l1 io1 sgs1 /\ appender_rep (global_end_offset (on_files l1)) gs a' /\ Forall group_loggable gs /\
    mutations a' = pending_mutations l ++ [m'] /\
    callbacks a' = from_option callbacks [] (pending_write (buffers l)) ++ from_option (fun c => [c]) [] cb /\
    if is_writing (buffers l) then
      io = io1 /\ sgs' = sgs1 /\ is_writing (buffers l') = true /\ issued_write (buffers l') = issued_write (buffers l) /\
      pending_write (buffers l') = Some a' /\ decrees l' = decrees l /\
      pending_write_max_decree (buffers l') = Z.max (pending_write_max_decree (buffers l)) (decree (header m'))
    else exists sgs0 sg d c, sgs1 = sgs0 ++ [sg] /\ io = io1 ++ [buffer_write sg gs a' d c] /\
      d = Z.max (pending_write_max_decree (buffers l)) (decree (header m')) /\
      sgs' = sgs0 ++ [extend gs sg] /\ buffers l' = LogBuffers true (Some a') None 0 0 /\
      issued_to sg gs a' l' /\
      max_decree (private_log_info (decrees l')) = Z.max d (max_decree (private_log_info (decrees l)))
}.

Lemma append_spec l sgs m cb :
  log_rep l sgs -> loggable registered g m -> log_extent l + 100 + wire_size m <= INT64_MAX ->
  (pending_write (buffers l) = None -> must_create l = Ret true -> can_create path_exists file_open l) ->
  exists p n l' io sgs', append path_exists file_open iteration m cb l = Ret (set_log_offset p m, n, l', io) /\
    appended l sgs (set_log_offset p m) cb l' io sgs'.
Proof using iteration_ok.
  intros H Hm Hroom Hcc. pose proof (wire_size_pos m) as Hwp. unfold append.
  destruct (position_spec l sgs H ltac:(lia) Hcc)
    as (a & l1 & io & sgs1 & gs & -> & Hpos & H1 & Hc & Ha & Hgs & Em & Hle & Ecb & Ecfg & Edec & Ebuf & Eop & Hk).
  cbn [obind]. pose proof (lr_index _ _ H1) as [_ Ho]. destruct Hm as (Hpid & Hok & Hreg & Hwire).
  destruct (append_mutation_rep _ gs a m cb Ha Hok Ho ltac:(unfold sizeof_log_block_header; lia)) as (p & a' & -> & Ha' & Em' & Ecb').
  cbn [obind]. set (m' := set_log_offset p m) in *.
  assert (Forall group_loggable (add_to_groups m gs)) as Hgs' by (by apply add_groups_loggable).
  pose proof (add_groups_size m gs) as Hsz.
  pose proof (with_pending_rep l1 sgs1 _ a' m H1 Hc Hok Ha' Hgs') as H2.
  change (with_buffers _ l1) with (with_pending a' m l1).
  assert (global_start_offset (on_files l1) = global_start_offset (on_files l)) as Egs
    by (destruct Hpos as [(_ & _ & ->)|(_ & _ & _ & ? & _)]; done).
  assert (last_file_index (on_files l1) <= last_file_index (on_files l) + 1) as Hidx.
  { destruct Hpos as [(_ & _ & ->)|(-> & _)]; [lia|]. destruct (lr_last _ _ H1 (fresh_segment l)) as [_ <-]; [apply last_snoc|]. cbn. lia. }
  change (is_writing (buffers (with_pending a' m l1))) with (is_writing (buffers l1)). rewrite Ebuf.
  destruct (is_writing (buffers l)) eqn:Ew; cbn [negb].
  - rewrite (appender_size_rep _ _ _ Ha'). cbn [obind]. exists p. do 4 eexists. split; [reflexivity|]. split; [exact H2|..].
    + split_and!; [exact Ecfg|exact Eop|exact Egs|]. change (decrees (with_pending a' m l1)) with (decrees l1). by rewrite Edec.
    + eapply files_kept_trans; [exact Hk|]. by apply files_kept_same.
    + subst m'. rewrite wire_size_offset. unfold log_extent at 1, buffered. cbn [with_pending with_buffers buffers pending_write on_files].
      rewrite (appender_size_rep _ _ _ Ha'). unfold sizeof_log_block_header in *. split; [lia|done].
    + exists l1, io, sgs1, a', (add_to_groups m gs). rewrite Ew, Em', Ecb', Em, Ecb. split_and!; try done.
      * cbn. by rewrite Ebuf.
      * cbn. by rewrite Ebuf.
      * cbn. by rewrite Ebuf.
  - destruct (write_pending_spec (with_pending a' m l1) sgs1 a' (add_to_groups m gs) H2)
      as (sgs0 & sg & l' & -> & -> & H3 & _ & Hk' & Hwm & E1 & E2 & E3 & E4 & E5); try done.
    + cbn. by rewrite Ebuf.
    + cbn [with_pending with_buffers on_files]. unfold sizeof_log_block_header in *. lia.
    + cbn [obind]. exists p. do 4 eexists. split; [reflexivity|]. split; [exact H3|..].
      * rewrite E1, E2, E4, E5. cbn [with_pending with_buffers config is_opened on_files decrees valid_start_offset].
        by rewrite Ecfg, Eop, Egs, Edec.
      * eapply files_kept_trans; [exact Hk|]. eapply files_kept_trans; [|exact Hk']. by apply files_kept_same.
      * subst m'. rewrite wire_size_offset. unfold log_extent at 1, buffered. rewrite E3. cbn [pending_write].
        destruct (lr_last _ _ H3 (extend (add_to_groups m gs) sg)) as [<- <-]; [apply last_snoc|].
        destruct (lr_last _ _ H2 sg) as [Ee Ei]; [apply last_snoc|]. rewrite extend_end, Ee. cbn [extend sg_index]. rewrite Ei.
        cbn [with_pending with_buffers on_files]. unfold sizeof_log_block_header in *. split; [lia|done].
      * exists l1, io, (sgs0 ++ [sg]), a', (add_to_groups m gs). rewrite Ew, Em', Ecb', Em, Ecb. split_and!; try done.
        exists sgs0, sg. do 2 eexists. split_and!; try done.
        -- cbn. by rewrite Ebuf.
        -- rewrite E5. cbn. by rewrite Edec.
Qed.

(** ** The completion of a write *)

Section Completing.
Context (file_flush : path -> bool) (plog_force_flush : bool).

Definition idle (l : mutation_log) : mutation_log :=
  with_buffers (fun b => LogBuffers false None (pending_write b) (pending_write_max_commit b) (pending_write_max_decree b)) l.

Lemma idle_rep l sgs : log_rep l sgs -> log_rep (idle l) sgs.
Proof. intros [H1 H2 H3 H4 H5 H6 H7 H8 H9 H10 H11 H12]. by split. Qed.

(** The file a write goes to can be flushed. *)
Definition flushable (k : Z) (l : mutation_log) : Prop :=
  forall lf, map_find k (files (on_files l)) = Some lf -> lf_is_read lf = false /\ file_flush (lf_path lf) = true.

Lemma flush_written_ok k l : flushable k l -> flush_written file_flush plog_force_flush k l = Ret tt.
Proof.
  intros H. unfold flush_written. destruct plog_force_flush; [|done].
  destruct (map_find k (files (on_files l))) as [lf|] eqn:E; [|done]. destruct (H lf E) as [H1 H2].
  unfold LogFile.flush. rewrite H1, H2. cbn. by destruct (lf_handle lf).
Qed.

Definition noted (d c : Z) (l : mutation_log) : mutation_log :=
  with_decrees (fun s => LogDecrees (private_log_info s) (Z.max d (plog_max_decree_on_disk s))
    (Z.max c (plog_max_commit_on_disk s)) (cleanable_decree s)) l.

Lemma noted_rep d c l sgs : log_rep l sgs -> log_rep (noted d c l) sgs.
Proof. intros [H1 H2 H3 H4 H5 H6 H7 H8 H9 H10 H11 H12]. by split. Qed.

(** What a completed write leads to: the next buffer is issued, if there is one. *)
Definition completed (l : mutation_log) (sgs : list segment) (l' : mutation_log) (io : list log_io) (sgs' : list segment) : Prop :=
  match pending_write (buffers l) with
  | None => io = [] /\ sgs' = sgs /\ buffers l' = buffers (idle l) /\ private_log_info (decrees l') = private_log_info (decrees l)
  | Some a => exists sgs0 sg gs d c, sgs = sgs0 ++ [sg] /\ appender_rep (global_end_offset (on_files l)) gs a /\
      Forall group_loggable gs /\ io = [buffer_write sg gs a d c] /\ sgs' = sgs0 ++ [extend gs sg] /\
      d = pending_write_max_decree (buffers l) /\
      buffers l' = LogBuffers true (Some a) None 0 0 /\
      issued_to sg gs a l' /\
      private_log_info (decrees l') = ReplicaLogInfo (Z.max d (max_decree (private_log_info (decrees l))))
        (valid_start_offset (private_log_info (decrees l)))
  end.

Lemma check_magic_rep o gs bs : blocks_rep o gs bs -> check_magic bs = Ret tt.
Proof.
  revert o bs; induction gs as [|ms gs IH]; intros o [|b bs] H; try done. destruct H as [[_ (rest & Ed & _) _] H].
  cbn [check_magic]. unfold front. rewrite Ed. cbn [obind]. rewrite header_of_header_bytes.
  change (u32 (magic _) =? MAGIC) with true. cbn [CHECK]. by eapply IH.
Qed.

Lemma write_done_spec k a d c n l sgs :
  log_rep l sgs -> is_writing (buffers l) = true -> check_magic (blocks a) = Ret tt -> appender_size a = Ret n -> flushable k l -> log_extent l <= INT64_MAX ->
  exists l' io sgs',
    write_buffer_done path_exists file_open file_flush plog_force_flush iteration k a d c ERR_OK n l =
      Ret (l', map (fun cb => Callback cb ERR_OK n) (callbacks a), io) /\
    log_rep l' sgs' /\ completed l sgs l' io sgs' /\ config l' = config l /\ is_opened l' = is_opened l /\
    global_start_offset (on_files l') = global_start_offset (on_files l) /\ files_kept l l' /\
    log_extent l' = log_extent l /\ last_file_index (on_files l') = last_file_index (on_files l).
Proof.
  intros H Hw Hm Hn Hfl Hlim. unfold write_buffer_done. rewrite Hw, Hm. cbn [CHECK obind]. ok_step. rewrite Hn. cbn [obind].
  rewrite Z.eqb_refl. cbn [CHECK]. rewrite (flush_written_ok k l Hfl). cbn [obind].
  unfold update_max_decree_on_disk. rewrite (lr_private _ _ H). cbn [CHECK obind].
  change (with_buffers _ (with_decrees _ l)) with (idle (noted d c l)).
  pose proof (idle_rep _ _ (noted_rep d c _ _ H)) as H1.
  change (pending_write (buffers (idle (noted d c l)))) with (pending_write (buffers l)). unfold completed, log_extent, buffered in *.
  destruct (pending_write (buffers l)) as [a2|] eqn:Ep.
  - destruct (lr_pending _ _ H a2 Ep) as (Hc & gs & Ha & Hgs). rewrite (appender_size_rep _ _ _ Ha) in Hlim.
    destruct (write_pending_spec (idle (noted d c l)) sgs a2 gs H1) as (sgs0 & sg & l' & -> & -> & H3 & _ & Hk & Hwm & E1 & E2 & E3 & E4 & E5);
      try done.
    cbn [obind]. do 3 eexists. split; [reflexivity|]. split; [exact H3|].
    split; [exists sgs0, sg, gs; do 2 eexists; by split_and!|]. rewrite E3. cbn [pending_write]. rewrite (appender_size_rep _ _ _ Ha).
    destruct (lr_last _ _ H3 (extend gs sg)) as [<- <-]; [apply last_snoc|].
    destruct (lr_last _ _ H sg) as [Ee Ei]; [apply last_snoc|]. rewrite extend_end, Ee. cbn [extend sg_index]. rewrite Ei.
    split_and!; try done. lia.
  - do 3 eexists. split; [reflexivity|]. split; [exact H1|]. split_and!; try done; [by apply files_kept_same|].
    cbn [idle noted with_buffers with_decrees buffers pending_write on_files]. by rewrite Ep.
Qed.

(** A write that failed: nothing is written any more until the next append. *)
Lemma write_failed_spec k a d c n err l sgs :
  log_rep l sgs -> is_writing (buffers l) = true -> check_magic (blocks a) = Ret tt -> err <> ERR_OK ->
  write_buffer_done path_exists file_open file_flush plog_force_flush iteration k a d c err n l =
    Ret (idle l, map (fun cb => Callback cb err n) (callbacks a) ++ [IoError err], []) /\ log_rep (idle l) sgs.
Proof.
  intros H Hw Hm He. split; [|by apply idle_rep]. unfold write_buffer_done. rewrite Hw, Hm. cbn [CHECK obind].
  unfold is_ok. by rewrite bool_decide_eq_false_2.
Qed.
End Completing.
End Writing.

End Theory.

End LogTheory.
