(* ===== verification/LogGc.v ===== *)
(** * Garbage collection of the private log

    Theory of [MutationLog.garbage_collection].  The header of each file tells the largest
    decree before it ([gc_inv]); every operation keeps that, so that the files garbage
    collection removes hold nothing but mutations that may be cleaned. *)
From stdpp Require Import sorting.
From S2P Require Import Prelude Endians BinaryIO Mutation Crc StringConv Strings FileStreamer LogBlock LogFile LogReplay MutationLog LogTheory.

Module LogGc.
Import BinaryIO Mutation Crc LogBlock LogFile LogReplay MutationLog LogTheory.

#[local] Opaque crc32_calc.

(** ** Positions *)

Lemma place_positions o ms : Forall (fun m => o <= log_offset (header m) < o + entries_size ms) (place o ms).
Proof.
  revert o; induction ms as [|m ms IH]; intros o; [constructor|]. cbn [place]. rewrite entries_size_cons.
  pose proof (wire_size_pos m). pose proof (entries_size_nonneg ms). constructor; [cbn; lia|].
  eapply Forall_impl; [apply IH|]. cbn beta. intros x Hx. lia.
Qed.

Lemma place_groups_positions o gs : Forall (fun m => o <= log_offset (header m) < o + groups_size gs) (place_groups o gs).
Proof.
  revert o; induction gs as [|ms gs IH]; intros o; [constructor|]. cbn [place_groups groups_size].
  pose proof (groups_size_nonneg gs). pose proof (entries_size_nonneg ms). apply Forall_app. split.
  - eapply Forall_impl; [apply place_positions|]. cbn beta. intros x Hx. unfold group_size, sizeof_log_block_header in *. lia.
  - eapply Forall_impl; [apply IH|]. cbn beta. intros x Hx. unfold group_size, sizeof_log_block_header in *. lia.
Qed.

Section Theory.
Context (registered : task_code -> bool) (g : gpid) (dir : path).
Context (iteration : replica_log_info_map -> list (gpid * replica_log_info)).

Local Abbreviation sg_end := (sg_end iteration).
Local Abbreviation sg_wire := (sg_wire iteration).
Local Abbreviation segment_ok := (segment_ok registered g iteration).
Local Abbreviation chained := (chained iteration).
Local Abbreviation log_mutations := (log_mutations iteration).
Local Abbreviation log_rep := (log_rep registered g dir iteration).
Local Abbreviation file_rep := (file_rep dir iteration).

Lemma segment_positions sg :
  Forall (fun m => sg_start sg <= log_offset (header m) < sg_end sg) (sg_mutations iteration sg).
Proof.
  eapply Forall_impl; [apply place_groups_positions|]. cbn beta. intros m Hm. unfold LogReplay.sg_end.
  unfold LogReplay.sg_first, sizeof_log_block_header in *. lia.
Qed.

Lemma start_end sg : sg_start sg <= sg_end sg.
Proof. unfold LogReplay.sg_end, LogReplay.sg_first, sizeof_log_block_header. pose proof (groups_size_nonneg (sg_groups sg)). lia. Qed.

(** All positions of a chain are before its end. *)
Lemma chain_positions i o sgs :
  chained i o sgs -> o <= chain_end iteration o sgs /\
    Forall (fun m => o <= log_offset (header m) < chain_end iteration o sgs) (log_mutations sgs).
Proof.
  revert i o. induction sgs as [|sg sgs IH]; intros i o H; cbn [LogReplay.chained chain_end] in *; [by split; [lia|constructor]|].
  destruct H as (_ & <- & H). destruct (IH _ _ H) as [Hle HF]. pose proof (start_end sg). split; [lia|].
  unfold LogReplay.log_mutations in *. cbn [map concat]. apply Forall_app. split.
  - eapply Forall_impl; [apply segment_positions|]. cbn beta. intros; lia.
  - eapply Forall_impl; [exact HF|]. cbn beta. intros; lia.
Qed.

(** ** What the headers tell *)

Definition covers (i : replica_log_info) (ms : list mutation) : Prop :=
  Forall (fun m => decree (header m) <= max_decree i \/ log_offset (header m) < valid_start_offset i) ms.

(** A header that covers the files before it. *)
Definition tells (valid : Z) (before : list mutation) (sg : segment) : Prop :=
  exists i, sg_previous sg = {[ g := i ]} /\ valid_start_offset i <= valid /\ covers i before.

Fixpoint headers_tell (valid : Z) (before : list mutation) (sgs : list segment) : Prop :=
  match sgs with
  | [] => True
  | sg :: sgs => tells valid before sg /\ headers_tell valid (before ++ sg_mutations iteration sg) sgs
  end.

Record gc_inv (l : mutation_log) (sgs : list segment) : Prop := GcInv {
  gi_headers : headers_tell (valid_start_offset (private_log_info (decrees l))) [] sgs;
  gi_all : covers (private_log_info (decrees l)) (log_mutations sgs);
  gi_pending : Forall (fun m => decree (header m) <= pending_write_max_decree (buffers l)) (pending_mutations l)
}.

Lemma headers_tell_app valid before a b :
  headers_tell valid before (a ++ b) <-> headers_tell valid before a /\ headers_tell valid (before ++ log_mutations a) b.
Proof.
  revert before. induction a as [|sg a IH]; intros before; cbn [app headers_tell].
  - unfold LogReplay.log_mutations. cbn. rewrite app_nil_r. split; [by intros|by intros [_ ?]].
  - rewrite IH. unfold LogReplay.log_mutations. cbn [map concat]. rewrite <- app_assoc. apply and_assoc.
Qed.

Lemma tells_weaken valid valid' before before' sg :
  valid <= valid' -> before' ⊆ before -> tells valid before sg -> tells valid' before' sg.
Proof.
  intros Hv Hb (i & Ei & Hi & Hc). exists i. split_and!; [done|lia|]. unfold covers in *. rewrite Forall_forall in Hc |- *.
  intros m Hm. by apply Hc, Hb.
Qed.

Lemma headers_weaken valid valid' before before' sgs :
  valid <= valid' -> before' ⊆ before -> headers_tell valid before sgs -> headers_tell valid' before' sgs.
Proof.
  intros Hv. revert before before'. induction sgs as [|sg sgs IH]; intros before before' Hb H; [done|]. destruct H as [H1 H2].
  split; [by eapply tells_weaken|]. eapply IH; [|exact H2]. set_solver.
Qed.

Lemma covers_app i a b : covers i (a ++ b) <-> covers i a /\ covers i b.
Proof. apply Forall_app. Qed.

Lemma covers_grow i i' ms :
  max_decree i <= max_decree i' -> valid_start_offset i <= valid_start_offset i' -> covers i ms -> covers i' ms.
Proof. intros H1 H2 H. eapply Forall_impl; [exact H|]. intros m [?|?]; [left|right]; lia. Qed.

(** ** Appending and writing *)

Lemma headers_fresh l sgs :
  log_rep l sgs -> gc_inv l sgs ->
  headers_tell (valid_start_offset (private_log_info (decrees l))) [] (sgs ++ [fresh_segment l]) /\
  log_mutations (sgs ++ [fresh_segment l]) = log_mutations sgs.
Proof.
  intros Hl [H1 H2 _]. split; [|by rewrite log_mutations_snoc, app_nil_r].
  apply headers_tell_app. split; [done|]. split; [|done]. exists (private_log_info (decrees l)). cbn [fresh_segment sg_previous].
  rewrite (proj1 (lr_gpid _ _ _ _ _ _ Hl)). split_and!; [by destruct (private_log_info (decrees l))|done|done].
Qed.

Lemma headers_extend valid gs sgs sg : headers_tell valid [] (sgs ++ [extend gs sg]) <-> headers_tell valid [] (sgs ++ [sg]).
Proof. by rewrite !headers_tell_app. Qed.

Lemma sg_previous_tells valid before sg sg' : sg_previous sg' = sg_previous sg -> tells valid before sg -> tells valid before sg'.
Proof. unfold tells. by intros ->. Qed.

(** A buffer that was issued is covered by the decree noted with it. *)
Lemma gc_inv_issued l l' sgs0 sg gs a :
  headers_tell (valid_start_offset (private_log_info (decrees l'))) [] (sgs0 ++ [sg]) ->
  covers (private_log_info (decrees l)) (log_mutations (sgs0 ++ [sg])) -> appender_rep (sg_end sg) gs a ->
  valid_start_offset (private_log_info (decrees l')) = valid_start_offset (private_log_info (decrees l)) ->
  max_decree (private_log_info (decrees l)) <= max_decree (private_log_info (decrees l')) ->
  Forall (fun m => decree (header m) <= max_decree (private_log_info (decrees l'))) (mutations a) ->
  pending_write (buffers l') = None -> gc_inv l' (sgs0 ++ [extend gs sg]).
Proof.
  intros Hh Hc Ha Ev Hm Hd Ep. split.
  - by apply headers_extend.
  - rewrite log_mutations_snoc, (extend_mutations _ _ _ _ Ha), app_assoc. rewrite log_mutations_snoc in Hc. apply covers_app. split.
    + eapply covers_grow; [exact Hm|lia|exact Hc].
    + eapply Forall_impl; [exact Hd|]. by left.
  - unfold pending_mutations. rewrite Ep. constructor.
Qed.

Lemma gc_inv_appended pe fo l sgs m' cb l' io sgs' :
  log_rep l sgs -> gc_inv l sgs -> appended registered g dir iteration pe fo l sgs m' cb l' io sgs' -> gc_inv l' sgs'.
Proof.
  intros Hl Hg [_ (_ & _ & _ & Ev) _ _ (l1 & io1 & sgs1 & a & gs & Hpos & _ & _ & Em & _ & Hcase)].
  assert (headers_tell (valid_start_offset (private_log_info (decrees l))) [] sgs1 /\ log_mutations sgs1 = log_mutations sgs) as [Hh Elm].
  { destruct Hpos as [(-> & _)|(-> & _)]; [split; [apply Hg|done]|by apply headers_fresh]. }
  pose proof (gi_pending _ _ Hg) as Hp. destruct (is_writing (buffers l)).
  - destruct Hcase as (_ & -> & _ & _ & Ep & Ed & Emax). split.
    + by rewrite Ed.
    + rewrite Ed, Elm. apply Hg.
    + unfold pending_mutations. rewrite Ep, Emax. cbn [from_option]. rewrite Em. apply Forall_app. split; [|repeat constructor; lia].
      eapply Forall_impl; [exact Hp|]. cbn beta. intros; lia.
  - destruct Hcase as (sgs0 & sg & d & c & -> & _ & Ed & -> & Eb & (_ & Ha & _) & Emax).
    eapply gc_inv_issued; [by rewrite Ev|rewrite Elm; apply (gi_all _ _ Hg)|exact Ha|done|lia| |by rewrite Eb].
    rewrite Em, Emax, Ed. apply Forall_app. split; [|repeat constructor; lia].
    eapply Forall_impl; [exact Hp|]. cbn beta. intros; lia.
Qed.

Lemma gc_inv_completed l sgs l' io sgs' :
  log_rep l sgs -> gc_inv l sgs -> completed registered g iteration l sgs l' io sgs' -> gc_inv l' sgs'.
Proof.
  intros Hl Hg. unfold completed. destruct (pending_write (buffers l)) as [a|] eqn:Ep.
  - intros (sgs0 & sg & gs & d & c & -> & _ & _ & _ & -> & -> & Eb & (_ & Ha & _) & Ei). pose proof (gi_pending _ _ Hg) as Hp.
    unfold pending_mutations in Hp. rewrite Ep in Hp. cbn [from_option] in Hp.
    eapply (gc_inv_issued l); [rewrite Ei; apply Hg|apply (gi_all _ _ Hg)|exact Ha|by rewrite Ei|rewrite Ei; cbn; lia| |by rewrite Eb].
    rewrite Ei. cbn [max_decree]. eapply Forall_impl; [exact Hp|]. cbn beta. intros; lia.
  - intros (_ & -> & Eb & Ei). split; [rewrite Ei; apply Hg|rewrite Ei; apply Hg|]. unfold pending_mutations. rewrite Eb. cbn. by rewrite Ep.
Qed.

(** When a replica starts over, all of the log up to then is invalid. *)
Lemma gc_inv_reset d l sgs o l' :
  log_rep l sgs -> gc_inv l sgs -> valid_start_offset (private_log_info (decrees l)) <= global_end_offset (on_files l) -> 
  pending_write (buffers l) = None -> on_partition_reset g d l = Ret (o, l') -> o = global_end_offset (on_files l) /\ gc_inv l' sgs.
Proof.
  intros Hl Hg Hv Hp. unfold on_partition_reset. rewrite (lr_private _ _ _ _ _ _ Hl), (proj1 (lr_gpid _ _ _ _ _ _ Hl)), bool_decide_eq_true_2 by done.
  cbn [CHECK]. intros [= <- <-]. split; [done|]. destruct (lr_chain _ _ _ _ _ _ Hl) as (i & o & _ & Hch).
  destruct (chain_positions _ _ _ Hch) as [_ Hpos]. split; cbn [with_decrees decrees private_log_info valid_start_offset].
  - eapply headers_weaken; [exact Hv|done|apply Hg].
  - destruct (last sgs) as [sg|] eqn:E; [|apply last_None in E as ->; constructor].
    rewrite (chain_end_last _ _ _ _ E), (proj1 (lr_last _ _ _ _ _ _ Hl sg E)) in Hpos.
    eapply Forall_impl; [exact Hpos|]. cbn. intros m Hm. right. lia.
  - unfold pending_mutations. cbn. rewrite Hp. constructor.
Qed.

(** ** Collecting *)

(** A file that is still there: only its time, and whether it is open, may have changed; the
    files behind [lim] were not closed. *)
Record survives (lim : Z) (a b : Z * log_file) : Prop := Survives {
  sv_key : b.1 = a.1;
  sv_same : lf_index b.2 = lf_index a.2 /\ lf_start_offset b.2 = lf_start_offset a.2 /\ lf_end_offset b.2 = lf_end_offset a.2 /\
    lf_path b.2 = lf_path a.2 /\ lf_is_read b.2 = lf_is_read a.2 /\ lf_crc32 b.2 = lf_crc32 a.2 /\
    previous_log_max_decrees b.2 = previous_log_max_decrees a.2;
  sv_handle : lim < a.1 -> lf_handle b.2 = lf_handle a.2
}.

Lemma survives_refl lim a : survives lim a a.
Proof. by split. Qed.

Lemma survives_all lim fs : Forall2 (survives lim) fs fs.
Proof. induction fs; constructor; [apply survives_refl|done]. Qed.

Lemma survives_trans lim a b c : survives lim a b -> survives lim b c -> survives lim a c.
Proof.
  intros [A1 (A2 & A3 & A4 & A5 & A6 & A7 & A8) A9] [B1 (B2 & B3 & B4 & B5 & B6 & B7 & B8) B9].
  split; [congruence|split_and!; congruence|]. intros H. rewrite B9 by congruence. by apply A9.
Qed.

Lemma survives_rep lim sg a b : file_rep sg a -> survives lim a b -> file_rep sg b.
Proof. intros [H1 H2 H3 H4 H5 H6] [A1 (A2 & A3 & A4 & A5 & A6 & A7 & A8) A9]. split; congruence. Qed.

Lemma survives_reps lim sgs fs fs' : Forall2 file_rep sgs fs -> Forall2 (survives lim) fs fs' -> Forall2 file_rep sgs fs'.
Proof.
  intros H. revert fs'. induction H as [|sg a sgs fs Hf _ IH]; intros fs' Hs; inversion Hs; subst; constructor;
    [by eapply survives_rep|by apply IH].
Qed.

Lemma survives_find lim k fs fs' lf' :
  Forall2 (survives lim) fs fs' -> map_find k fs' = Some lf' -> exists lf, map_find k fs = Some lf /\ survives lim (k, lf) (k, lf').
Proof.
  induction 1 as [|[k1 a] [k2 b] fs fs' H _ IH]; cbn [map_find]; [done|]. pose proof (sv_key _ _ _ H) as Ek. cbn in Ek. subst k2.
  destruct (Z.eqb_spec k k1) as [->|]; [|done]. intros [= <-]. by exists a.
Qed.

Lemma survives_below lim k fs fs' : keys_below k fs -> Forall2 (survives lim) fs fs' -> keys_below k fs'.
Proof.
  intros Hb. induction 1 as [|a b ? ? Hab _ IH]; [constructor|]. apply Forall_cons in Hb as [? ?].
  constructor; [by rewrite (sv_key _ _ _ Hab)|by apply IH].
Qed.

Lemma log_mutations_take n sgs sgs' : (n <= length sgs)%nat -> log_mutations (take n (sgs ++ sgs')) ⊆ log_mutations sgs.
Proof.
  intros Hn. rewrite take_app_le by done. rewrite <- (take_drop n sgs) at 2. unfold LogReplay.log_mutations. rewrite map_app, concat_app.
  set_solver.
Qed.

Lemma headers_some valid before sgs : headers_tell valid before sgs -> Forall (fun sg => is_Some (sg_previous sg !! g)) sgs.
Proof. revert before. induction sgs as [|sg sgs IH]; intros before H; [done|]. destruct H as [(i & Ei & _) H]. constructor; [rewrite Ei, lookup_singleton_eq; by eexists|by eapply IH]. Qed.

Lemma gc_inv_drop l l' sgs n : gc_inv l sgs -> decrees l' = decrees l -> buffers l' = buffers l -> gc_inv l' (drop n sgs).
Proof.
  intros [H1 H2 H3] E1 E2. rewrite <- (take_drop n sgs) in H1, H2. apply headers_tell_app in H1 as [_ H1].
  split; unfold pending_mutations; rewrite ?E1, ?E2; [|unfold LogReplay.log_mutations in H2; rewrite map_app, concat_app in H2; by apply covers_app in H2 as [_ ?]|done].
  eapply headers_weaken; [done| |exact H1]. set_solver.
Qed.

Lemma survives_weaken lim lim' a b : lim <= lim' -> survives lim a b -> survives lim' a b.
Proof. intros Hl [H1 H2 H3]. split; [done|done|]. intros. apply H3. lia. Qed.

Lemma survives_compose lim fs1 fs2 fs3 n :
  Forall2 (survives lim) fs1 fs2 -> Forall2 (survives lim) (drop n fs2) fs3 -> Forall2 (survives lim) (drop n fs1) fs3.
Proof.
  intros H1%(Forall2_drop _ _ _ n). revert fs3. induction H1 as [|a b l l' Hab _ IH]; intros fs3 H; inversion H; subst; constructor;
    [by eapply survives_trans|by apply IH].
Qed.

(** The files up to one with a smaller index. *)
Lemma taken_before i o a sg b n :
  chained i o (a ++ sg :: b) -> Forall (fun s => sg_index s <= sg_index sg) (take n (a ++ sg :: b)) ->
  (n <= length (a ++ sg :: b))%nat -> (n <= S (length a))%nat.
Proof.
  intros Hch HF Hn. destruct (decide (n <= S (length a))%nat) as [|Hgt]; [done|exfalso].
  destruct b as [|s b]; [rewrite length_app in Hn; cbn in Hn; lia|].
  assert (take n (a ++ sg :: s :: b) = a ++ sg :: s :: take (n - length a - 2) b) as E.
  { rewrite take_app_ge by lia. f_equal. destruct (n - length a)%nat as [|[|m]] eqn:En; [lia|lia|]. cbn [take]. do 3 f_equal. lia. }
  rewrite E in HF. apply Forall_app in HF as [_ [_ [HF _]%Forall_cons]%Forall_cons].
  pose proof (chained_sorted iteration _ _ _ Hch) as [Hs _]. apply StronglySorted_app_1_r in Hs. apply StronglySorted_inv in Hs as [_ Hs].
  apply Forall_cons in Hs as [Hs _]. unfold index_lt in Hs. lia.
Qed.

Section Collecting.
Context (last_write_time : path -> option Z) (remove_path : path -> bool) (file_close : path -> bool) (now_ms : Z).
Context (close_ok : forall p, file_close p = true).

Lemma reserved_survives lim k lf a b c :
  survives lim (k, lf) (k, (should_reserve_file last_write_time now_ms lf a b c).2).
Proof.
  unfold should_reserve_file. repeat case_match; cbn; try apply survives_refl; by split.
Qed.

(** Why a file may be deleted with all those before it. *)
Definition deletable (cleanable valid max_decree_here : Z) (sg : segment) (behind : list segment) : Prop :=
  sg_start sg + Z.of_nat (length (sg_wire sg)) <= valid \/
  from_option (fun sg => from_option max_decree 0 (sg_previous sg !! g)) max_decree_here (head behind) <= cleanable.

Lemma gc_scan_spec lim current cleanable valid rsize rtime sgs fs mx reserved :
  Forall2 file_rep sgs fs -> Forall (fun sg => is_Some (sg_previous sg !! g)) sgs ->
  exists mark fs', gc_scan last_write_time now_ms g current cleanable valid rsize rtime (rev fs) mx reserved = Ret (mark, rev fs') /\
    Forall2 (survives lim) fs fs' /\
    match mark with
    | None => True
    | Some k => exists a sg b, sgs = a ++ sg :: b /\ k = sg_index sg /\ k <> current /\ deletable cleanable valid mx sg b
    end.
Proof.
  revert fs mx reserved. induction sgs as [|sg sgs IH] using rev_ind; intros fs mx reserved Hfs Hsome.
  { apply Forall2_nil_inv_l in Hfs as ->. by exists None, []. }
  apply Forall2_app_inv_l in Hfs as (fs0 & f1 & Hfs & Hf1 & ->). apply Forall2_cons_inv_l in Hf1 as ([k lf] & f2 & Hf & Hf2 & ->).
  apply Forall2_nil_inv_l in Hf2 as ->. apply Forall_app in Hsome as [Hsome [[i Ei] _]%Forall_cons].
  pose proof (fr_index _ _ _ _ Hf) as Eidx. pose proof (fr_key _ _ _ _ Hf) as Ek. cbn [fst snd] in Eidx, Ek. subst k.
  rewrite rev_app_distr. cbn [rev app gc_scan]. rewrite Eidx, Z.eqb_refl. cbn [CHECK].
  match goal with |- context [let '(keep, log) := ?e in _] => assert (exists keep lf', e = (keep, lf') /\ survives lim (sg_index sg, lf) (sg_index sg, lf') /\
    (keep = false -> sg_index sg <> current /\ (lf_end_offset lf <= valid \/ mx <= cleanable))) as (keep & lf' & -> & Hs & Hkeep) end.
  { destruct (Z.eqb_spec current (sg_index sg)) as [Ec|Ec]; [exists true, lf; split_and!; [done|apply survives_refl|done]|].
    pose proof (reserved_survives lim (sg_index sg) lf reserved rsize rtime) as Hs.
    destruct (should_reserve_file _ _ _ _ _ _) as [rv lf']. cbn [snd] in Hs. do 2 eexists. split; [reflexivity|]. split; [done|].
    destruct rv; [done|]. cbn [orb]. intros E%negb_false_iff. split; [done|]. destruct Hs as [_ (_ & _ & Ee & _) _]. cbn [snd] in Ee.
    rewrite Ee in E. apply orb_prop in E as [E|E]; [left|right]; lia. }
  pose proof Hs as [S1 (S2 & S3 & S4 & S5 & S6 & S7 & S8) S9]. cbn [fst snd] in *. destruct keep; cbn iota.
  - rewrite S8, (fr_previous _ _ _ _ Hf : previous_log_max_decrees lf = _), Ei. cbn iota.
    destruct (IH fs0 (max_decree i) (reserved + (lf_end_offset lf' - lf_start_offset lf')) Hfs Hsome) as (mark & fs' & -> & Hs' & Hmark).
    cbn [obind]. exists mark, (fs' ++ [(sg_index sg, lf')]). rewrite rev_app_distr. split; [done|]. split.
    + apply Forall2_app; [done|]. by constructor; [|constructor].
    + destruct mark as [m|]; [|done]. destruct Hmark as (a & sg' & b & -> & -> & Hne & Hd). exists a, sg', (b ++ [sg]).
      rewrite <- app_assoc. split_and!; try done. destruct Hd as [Hd|Hd]; [by left|right]. destruct b as [|s0 b]; [|exact Hd].
      cbn in *. by rewrite Ei.
  - destruct (Hkeep eq_refl) as [Hne Hd]. exists (Some (sg_index sg)), (fs0 ++ [(sg_index sg, lf')]). rewrite rev_app_distr, S2, Eidx.
    split; [done|]. split.
    + apply Forall2_app; [apply survives_all|]. by constructor; [|constructor].
    + exists sgs, sg, []. split_and!; try done. destruct Hd as [Hd|Hd]; [left|by right].
      pose proof (fr_end _ _ _ _ Hf) as Ee. cbn [snd] in Ee. lia.
Qed.

Lemma gc_delete_spec largest sgs fs :
  Forall2 file_rep sgs fs ->
  exists n fs', gc_delete remove_path file_close largest fs = Ret (Z.of_nat n, fs') /\ (n <= length sgs)%nat /\
    Forall (fun sg => sg_index sg <= largest) (take n sgs) /\ Forall2 (survives largest) (drop n fs) fs'.
Proof using close_ok.
  induction 1 as [|sg [k lf] sgs fs Hf Hfs IH]; [by exists O, []|]. cbn [gc_delete].
  pose proof (fr_index _ _ _ _ Hf) as Eidx. pose proof (fr_key _ _ _ _ Hf) as Ek. cbn [fst snd] in Eidx, Ek. subst k. rewrite Eidx, Z.eqb_refl.
  cbn [CHECK]. destruct (Z.leb_spec (sg_index sg) largest) as [Hle|Hgt].
  2:{ exists O, ((sg_index sg, lf) :: fs). split_and!; [done|lia|constructor|]. constructor; [apply survives_refl|apply survives_all]. }
  assert (exists lf', close file_close lf = Ret lf' /\ lf_path lf' = lf_path lf /\ survives largest (sg_index sg, lf) (sg_index sg, lf')) as (lf' & -> & Ep & Hs).
  { unfold close. cbn [with_stream lf_handle lf_path]. rewrite close_ok. cbn [CHECK].
    destruct (lf_handle lf); eexists; (split; [reflexivity|]; split; [done|]); (split; cbn; [done|done|lia]). }
  cbn [obind]. destruct (remove_path (lf_path lf')); cbn [negb].
  - destruct IH as (n & fs' & -> & Hn & Hlt & Hs'). cbn [obind]. exists (S n), fs'. split_and!; [|cbn; lia| |done].
    + do 2 f_equal. lia.
    + cbn [take]. by constructor.
  - exists O, ((sg_index sg, lf') :: fs). split_and!; [done|lia|constructor|]. constructor; [done|apply survives_all].
Qed.

Lemma chained_drop i o sgs n : chained i o sgs -> exists o', chained (i + Z.of_nat n) o' (drop n sgs).
Proof.
  revert i o n. induction sgs as [|sg sgs IH]; intros i o n H; [exists 0; by rewrite drop_nil|]. destruct n as [|n].
  - exists o. cbn [drop]. by rewrite Z.add_0_r.
  - destruct H as (_ & _ & H). destruct (IH _ _ n H) as (o' & H'). exists o'. cbn [drop].
    by replace (i + Z.of_nat (S n)) with (i + 1 + Z.of_nat n) by lia.
Qed.

Lemma last_of_drop {A : Type} n (l : list A) x : last (drop n l) = Some x -> last l = Some x.
Proof. intros H. rewrite <- (take_drop n l), last_app, H. done. Qed.

(** The log with the files that are left. *)
Lemma collected_rep l l' sgs n lim fs' :
  log_rep l sgs -> Forall2 (survives lim) (drop n (files (on_files l))) fs' ->
  (forall k, current_log_file (on_files l) = Some k -> lim < k /\ (n < length sgs)%nat) ->
  config l' = config l -> decrees l' = decrees l -> buffers l' = buffers l -> files (on_files l') = fs' ->
  last_file_index (on_files l') = last_file_index (on_files l) -> current_log_file (on_files l') = current_log_file (on_files l) ->
  global_end_offset (on_files l') = global_end_offset (on_files l) -> log_rep l' (drop n sgs).
Proof.
  intros H Hs Hcur E1 E2 E3 E4 E5 E6 E7. pose proof H as [H1 H2 H3 H4 (i & o & Hi & Hch) H6 H7 H8 H9 H10 H11 H12].
  pose proof (survives_reps _ _ _ _ (Forall2_drop _ _ _ n H7) Hs) as Hfs.
  split; rewrite ?E1, ?E2, ?E3, ?E4, ?E5, ?E6, ?E7; try done.
  - destruct (chained_drop _ _ _ n Hch) as (o' & Hch'). exists (i + Z.of_nat n), o'. split; [lia|done].
  - by apply Forall_drop.
  - intros sg E. apply H9. by apply last_of_drop in E.
  - intros k Ek. destruct (Hcur k Ek) as [Hlim Hn]. destruct (H10 k Ek) as (sg & lf & El & -> & Hf & Hw). apply last_Some in El as (sgs0 & ->).
    destruct (files_last _ _ _ _ _ _ _ H) as (fs0 & lf0 & Efs & Hfs0 & _ & Hb). rewrite Efs, map_find_last in Hf by done. injection Hf as ->.
    pose proof (Forall2_length _ _ _ Hfs0) as El0. rewrite length_app in Hn. cbn in Hn. rewrite Efs, drop_app_le in Hs by lia.
    apply Forall2_app_inv_l in Hs as (f1 & f2 & Hs1 & Hs2 & ->). apply Forall2_cons_inv_l in Hs2 as ([k lf'] & f3 & Hsv & Hf3 & ->).
    apply Forall2_nil_inv_l in Hf3 as ->. pose proof (sv_key _ _ _ Hsv) as Ek'. cbn in Ek'. subst k.
    exists sg, lf'. rewrite drop_app_le, last_snoc, map_find_last by (lia || (by eapply survives_below; [apply Forall_drop; exact Hb|exact Hs1])).
    split_and!; try done. destruct Hw as (W1 & W2 & W3 & W4). destruct Hsv as [_ (_ & _ & _ & _ & S6 & S7 & _) S9]. cbn [fst snd] in *.
    split_and!; [congruence|rewrite S9; done|congruence|done].
Qed.

(** What is deleted may be cleaned. *)
Lemma deleted_clean l sgs a sg b cleanable valid i o :
  gc_inv l sgs -> sgs = a ++ sg :: b -> chained i o sgs -> valid_start_offset (private_log_info (decrees l)) <= valid ->
  deletable cleanable valid (max_decree (private_log_info (decrees l))) sg b ->
  Forall (fun m => decree (header m) <= cleanable \/ log_offset (header m) < valid) (log_mutations (a ++ [sg])).
Proof.
  intros [Hh Hall _] -> Hch Hv [Hd|Hd].
  - rewrite (cons_middle sg), app_assoc in Hch. assert (chained i o (a ++ [sg])) as Hch'.
    { clear -Hch. revert i o Hch. generalize (a ++ [sg]) as c. induction c as [|s c IH]; intros i o H; [done|].
      destruct H as (? & ? & H). split_and!; [done|done|]. by apply IH. }
    destruct (chain_positions _ _ _ Hch') as [_ Hp]. rewrite (chain_end_last _ _ _ sg) in Hp by apply last_snoc.
    eapply Forall_impl; [exact Hp|]. cbn beta. intros m Hm. right. unfold LogReplay.sg_end in Hm. pose proof (length_sg_whole iteration sg) as El.
    unfold LogReplay.sg_wire in Hd. rewrite length_app in Hd. lia.
  - destruct b as [|s b]; cbn [head from_option] in Hd.
    + eapply Forall_impl; [exact Hall|]. cbn beta. intros m [?|?]; [left|right]; lia.
    + rewrite (cons_middle sg), app_assoc in Hh. apply headers_tell_app in Hh as [_ [(inf & Ei & Hi & Hc) _]]. cbn [app] in Hc.
      rewrite Ei, lookup_singleton_eq in Hd. cbn [from_option] in Hd. eapply Forall_impl; [exact Hc|]. cbn beta. intros m [?|?]; [left|right]; lia.
Qed.

(** The index of the file that is written, or -1. *)
Lemma current_index l sgs :
  log_rep l sgs ->
  match current_log_file (on_files l) with
  | None => match current_file l with Ret (_, lf) => lf_index lf | _ => -1 end = -1
  | Some k => match current_file l with Ret (_, lf) => lf_index lf | _ => -1 end = k /\ fst <$> last (files (on_files l)) = Some k /\
      exists sgs0 sg, sgs = sgs0 ++ [sg] /\ k = sg_index sg
  end.
Proof.
  intros H. unfold current_file. destruct (current_log_file (on_files l)) as [k|] eqn:Ek; [|done].
  destruct (lr_current _ _ _ _ _ _ H k Ek) as (sg & lf & El & -> & Hf & _). apply last_Some in El as (sgs0 & ->).
  destruct (files_last _ _ _ _ _ _ _ H) as (fs & lf' & Efs & _ & Hfr & Hb). cbn [deref obind]. rewrite Hf. cbn [deref obind].
  rewrite Efs, map_find_last in Hf by done. injection Hf as <-. rewrite Efs, last_snoc. split_and!; [apply (fr_index _ _ _ _ Hfr)|done|by eauto].
Qed.

(** What garbage collection does to a log. *)
Record collected (cleanable valid : Z) (l : mutation_log) (sgs : list segment) (n : nat) (l' : mutation_log) : Prop := Collected {
  cl_count : (n <= length sgs)%nat;
  cl_log : log_rep l' (drop n sgs);
  cl_gc : gc_inv l' (drop n sgs);
  cl_same : config l' = config l /\ decrees l' = decrees l /\ buffers l' = buffers l /\ is_opened l' = is_opened l /\
    last_file_index (on_files l') = last_file_index (on_files l) /\ global_end_offset (on_files l') = global_end_offset (on_files l) /\
    current_log_file (on_files l') = current_log_file (on_files l);
  cl_files : exists lim, Forall2 (survives lim) (drop n (files (on_files l))) (files (on_files l'));
  cl_clean : Forall (fun m => decree (header m) <= cleanable \/ log_offset (header m) < valid) (log_mutations (take n sgs));
  cl_current : current_log_file (on_files l) <> None -> (n < length sgs)%nat
}.

Lemma nothing_collected cleanable valid l l' sgs lim fs' :
  log_rep l sgs -> gc_inv l sgs -> Forall2 (survives lim) (files (on_files l)) fs' -> lim < 0 ->
  config l' = config l -> decrees l' = decrees l -> buffers l' = buffers l -> is_opened l' = is_opened l -> files (on_files l') = fs' ->
  last_file_index (on_files l') = last_file_index (on_files l) -> current_log_file (on_files l') = current_log_file (on_files l) ->
  global_end_offset (on_files l') = global_end_offset (on_files l) -> collected cleanable valid l sgs 0 l'.
Proof.
  intros H Hg Hs Hlim E1 E2 E3 E0 E4 E5 E6 E7. assert (forall k, current_log_file (on_files l) = Some k -> lim < k /\ (0 < length sgs)%nat) as Hc.
  { intros k Ek. destruct (lr_current _ _ _ _ _ _ H k Ek) as (sg & lf & El & -> & _). apply last_Some in El as (sgs0 & ->).
    destruct (lr_chain _ _ _ _ _ _ H) as (i & o & Hi & Hch). destruct (chained_sorted iteration _ _ _ Hch) as [_ Hf].
    apply Forall_app in Hf as [_ [Hf _]%Forall_cons]. rewrite length_app. cbn. lia. }
  assert (log_rep l' (drop 0 sgs)) as Hl' by (eapply collected_rep; try done; by rewrite drop_0).
  split; [lia|done|by eapply gc_inv_drop|by split_and!|exists lim; by rewrite drop_0, E4|constructor|].
  intros Hcur. destruct (current_log_file (on_files l)) as [k|] eqn:Ek; [|done]. by apply (Hc k).
Qed.

Lemma garbage_collection_spec l sgs cleanable valid rsize rtime :
  log_rep l sgs -> gc_inv l sgs -> valid_start_offset (private_log_info (decrees l)) <= valid ->
  exists n l', garbage_collection last_write_time remove_path file_close now_ms g cleanable valid rsize rtime l = Ret (Z.of_nat n, l') /\
    collected cleanable valid l sgs n l'.
Proof using close_ok.
  intros H Hg Hv. unfold garbage_collection. rewrite (lr_private _ _ _ _ _ _ H). cbn [CHECK].
  pose proof (current_index l sgs H) as Hcur. set (current := match current_file l with Ret _ => _ | _ => _ end) in *. clearbody current.
  destruct (Nat.leb_spec (length (files (on_files l))) 1) as [_|_].
  { exists O, l. split; [done|]. eapply (nothing_collected _ _ _ _ _ (-1)); try done. apply survives_all. }
  assert ((current =? -1) || bool_decide (fst <$> last (files (on_files l)) = Some current) = true) as ->.
  { destruct (current_log_file (on_files l)); [|by rewrite Hcur]. destruct Hcur as (-> & E & _).
    rewrite (bool_decide_eq_true_2 _ E). by rewrite orb_true_r. }
  cbn [CHECK].
  destruct (gc_scan_spec (-1) current cleanable valid rsize rtime sgs _ (max_decree (private_log_info (decrees l))) 0
    (lr_files _ _ _ _ _ _ H) (headers_some _ _ _ (gi_headers _ _ Hg))) as (mark & fs' & -> & Hs & Hmark).
  cbn [obind]. rewrite rev_involutive. destruct mark as [k|].
  2:{ exists O. eexists. split; [reflexivity|]. by eapply (nothing_collected _ _ _ _ _ (-1)). }
  destruct Hmark as (a & sg & b & Esgs & -> & Hne & Hdel). destruct (lr_chain _ _ _ _ _ _ H) as (i & o & Hi & Hch).
  pose proof (chained_sorted iteration _ _ _ Hch) as [Hsort Hge]. rewrite Esgs in Hge, Hsort. apply Forall_app in Hge as [_ [Hsg _]%Forall_cons].
  assert (Forall2 (survives (sg_index sg)) (files (on_files l)) fs') as Hs1.
  { eapply Forall2_impl; [exact Hs|]. intros x y. apply survives_weaken. lia. }
  pose proof (survives_reps _ _ _ _ (lr_files _ _ _ _ _ _ H) Hs) as Hfr.
  destruct (gc_delete_spec (sg_index sg) sgs fs' Hfr) as (n & fs2 & -> & Hn & Htake & Hs2). cbn [obind].
  pose proof (survives_compose _ _ _ _ _ Hs1 Hs2) as Hs3. exists n.
  assert (n <= S (length a))%nat as Hna by (rewrite Esgs in Hch, Htake, Hn; by eapply taken_before).
  assert (forall k, current_log_file (on_files l) = Some k -> sg_index sg < k /\ (n < length sgs)%nat) as Hc.
  { intros k Ek. rewrite Ek in Hcur. destruct Hcur as (-> & _ & sgs0 & sg0 & E0 & ->). rewrite Esgs in E0.
    destruct b as [|s b _] using rev_ind; [apply app_inj_tail in E0 as [_ <-]; done|]. rewrite app_comm_cons, app_assoc in E0.
    apply app_inj_tail in E0 as [_ <-]. apply StronglySorted_app_1_r in Hsort. apply StronglySorted_inv in Hsort as [_ Hsort].
    apply Forall_app in Hsort as [_ [Hlt _]%Forall_cons]. unfold index_lt in Hlt. split; [lia|]. rewrite Esgs, !length_app. cbn. rewrite length_app. cbn. lia. }
  eexists. split; [reflexivity|].
  match goal with |- collected _ _ _ _ _ ?x => set (l' := x) end.
  assert (config l' = config l /\ decrees l' = decrees l /\ buffers l' = buffers l /\ is_opened l' = is_opened l /\
    last_file_index (on_files l') = last_file_index (on_files l) /\ global_end_offset (on_files l') = global_end_offset (on_files l) /\
    current_log_file (on_files l') = current_log_file (on_files l) /\ files (on_files l') = fs2) as (E1 & E2 & E3 & E4 & E5 & E6 & E7 & E8)
    by (unfold l'; by destruct (Z.of_nat n =? 0)).
  clearbody l'. split; try done.
  - by eapply collected_rep.
  - by eapply gc_inv_drop.
  - exists (sg_index sg). by rewrite E8.
  - pose proof (deleted_clean l sgs a sg b cleanable valid i o Hg Esgs Hch Hv Hdel) as Hcl. rewrite Forall_forall in Hcl |- *. intros m Hm.
    apply Hcl. rewrite Esgs, (cons_middle sg), app_assoc in Hm. eapply log_mutations_take; [|exact Hm]. rewrite length_app. cbn. lia.
  - destruct (current_log_file (on_files l)) as [k|]; [|done]. intros _. by apply (Hc k).
Qed.

End Collecting.
End Theory.
End LogGc.
