(* ===== verification/LogLearn.v ===== *)
(** * What a learner is given by the private log

    Theory of [mutation_log::get_learn_state] and [mutation_log::get_parent_mutations_and_logs]:
    the buffers in memory and the files they list together hold every mutation of the log that
    is asked for.  A file is left out only when the header of a later one tells that all before
    that are older than what is asked for. *)
From S2P Require Import Prelude Endians BinaryIO Mutation Crc StringConv Strings FileStreamer LogBlock LogFile LogReplay MutationLog LogTheory LogGc.

Module LogLearn.
Import BinaryIO Mutation Crc LogBlock LogFile LogReplay MutationLog LogTheory LogGc.

#[local] Opaque crc32_calc.

Section Theory.
Context (g : gpid) (dir : path).
Context (iteration : replica_log_info_map -> list (gpid * replica_log_info)).
Context (iteration_ok : forall m, iteration m ≡ₚ map_to_list m).

Local Abbreviation sg_end := (sg_end iteration).
Local Abbreviation chained := (chained iteration).
Local Abbreviation log_mutations := (log_mutations iteration).
Local Abbreviation file_rep := (file_rep dir iteration).
Local Abbreviation gc_inv := (gc_inv g iteration).
Local Abbreviation headers_tell := (headers_tell g iteration).

Definition sg_path (sg : segment) : path := log_file_name dir (sg_index sg) (sg_start sg).

(** What a learner that has applied everything before [start] still needs of a log that is valid from [valid] on. *)
Definition needed (valid start : Z) (m : mutation) : Prop := start <= decree (header m) /\ valid <= log_offset (header m).

Definition has_needed (valid start : Z) (sg : segment) : Prop := Exists (needed valid start) (sg_mutations iteration sg).

(** Nothing of these files is needed. *)
Lemma none_needed valid start sgs (P : segment -> Prop) :
  Forall (fun m => ~ needed valid start m) (log_mutations sgs) -> Forall (fun sg => has_needed valid start sg -> P sg) sgs.
Proof.
  rewrite !Forall_forall. intros H sg Hsg (m & Hm & Hn)%Exists_exists. destruct (H m); [|done]. unfold LogReplay.log_mutations.
  apply list_elem_of_In, in_concat. exists (sg_mutations iteration sg). split; apply list_elem_of_In; [|done]. apply list_elem_of_fmap. by exists sg.
Qed.

Lemma iteration_singleton (i : replica_log_info) : iteration {[ g := i ]} = [(g, i)].
Proof using iteration_ok.
  apply Permutation_singleton_r. rewrite iteration_ok. by rewrite map_to_list_singleton.
Qed.

Lemma file_covers_segment sg kv : file_rep sg kv -> sg_end sg <= lf_end_offset kv.2 /\ lf_start_offset kv.2 < lf_end_offset kv.2.
Proof.
  intros H. rewrite (fr_end _ _ _ _ H), (fr_start _ _ _ _ H). unfold sg_wire. rewrite length_app, Nat2Z.inj_add, length_sg_whole.
  unfold LogReplay.sg_end, sg_first, sizeof_log_block_header. pose proof (groups_size_nonneg (sg_groups sg)). lia.
Qed.

(** The loop: it finds a file for everything that is needed; and what it reports about the
    oldest file it took is what the header of that file tells. *)
Lemma learn_files_spec valid start sgs fs i o found lmd off :
  Forall2 file_rep sgs fs -> chained i o sgs -> headers_tell valid [] sgs ->
  exists found' lmd' off',
    learn_files iteration valid start (rev (map snd fs)) false found lmd off = (found ++ found', lmd', off') /\
    Forall (fun sg => has_needed valid start sg -> sg_path sg ∈ map lf_path found') sgs /\
    (found' = [] /\ lmd' = lmd /\ off' = off \/
     exists sg info, sg ∈ sgs /\ last (map lf_path found') = Some (sg_path sg) /\ sg_previous sg = {[ g := info ]} /\
       lmd' = max_decree info /\ off' = sg_start sg).
Proof using iteration_ok.
  intros Hfs. revert i o found lmd off. induction sgs as [|sg sgs IH] using rev_ind in fs, Hfs |- *; intros i o found lmd off Hch Hh.
  { apply Forall2_nil_inv_l in Hfs as ->. exists [], lmd, off. rewrite app_nil_r. split_and!; [done|constructor|by left]. }
  apply Forall2_app_inv_l in Hfs as (fs0 & f1 & Hfs & Hf1 & ->). apply Forall2_cons_inv_l in Hf1 as (kv & f2 & Hf & Hf2 & ->).
  apply Forall2_nil_inv_l in Hf2 as ->. rewrite map_app, rev_app_distr. cbn [map rev app learn_files].
  destruct (file_covers_segment _ _ Hf) as [Hend Hne].
  destruct (Z.leb_spec (lf_end_offset kv.2) valid) as [Hv|Hv].
  { exists [], lmd, off. rewrite app_nil_r. split_and!; [done| |by left]. apply none_needed. destruct (chain_positions _ _ _ _ Hch) as [_ Hpos].
    rewrite (chain_end_last _ _ _ sg) in Hpos by apply last_snoc. eapply Forall_impl; [exact Hpos|]. unfold needed. cbn beta. intros; lia. }
  apply headers_tell_app in Hh as [Hh [(info & Ei & Hi & Hc) _]]. cbn [app] in Hc.
  rewrite (fr_previous _ _ _ _ Hf), Ei, map_size_singleton, iteration_singleton. cbn [Nat.eqb head from_option snd].
  destruct (Z.gtb_spec (lf_end_offset kv.2) (lf_start_offset kv.2)) as [_|]; [|lia].
  pose proof (fr_path _ _ _ _ Hf : lf_path kv.2 = sg_path sg) as Epath.
  destruct (Z.ltb_spec (max_decree info) start) as [Hlt|Hge].
  - exists [kv.2], (max_decree info), (lf_start_offset kv.2). split_and!; [done| |].
    + apply Forall_app. split; [|apply Forall_singleton; intros _; cbn; rewrite Epath; by left].
      apply none_needed. eapply Forall_impl; [exact Hc|]. unfold needed. cbn beta. intros m [?|?] ?; lia.
    + right. exists sg, info. cbn. rewrite (fr_start _ _ _ _ Hf), (fr_path _ _ _ _ Hf). set_solver.
  - pose proof (chained_prefix _ _ _ _ _ Hch) as Hch0.
    destruct (IH fs0 Hfs i o (found ++ [kv.2]) (max_decree info) (lf_start_offset kv.2) Hch0 Hh) as (found' & lmd' & off' & -> & HF & Hlast).
    exists (kv.2 :: found'), lmd', off'. rewrite <- app_assoc. split_and!; [done| |].
    + cbn [map]. rewrite Epath. apply Forall_app. split; [|apply Forall_singleton; intros _; by left].
      eapply Forall_impl; [exact HF|]. cbn beta. intros sg' H H'. right. by apply H.
    + right. destruct Hlast as [(-> & -> & ->)|(sg' & info' & H1 & H2 & H3 & -> & ->)].
      * exists sg, info. cbn. rewrite (fr_start _ _ _ _ Hf), (fr_path _ _ _ _ Hf). set_solver.
      * exists sg', info'. split_and!; try done; [set_solver|]. cbn [map]. destruct found'; [done|]. exact H2.
Qed.

Context (registered : task_code -> bool).
Local Abbreviation log_rep := (log_rep registered g dir iteration).

(** ** The mutations in memory *)

Definition in_memory (l : mutation_log) : list mutation :=
  from_option mutations [] (issued_write (buffers l)) ++ from_option mutations [] (pending_write (buffers l)).

Lemma learned_wire ms w bs :
  Forall mutation_ok ms -> rep w bs -> rep (fold_left (fun w mu => write_to mu w) ms w) (bs ++ concat (map mutation_wire ms)).
Proof.
  intros HF. revert w bs. induction HF as [|m ms Hm HF IH]; intros w bs Hw; cbn [fold_left map concat]; [by rewrite app_nil_r|].
  rewrite app_assoc. by apply IH, write_to_rep.
Qed.

(** The buffers hold mutations that can be written. *)
Definition memory_ok (l : mutation_log) : Prop := Forall mutation_ok (in_memory l).

Lemma learned_ok start l : memory_ok l -> Forall mutation_ok (learned start l).
Proof. unfold memory_ok. rewrite !Forall_forall. intros HF m [_ Hm]%list_elem_of_filter. by apply HF. Qed.

Lemma learned_meta start l :
  memory_ok l -> exists w, get_learn_state_in_memory start (new_binary_writer 0) l =
      (negb (bool_decide (learned start l = [])), w) /\ fst (get_buffer w) = concat (map mutation_wire (learned start l)).
Proof.
  intros HF. eexists. split; [reflexivity|]. apply (get_buffer_rep _ _ (learned_wire _ _ [] (learned_ok start l HF) (rep_new 0))).
Qed.

Lemma get_learn_state_meta start l covered meta paths :
  memory_ok l -> get_learn_state iteration g start l = Ret (covered, meta, paths) -> meta = concat (map mutation_wire (learned start l)).
Proof.
  intros Hm. unfold get_learn_state. destruct (is_private (config l)); [|done]. destruct (bool_decide (_ = g)); [|done]. cbn [CHECK].
  destruct (learned_meta start l Hm) as (w & -> & ->).
  assert ((if negb (bool_decide (learned start l = [])) then concat (map mutation_wire (learned start l)) else [])
    = concat (map mutation_wire (learned start l))) as -> by (case_bool_decide as E; [by rewrite E|done]).
  destruct (_ && _); [by intros [= _ <- _]|]. destruct (learn_files _ _ _ _ _ _ _ _) as [[? ?] ?]. by intros [= _ <- _].
Qed.

(** ** The files *)

(** The files that are listed are all those that hold a mutation the learner needs.  When
    [get_learn_state] says that the log covers the learner, the oldest of the files starts
    where the log is valid, and all decrees before it are smaller than those needed. *)
Lemma get_learn_state_files start l sgs :
  log_rep l sgs -> gc_inv l sgs ->
  let valid := valid_start_offset (private_log_info (decrees l)) in
  exists covered meta paths, get_learn_state iteration g start l = Ret (covered, meta, paths) /\
    Forall (fun sg => has_needed valid start sg -> sg_path sg ∈ paths) sgs /\
    (covered = true -> exists sg info, sg ∈ sgs /\ head paths = Some (sg_path sg) /\ valid <= sg_start sg /\
       sg_previous sg = {[ g := info ]} /\ 0 < max_decree info < start).
Proof using iteration_ok.
  intros Hl Hg valid. unfold get_learn_state. rewrite (lr_private _ _ _ _ _ _ Hl), (proj1 (lr_gpid _ _ _ _ _ _ Hl)).
  rewrite bool_decide_eq_true_2 by done. cbn [CHECK]. destruct (get_learn_state_in_memory _ _ _) as [some w]. fold valid.
  destruct (_ && _) eqn:Enone.
  - do 3 eexists. split; [reflexivity|]. split; [|done]. apply none_needed. apply andb_prop in Enone as [_ Hgt].
    eapply Forall_impl; [apply (gi_all _ _ _ _ Hg)|]. unfold needed. cbn beta. fold valid. intros m [?|?] ?; lia.
  - destruct (lr_chain _ _ _ _ _ _ Hl) as (i & o & _ & Hch).
    destruct (learn_files_spec valid start sgs (files (on_files l)) i o [] 0 0
      (lr_files _ _ _ _ _ _ Hl) Hch (gi_headers _ _ _ _ Hg)) as (found & lmd & off & -> & HF & Hlast).
    cbn [app]. do 3 eexists. split; [reflexivity|]. rewrite map_rev, (rev_alt (map lf_path found) : _ = reverse _). split.
    + eapply Forall_impl; [exact HF|]. cbn beta. intros sg H H'. by apply elem_of_reverse, H.
    + rewrite !andb_true_iff. intros [[H1 H2] H3]. destruct Hlast as [(_ & -> & _)|(sg & info & Hin & El & Ep & -> & ->)]; [done|].
      exists sg, info. split_and!; try done; [by rewrite head_reverse|lia..].
Qed.
End Theory.

End LogLearn.
