(* ===== verification/LogOpen.v ===== *)
(** * Opening the private log

    Theory of [MutationLog.open]: a directory that holds a chain of log files, the last one
    cut off by a crash, is opened to a log that goes on where the chain ends. *)
From stdpp Require Import sorting.
From S2P Require Import Prelude Endians BinaryIO Mutation Crc StringConv Strings FileStreamer LogBlock LogFile LogReplay MutationLog LogTheory.

Module LogOpen.
Import BinaryIO Mutation Crc LogBlock LogFile LogReplay MutationLog LogTheory.

#[local] Opaque crc32_calc.

Section Theory.
Context (registered : task_code -> bool) (hdr_size : Z) (g : gpid) (dir : path).
Context (iteration : replica_log_info_map -> list (gpid * replica_log_info)).
Context (iteration_ok : forall m, iteration m ≡ₚ map_to_list m).

Local Abbreviation log_rep := (log_rep registered g dir iteration).
Local Abbreviation segment_ok := (segment_ok registered g iteration).
Local Abbreviation loggable := (loggable registered g).

(** ** The decrees noted while replaying *)

(** What replaying leaves alone. *)
Definition noted_only (l l' : mutation_log) : Prop :=
  config l' = config l /\ is_opened l' = is_opened l /\ on_files l' = on_files l /\ buffers l' = buffers l /\
  valid_start_offset (private_log_info (decrees l')) = valid_start_offset (private_log_info (decrees l)) /\
  max_decree (private_log_info (decrees l)) <= max_decree (private_log_info (decrees l')).

Lemma note_all_spec cb ms l :
  is_private (config l) = true -> private_gpid (config l) = g -> log_info_ok (private_log_info (decrees l)) ->
  Forall (fun m => pid (header m) = g /\ int64_ok (decree (header m))) ms ->
  exists l', note_all (Some cb) (map (entry hdr_size) ms) l = Ret l' /\ noted_only l l' /\ log_info_ok (private_log_info (decrees l')) /\
    Forall (fun m => cb (wire_size m) (from_log hdr_size m) = true ->
      decree (header m) <= max_decree (private_log_info (decrees l'))) ms.
Proof.
  intros Hp Hg Hi HF. revert l Hp Hg Hi. induction HF as [|m ms [Hm Hd] HF IH]; intros l Hp Hg Hi.
  - exists l. by split_and!.
  - cbn [map note_all]. unfold note_replayed, entry at 1. cbv zeta. cbn [from_option]. destruct (cb (wire_size m) (from_log hdr_size m)) eqn:Ecb.
    + unfold update_max_decree. change (pid (header (from_log hdr_size m))) with (pid (header m)).
      change (decree (header (from_log hdr_size m))) with (decree (header m)).
      rewrite Hp, Hm, bool_decide_eq_true_2 by done. cbn [CHECK obind]. unfold update_max_decree_on_disk.
      cbn [with_decrees config]. rewrite Hp. cbn [CHECK obind]. set (l1 := with_decrees _ (with_decrees _ l)).
      assert (private_log_info (decrees l1) = ReplicaLogInfo (Z.max (decree (header m)) (max_decree (private_log_info (decrees l))))
        (valid_start_offset (private_log_info (decrees l)))) as E1.
      { cbn. destruct (Z.gtb_spec (decree (header m)) (max_decree (private_log_info (decrees l)))).
        - by rewrite Z.max_l by lia.
        - rewrite Z.max_r by lia. by destruct (private_log_info (decrees l)). }
      destruct (IH l1) as (l' & -> & (N1 & N2 & N3 & N4 & N5 & N6) & Hi' & HF'); [done|done| |].
      { rewrite E1. destruct Hi. unfold log_info_ok, int64_ok in *. cbn. lia. }
      exists l'. rewrite E1 in N5, N6. cbn [valid_start_offset max_decree] in N5, N6. split_and!; try done; [split_and!; try done; lia|].
      constructor; [lia|done].
    + destruct (IH l Hp Hg Hi) as (l' & E & Hn & Hi' & HF'). cbn [obind]. exists l'. split_and!; try done. constructor; [|done].
      by rewrite Ecb.
Qed.

Lemma place_pid o ms : Forall loggable ms -> Forall (fun m => pid (header m) = g /\ int64_ok (decree (header m))) (place o ms).
Proof.
  intros HF. revert o. induction HF as [|m ms (Hp & Hok & _) HF IH]; intros o; [constructor|]. cbn [place]. constructor; [|apply IH].
  split; [done|]. apply Hok.
Qed.

Lemma place_groups_pid o gs :
  Forall (group_loggable registered g) gs ->
  Forall (fun m => pid (header m) = g /\ int64_ok (decree (header m))) (place_groups o gs).
Proof.
  intros HF. revert o. induction HF as [|ms gs (_ & _ & Hms) HF IH]; intros o; [constructor|]. cbn [place_groups].
  apply Forall_app. split; [by apply place_pid|apply IH].
Qed.

Lemma log_mutations_pid sgs :
  Forall segment_ok sgs ->
  Forall (fun m => pid (header m) = g /\ int64_ok (decree (header m))) (log_mutations iteration sgs).
Proof.
  induction 1 as [|sg sgs Hok HF IH]; [constructor|]. unfold log_mutations. cbn [map concat]. apply Forall_app. split; [|done].
  apply place_groups_pid, (sgo_groups _ _ _ _ Hok).
Qed.

(** ** Opening *)

Section Directory.
Context (path_exists create_directory : path -> bool) (file_open : path -> bool) (file_size : path -> option Z)
  (file_close : path -> bool) (Read : path -> Z -> Z -> option blob).
Context (close_ok : forall p, file_close p = true).

(** A log that was just made. *)
Record blank (l : mutation_log) : Prop := Blank {
  bl_opened : is_opened l = false;
  bl_files : on_files l = init_files;
  bl_private : is_private (config l) = true;
  bl_gpid : private_gpid (config l) = g /\ gpid_ok g;
  bl_dir : ml_dir (config l) = dir /\ Z.of_nat (length dir) <= 400;
  bl_info : log_info_ok (private_log_info (decrees l));
  bl_buffers : buffers l = init_buffers
}.

Lemma replayed_files items l logs' :
  paired iteration Read items l -> Forall2 (replayed_log iteration) l.*1 logs' ->
  map (fun kv => lf_path kv.2) logs' = map (fun kv => lf_path kv.2) l.*2 ->
  (forall p sg, (p, Whole sg) ∈ items -> p = log_file_name dir (sg_index sg) (sg_start sg)) ->
  Forall2 (file_rep dir iteration) l.*1 logs'.
Proof.
  intros [HF _] H2 Hpaths Hname. revert logs' H2 Hpaths. induction HF as [|[sg kv] l [_ Hin] HF IH]; intros logs' H2 Hpaths.
  - inversion H2. constructor.
  - inversion H2 as [|? kv' ? logs'' [R1 R2 R3 R4 R5 R6] H2']; subst. cbn in Hpaths. injection Hpaths as Hp Hpaths.
    constructor; [|by apply IH]. split; try done. rewrite Hp. by apply Hname.
Qed.

Lemma files_end sgs sg logs i o :
  Forall2 (file_rep dir iteration) (sgs ++ [sg]) logs -> Forall segment_ok (sgs ++ [sg]) -> chained iteration i o (sgs ++ [sg]) -> 0 <= i ->
  from_option fst 0 (last logs) = sg_index sg /\ 0 <= sg_end iteration sg /\ 0 <= sg_index sg.
Proof.
  intros (l1 & l2 & _ & H2 & ->)%Forall2_app_inv_l Hok Hch Hi. inversion H2 as [|? kv ? ? Hkv H3]; subst. inversion H3; subst.
  rewrite last_snoc. cbn. rewrite (fr_key _ _ _ _ Hkv). split; [done|]. apply Forall_app in Hok as [_ [Hsg _]%Forall_cons].
  destruct (chained_sorted _ _ _ _ Hch) as [_ [_ [Hle _]%Forall_cons]%Forall_app]. split; [|lia].
  pose proof (sgo_start _ _ _ _ Hsg). pose proof (groups_size_nonneg (sg_groups sg)). unfold sg_end, sg_first, sizeof_log_block_header. lia.
Qed.

Lemma open_spec items sgs index offset fuel cb l0 :
  blank l0 -> path_exists dir || create_directory dir = true ->
  Forall (fun pi => item_at registered g iteration Read file_open file_size pi.1 pi.2) items ->
  (forall p sg, (p, Whole sg) ∈ items -> p = log_file_name dir (sg_index sg) (sg_start sg)) ->
  omap whole_of items ≡ₚ sgs -> chained iteration index offset sgs -> 0 <= index -> (sgs = [] -> offset = 0) -> 0 <= offset ->
  Forall (fun sg => (length (sg_whole iteration sg) < fuel)%nat) sgs ->
  exists l removed, open path_exists create_directory (fun _ => Some items.*1) file_open file_size file_close Read registered hdr_size
      fuel (Some cb) ∅ l0 = Ret (ERR_OK, l, map (entry hdr_size) (log_mutations iteration sgs), removed) /\
    removed ≡ₚ omap headless_of items /\ log_rep l sgs /\ is_opened l = true /\ buffers l = init_buffers /\
    current_log_file (on_files l) = None /\ config l = config l0 /\
    valid_start_offset (private_log_info (decrees l)) = valid_start_offset (private_log_info (decrees l0)) /\
    global_end_offset (on_files l) = chain_end iteration offset sgs /\
    last_file_index (on_files l) = from_option sg_index 0 (last sgs) /\
    Forall (fun m => cb (wire_size m) (from_log hdr_size m) = true ->
      decree (header m) <= max_decree (private_log_info (decrees l))) (log_mutations iteration sgs).
Proof using iteration_ok close_ok.
  intros [B1 B2 B3 [B4 B4'] [B5 B5'] B6 B7] Hdir HF Hname Hp Hch Hi H0 Hoff Hfuel. unfold open. rewrite B1, B2. cbn [negb CHECK].
  rewrite bool_decide_eq_true_2 by done. cbn [CHECK]. rewrite B5.
  assert (negb (path_exists dir) && negb (create_directory dir) = false) as -> by (by destruct (path_exists dir), (create_directory dir)).
  change (bool_decide (is_Some (Some cb))) with true. cbn [orb CHECK].
  assert (exists items', sort_paths items.*1 = items'.*1 /\ items ≡ₚ items') as (items' & -> & Hperm).
  { apply Permutation_map_inv. apply merge_sort_Permutation. }
  assert (Forall (fun pi => item_at registered g iteration Read file_open file_size pi.1 pi.2) items') as HF' by (by rewrite <- Hperm).
  assert (omap whole_of items' ≡ₚ sgs) as Hp' by (by rewrite <- Hperm).
  destruct (open_directory registered g iteration iteration_ok Read file_open file_size items' sgs index offset HF' Hp' Hch) as (l & -> & El & Hl).
  cbn [obind]. rewrite map_size_empty. cbn [Nat.eqb obind]. rewrite drop_0, take_0. cbn [app].
  assert (Forall segment_ok sgs) as Hok.
  { rewrite <- Hp. clear -HF. induction HF as [|[p [sg|f|]] items Hi HF IH]; cbn; [constructor| |done|done].
    constructor; [apply Hi|done]. }
  pose proof (paired_opened iteration Read items' l Hl) as H2. rewrite El in H2.
  destruct (replay_logs_chain registered hdr_size g iteration iteration_ok Read file_close close_ok fuel sgs l.*2 index offset 0
    H2 Hok Hch Hi H0 Hfuel) as (logs' & -> & Hrl & Hpaths). cbn [obind].
  set (l1 := with_files _ l0).
  destruct (note_all_spec cb (log_mutations iteration sgs) l1) as (l2 & -> & (N1 & N2 & N3 & N4 & N5 & N6) & Hi' & HFd);
    [done|done|done|by apply log_mutations_pid|]. ok_step.
  assert (files (on_files l2) = logs') as Ef by (by rewrite N3). unfold finish_open. rewrite Ef. ok_step.
  do 2 eexists. split; [reflexivity|]. split; [by rewrite <- Hperm|].
  rewrite <- El in Hrl. pose proof (replayed_files items' l logs' Hl Hrl Hpaths
    ltac:(intros p sg Hin; apply Hname; by rewrite Hperm)) as Hfr. rewrite El in Hfr.
  assert (current_log_file (on_files l2) = None) as Ecur by (rewrite N3; cbn; by rewrite B2).
  assert (forall sg, last sgs = Some sg -> from_option fst 0 (last logs') = sg_index sg /\ 0 <= sg_end iteration sg /\ 0 <= sg_index sg) as Hlast.
  { intros sg (sgs' & E)%last_Some. rewrite E in Hfr, Hok, Hch. exact (files_end sgs' sg logs' index offset Hfr Hok Hch Hi). }
  split_and!; try done; [|rewrite <- B7; exact N4|].
  2:{ cbn [on_files last_file_index]. destruct (last sgs) as [sg|] eqn:E; [by destruct (Hlast sg eq_refl) as (-> & _)|].
      apply last_None in E as ->. by inversion Hfr. }
  split; cbn [config decrees buffers on_files files last_file_index global_end_offset current_log_file]; rewrite ?N1; try done.
  - by exists index, offset.
  - destruct (last sgs) as [sg|] eqn:E.
    + destruct (Hlast sg eq_refl) as (-> & ? & ?). by rewrite (chain_end_last _ _ _ _ E).
    + apply last_None in E as ->. inversion Hfr. done.
  - intros sg E. destruct (Hlast sg E) as (-> & _). by rewrite (chain_end_last _ _ _ _ E).
  - by rewrite Ecur.
  - rewrite N4. cbn. by rewrite B7.
  - rewrite N4. cbn. by rewrite B7.
Qed.

End Directory.
End Theory.

End LogOpen.
