(* ===== verification/LogRun.v ===== *)
(** * The private log over crashes

    The log of a replica together with the disk: mutations are appended, writes reach the
    disk one after the other per file, and at any time the process may crash, which leaves
    an arbitrary part of the writes under way, and open the log again.  What was
    acknowledged is in the log from then on; nothing else is but mutations that were
    appended, in the order they were appended in. *)
From stdpp Require Import sorting.
From S2P Require Import Prelude Endians BinaryIO Mutation Crc StringConv Strings FileStreamer LogBlock LogFile LogReplay MutationLog LogTheory LogOpen.

Module LogRun.
Import Endians BinaryIO Mutation Crc Strings FileStreamer LogBlock LogFile LogReplay MutationLog LogTheory LogOpen.

#[local] Opaque crc32_calc.

(** ** The disk *)

Abbreviation disk := (list (path * blob)).

Fixpoint disk_find (p : path) (d : disk) : option blob :=
  match d with
  | [] => None
  | (q, f) :: d => if decide (q = p) then Some f else disk_find p d
  end.

Fixpoint disk_set (p : path) (f : blob) (d : disk) : disk :=
  match d with
  | [] => [(p, f)]
  | (q, f') :: d => if decide (q = p) then (p, f) :: d else (q, f') :: disk_set p f d
  end.

Definition disk_remove (p : path) : disk -> disk := filter (fun x => x.1 <> p).

Definition disk_size (d : disk) : nat := sum_list_with (fun x => length x.2) d.

(** Reading stops at the end of the file. *)
Definition disk_Read (d : disk) (p : path) (offset n : Z) : option blob :=
  (fun f => let size := Z.of_nat (length f) in slice f (Z.min offset size) (Z.min n size)) <$> disk_find p d.
Definition disk_file_size (d : disk) (p : path) : option Z := (fun f => Z.of_nat (length f)) <$> disk_find p d.
Definition disk_exists (d : disk) (p : path) : bool := bool_decide (p ∈ d.*1).

(** [rename_path(path, path.removed)]. *)
Definition disk_put_away (d : disk) (p : path) : disk :=
  match disk_find p d with
  | None => d
  | Some f => disk_set (p ++ str ".removed") f (disk_remove p d)
  end.

(** ** The log on the disk *)

Definition io_index (io : log_io) : Z := match io with WriteHeader k _ _ => k | WriteBuffer k _ _ _ _ _ => k end.
Definition io_offset (io : log_io) : Z := match io with WriteHeader _ o _ => o | WriteBuffer _ o _ _ _ _ => o end.
Definition io_bytes (io : log_io) : blob := match io with WriteHeader _ _ b => b | WriteBuffer _ _ b _ _ _ => b end.

Record world := World {
  w_error : error_code;                 (* of the last opening *)
  w_log : mutation_log;
  w_disk : disk;
  w_flying : list (path * log_io);      (* writes under way, in the order they were issued *)
  w_sent : list mutation;               (* what was appended; the callback is the position *)
  w_acked : list Z;                     (* callbacks called with [ERR_OK] *)
  w_replayed : list (Z * mutation)      (* what the last opening replayed *)
}.

Inductive log_event :=
| Append (m : mutation)
| SwitchFile (demand : bool)            (* [demand_switch_file] or [hint_switch_file] *)
| Complete (i : nat)                    (* a write is done *)
| Collect (cleanable now_ms : Z)        (* garbage collection *)
| Crash (reached : path -> nat).        (* how many bytes of the writes under way are on disk *)

Definition flying_for (p : path) (fl : list (path * log_io)) : list log_io := (filter (fun x => x.1 = p) fl).*2.

Definition apply_io (f : blob) (io : log_io) : blob := overwrite f (Z.to_nat (io_offset io)) (io_bytes io).

Section Run.
Context (registered : task_code -> bool) (hdr_size : Z) (g : gpid) (dir : path) (max_log_file_mb : Z).
Context (iteration : replica_log_info_map -> list (gpid * replica_log_info)) (plog_force_flush : bool).
Context (last_write_time : path -> option Z) (remove_path : path -> bool) (reserve_max_size reserve_max_time : Z).

Definition path_of (l : mutation_log) (io : log_io) : path := from_option lf_path [] (map_find (io_index io) (files (on_files l))).

(** A file is created, empty, before its header is written. *)
Definition create_for (l : mutation_log) (d : disk) (io : log_io) : disk :=
  match io with WriteHeader _ _ _ => disk_set (path_of l io) [] d | _ => d end.

Definition issue (l : mutation_log) (ios : list log_io) (w : world) : world :=
  World (w_error w) l (fold_left (create_for l) ios (w_disk w)) (w_flying w ++ map (fun io => (path_of l io, io)) ios)
    (w_sent w) (w_acked w) (w_replayed w).

Definition notice_acks (ns : list log_notice) : list Z :=
  omap (fun n => match n with Callback cb err _ => if is_ok err then Some cb else None | IoError _ => None end) ns.

(** What a crash leaves of a file. *)
Definition crashed_file (fl : list (path * log_io)) (reached : path -> nat) (x : path * blob) : path * blob :=
  (x.1, take (length x.2 + reached x.1) (fold_left apply_io (flying_for x.1 fl) x.2)).

Definition reopen (w : world) (d : disk) : outcome world :=
  let* (err, l, xs, removed) :=
    open (fun _ => true) (fun _ => true) (fun _ => Some d.*1) (disk_exists d) (disk_file_size d) (fun _ => true)
      (disk_Read d) registered hdr_size (S (disk_size d)) (Some (fun _ _ => true)) ∅ (new_mutation_log dir max_log_file_mb g) in
  Ret (World err l (fold_left disk_put_away removed d) [] (w_sent w) (w_acked w) xs).

Definition log_step (w : world) (e : log_event) : outcome world :=
  if negb (is_ok (w_error w)) then Ret w
  else
    match e with
    | Append m =>
        let* (_, _, l, ios) :=
          append (disk_exists (w_disk w)) (fun _ => true) iteration m (Some (Z.of_nat (length (w_sent w)))) (w_log w) in
        Ret (issue l ios (World (w_error w) (w_log w) (w_disk w) (w_flying w) (w_sent w ++ [m]) (w_acked w) (w_replayed w)))
    | SwitchFile demand =>
        let s := on_files (w_log w) in
        Ret (World (w_error w)
          (if demand then set_hints (switch_file_hint s) true (w_log w) else set_hints true (switch_file_demand s) (w_log w))
          (w_disk w) (w_flying w) (w_sent w) (w_acked w) (w_replayed w))
    | Complete i =>
        match w_flying w !! i with
        | None => Ret w
        | Some (p, io) =>
            if bool_decide (p ∈ (take i (w_flying w)).*1) then Ret w
            else
              let d := disk_set p (apply_io (default [] (disk_find p (w_disk w))) io) (w_disk w) in
              let fl := delete i (w_flying w) in
              let w := World (w_error w) (w_log w) d fl (w_sent w) (w_acked w) (w_replayed w) in
              match io with
              | WriteHeader _ _ _ => Ret w
              | WriteBuffer k _ bytes a md mc =>
                  let* (l, ns, ios) :=
                    write_buffer_done (disk_exists d) (fun _ => true) (fun _ => true) plog_force_flush iteration k a md mc ERR_OK
                      (Z.of_nat (length bytes)) (w_log w) in
                  Ret (issue l ios (World (w_error w) (w_log w) d fl (w_sent w) (w_acked w ++ notice_acks ns) (w_replayed w)))
              end
        end
    | Collect cleanable now_ms =>
        let* (deleted, l) :=
          garbage_collection last_write_time remove_path (fun _ => true) now_ms g cleanable
            (valid_start_offset (private_log_info (decrees (w_log w)))) reserve_max_size reserve_max_time (w_log w) in
        let gone := take (Z.to_nat deleted) (map (fun kv => lf_path kv.2) (files (on_files (w_log w)))) in
        Ret (World (w_error w) l (fold_left (fun d p => disk_remove p d) gone (w_disk w)) (w_flying w)
               (w_sent w) (w_acked w) (w_replayed w))
    | Crash reached => reopen w (map (crashed_file (w_flying w) reached) (w_disk w))
    end.

Fixpoint log_run (es : list log_event) (w : world) : outcome world :=
  match es with
  | [] => Ret w
  | e :: es => let* w := log_step w e in log_run es w
  end.

(** An empty directory. *)
Definition first_world : outcome world :=
  reopen (World ERR_OK (new_mutation_log dir max_log_file_mb g) [] [] [] [] []) [].

(** All writes under way are to the last file. *)
Definition settled (w : world) : bool :=
  match last (files (on_files (w_log w))) with
  | None => bool_decide (w_flying w = [])
  | Some (_, lf) => forallb (fun x => bool_decide (x.1 = lf_path lf)) (w_flying w)
  end.

(** What is not written yet is not cleanable. *)
Definition unwritten_above (cleanable : Z) (l : mutation_log) : bool :=
  forallb (fun m => cleanable <? decree (header m)) (from_option mutations [] (issued_write (buffers l)) ++ pending_mutations l).

(** No crash hits the switch from one file to the next, and only what was written is given
    to garbage collection. *)
Definition allowed (e : log_event) (w : world) : bool :=
  match e with
  | Crash _ => settled w
  | Collect cleanable _ => unwritten_above cleanable (w_log w)
  | _ => true
  end.

Fixpoint run_allowed (es : list log_event) (w : world) : bool :=
  match es with
  | [] => true
  | e :: es => allowed e w && match log_step w e with Ret w => run_allowed es w | _ => true end
  end.
End Run.

End LogRun.
