(* ===== verification/LogDurability.v ===== *)
(** * What was acknowledged survives crashes

    The invariant of [LogRun] and its theorems.  Each file of the log is described by its
    settled part and the writes under way to it ([file_state]); the callbacks that were
    called belong to mutations of settled parts, which no crash takes away. *)
From stdpp Require Import sorting.
From S2P Require Import Prelude Endians BinaryIO Mutation Crc StringConv Strings FileStreamer LogBlock LogFile LogReplay MutationLog LogTheory LogGc LogOpen LogRun.

Module LogDurability.
Import Endians BinaryIO Mutation Crc Strings FileStreamer LogBlock LogFile LogReplay MutationLog LogTheory LogGc LogOpen LogRun.

#[local] Opaque crc32_calc.

(** ** Disks *)

Lemma perm_eq {A : Type} (a b : list A) : a = b -> a ≡ₚ b.
Proof. by intros ->. Qed.

Lemma disk_find_in p f (d : disk) : NoDup d.*1 -> (p, f) ∈ d -> disk_find p d = Some f.
Proof.
  induction d as [|[q f'] d IH]; intros Hnd Hin; [by apply not_elem_of_nil in Hin|]. cbn in *.
  apply NoDup_cons in Hnd as [Hq Hnd]. apply elem_of_cons in Hin as [[= -> ->]|Hin]; [by rewrite decide_True|].
  rewrite decide_False; [by apply IH|]. intros ->. apply Hq. apply list_elem_of_fmap. by exists (p, f).
Qed.

Lemma disk_set_perm p f f' (d d' : disk) :
  NoDup d.*1 -> d ≡ₚ (p, f) :: d' -> disk_set p f' d ≡ₚ (p, f') :: d' /\ (disk_set p f' d).*1 = d.*1.
Proof.
  revert d'. induction d as [|[q f0] d IH]; intros d' Hnd Hp; [by apply Permutation_nil_cons in Hp|].
  cbn in *. apply NoDup_cons in Hnd as [Hq Hnd]. destruct (decide (q = p)) as [->|Hne].
  - assert ((p, f) ∈ (p, f0) :: d) as Hin by (rewrite Hp; by left).
    apply elem_of_cons in Hin as [[= ->]|Hin]; [|destruct Hq; apply list_elem_of_fmap; by exists (p, f)].
    apply Permutation_cons_inv in Hp. split; [by constructor|done].
  - assert ((q, f0) ∈ (p, f) :: d') as Hin by (rewrite <- Hp; by left).
    apply elem_of_cons in Hin as [[= -> _]|Hin]; [done|]. apply elem_of_Permutation in Hin as (d1 & Hd1).
    rewrite Hd1 in Hp. rewrite perm_swap in Hp. apply Permutation_cons_inv in Hp.
    destruct (IH d1 Hnd Hp) as [E1 E2]. cbn. rewrite E2. split; [|done]. rewrite E1, Hd1. apply perm_swap.
Qed.

Lemma disk_set_new p f (d : disk) : p ∉ d.*1 -> disk_set p f d = d ++ [(p, f)].
Proof.
  induction d as [|[q f0] d IH]; intros Hn; [done|]. cbn in *. apply not_elem_of_cons in Hn as [Hq Hn].
  rewrite decide_False by congruence. by rewrite IH.
Qed.

Lemma disk_remove_other p (d : disk) : p ∉ d.*1 -> disk_remove p d = d.
Proof.
  unfold disk_remove. induction d as [|[q f] d IH]; intros Hn; [done|]. cbn in Hn. apply not_elem_of_cons in Hn as [Hq Hn].
  rewrite filter_cons_True by (cbn; congruence). by rewrite IH.
Qed.

Lemma disk_reads (d : disk) p f : disk_find p d = Some f -> reads (disk_Read d p) f.
Proof. intros E offset n Ho Hn. unfold disk_Read. rewrite E. cbn. f_equal. by apply slice_bound. Qed.

Lemma overwrite_end (f b : blob) o : o = Z.of_nat (length f) -> overwrite f (Z.to_nat o) b = f ++ b.
Proof.
  intros ->. rewrite Nat2Z.id. unfold overwrite. rewrite firstn_all, drop_ge by lia. by rewrite app_nil_r.
Qed.

Lemma overwrite_empty (b : blob) : overwrite [] 0 b = b.
Proof. unfold overwrite. cbn. rewrite drop_nil. apply app_nil_r. Qed.

(** ** Writes under way *)

Lemma flying_for_app p a b : flying_for p (a ++ b) = flying_for p a ++ flying_for p b.
Proof. unfold flying_for. by rewrite filter_app, fmap_app. Qed.

Lemma flying_for_one p io : flying_for p [(p, io)] = [io].
Proof. unfold flying_for. rewrite filter_cons_True by done. done. Qed.

Lemma flying_for_other p q io : p <> q -> flying_for p [(q, io)] = [].
Proof. intros H. unfold flying_for. rewrite filter_cons_False by (cbn; congruence). done. Qed.

Lemma flying_for_nil p fl : p ∉ fl.*1 -> flying_for p fl = [].
Proof.
  induction fl as [|[q io] fl IH]; intros H; [done|]. cbn in H. apply not_elem_of_cons in H as [Hq H].
  change ((q, io) :: fl) with ([(q, io)] ++ fl). rewrite flying_for_app, flying_for_other by done. by apply IH.
Qed.

Lemma flying_for_delete i p io fl q :
  fl !! i = Some (p, io) -> p ∉ (take i fl).*1 ->
  flying_for q fl = (if decide (q = p) then [io] else []) ++ flying_for q (delete i fl).
Proof.
  intros E Hn. rewrite delete_take_drop. rewrite <- (take_drop_middle _ _ _ E) at 1.
  rewrite (cons_middle (p, io)), !flying_for_app. destruct (decide (q = p)) as [->|Hq].
  - by rewrite flying_for_one, (flying_for_nil p (take i fl)).
  - by rewrite (flying_for_other q p).
Qed.

Section Durability.
Context (registered : task_code -> bool) (hdr_size : Z) (g : gpid) (dir : path) (max_log_file_mb : Z).
Context (iteration : replica_log_info_map -> list (gpid * replica_log_info)).
Context (iteration_ok : forall m, iteration m ≡ₚ map_to_list m).
Context (plog_force_flush : bool) (dir_ok : NUL ∉ dir).

Local Abbreviation sg_first := (sg_first iteration).
Local Abbreviation sg_end := (sg_end iteration).
Local Abbreviation sg_wire := (sg_wire iteration).
Local Abbreviation sg_whole := (sg_whole iteration).
Local Abbreviation buffer_write := (buffer_write iteration).
Local Abbreviation segment_ok := (segment_ok registered g iteration).
Local Abbreviation chained := (chained iteration).
Local Abbreviation log_mutations := (log_mutations iteration).
Local Abbreviation log_rep := (log_rep registered g dir iteration).
Local Abbreviation gc_inv := (gc_inv g iteration).

(** ** The state of a file *)

(** A buffer that is being written. *)
Record flight := Flight {
  ft_groups : list (list mutation);
  ft_appender : log_appender;
  ft_max_decree : Z;
  ft_max_commit : Z
}.

(** What of a file is settled, whether its header is still being written, and the buffer
    that is being written behind that. *)
Record file_state := FileState {
  fs_seg : segment;
  fs_header : bool;
  fs_fly : option flight
}.

Definition fs_full (x : file_state) : segment := from_option (fun f => extend (ft_groups f) (fs_seg x)) (fs_seg x) (fs_fly x).
Definition fs_name (x : file_state) : path := log_file_name dir (sg_index (fs_seg x)) (sg_start (fs_seg x)).
Definition fs_data (x : file_state) : blob := if fs_header x then [] else sg_wire (fs_seg x).
Definition fs_entry (x : file_state) : path * blob := (fs_name x, fs_data x).
Definition flight_io (sg : segment) (f : flight) : log_io :=
  buffer_write sg (ft_groups f) (ft_appender f) (ft_max_decree f) (ft_max_commit f).
Definition fs_ios (x : file_state) : list log_io :=
  (if fs_header x then [WriteHeader (sg_index (fs_seg x)) 0 (sg_whole (fs_seg x))] else [])
  ++ from_option (fun f => [flight_io (fs_seg x) f]) [] (fs_fly x).

Definition still (x : file_state) : Prop := fs_fly x = None.

Record fs_ok (x : file_state) : Prop := FsOk {
  fo_header : fs_header x = true -> sg_groups (fs_seg x) = [] /\ sg_torn (fs_seg x) = [];
  fo_fly : forall f, fs_fly x = Some f ->
    sg_torn (fs_seg x) = [] /\ appender_rep (sg_end (fs_seg x)) (ft_groups f) (ft_appender f)
}.

Record disk_rep (d : disk) (fl : list (path * log_io)) (xs : list file_state) (olds : disk) : Prop := DiskRep {
  dr_ok : Forall fs_ok xs;
  dr_disk : d ≡ₚ map fs_entry xs ++ olds;
  dr_names : NoDup d.*1;
  dr_olds : Forall (fun e => parse_log_file_name e.1 = None) olds;
  dr_flying : Forall (fun x => flying_for (fs_name x) fl = fs_ios x) xs;
  dr_paths : Forall (fun p => p ∈ map fs_name xs) fl.*1
}.

Lemma fst_entries xs : (map fs_entry xs).*1 = map fs_name xs.
Proof. change (fst <$> (fs_entry <$> xs) = fs_name <$> xs). by rewrite <- list_fmap_compose. Qed.

Lemma names_nodup d fl xs olds : disk_rep d fl xs olds -> NoDup (map fs_name xs ++ olds.*1).
Proof. intros [_ Hd Hn _ _ _]. rewrite Hd, fmap_app in Hn. by rewrite fst_entries in Hn. Qed.

Lemma other_names d fl xs1 x xs2 olds y :
  disk_rep d fl (xs1 ++ x :: xs2) olds -> y ∈ xs1 ++ xs2 -> fs_name y <> fs_name x.
Proof.
  intros Hn%names_nodup Hy E. apply NoDup_app in Hn as (Hn & _). rewrite map_app in Hn. cbn in Hn.
  rewrite <- Permutation_middle in Hn. apply NoDup_cons in Hn as [Hn _]. apply Hn. rewrite <- map_app, <- E.
  apply list_elem_of_fmap. by exists y.
Qed.

(** One file moves on. *)
Lemma disk_rep_replace d d' fl fl' xs1 x x' xs2 olds :
  disk_rep d fl (xs1 ++ x :: xs2) olds -> fs_name x' = fs_name x -> fs_ok x' ->
  (d' = d /\ fs_data x' = fs_data x \/ d' = disk_set (fs_name x) (fs_data x') d) ->
  (forall q, q <> fs_name x -> flying_for q fl' = flying_for q fl) -> flying_for (fs_name x) fl' = fs_ios x' ->
  fl'.*1 ⊆ fs_name x :: fl.*1 -> disk_rep d' fl' (xs1 ++ x' :: xs2) olds.
Proof.
  intros Hrep En Hok Hd Hq Hx Hsub. pose proof (fun y => other_names _ _ _ _ _ _ y Hrep) as Hother.
  destruct Hrep as [H1 H2 H3 H4 H5 H6]. rewrite map_app in H2. cbn [map] in H2.
  assert (d ≡ₚ (fs_name x, fs_data x) :: map fs_entry (xs1 ++ xs2) ++ olds) as Hp.
  { rewrite H2, map_app, <- Permutation_middle. done. }
  assert (d' ≡ₚ (fs_name x, fs_data x') :: map fs_entry (xs1 ++ xs2) ++ olds /\ d'.*1 = d.*1) as [Hp' Ed].
  { destruct Hd as [[-> ->]| ->]; [done|]. by apply (disk_set_perm _ _ _ _ _ H3 Hp). }
  apply Forall_app in H1 as [H11 [_ H12]%Forall_cons], H5 as [H51 [_ H52]%Forall_cons].
  assert (forall y, y ∈ xs1 ++ xs2 -> flying_for (fs_name y) fl' = flying_for (fs_name y) fl) as Hy by (intros y Hin; by apply Hq, Hother).
  split.
  - apply Forall_app. split; [done|]. by constructor.
  - rewrite map_app. cbn [map]. rewrite <- Permutation_middle, <- map_app, Hp'. unfold fs_entry at 2. by rewrite En.
  - by rewrite Ed.
  - done.
  - rewrite Forall_app, Forall_cons, En. split_and!; [|done|].
    + rewrite Forall_forall in H51 |- *. intros y Hin. rewrite Hy by set_solver. by apply H51.
    + rewrite Forall_forall in H52 |- *. intros y Hin. rewrite Hy by set_solver. by apply H52.
  - rewrite Forall_forall in H6 |- *. intros p Hp1. rewrite map_app in *. cbn [map] in *. rewrite En.
    apply Hsub in Hp1. apply elem_of_cons in Hp1 as [->|Hp1]; [set_solver|by apply H6].
Qed.

(** A file is created, and its header issued. *)
Lemma disk_rep_new d fl xs olds sg :
  let x := FileState sg true None in
  disk_rep d fl xs olds -> sg_groups sg = [] -> sg_torn sg = [] -> fs_name x ∉ d.*1 ->
  disk_rep (disk_set (fs_name x) [] d) (fl ++ [(fs_name x, WriteHeader (sg_index sg) 0 (sg_whole sg))]) (xs ++ [x]) olds.
Proof.
  intros x Hrep Eg Et Hn. pose proof Hrep as [H1 H2 H3 H4 H5 H6]. rewrite disk_set_new by done.
  assert (fs_name x ∉ map fs_name xs) as Hx.
  { intros Hin. apply Hn. rewrite H2, fmap_app, fst_entries. set_solver. }
  assert (fs_name x ∉ fl.*1) as Hfl by (intros Hin; rewrite Forall_forall in H6; by apply Hx, H6).
  split.
  - apply Forall_app. split; [done|]. repeat constructor; cbn; try done.
  - rewrite map_app, H2, <- !app_assoc. apply Permutation_app; [done|]. apply Permutation_app_comm.
  - rewrite fmap_app. apply NoDup_app. split_and!; [done| |apply NoDup_singleton].
    intros p Hp Hp'. apply list_elem_of_singleton in Hp'. by subst p.
  - done.
  - rewrite Forall_app, Forall_singleton. rewrite flying_for_app, flying_for_one, flying_for_nil by done. split; [|done].
    rewrite Forall_forall in H5 |- *. intros y Hy. rewrite flying_for_app, (H5 y Hy), flying_for_other; [apply app_nil_r|].
    intros E. apply Hx. rewrite <- E. apply list_elem_of_fmap. by exists y.
  - rewrite fmap_app, map_app, Forall_app. split; [|apply Forall_singleton; set_solver].
    eapply Forall_impl; [exact H6|]. set_solver.
Qed.

(** A buffer is issued. *)
Lemma disk_rep_fly d fl xs x olds f :
  disk_rep d fl (xs ++ [x]) olds -> fs_fly x = None -> sg_torn (fs_seg x) = [] ->
  appender_rep (sg_end (fs_seg x)) (ft_groups f) (ft_appender f) ->
  disk_rep d (fl ++ [(fs_name x, flight_io (fs_seg x) f)]) (xs ++ [FileState (fs_seg x) (fs_header x) (Some f)]) olds.
Proof.
  intros Hrep Ef Et Ha. pose proof (dr_ok _ _ _ _ Hrep) as [_ [Hx _]%Forall_cons]%Forall_app.
  pose proof (dr_flying _ _ _ _ Hrep) as [_ [Hfl _]%Forall_cons]%Forall_app.
  eapply disk_rep_replace; [exact Hrep|done| |by left| | |].
  - split; [apply Hx|]. by intros f' [= <-].
  - intros q Hq. rewrite flying_for_app, flying_for_other by done. apply app_nil_r.
  - rewrite flying_for_app, flying_for_one, Hfl. unfold fs_ios. rewrite Ef. cbn. by rewrite app_nil_r.
  - rewrite fmap_app. set_solver.
Qed.

(** The write at the head of a file's queue reaches the disk. *)
Definition landed (x : file_state) : file_state :=
  if fs_header x then FileState (fs_seg x) false (fs_fly x) else FileState (fs_full x) false None.

Lemma landed_name x : fs_name (landed x) = fs_name x.
Proof. unfold landed, fs_full. destruct (fs_header x); [done|]. by destruct (fs_fly x). Qed.

Lemma landed_full x : fs_full (landed x) = fs_full x.
Proof. unfold landed. by destruct (fs_header x). Qed.

Lemma landed_ok x : fs_ok x -> fs_ok (landed x).
Proof. intros [H1 H2]. unfold landed. destruct (fs_header x); [by split|]. by split. Qed.

Lemma landed_data x io ios : fs_ok x -> fs_ios x = io :: ios -> apply_io (fs_data x) io = fs_data (landed x) /\ fs_ios (landed x) = ios.
Proof.
  intros [H1 H2] E. unfold fs_ios, landed, fs_data in *. destruct (fs_header x) eqn:Eh; cbn [app] in E.
  - injection E as <- <-. cbn [fs_header fs_seg]. destruct (H1 eq_refl) as [_ Et]. split; [|done].
    unfold apply_io. cbn [io_offset io_bytes]. change (Z.to_nat 0) with O. rewrite overwrite_empty.
    unfold LogReplay.sg_wire. by rewrite Et, app_nil_r.
  - unfold fs_full. destruct (fs_fly x) as [f|] eqn:Ef; cbn [from_option] in E; [|done]. injection E as <- <-.
    destruct (H2 f eq_refl) as [Et Ha]. cbn [fs_header fs_seg from_option]. split; [|done].
    unfold apply_io, flight_io. cbn [io_offset io_bytes LogTheory.buffer_write]. unfold LogReplay.sg_wire.
    rewrite Et, app_nil_r. rewrite overwrite_end by (by rewrite length_sg_whole). rewrite extend_whole.
    cbn [extend sg_torn]. rewrite Et. by rewrite app_nil_r.
Qed.

Lemma disk_find_file d fl xs1 x xs2 olds : disk_rep d fl (xs1 ++ x :: xs2) olds -> disk_find (fs_name x) d = Some (fs_data x).
Proof.
  intros [_ Hd Hn _ _ _]. apply disk_find_in; [done|]. rewrite Hd, map_app. cbn [map]. unfold fs_entry at 2. set_solver.
Qed.

Lemma disk_rep_landed d fl xs olds i p io :
  disk_rep d fl xs olds -> fl !! i = Some (p, io) -> p ∉ (take i fl).*1 ->
  exists xs1 x xs2, xs = xs1 ++ x :: xs2 /\ p = fs_name x /\ fs_ok x /\ head (fs_ios x) = Some io /\
    disk_rep (disk_set p (apply_io (default [] (disk_find p d)) io) d) (delete i fl) (xs1 ++ landed x :: xs2) olds.
Proof.
  intros Hrep Ei Hn. assert (p ∈ map fs_name xs) as Hp.
  { pose proof (dr_paths _ _ _ _ Hrep) as H. rewrite Forall_forall in H. apply H. apply list_elem_of_fmap.
    exists (p, io). split; [done|]. by apply list_elem_of_lookup_2 in Ei. }
  apply list_elem_of_fmap in Hp as (x & -> & Hx). apply list_elem_of_split in Hx as (xs1 & xs2 & ->).
  pose proof (dr_ok _ _ _ _ Hrep) as [_ [Hx _]%Forall_cons]%Forall_app.
  pose proof (dr_flying _ _ _ _ Hrep) as [_ [Hfl _]%Forall_cons]%Forall_app.
  rewrite (flying_for_delete i _ io) in Hfl by done. rewrite decide_True in Hfl by done. cbn [app] in Hfl.
  destruct (landed_data x io (flying_for (fs_name x) (delete i fl)) Hx (eq_sym Hfl)) as [Hd Hios].
  exists xs1, x, xs2. split_and!; [done|done|done|by rewrite <- Hfl|].
  rewrite (disk_find_file _ _ _ _ _ _ Hrep). change (default [] (Some (fs_data x))) with (fs_data x). rewrite Hd.
  eapply disk_rep_replace; [exact Hrep|apply landed_name|by apply landed_ok|by right| |by rewrite Hios|].
  - intros q Hq. rewrite (flying_for_delete i (fs_name x) io fl q) by done. by rewrite decide_False.
  - intros q Hq. right. apply list_elem_of_fmap in Hq as (y & -> & Hy). apply list_elem_of_fmap. exists y. split; [done|].
    eapply elem_of_submseteq; [exact Hy|]. apply sublist_submseteq, sublist_delete.
Qed.

(** ** Files by index *)

Lemma file_found l sgs sg :
  log_rep l sgs -> sg ∈ sgs ->
  exists lf, map_find (sg_index sg) (files (on_files l)) = Some lf /\ lf_path lf = log_file_name dir (sg_index sg) (sg_start sg).
Proof.
  intros H. destruct (lr_chain _ _ _ _ _ _ H) as (i & o & _ & Hch). generalize (lr_files _ _ _ _ _ _ H). clear H. revert i o Hch.
  generalize (files (on_files l)) as fs. induction sgs as [|s0 sgs IH]; intros fs i o Hch Hfs Hin; [by apply not_elem_of_nil in Hin|].
  inversion Hfs as [|? [k lf] ? fs' Hf Hfs']; subst. pose proof (fr_key _ _ _ _ Hf) as Ek. cbn in Ek. subst k. cbn [map_find].
  destruct Hch as (Ei & Eo & Hch). apply elem_of_cons in Hin as [->|Hin].
  - rewrite Z.eqb_refl. exists lf. split; [done|]. apply (fr_path _ _ _ _ Hf).
  - pose proof (chained_sorted iteration _ _ _ Hch) as [_ Hlt]. rewrite Forall_forall in Hlt. specialize (Hlt _ Hin).
    destruct (Z.eqb_spec (sg_index sg) (sg_index s0)); [lia|]. by apply (IH _ _ _ Hch Hfs').
Qed.

Lemma path_of_file l sgs sg io :
  log_rep l sgs -> sg ∈ sgs -> io_index io = sg_index sg -> path_of l io = log_file_name dir (sg_index sg) (sg_start sg).
Proof. intros H Hin Ei. unfold path_of. rewrite Ei. by destruct (file_found _ _ _ H Hin) as (lf & -> & ?). Qed.

Lemma full_name x : log_file_name dir (sg_index (fs_full x)) (sg_start (fs_full x)) = fs_name x.
Proof. unfold fs_full. by destruct (fs_fly x). Qed.

Lemma fresh_name l d fl xs olds :
  log_rep l (map fs_full xs) -> disk_rep d fl xs olds ->
  last_file_index (on_files l) < INT32_MAX -> global_end_offset (on_files l) <= INT64_MAX ->
  log_file_name dir (last_file_index (on_files l) + 1) (global_end_offset (on_files l)) ∉ d.*1.
Proof using dir_ok.
  intros H Hd Hi Ho Hin. pose proof (lr_index _ _ _ _ _ _ H) as [Hi0 Ho0].
  pose proof (log_file_name_parsed dir (last_file_index (on_files l) + 1) (global_end_offset (on_files l)) dir_ok) as Hp.
  unfold int32_ok, int64_ok, INT32_MAX, INT64_MAX in *. specialize (Hp ltac:(lia) ltac:(lia)).
  rewrite (dr_disk _ _ _ _ Hd), fmap_app, fst_entries in Hin. apply elem_of_app in Hin as [Hin|Hin].
  - apply list_elem_of_fmap in Hin as (x & E & Hx). rewrite E in Hp.
    assert (fs_full x ∈ map fs_full xs) as Hx' by (apply list_elem_of_fmap; by exists x).
    pose proof (lr_ok _ _ _ _ _ _ H) as Hok. rewrite Forall_forall in Hok. specialize (Hok _ Hx').
    rewrite <- full_name, log_file_name_parsed in Hp; [|done|apply (sgo_index _ _ _ _ Hok)|apply (start_ok _ _ _ _ Hok)].
    pose proof (below_next _ _ _ _ _ _ H) as Hb. destruct (file_found _ _ _ H Hx') as (lf & Hf & _).
    rewrite map_find_below in Hf; [done|]. injection Hp as -> _. done.
  - apply list_elem_of_fmap in Hin as (e & E & He). pose proof (dr_olds _ _ _ _ Hd) as Hold. rewrite Forall_forall in Hold.
    specialize (Hold _ He). cbn in Hold. rewrite <- E in Hold. congruence.
Qed.

(** ** The world *)

(** The callback [k] is that of the mutation. *)
Definition sent_as (sent : list mutation) (k : Z) (m : mutation) : Prop :=
  0 <= k /\ shared <$> sent !! Z.to_nat k = Some (shared m).

Definition issued_keys (l : mutation_log) : list Z := from_option callbacks [] (issued_write (buffers l)).
Definition issued_mutations (l : mutation_log) : list mutation := from_option mutations [] (issued_write (buffers l)).
Definition pending_keys (l : mutation_log) : list Z := from_option callbacks [] (pending_write (buffers l)).

(** One file at most is being written, and those behind it are empty. *)
Definition under_way (l : mutation_log) (xs : list file_state) : Prop :=
  if is_writing (buffers l) then
    exists xs1 x xs2 f, xs = xs1 ++ x :: xs2 /\ fs_fly x = Some f /\ issued_write (buffers l) = Some (ft_appender f) /\
      Forall still xs1 /\ Forall (fun y => still y /\ sg_groups (fs_seg y) = []) xs2 /\
      exists lf, map_find (sg_index (fs_seg x)) (files (on_files l)) = Some lf /\ lf_is_read lf = false
  else issued_write (buffers l) = None /\ Forall still xs.

(** The header of a file is written before the next file is made. *)
Definition inner_ok (xs : list file_state) : Prop :=
  forall i x, xs !! i = Some x -> (S i < length xs)%nat -> fs_header x = true -> fs_fly x <> None.

Definition headers_ok (l : mutation_log) (xs : list file_state) : Prop :=
  inner_ok xs /\ forall x, last xs = Some x -> fs_header x = true -> fs_fly x <> None \/ pending_write (buffers l) <> None.

(** What was acknowledged is in the log, or was cleaned. *)
Definition acked_ok (cleaned : Z) (sent : list mutation) (kd acked : list Z) : Prop :=
  Forall (fun k => k ∈ kd \/ exists m, sent !! Z.to_nat k = Some m /\ decree (header m) <= cleaned) acked.

Record world_rep (w : world) (xs : list file_state) (olds : disk) (kd : list Z) (cleaned : Z) : Prop := WorldRep {
  wr_error : w_error w = ERR_OK;
  wr_log : log_rep (w_log w) (map fs_full xs);
  wr_disk : disk_rep (w_disk w) (w_flying w) xs olds;
  wr_way : under_way (w_log w) xs;
  wr_headers : headers_ok (w_log w) xs;
  wr_gc : gc_inv (w_log w) (map fs_full xs) /\ valid_start_offset (private_log_info (decrees (w_log w))) = 0;
  wr_sorted : StronglySorted Z.lt (kd ++ issued_keys (w_log w) ++ pending_keys (w_log w));
  wr_settled : Forall2 (sent_as (w_sent w)) kd (log_mutations (map fs_seg xs));
  wr_issued : Forall2 (sent_as (w_sent w)) (issued_keys (w_log w)) (issued_mutations (w_log w));
  wr_pending : Forall2 (sent_as (w_sent w)) (pending_keys (w_log w)) (pending_mutations (w_log w));
  wr_acked : acked_ok cleaned (w_sent w) kd (w_acked w)
}.

(** A file that went on: its header stays written, and it may be written to. *)
Definition calmer (x y : file_state) : Prop :=
  fs_header y = true -> fs_header x = true /\ (fs_fly x <> None -> fs_fly y <> None).

Lemma calmer_refl xs : Forall2 calmer xs xs.
Proof. induction xs; by constructor. Qed.

Lemma inner_calmer xs ys : inner_ok xs -> Forall2 calmer xs ys -> inner_ok ys.
Proof.
  intros H H2 i y Hy Hlt Hh. destruct (Forall2_lookup_r _ _ _ _ _ H2 Hy) as (x & Hx & Hc). rewrite <- (Forall2_length _ _ _ H2) in Hlt.
  destruct (Hc Hh) as [Hh' Hf]. by apply Hf, (H i).
Qed.

Lemma headers_calmer l l' xs ys :
  headers_ok l xs -> Forall2 calmer xs ys -> (pending_write (buffers l) <> None -> pending_write (buffers l') <> None) -> headers_ok l' ys.
Proof.
  intros [H1 H2] Hc Hp. split; [by eapply inner_calmer|]. intros y Hy Hh. rewrite last_lookup in Hy, H2.
  rewrite <- (Forall2_length _ _ _ Hc) in Hy. destruct (Forall2_lookup_r _ _ _ _ _ Hc Hy) as (x & Hx & Hc'). destruct (Hc' Hh) as [Hh' Hf].
  destruct (H2 x Hx Hh') as [?|?]; [left|right]; auto.
Qed.

Lemma inner_snoc xs x :
  inner_ok xs -> (forall y, last xs = Some y -> fs_header y = true -> fs_fly y <> None) -> inner_ok (xs ++ [x]).
Proof.
  intros H Hl i y Hy Hlt. rewrite length_app in Hlt. cbn in Hlt. rewrite lookup_app_l in Hy by lia.
  destruct (decide (S i < length xs)%nat) as [Hi|Hi]; [by apply (H i)|]. apply Hl. rewrite last_lookup. by replace (pred (length xs)) with i by lia.
Qed.

Lemma headers_written xs0 x l :
  inner_ok (xs0 ++ [x]) -> forall f, headers_ok l (xs0 ++ [FileState (fs_seg x) (fs_header x) (Some f)]).
Proof.
  intros H f. split.
  - eapply inner_calmer; [exact H|]. apply Forall2_app; [apply calmer_refl|]. by constructor; [|constructor].
  - intros y. rewrite last_snoc. intros [= <-] _. by left.
Qed.

Lemma acked_more cleaned cleaned' sent sent' kd kd' acked :
  cleaned <= cleaned' -> sent `prefix_of` sent' -> kd ⊆ kd' -> acked_ok cleaned sent kd acked -> acked_ok cleaned' sent' kd' acked.
Proof.
  intros Hc [t ->] Hk H. eapply Forall_impl; [exact H|]. intros k [Hin|(m & Em & Hm)]; [left; by apply Hk|right].
  exists m. split; [by apply lookup_app_l_Some|lia].
Qed.

(** Numbers that are left for the log to grow. *)
Definition room (l : mutation_log) (extent index : Z) : Prop :=
  log_extent l <= extent /\ last_file_index (on_files l) <= index.

Lemma sent_as_snoc sent m k m' : sent_as sent k m' -> sent_as (sent ++ [m]) k m'.
Proof.
  intros [Hk E]. split; [done|]. destruct (sent !! Z.to_nat k) as [m0|] eqn:E'; [|done]. by rewrite (lookup_app_l_Some _ _ _ _ E').
Qed.

Lemma sent_as_new sent m m' : shared m' = shared m -> sent_as (sent ++ [m]) (Z.of_nat (length sent)) m'.
Proof. intros E. split; [lia|]. rewrite Nat2Z.id, lookup_app_r, Nat.sub_diag by done. cbn. by rewrite E. Qed.

Lemma sent_as_lt sent ks ms : Forall2 (sent_as sent) ks ms -> Forall (fun k => k < Z.of_nat (length sent)) ks.
Proof.
  induction 1 as [|k m ks ms [Hk E] _ IH]; constructor; [|done].
  destruct (sent !! Z.to_nat k) as [m0|] eqn:E'; [|done]. apply lookup_lt_Some in E'. lia.
Qed.

Lemma sorted_snoc (l : list Z) k : StronglySorted Z.lt l -> Forall (fun x => x < k) l -> StronglySorted Z.lt (l ++ [k]).
Proof.
  induction l as [|x l IH]; intros Hs Hk; [by repeat constructor|]. apply StronglySorted_inv in Hs as [Hs Hx].
  apply Forall_cons in Hk as [Hxk Hk]. cbn. constructor; [by apply IH|]. apply Forall_app. by split; [|repeat constructor].
Qed.

(** ** Appending *)

(** A file may have been created. *)
Definition grown_by (l : mutation_log) (xs xs1 : list file_state) : Prop :=
  xs1 = xs \/ xs1 = xs ++ [FileState (fresh_segment l) true None] /\ pending_write (buffers l) = None.

Lemma positioned_disk pe fo l l1 l' io1 sgs1 sgs' d fl xs olds :
  log_rep l (map fs_full xs) -> disk_rep d fl xs olds -> positioned iteration pe fo l (map fs_full xs) l1 io1 sgs1 ->
  last_file_index (on_files l) < INT32_MAX -> global_end_offset (on_files l) <= INT64_MAX -> log_rep l' sgs' ->
  (forall sg, sg ∈ sgs1 -> exists sg', sg' ∈ sgs' /\ sg_index sg' = sg_index sg /\ sg_start sg' = sg_start sg) ->
  exists xs1, grown_by l xs xs1 /\ map fs_full xs1 = sgs1 /\
    disk_rep (fold_left (create_for l') io1 d) (fl ++ map (fun io => (path_of l' io, io)) io1) xs1 olds.
Proof using dir_ok iteration_ok.
  intros H Hd Hpos Hi Ho H' Hsub. destruct Hpos as [(-> & -> & _)|(-> & _ & -> & _ & Hnp)].
  - exists xs. cbn. rewrite app_nil_r. split_and!; try done. by left.
  - exists (xs ++ [FileState (fresh_segment l) true None]). split; [by right|]. rewrite map_app. split; [done|].
    destruct (Hsub (fresh_segment l)) as (sg' & Hin & E1 & E2); [apply elem_of_app; right; by left|].
    set (io := WriteHeader _ _ _). assert (path_of l' io = fs_name (FileState (fresh_segment l) true None)) as Ep.
    { rewrite (path_of_file l' sgs' sg') by done. unfold fs_name. by rewrite E1, E2. }
    cbn [fold_left map]. change (create_for l' d io) with (disk_set (path_of l' io) [] d). rewrite Ep.
    apply disk_rep_new; [done|done|done|]. unfold fs_name. cbn [fs_seg].
    apply (fresh_name _ _ _ _ _ H Hd Hi Ho).
Qed.

Lemma fresh_mutations l xs xs1 :
  grown_by l xs xs1 -> log_mutations (map fs_seg xs1) = log_mutations (map fs_seg xs).
Proof. intros [->|[-> _]]; [done|]. rewrite map_app. cbn [map]. rewrite LogTheory.log_mutations_snoc. apply app_nil_r. Qed.

Lemma map_snoc_inv {A B : Type} (f : A -> B) (l : list A) l0 b : map f l = l0 ++ [b] -> exists l1 a, l = l1 ++ [a] /\ map f l1 = l0 /\ f a = b.
Proof.
  destruct l as [|a l1 _] using rev_ind; [by destruct l0|]. rewrite map_app. intros E. apply app_inj_tail in E as [<- <-]. by exists l1, a.
Qed.

Lemma still_full x : still x -> fs_full x = fs_seg x.
Proof. unfold still, fs_full. by intros ->. Qed.

(** A buffer is issued to the last file. *)
Lemma issue_last d fl xs1 olds sgs0 sg gs a md mc l' :
  disk_rep d fl xs1 olds -> map fs_full xs1 = sgs0 ++ [sg] -> Forall still xs1 -> inner_ok xs1 -> issued_to iteration sg gs a l' ->
  log_rep l' (sgs0 ++ [extend gs sg]) -> is_writing (buffers l') = true -> issued_write (buffers l') = Some a ->
  exists xs', map fs_full xs' = sgs0 ++ [extend gs sg] /\ map fs_seg xs' = map fs_seg xs1 /\ under_way l' xs' /\ headers_ok l' xs' /\
    let io := buffer_write sg gs a md mc in disk_rep d (fl ++ [(path_of l' io, io)]) xs' olds.
Proof.
  intros Hd Em Hst Hin (Et & Ha & Hlf) H' Ew Ei. apply map_snoc_inv in Em as (xs0 & x & -> & <- & Ex).
  apply Forall_app in Hst as [Hst0 [Hx _]%Forall_cons]. rewrite still_full in Ex by done. subst sg.
  exists (xs0 ++ [FileState (fs_seg x) (fs_header x) (Some (Flight gs a md mc))]). rewrite !map_app. split_and!; try done.
  - unfold under_way. rewrite Ew. exists xs0. do 2 eexists. exists (Flight gs a md mc). by split_and!.
  - by apply headers_written.
  - cbv zeta. set (io := buffer_write _ _ _ _ _). assert (path_of l' io = fs_name x) as ->.
    { rewrite (path_of_file l' _ (extend gs (fs_seg x)) io H'); [done|apply elem_of_app; right; by left|done]. }
    exact (disk_rep_fly d fl xs0 x olds (Flight gs a md mc) Hd Hx Et Ha).
Qed.

Lemma inner_grown l xs xs1 : headers_ok l xs -> grown_by l xs xs1 -> inner_ok xs1.
Proof.
  intros [H1 H2] [->|[-> Hp]]; [done|]. apply inner_snoc; [done|]. intros y Hy Hh. by destruct (H2 y Hy Hh) as [?|?].
Qed.

Lemma headers_grown l l' xs xs1 : headers_ok l xs -> grown_by l xs xs1 -> pending_write (buffers l') <> None -> headers_ok l' xs1.
Proof. intros H Hg Hp. split; [by eapply inner_grown|]. by right. Qed.

(** While a file is being written, files may be added behind it. *)
Lemma under_way_new l l' xs xs1 :
  under_way l xs -> is_writing (buffers l) = true -> is_writing (buffers l') = true ->
  issued_write (buffers l') = issued_write (buffers l) -> files_kept l l' ->
  grown_by l xs xs1 -> under_way l' xs1.
Proof.
  unfold under_way. intros Hway E1 E2 E3 Hk Hxs. rewrite E1 in Hway. rewrite E2, E3. destruct Hway as (x1 & x & x2 & f & -> & Ef & Ei & H1 & H2 & lf & Hlf & Hr).
  destruct (Hk _ _ Hlf) as (lf' & Hlf' & Hr' & _). exists x1, x. rewrite Hr in Hr'.
  destruct Hxs as [->|[-> _]]; [exists x2, f; split_and!; try done; by exists lf'|].
  exists (x2 ++ [FileState (fresh_segment l) true None]), f. rewrite <- app_assoc.
  split_and!; try done; [|by exists lf']. apply Forall_app. by split; [|repeat constructor].
Qed.

Context (last_write_time : path -> option Z) (remove_path : path -> bool) (reserve_max_size reserve_max_time : Z).

Local Abbreviation log_step := (log_step registered hdr_size g dir max_log_file_mb iteration plog_force_flush
  last_write_time remove_path reserve_max_size reserve_max_time).
Local Abbreviation log_run := (log_run registered hdr_size g dir max_log_file_mb iteration plog_force_flush
  last_write_time remove_path reserve_max_size reserve_max_time).
Local Abbreviation run_allowed := (run_allowed registered hdr_size g dir max_log_file_mb iteration plog_force_flush
  last_write_time remove_path reserve_max_size reserve_max_time).

Definition cost (e : log_event) : Z := match e with Append m => 100 + wire_size m | _ => 0 end.

Definition costs (es : list log_event) : Z := foldr (fun e n => cost e + n) 0 es.

Lemma cost_nonneg e : 0 <= cost e.
Proof. destruct e as [m| | | |]; cbn; [pose proof (wire_size_pos m); lia|lia..]. Qed.

Lemma costs_nonneg es : 0 <= costs es.
Proof. induction es as [|e es IH]; cbn [costs foldr]; [done|]. pose proof (cost_nonneg e). fold (costs es). lia. Qed.

Lemma append_keys w xs olds kd cleaned m m' :
  world_rep w xs olds kd cleaned -> shared m' = shared m ->
  let k := Z.of_nat (length (w_sent w)) in
  let sent := w_sent w ++ [m] in
  StronglySorted Z.lt (kd ++ issued_keys (w_log w) ++ pending_keys (w_log w) ++ [k]) /\
  Forall2 (sent_as sent) kd (log_mutations (map fs_seg xs)) /\
  Forall2 (sent_as sent) (issued_keys (w_log w)) (issued_mutations (w_log w)) /\
  Forall2 (sent_as sent) (pending_keys (w_log w) ++ [k]) (pending_mutations (w_log w) ++ [m']).
Proof.
  intros [_ _ _ _ _ _ Hs H1 H2 H3 _] Em k sent.
  pose proof (fun k m' => sent_as_snoc (w_sent w) m k m') as Hup. split_and!.
  - rewrite !app_assoc. rewrite <- (app_assoc kd). apply sorted_snoc; [done|]. rewrite !Forall_app.
    by split_and!; eapply sent_as_lt.
  - by eapply Forall2_impl.
  - by eapply Forall2_impl.
  - apply Forall2_app; [by eapply Forall2_impl|]. repeat constructor; [lia|]. by apply sent_as_new.
Qed.

Lemma buffered_nonneg l sgs : log_rep l sgs -> 0 <= buffered l.
Proof.
  intros H. unfold buffered. destruct (pending_write (buffers l)) as [a|] eqn:Ea; [|done].
  destruct (lr_pending _ _ _ _ _ _ H a Ea) as (_ & gs & Ha & _). rewrite (appender_size_rep _ _ _ Ha). apply groups_size_nonneg.
Qed.

Lemma step_append w xs olds kd cleaned m extent index :
  world_rep w xs olds kd cleaned -> room (w_log w) extent index -> loggable registered g m ->
  extent + cost (Append m) <= INT64_MAX -> index < INT32_MAX ->
  exists w' xs', log_step w (Append m) = Ret w' /\
    world_rep w' xs' olds kd cleaned /\ room (w_log w') (extent + cost (Append m)) (index + 1).
Proof using iteration_ok dir_ok.
  intros H [Hext Hidx] Hm Hlim Hilim. cbn [cost] in *. pose proof H as [He Hlog Hd Hway Hhd [Hgc Hval] _ _ _ _ Hack].
  unfold log_step. rewrite He. change (negb (is_ok ERR_OK)) with false. cbn iota.
  pose proof (buffered_nonneg _ _ Hlog) as Hbuf.
  assert (last_file_index (on_files (w_log w)) < INT32_MAX) as Hi by lia.
  assert (global_end_offset (on_files (w_log w)) + 60 <= INT64_MAX) as Ho.
  { unfold log_extent in Hext. pose proof (wire_size_pos m). lia. }
  destruct (append_spec registered g dir iteration iteration_ok (disk_exists (w_disk w)) (fun _ => true) (w_log w) _ m
    (Some (Z.of_nat (length (w_sent w)))) Hlog Hm ltac:(lia)) as (p & n & l' & io & sgs' & -> & Hap).
  { intros _ _. split; [done|done|]. split; [|done]. unfold disk_exists. apply bool_decide_eq_false_2.
    rewrite (proj1 (lr_dir _ _ _ _ _ _ Hlog)). apply (fresh_name _ _ _ _ _ Hlog Hd); lia. }
  cbn [obind]. pose proof (gc_inv_appended _ _ _ _ _ _ _ _ _ _ _ _ _ Hlog Hgc Hap) as Hgc'.
  pose proof (ap_config _ _ _ _ _ _ _ _ _ _ _ _ _ Hap) as (_ & _ & _ & Ev). rewrite Hval in Ev.
  assert (acked_ok cleaned (w_sent w ++ [m]) kd (w_acked w)) as Hack' by (eapply acked_more; [done|by eexists|done|done]).
  destruct Hap as [Hl' _ Hk [Hr1 Hr2] (l1 & io1 & sgs1 & a' & gs & Hpos & Ha & Hgs & Em & Ecb & Hcase)].
  rewrite wire_size_offset in Hr1.
  destruct (append_keys w xs olds kd cleaned m (set_log_offset p m) H eq_refl) as (K1 & K2 & K3 & K4).
  destruct (is_writing (buffers (w_log w))) eqn:Ew.
  - destruct Hcase as (-> & -> & Ew' & Ei' & Ep' & _ & _).
    destruct (positioned_disk _ _ _ _ l' _ _ sgs1 _ _ _ _ Hlog Hd Hpos ltac:(lia) ltac:(lia) Hl' ltac:(eauto)) as (xs1 & Hxs & <- & Hd').
    assert (issued_keys l' = issued_keys (w_log w) /\ issued_mutations l' = issued_mutations (w_log w)) as [E1 E2].
    { unfold issued_keys, issued_mutations. by rewrite Ei'. }
    eexists. exists xs1. split; [reflexivity|]. split; [|split; [cbn [issue w_log]; lia..]].
    split; cbn [issue w_error w_log w_disk w_flying w_sent w_acked]; rewrite ?E1, ?E2, ?(fresh_mutations _ _ _ Hxs); try done.
    + by apply (under_way_new (w_log w) l' xs).
    + eapply headers_grown; [exact Hhd|exact Hxs|by rewrite Ep'].
    + unfold pending_keys at 1. rewrite Ep'. cbn [from_option]. by rewrite Ecb.
    + unfold pending_keys, pending_mutations. rewrite Ep'. cbn [from_option]. by rewrite Ecb, Em.
  - destruct Hcase as (sgs0 & sg & md & mc & -> & -> & _ & -> & Eb & Hto & _).
    destruct (positioned_disk _ _ _ _ l' _ _ (sgs0 ++ [extend gs sg]) _ _ _ _ Hlog Hd Hpos ltac:(lia) ltac:(lia) Hl') as (xs1 & Hxs & Exs & Hd').
    { intros s0 [Hs| ->%list_elem_of_singleton]%elem_of_app; [exists s0|exists (extend gs sg)]; (split; [|done]); set_solver. }
    unfold under_way in Hway. rewrite Ew in Hway. destruct Hway as [Ei Hst].
    assert (Forall still xs1) as Hst1 by (destruct Hxs as [->|[-> _]]; [done|]; apply Forall_app; by split; [|repeat constructor]).
    destruct (issue_last _ _ _ _ _ _ _ _ md mc l' Hd' Exs Hst1 (inner_grown _ _ _ Hhd Hxs) Hto Hl') as (xs' & Exs' & Eseg & Hway' & Hhd' & Hd2);
      [by rewrite Eb..|].
    eexists. exists xs'. split; [reflexivity|]. split; [|split; [cbn [issue w_log]; lia..]]. unfold issued_keys, issued_mutations in K1, K3. rewrite Ei in K1, K3. cbn [from_option app] in K1.
    split; cbn [issue w_error w_log w_disk w_flying w_sent w_acked]; rewrite ?Exs', ?Eseg, ?(fresh_mutations _ _ _ Hxs); try done.
    + rewrite fold_left_app, map_app, app_assoc. exact Hd2.
    + unfold issued_keys, pending_keys. rewrite Eb. cbn [issued_write pending_write from_option]. by rewrite app_nil_r, Ecb.
    + unfold issued_keys, issued_mutations. rewrite Eb. cbn [issued_write from_option]. by rewrite Ecb, Em.
    + unfold pending_keys, pending_mutations. rewrite Eb. by constructor.
Qed.

(** ** Switching files *)

Lemma set_hints_rep hint demand l sgs : log_rep l sgs -> log_rep (set_hints hint demand l) sgs.
Proof. by intros []. Qed.

Lemma step_switch w xs olds kd cleaned demand extent index :
  world_rep w xs olds kd cleaned -> room (w_log w) extent index ->
  exists w', log_step w (SwitchFile demand) = Ret w' /\
    world_rep w' xs olds kd cleaned /\ room (w_log w') extent index.
Proof.
  intros [He Hlog Hd Hway Hhd Hgc Hs H1 H2 H3 Hack] Hroom. unfold log_step. rewrite He. change (negb (is_ok ERR_OK)) with false. cbn iota.
  eexists. split; [reflexivity|]. split; [|by destruct demand].
  destruct demand; (split; cbn [w_log w_disk w_flying w_sent w_acked w_error]; try done; [by apply set_hints_rep|by destruct Hgc as [[] ?]]).
Qed.

(** ** Completing a write *)

Definition alike (x y : file_state) : Prop := fs_seg y = fs_seg x /\ fs_fly y = fs_fly x.

Lemma alike_refl xs : Forall2 alike xs xs.
Proof. induction xs; by constructor. Qed.

Lemma calmer_landed xs1 x xs2 : Forall2 calmer (xs1 ++ x :: xs2) (xs1 ++ landed x :: xs2).
Proof.
  apply Forall2_app; [apply calmer_refl|]. constructor; [|apply calmer_refl]. unfold calmer, landed. by destruct (fs_header x).
Qed.

Lemma alike_still x y : alike x y -> still x -> still y.
Proof. unfold still. by intros [_ ->]. Qed.

Lemma alike_all xs ys : Forall2 alike xs ys -> Forall still xs -> Forall still ys.
Proof. induction 1; intros Hs; [done|]. apply Forall_cons in Hs as [? ?]. constructor; [by eapply alike_still|auto]. Qed.

Lemma under_way_alike l xs ys : Forall2 alike xs ys -> under_way l xs -> under_way l ys.
Proof.
  unfold under_way. intros H2. destruct (is_writing (buffers l)); [|by intros [? ?]; split; [|eapply alike_all]].
  intros (x1 & x & x2 & f & -> & Ef & Ei & H1 & Hx2 & Hlf). apply Forall2_app_inv_l in H2 as (y1 & y2 & Hy1 & Hy2 & ->).
  apply Forall2_cons_inv_l in Hy2 as (y & y2' & [E1 E2] & Hy2 & ->). exists y1, y, y2', f. rewrite E1, E2. split_and!; try done.
  - by eapply alike_all.
  - clear -Hx2 Hy2. induction Hy2 as [|a b ? ? [E1 E2]]; [done|]. apply Forall_cons in Hx2 as [[Hs Hg] ?].
    constructor; [|auto]. unfold still. by rewrite E1, E2.
Qed.

Lemma unique_split {A : Type} (P : A -> Prop) (xs1 ys1 xs2 ys2 : list A) x y :
  xs1 ++ x :: xs2 = ys1 ++ y :: ys2 -> Forall P ys1 -> Forall P ys2 -> ~ P x -> xs1 = ys1 /\ x = y /\ xs2 = ys2.
Proof.
  revert ys1. induction xs1 as [|a xs1 IH]; intros [|b ys1] E H1 H2 Hx; cbn in E; try injection E as <- E.
  - by subst.
  - by apply Forall_cons in H1 as [? ?].
  - subst ys2. apply Forall_app in H2 as [_ [? _]%Forall_cons]. done.
  - apply Forall_cons in H1 as [_ H1]. by destruct (IH ys1 E H1 H2 Hx) as (-> & -> & ->).
Qed.

Lemma notice_acks_ok n cbs : notice_acks (map (fun cb => Callback cb ERR_OK n) cbs) = cbs.
Proof. induction cbs as [|c cbs IH]; [done|]. change (c :: notice_acks (map (fun cb => Callback cb ERR_OK n) cbs) = c :: cbs). by rewrite IH. Qed.

Lemma no_mutations ys : Forall (fun y => still y /\ sg_groups (fs_seg y) = []) ys -> log_mutations (map fs_seg ys) = [].
Proof.
  induction 1 as [|y ys [_ Eg] _ IH]; [done|]. cbn [map]. unfold LogReplay.log_mutations in *. cbn [map concat]. rewrite IH.
  unfold sg_mutations. by rewrite Eg.
Qed.

Lemma landed_mutations xs1 x xs2 f :
  fs_ok x -> fs_header x = false -> fs_fly x = Some f -> Forall (fun y => still y /\ sg_groups (fs_seg y) = []) xs2 ->
  log_mutations (map fs_seg (xs1 ++ landed x :: xs2)) =
    log_mutations (map fs_seg (xs1 ++ x :: xs2)) ++ mutations (ft_appender f).
Proof.
  intros [_ Hx] Eh Ef H2. destruct (Hx f Ef) as [_ Ha]. unfold landed. rewrite Eh. unfold fs_full. rewrite Ef. cbn [from_option].
  rewrite !map_app. cbn [map fs_seg]. unfold LogReplay.log_mutations. rewrite !map_app, !concat_app. cbn [map concat].
  fold (log_mutations (map fs_seg xs2)). rewrite (no_mutations xs2 H2), (extend_mutations _ _ _ _ Ha). by rewrite !app_nil_r, app_assoc.
Qed.

(** The header of a file is written: nothing else changes. *)
Lemma header_landed w xs1 x xs2 olds kd cleaned d fl :
  world_rep w (xs1 ++ x :: xs2) olds kd cleaned -> fs_header x = true -> disk_rep d fl (xs1 ++ landed x :: xs2) olds ->
  world_rep (World (w_error w) (w_log w) d fl (w_sent w) (w_acked w) (w_replayed w)) (xs1 ++ landed x :: xs2) olds kd cleaned.
Proof.
  intros [He Hlog Hd Hway Hhd Hgc Hs H1 H2 H3 Hack] Eh Hd'.
  assert (fs_seg (landed x) = fs_seg x /\ fs_fly (landed x) = fs_fly x) as Hal by (unfold landed; by rewrite Eh).
  assert (map fs_full (xs1 ++ landed x :: xs2) = map fs_full (xs1 ++ x :: xs2)) as Ef by (by rewrite !map_app; cbn; rewrite landed_full).
  assert (map fs_seg (xs1 ++ landed x :: xs2) = map fs_seg (xs1 ++ x :: xs2)) as Es by (rewrite !map_app; cbn; by rewrite (proj1 Hal)).
  split; cbn [w_log w_disk w_flying w_sent w_acked w_error]; rewrite ?Ef, ?Es; try done.
  - eapply under_way_alike; [|exact Hway]. apply Forall2_app; [apply alike_refl|]. constructor; [done|apply alike_refl].
  - eapply headers_calmer; [exact Hhd|apply calmer_landed|done].
Qed.

(** The buffer of a file is written: its callbacks are called, and the next buffer is issued. *)
Lemma buffer_landed w xs1 x xs2 olds kd cleaned d fl f extent index :
  world_rep w (xs1 ++ x :: xs2) olds kd cleaned -> room (w_log w) extent index -> extent <= INT64_MAX ->
  fs_ok x -> fs_header x = false -> fs_fly x = Some f -> disk_rep d fl (xs1 ++ landed x :: xs2) olds ->
  exists n l' ns ios xs', n = groups_size (ft_groups f) /\
    write_buffer_done (disk_exists d) (fun _ => true) (fun _ => true) plog_force_flush iteration (sg_index (fs_seg x)) (ft_appender f)
      (ft_max_decree f) (ft_max_commit f) ERR_OK n (w_log w) = Ret (l', ns, ios) /\
    world_rep (issue l' ios (World (w_error w) (w_log w) d fl (w_sent w) (w_acked w ++ notice_acks ns) (w_replayed w))) xs' olds
      (kd ++ issued_keys (w_log w)) cleaned /\ room l' extent index.
Proof.
  intros [He Hlog Hd Hway Hhd Hgc Hs H1 H2 H3 Hack] [Hext Hidx] Hlim Hok Eh Ef Hd'. unfold under_way in Hway.
  destruct (is_writing (buffers (w_log w))) eqn:Ew.
  2:{ destruct Hway as [_ Hst]. apply Forall_app in Hst as [_ [Hx _]%Forall_cons]. unfold still in Hx. congruence. }
  destruct Hway as (y1 & y & y2 & f' & Exs & Ef' & Ei & Hy1 & Hy2 & lf & Hlf & Hr).
  destruct (unique_split still xs1 y1 xs2 y2 x y Exs Hy1 (Forall_impl _ _ _ Hy2 (fun _ => @proj1 _ _))) as (<- & <- & <-);
    [unfold still; congruence|]. assert (f' = f) as -> by congruence.
  destruct (fo_fly _ Hok f Ef) as [Et Ha].
  destruct (write_done_spec registered g dir iteration (disk_exists d) (fun _ => true) (fun _ => true) plog_force_flush
    (sg_index (fs_seg x)) (ft_appender f) (ft_max_decree f) (ft_max_commit f) (groups_size (ft_groups f)) (w_log w) _ Hlog Ew
    (check_magic_rep _ _ _ (ar_blocks _ _ _ Ha)) (appender_size_rep _ _ _ Ha)) as (l' & ios & sgs' & Ewr & Hl' & Hcomp & _ & _ & _ & _ & Hle & Hli).
  { intros lf' Hlf'. split; [congruence|done]. }
  { lia. }
  set (xs' := xs1 ++ landed x :: xs2) in *.
  assert (map fs_full xs' = map fs_full (xs1 ++ x :: xs2)) as Efull by (subst xs'; by rewrite !map_app; cbn; rewrite landed_full).
  assert (Forall still xs') as Hst.
  { apply Forall_app. split; [done|]. constructor; [unfold landed; by rewrite Eh|]. by eapply Forall_impl; [exact Hy2|intros ? []]. }
  assert (Forall2 (sent_as (w_sent w)) (kd ++ issued_keys (w_log w)) (log_mutations (map fs_seg xs'))) as Hset.
  { subst xs'. rewrite (landed_mutations _ _ _ f) by done. apply Forall2_app; [done|]. unfold issued_mutations in H2. by rewrite Ei in H2. }
  assert (issued_keys (w_log w) = callbacks (ft_appender f)) as Eik by (unfold issued_keys; by rewrite Ei).
  assert (forall n, acked_ok cleaned (w_sent w) (kd ++ issued_keys (w_log w))
    (w_acked w ++ notice_acks (map (fun cb => Callback cb ERR_OK n) (callbacks (ft_appender f))))) as Hack'.
  { intros n. rewrite notice_acks_ok, Eik. apply Forall_app. split; [eapply acked_more; [done|done| |exact Hack]; set_solver|].
    apply Forall_forall. intros k Hk. left. set_solver. }
  destruct Hgc as [Hgc Hval]. pose proof (gc_inv_completed _ _ _ _ _ _ _ _ _ Hlog Hgc Hcomp) as Hgc'.
  assert (inner_ok xs') as Hin by (eapply inner_calmer; [apply Hhd|apply calmer_landed]).
  assert (valid_start_offset (private_log_info (decrees l')) = 0) as Hval'.
  { unfold completed in Hcomp. destruct (pending_write (buffers (w_log w))); [|destruct Hcomp as (_ & _ & _ & ->); done].
    by destruct Hcomp as (? & ? & ? & ? & ? & _ & _ & _ & _ & _ & _ & _ & _ & ->). }
  unfold completed in Hcomp. destruct (pending_write (buffers (w_log w))) as [a2|] eqn:Ep.
  - destruct Hcomp as (sgs0 & sg & gs & d2 & c2 & Es & Ha2 & Hgs & -> & -> & _ & Eb & Hto & _). rewrite <- Efull in Es.
    destruct (issue_last _ _ _ _ _ _ _ _ d2 c2 l' Hd' Es Hst Hin Hto Hl') as (xs2' & Exs' & Eseg & Hway' & Hhd' & Hd2); [by rewrite Eb..|].
    do 4 eexists. exists xs2'. split; [reflexivity|]. split; [exact Ewr|]. split; [|split; [by rewrite Hle|by rewrite Hli]].
    unfold pending_keys, pending_mutations in H3, Hs. rewrite Ep in H3, Hs. cbn [from_option] in H3, Hs.
    split; cbn [issue w_error w_log w_disk w_flying w_sent w_acked]; rewrite ?Exs', ?Eseg; try done.
    + unfold issued_keys at 2, pending_keys. rewrite Eb. cbn [issued_write pending_write from_option]. by rewrite app_nil_r, <- app_assoc.
    + unfold issued_keys, issued_mutations. by rewrite Eb.
    + unfold pending_keys, pending_mutations. rewrite Eb. by constructor.
  - destruct Hcomp as (-> & -> & Eb & _). do 4 eexists. exists xs'. split; [reflexivity|]. split; [exact Ewr|].
    split; [|split; [by rewrite Hle|by rewrite Hli]]. cbn [idle with_buffers buffers] in Eb. rewrite Ep in Eb.
    split; cbn [issue w_error w_log w_disk w_flying w_sent w_acked fold_left map]; rewrite ?Efull, ?app_nil_r; try done.
    + unfold under_way. by rewrite Eb.
    + eapply headers_calmer; [exact Hhd|apply calmer_landed|by rewrite Ep].
    + unfold issued_keys at 2, pending_keys. rewrite Eb. cbn [issued_write pending_write from_option]. rewrite !app_nil_r.
      unfold pending_keys in Hs. rewrite Ep in Hs. cbn [from_option] in Hs. by rewrite app_nil_r in Hs.
    + unfold issued_keys, issued_mutations. rewrite Eb. by constructor.
    + unfold pending_keys, pending_mutations. rewrite Eb. by constructor.
Qed.

Lemma step_complete w xs olds kd cleaned i extent index :
  world_rep w xs olds kd cleaned -> room (w_log w) extent index -> extent <= INT64_MAX ->
  exists w' xs' kd', log_step w (Complete i) = Ret w' /\
    world_rep w' xs' olds kd' cleaned /\ room (w_log w') extent index.
Proof.
  intros H Hroom Hlim. unfold log_step. rewrite (wr_error _ _ _ _ _ H). change (negb (is_ok ERR_OK)) with false. cbn iota.
  destruct (w_flying w !! i) as [[p io]|] eqn:Ei; [|by exists w, xs, kd].
  destruct (decide (p ∈ (take i (w_flying w)).*1)) as [Hin|Hn].
  { rewrite bool_decide_eq_true_2 by done. by exists w, xs, kd. }
  rewrite bool_decide_eq_false_2 by done.
  destruct (disk_rep_landed _ _ _ _ _ _ _ (wr_disk _ _ _ _ _ H) Ei Hn) as (xs1 & x & xs2 & -> & -> & Hok & Hhd & Hd).
  set (d := disk_set _ _ _) in *. unfold fs_ios in Hhd. destruct (fs_header x) eqn:Eh.
  - injection Hhd as <-. eexists. exists (xs1 ++ landed x :: xs2), kd. split; [reflexivity|]. split; [|done].
    rewrite <- (wr_error _ _ _ _ _ H). by apply header_landed.
  - destruct (fs_fly x) as [f|] eqn:Ef; [|done]. injection Hhd as <-. cbn [flight_io LogTheory.buffer_write w_log].
    destruct (buffer_landed w xs1 x xs2 olds kd cleaned d _ f extent index H Hroom Hlim Hok Eh Ef Hd) as (n & l' & ns & ios & xs' & -> & E & H' & Hr').
    rewrite length_group_wire, E. cbn [obind]. eexists. exists xs', (kd ++ issued_keys (w_log w)). split; [reflexivity|].
    split; [|done]. rewrite <- (wr_error _ _ _ _ _ H). exact H'.
Qed.

(** ** Garbage collection *)

Lemma not_flying p fl : flying_for p fl = [] -> p ∉ fl.*1.
Proof.
  induction fl as [|[q io] fl IH]; intros E Hin; [by apply not_elem_of_nil in Hin|]. change ((q, io) :: fl) with ([(q, io)] ++ fl) in E.
  rewrite flying_for_app in E. apply app_nil in E as [E1 E2]. cbn in Hin. apply elem_of_cons in Hin as [->|Hin]; [by rewrite flying_for_one in E1|].
  by apply IH.
Qed.

Lemma disk_rep_removed d fl x xs olds :
  disk_rep d fl (x :: xs) olds -> fs_ios x = [] -> disk_rep (disk_remove (fs_name x) d) fl xs olds.
Proof.
  intros H Hio. pose proof H as [H1 H2 H3 H4 H5 H6]. cbn [map app] in H2. apply Forall_cons in H1 as [_ H1], H5 as [H51 H5].
  rewrite Hio in H51. apply not_flying in H51. assert (fs_name x ∉ (map fs_entry xs ++ olds).*1) as Hn.
  { rewrite H2 in H3. by apply NoDup_cons in H3 as [? _]. }
  assert (disk_remove (fs_name x) d ≡ₚ map fs_entry xs ++ olds) as Hd.
  { unfold disk_remove. rewrite H2, filter_cons_False by (intros Hne; by apply Hne). fold (disk_remove (fs_name x)). by rewrite disk_remove_other. }
  split; try done.
  - rewrite Hd. rewrite H2 in H3. by apply NoDup_cons in H3 as [_ ?].
  - rewrite Forall_forall in H6 |- *. intros p Hp. specialize (H6 p Hp). cbn in H6. apply elem_of_cons in H6 as [->|?]; [done|done].
Qed.

Lemma disk_rep_dropped d fl ys xs olds :
  disk_rep d fl (ys ++ xs) olds -> Forall (fun y => fs_ios y = []) ys ->
  disk_rep (fold_left (fun d p => disk_remove p d) (map fs_name ys) d) fl xs olds.
Proof.
  revert d. induction ys as [|y ys IH]; intros d H Hy; [done|]. apply Forall_cons in Hy as [Hy Hys]. cbn [map fold_left].
  apply IH; [|done]. by apply disk_rep_removed.
Qed.

Lemma map_find_in {A : Type} k (v : A) l : map_find k l = Some v -> (k, v) ∈ l.
Proof.
  induction l as [|[k' v'] l IH]; cbn [map_find]; [done|]. destruct (Z.eqb_spec k k') as [->|]; [intros [= ->]; by left|].
  intros H. right. by apply IH.
Qed.

Lemma map_find_nodup {A : Type} k (v : A) l : NoDup (map fst l) -> (k, v) ∈ l -> map_find k l = Some v.
Proof.
  induction l as [|[k' v'] l IH]; intros Hn Hin; [by apply not_elem_of_nil in Hin|]. cbn in *. apply NoDup_cons in Hn as [Hk Hn].
  apply elem_of_cons in Hin as [[= -> ->]|Hin]; [by rewrite Z.eqb_refl|]. destruct (Z.eqb_spec k k') as [->|]; [|by apply IH].
  destruct Hk. apply list_elem_of_fmap. by exists (k', v).
Qed.

Lemma files_keys l sgs : log_rep l sgs -> map fst (files (on_files l)) = map sg_index sgs /\ NoDup (map sg_index sgs).
Proof.
  intros H. split; [|destruct (lr_chain _ _ _ _ _ _ H) as (i & o & _ & Hch); apply sorted_nodup; by apply (chained_sorted iteration i o)].
  generalize (lr_files _ _ _ _ _ _ H). clear. generalize (files (on_files l)) as fs. induction 1 as [|sg kv ? ? Hf _ IH]; [done|]. cbn. rewrite IH.
  by rewrite (fr_key _ _ _ _ Hf).
Qed.

Lemma files_paths l sgs : log_rep l sgs -> map (fun kv => lf_path kv.2) (files (on_files l)) = map (fun sg => log_file_name dir (sg_index sg) (sg_start sg)) sgs.
Proof.
  intros H. generalize (lr_files _ _ _ _ _ _ H). clear. generalize (files (on_files l)) as fs. induction 1 as [|sg kv ? ? Hf _ IH]; [done|]. cbn.
  by rewrite IH, (fr_path _ _ _ _ Hf).
Qed.

(** What is being written is not collected. *)
Lemma flight_content x f : fs_ok x -> segment_ok (fs_full x) -> fs_fly x = Some f ->
  exists m, m ∈ mutations (ft_appender f) /\ m ∈ sg_mutations iteration (fs_full x).
Proof.
  intros Hok Hseg Ef. destruct (fo_fly _ Hok f Ef) as [_ Ha]. unfold fs_full in *. rewrite Ef in *. cbn [from_option] in *.
  rewrite (extend_mutations _ _ _ _ Ha). pose proof (sgo_groups _ _ _ _ Hseg) as Hg. cbn [extend sg_groups] in Hg. apply Forall_app in Hg as [_ Hg].
  assert (exists m, m ∈ mutations (ft_appender f)) as (m & Hm); [|exists m; split; [done|apply elem_of_app; by right]].
  rewrite (ar_mutations _ _ _ Ha). destruct (ft_groups f) as [|ms gs] eqn:Egs; [by destruct (ar_nonempty _ _ _ Ha)|].
  apply Forall_cons in Hg as [(Hne & _) _]. destruct ms as [|m ms]; [done|]. eexists. cbn [place_groups place app]. by left.
Qed.

Lemma issued_is w xs olds kd cleaned x f :
  world_rep w xs olds kd cleaned -> x ∈ xs -> fs_fly x = Some f -> issued_mutations (w_log w) = mutations (ft_appender f).
Proof.
  intros [_ _ _ Hway _ _ _ _ _ _ _] Hx Ef. unfold under_way in Hway. unfold issued_mutations. destruct (is_writing (buffers (w_log w))).
  - destruct Hway as (y1 & y & y2 & f' & -> & Ef' & -> & Hy1 & Hy2 & _). apply list_elem_of_split in Hx as (x1 & x2 & E). apply eq_sym in E.
    destruct (unique_split still _ _ _ _ _ _ E Hy1 (Forall_impl _ _ _ Hy2 (fun _ => @proj1 _ _))) as (_ & -> & _); [unfold still; congruence|].
    cbn. congruence.
  - destruct Hway as [_ Hst]. rewrite Forall_forall in Hst. specialize (Hst x Hx). unfold still in Hst. congruence.
Qed.

Lemma segment_offsets sgs m : Forall segment_ok sgs -> m ∈ log_mutations sgs -> 0 <= log_offset (header m).
Proof.
  induction 1 as [|sg sgs Hok _ IH]; intros Hm; [by apply not_elem_of_nil in Hm|]. unfold LogReplay.log_mutations in *. cbn [map concat] in Hm.
  apply elem_of_app in Hm as [Hm|Hm]; [|by apply IH]. pose proof (segment_positions iteration sg) as Hp. rewrite Forall_forall in Hp.
  specialize (Hp _ Hm). cbn beta in Hp. pose proof (sgo_start _ _ _ _ Hok). lia.
Qed.

(** The files that are collected are written to the end. *)
Lemma collected_quiet w xs olds kd cleaned c n l' :
  world_rep w xs olds kd cleaned -> unwritten_above c (w_log w) = true ->
  collected registered g dir iteration c 0 (w_log w) (map fs_full xs) n l' ->
  Forall (fun x => fs_ios x = []) (take n xs) /\ Forall (fun m => decree (header m) <= c) (log_mutations (map fs_full (take n xs))).
Proof.
  intros H Hun Hc. pose proof H as [_ Hlog Hd _ [Hin Hlast] _ _ _ _ _ _].
  assert (Forall (fun m => decree (header m) <= c) (log_mutations (map fs_full (take n xs)))) as Hclean.
  { pose proof (cl_clean _ _ _ _ _ _ _ _ _ _ Hc) as Hcl. rewrite <- (fmap_take fs_full) in Hcl. rewrite Forall_forall in Hcl |- *. intros m Hm.
    destruct (Hcl m Hm) as [?|Hneg]; [done|]. pose proof (segment_offsets _ m (Forall_take _ n _ (lr_ok _ _ _ _ _ _ Hlog))) as Hpos.
    rewrite <- (fmap_take fs_full) in Hpos. specialize (Hpos Hm). lia. }
  split; [|done]. apply Forall_forall. intros x Hx. pose proof Hx as Hx'. apply list_elem_of_lookup in Hx as (i & Hi).
  apply lookup_take_Some in Hi as [Hi Hlt].
  assert (fs_fly x = None) as Hstill.
  { destruct (fs_fly x) as [f|] eqn:Ef; [exfalso|done]. assert (x ∈ xs) as Hxs by (by eapply list_elem_of_lookup_2).
    pose proof (dr_ok _ _ _ _ Hd) as Hok. rewrite Forall_forall in Hok. pose proof (lr_ok _ _ _ _ _ _ Hlog) as Hseg. rewrite Forall_forall in Hseg.
    destruct (flight_content x f (Hok _ Hxs)) as (m & Hm & Hm'); [apply Hseg, list_elem_of_fmap; by exists x|done|].
    rewrite Forall_forall in Hclean. assert (m ∈ log_mutations (map fs_full (take n xs))) as Hml.
    { unfold LogReplay.log_mutations. apply list_elem_of_In, in_concat. exists (sg_mutations iteration (fs_full x)).
      split; [|by apply list_elem_of_In]. apply list_elem_of_In, list_elem_of_fmap. exists (fs_full x). split; [done|]. apply list_elem_of_fmap. by exists x. }
    specialize (Hclean m Hml). rewrite <- (issued_is _ _ _ _ _ _ _ H Hxs Ef) in Hm. unfold unwritten_above in Hun. rewrite forallb_forall in Hun.
    specialize (Hun m). rewrite Z.ltb_lt in Hun. unfold issued_mutations in Hm. apply Z.lt_nge in Hun; [done|]. apply list_elem_of_In, elem_of_app. by left. }
  unfold fs_ios. rewrite Hstill. destruct (fs_header x) eqn:Eh; [exfalso|done].
  destruct (decide (S i < length xs)%nat) as [Hlt'|Hge]; [by apply (Hin i x)|]. pose proof (lookup_lt_Some _ _ _ Hi) as Hli.
  assert (last xs = Some x) as El by (rewrite last_lookup; by replace (pred (length xs)) with i by lia).
  destruct (Hlast x El Eh) as [?|Hp]; [done|]. destruct (pending_write (buffers (w_log w))) as [a|] eqn:Ea; [|done].
  destruct (lr_pending _ _ _ _ _ _ Hlog a Ea) as [Hcur _]. pose proof (cl_current _ _ _ _ _ _ _ _ _ _ Hc Hcur) as Hn. rewrite length_map in Hn. lia.
Qed.

Lemma quiet_full ys : Forall (fun y => fs_ios y = []) ys -> map fs_full ys = map fs_seg ys.
Proof.
  induction 1 as [|y ys Hy _ IH]; [done|]. cbn [map]. rewrite IH, still_full; [done|].
  unfold fs_ios in Hy. apply app_nil in Hy as [_ Hy]. unfold still. by destruct (fs_fly y).
Qed.

Lemma under_way_dropped l l' sgs c n xs :
  log_rep l (map fs_full xs) -> under_way l xs -> collected registered g dir iteration c 0 l (map fs_full xs) n l' -> sgs = map fs_full xs ->
  Forall (fun x => fs_ios x = []) (take n xs) -> under_way l' (drop n xs).
Proof.
  intros Hlog Hway Hc _ Hq. pose proof (cl_same _ _ _ _ _ _ _ _ _ _ Hc) as (_ & _ & Eb & _). unfold under_way in *. rewrite Eb.
  destruct (is_writing (buffers l)); [|destruct Hway as [? ?]; split; [done|by apply Forall_drop]].
  destruct Hway as (x1 & x & x2 & f & -> & Ef & Ei & Hx1 & Hx2 & lf & Hlf & Hr). assert (n <= length x1)%nat as Hn.
  { destruct (decide (n <= length x1)%nat) as [|Hgt]; [done|exfalso]. rewrite take_app_ge in Hq by lia.
    destruct (n - length x1)%nat as [|k] eqn:Ek; [lia|]. cbn [take] in Hq. apply Forall_app in Hq as [_ [Hq _]%Forall_cons].
    unfold fs_ios in Hq. rewrite Ef in Hq. by apply app_nil in Hq as [_ ?]. }
  rewrite drop_app_le by done. exists (drop n x1), x, x2, f. split_and!; try done; [by apply Forall_drop|].
  pose proof (cl_log _ _ _ _ _ _ _ _ _ _ Hc) as Hl'. assert (fs_full x ∈ drop n (map fs_full (x1 ++ x :: x2))) as Hin.
  { rewrite <- (fmap_drop fs_full), drop_app_le by done. apply list_elem_of_fmap. exists x. split; [done|]. set_solver. }
  destruct (file_found _ _ _ Hl' Hin) as (lf' & Hf' & _). assert (sg_index (fs_full x) = sg_index (fs_seg x)) as Ex by (unfold fs_full; by destruct (fs_fly x)).
  rewrite Ex in Hf'. destruct (cl_files _ _ _ _ _ _ _ _ _ _ Hc) as (lim & Hs). destruct (survives_find _ _ _ _ _ Hs Hf') as (lf0 & Hf0 & Hsv).
  exists lf'. split; [done|]. destruct Hsv as [_ (_ & _ & _ & _ & Er & _) _]. cbn [snd] in Er.
  apply map_find_in in Hf0. destruct (files_keys _ _ Hlog) as [Ek Hnd]. assert (map_find (sg_index (fs_seg x)) (files (on_files l)) = Some lf0) as E.
  { apply map_find_nodup; [by rewrite Ek|]. rewrite <- (take_drop n (files (on_files l))). apply elem_of_app. by right. }
  congruence.
Qed.

Lemma headers_dropped l l' n xs : headers_ok l xs -> buffers l' = buffers l -> headers_ok l' (drop n xs).
Proof.
  intros [H1 H2] Eb. split.
  - intros i x Hi Hlt. rewrite lookup_drop in Hi. rewrite length_drop in Hlt. apply (H1 (n + i)%nat x Hi). lia.
  - intros x Hx. rewrite Eb. apply H2. by apply last_of_drop in Hx.
Qed.

Lemma sent_decree sent k m : sent_as sent k m -> exists m', sent !! Z.to_nat k = Some m' /\ decree (header m') = decree (header m).
Proof.
  intros [_ E]. destruct (sent !! Z.to_nat k) as [m'|]; [|done]. exists m'. split; [done|]. cbn in E. injection E as E. unfold shared_header in E. congruence.
Qed.

Lemma step_collect w xs olds kd cleaned c now_ms extent index :
  world_rep w xs olds kd cleaned -> room (w_log w) extent index -> c <= cleaned -> unwritten_above c (w_log w) = true ->
  exists w' xs' kd', log_step w (Collect c now_ms) = Ret w' /\ world_rep w' xs' olds kd' cleaned /\ room (w_log w') extent index.
Proof.
  intros H [Hext Hidx] Hle Hun. pose proof H as [He Hlog Hd Hway Hhd [Hgc Hval] Hs H1 H2 H3 Hack].
  unfold LogRun.log_step. rewrite He. change (negb (is_ok ERR_OK)) with false. cbn iota. rewrite Hval.
  destruct (garbage_collection_spec registered g dir iteration last_write_time remove_path (fun _ => true) now_ms (fun _ => eq_refl) (w_log w) _ c 0
    reserve_max_size reserve_max_time Hlog Hgc) as (n & l' & -> & Hc); [by rewrite Hval|].
  cbn [obind]. destruct (collected_quiet _ _ _ _ _ _ _ _ H Hun Hc) as [Hq Hcl].
  pose proof (cl_same _ _ _ _ _ _ _ _ _ _ Hc) as (_ & Ed & Eb & _ & Ei & Ee & _).
  assert (exists k0 k1, kd = k0 ++ k1 /\ Forall2 (sent_as (w_sent w)) k0 (log_mutations (map fs_seg (take n xs))) /\
    Forall2 (sent_as (w_sent w)) k1 (log_mutations (map fs_seg (drop n xs)))) as (k0 & k1 & -> & Hk0 & Hk1).
  { rewrite <- (take_drop n xs), map_app in H1. unfold LogReplay.log_mutations in H1. rewrite map_app, concat_app in H1.
    apply Forall2_app_inv_r in H1 as (k0 & k1 & ? & ? & ->). by exists k0, k1. }
  assert (issued_keys l' = issued_keys (w_log w) /\ issued_mutations l' = issued_mutations (w_log w) /\
    pending_keys l' = pending_keys (w_log w) /\ pending_mutations l' = pending_mutations (w_log w)) as (E1 & E2 & E3 & E4).
  { unfold issued_keys, issued_mutations, pending_keys, pending_mutations. by rewrite Eb. }
  eexists. exists (drop n xs), k1. split; [reflexivity|]. split; [|split; cbn [w_log]; [unfold log_extent, buffered in *; by rewrite Eb, Ee|by rewrite Ei]].
  split; cbn [w_error w_log w_disk w_flying w_sent w_acked]; rewrite ?E1, ?E2, ?E3, ?E4; try done.
  - rewrite <- skipn_map. apply (cl_log _ _ _ _ _ _ _ _ _ _ Hc).
  - rewrite Nat2Z.id, (files_paths _ _ Hlog), map_map, (map_ext _ fs_name) by apply full_name. rewrite <- (fmap_take fs_name).
    apply disk_rep_dropped; [|done]. by rewrite take_drop.
  - eapply under_way_dropped; [exact Hlog|exact Hway|exact Hc|done|exact Hq].
  - by eapply headers_dropped.
  - rewrite <- skipn_map, Ed. split; [apply (cl_gc _ _ _ _ _ _ _ _ _ _ Hc)|done].
  - rewrite <- app_assoc in Hs. by apply StronglySorted_app_1_r in Hs.
  - unfold acked_ok in *. eapply Forall_impl; [exact Hack|]. intros k [Hk|Hk]; [|by right]. apply elem_of_app in Hk as [Hk|Hk]; [right|by left].
    apply list_elem_of_lookup in Hk as (i & Hi). destruct (Forall2_lookup_l _ _ _ _ _ Hk0 Hi) as (m & Hm & Hsm).
    destruct (sent_decree _ _ _ Hsm) as (m' & Em' & Ed'). exists m'. split; [done|]. rewrite Ed'. rewrite <- (quiet_full _ Hq) in Hm.
    rewrite Forall_forall in Hcl. apply list_elem_of_lookup_2 in Hm. specialize (Hcl m Hm). lia.
Qed.

(** ** Opening the log again *)

Context (dir_fits : Z.of_nat (length dir) <= 400) (g_ok : gpid_ok g) (g_private : gpid_value g <> 0).

Definition quiet (sg : segment) : file_state := FileState sg false None.

Lemma map_quiet sgs : map fs_full (map quiet sgs) = sgs /\ map fs_seg (map quiet sgs) = sgs.
Proof. rewrite !map_map. split; (rewrite (map_ext _ id); [apply map_id|done]). Qed.

Lemma headers_quiet l sgs : headers_ok l (map quiet sgs).
Proof.
  split.
  - intros i x Hx _. apply list_lookup_fmap_Some in Hx as (sg & -> & _). done.
  - intros x Hx. rewrite last_lookup in Hx. apply list_lookup_fmap_Some in Hx as (sg & -> & _). done.
Qed.

Lemma blank_new : blank g dir (new_mutation_log dir max_log_file_mb g).
Proof using g_ok g_private dir_fits.
  split; try done. unfold new_mutation_log. cbn [config is_private]. by destruct (Z.eqb_spec (gpid_value g) 0).
Qed.

Lemma disk_size_in (d : disk) p f : (p, f) ∈ d -> (length f <= disk_size d)%nat.
Proof.
  unfold disk_size. induction d as [|[q f'] d IH]; intros Hin; [by apply not_elem_of_nil in Hin|]. cbn.
  apply elem_of_cons in Hin as [[= -> ->]|Hin]; [lia|]. specialize (IH Hin). lia.
Qed.

(** What a file of the disk is to a reader of the directory. *)
Definition entry_is (e : path * blob) (i : dir_item) : Prop :=
  match i with
  | Whole sg => e.1 = log_file_name dir (sg_index sg) (sg_start sg) /\ e.2 = sg_wire sg /\ segment_ok sg
  | Headless f => parse_log_file_name e.1 <> None /\ e.2 = f /\ torn 0 0 f
  | Foreign => parse_log_file_name e.1 = None
  end.

Lemma entry_item (d : disk) e i :
  NoDup d.*1 -> e ∈ d -> entry_is e i ->
  item_at registered g iteration (disk_Read d) (disk_exists d) (disk_file_size d) e.1 i.
Proof using dir_ok.
  intros Hnd Hin Hi. destruct e as [p f]. pose proof (disk_find_in p f d Hnd Hin) as Ef. cbn [fst snd] in *.
  assert (disk_exists d p = true) as Hex by (apply bool_decide_eq_true_2, list_elem_of_fmap; by exists (p, f)).
  assert (disk_file_size d p = Some (Z.of_nat (length f))) as Hsz by (unfold disk_file_size; by rewrite Ef).
  pose proof (disk_reads d p f Ef) as Hr. destruct i as [sg|c|]; cbn in *; [|by destruct Hi as (? & <- & ?)|done].
  destruct Hi as (-> & -> & Hok). split_and!; try done.
  apply log_file_name_parsed; [done|apply (sgo_index _ _ _ _ Hok)|apply (start_ok _ _ _ _ Hok)].
Qed.

(** The files of a disk, as what they are, in the order of the disk. *)
Lemma disk_items (d : disk) (es : list ((path * blob) * dir_item)) :
  d ≡ₚ map fst es -> exists items, d.*1 = items.*1 /\ items ≡ₚ map (fun ei => (ei.1.1, ei.2)) es.
Proof.
  intros Hp. apply Permutation_map_inv in Hp as (es' & -> & Hp). exists (map (fun ei => (ei.1.1, ei.2)) es'). split.
  - change ((fst <$> (fst <$> es')) = fst <$> ((fun ei => (ei.1.1, ei.2)) <$> es')). by rewrite <- !list_fmap_compose.
  - by rewrite Hp.
Qed.

(** A file without a first block that a crash may have left. *)
Definition headless (extra : disk) : Prop :=
  extra = [] \/ exists i o f, extra = [(log_file_name dir i o, f)] /\ parse_log_file_name (log_file_name dir i o) <> None /\ torn 0 0 f.

Lemma disk_rep_quiet d sgs olds :
  NoDup d.*1 -> d ≡ₚ map fs_entry (map quiet sgs) ++ olds -> Forall (fun e => parse_log_file_name e.1 = None) olds ->
  disk_rep d [] (map quiet sgs) olds.
Proof.
  intros H1 H2 H3. split; try done.
  - apply Forall_forall. intros x Hx. apply list_elem_of_fmap in Hx as (sg & -> & _). by split.
  - apply Forall_forall. intros x Hx. apply list_elem_of_fmap in Hx as (sg & -> & _). done.
Qed.

Lemma segments_named sgs e :
  Forall segment_ok sgs -> e ∈ map fs_entry (map quiet sgs) -> parse_log_file_name e.1 <> None.
Proof using dir_ok.
  intros Hok Hin. apply list_elem_of_fmap in Hin as (x & -> & Hx). apply list_elem_of_fmap in Hx as (sg & -> & Hsg).
  rewrite Forall_forall in Hok. specialize (Hok _ Hsg). cbn. unfold fs_name. cbn [quiet fs_seg].
  by rewrite log_file_name_parsed; [|done|apply (sgo_index _ _ _ _ Hok)|apply (start_ok _ _ _ _ Hok)].
Qed.

(** Files put away are no longer part of the log. *)
Lemma put_away_rep d sgs extra olds :
  NoDup d.*1 -> d ≡ₚ map fs_entry (map quiet sgs) ++ extra ++ olds -> Forall segment_ok sgs ->
  Forall (fun e => parse_log_file_name e.1 = None) olds -> headless extra ->
  exists olds', disk_rep (fold_left disk_put_away extra.*1 d) [] (map quiet sgs) olds'.
Proof using dir_ok.
  intros Hnd Hd Hok Hold [->|(i & o & f & -> & Hparse & _)].
  - exists olds. by apply disk_rep_quiet.
  - set (p := log_file_name dir i o) in *. assert (d ≡ₚ (p, f) :: map fs_entry (map quiet sgs) ++ olds) as Hd'.
    { rewrite Hd. symmetry. apply Permutation_middle. }
    cbn [fst fmap list_fmap fold_left]. unfold disk_put_away.
    rewrite (disk_find_in p f) by (done || (rewrite Hd'; by left)).
    set (p' := p ++ str ".removed"). pose proof (removed_parsed dir i o dir_ok : parse_log_file_name p' = None) as Hp'.
    assert (disk_remove p d ≡ₚ map fs_entry (map quiet sgs) ++ olds /\ NoDup (disk_remove p d).*1) as [Hr Hrn].
    { assert (p ∉ (map fs_entry (map quiet sgs) ++ olds).*1) as Hn by (rewrite Hd' in Hnd; by apply NoDup_cons in Hnd as [? _]).
      assert (disk_remove p d ≡ₚ map fs_entry (map quiet sgs) ++ olds) as ->.
      { unfold disk_remove. rewrite Hd', filter_cons_False by (cbn; intros Hne; by apply Hne). fold (disk_remove p). by rewrite disk_remove_other. }
      split; [done|]. rewrite Hd' in Hnd. by apply NoDup_cons in Hnd as [_ ?]. }
    destruct (decide (p' ∈ (disk_remove p d).*1)) as [Hin|Hn].
    + rewrite Hr in Hin. apply list_elem_of_fmap in Hin as ([q f'] & -> & Hin). cbn [fst] in *.
      apply elem_of_app in Hin as [Hin|Hin]; [by apply (segments_named sgs _ Hok) in Hin|].
      apply elem_of_Permutation in Hin as (olds' & Ho). exists ((q, f) :: olds').
      destruct (disk_set_perm q f' f (disk_remove p d) (map fs_entry (map quiet sgs) ++ olds')) as [E1 E2]; [done|by rewrite Hr, Ho, <- Permutation_middle|].
      apply disk_rep_quiet; [by rewrite E2|by rewrite E1, <- Permutation_middle|]. rewrite Ho in Hold.
      apply Forall_cons in Hold as [? ?]. by constructor.
    + rewrite disk_set_new by done. exists (olds ++ [(p', f)]). apply disk_rep_quiet.
      * rewrite fmap_app. apply NoDup_app. split_and!; [done| |apply NoDup_singleton].
        intros q Hq Hq'. apply list_elem_of_singleton in Hq'. by subst q.
      * by rewrite Hr, <- app_assoc.
      * apply Forall_app. by split; [|repeat constructor].
Qed.

(** All entries of a disk, as what they are. *)
Definition entries (sgs : list segment) (extra olds : disk) : list ((path * blob) * dir_item) :=
  map (fun sg => (fs_entry (quiet sg), Whole sg)) sgs ++ map (fun e => (e, Headless e.2)) extra ++ map (fun e => (e, Foreign)) olds.

Lemma items_are sgs extra olds :
  let items := map (fun ei => (ei.1.1, ei.2)) (entries sgs extra olds) in
  omap whole_of items ≡ₚ sgs /\ omap headless_of items ≡ₚ extra.*1.
Proof.
  cbv zeta. unfold entries. induction sgs as [|sg sgs [IH1 IH2]].
  - cbn [map app]. induction extra as [|e extra [IH1 IH2]].
    + cbn [map app]. induction olds as [|e olds IH]; [done|]. exact IH.
    + split; [exact IH1|]. cbn. by constructor.
  - split; [cbn; by constructor|exact IH2].
Qed.

Lemma entries_are sgs extra olds e it :
  Forall segment_ok sgs -> Forall (fun e => parse_log_file_name e.1 = None) olds -> headless extra ->
  (e, it) ∈ entries sgs extra olds -> entry_is e it.
Proof.
  intros Hok Hold Hex Hin. unfold entries in Hin. rewrite Forall_forall in Hok. rewrite Forall_forall in Hold. apply elem_of_app in Hin as [Hin|Hin].
  - apply list_elem_of_fmap in Hin as (sg & [= -> ->] & Hsg). split_and!; [done|done|by apply Hok].
  - apply elem_of_app in Hin as [Hin|Hin]; apply list_elem_of_fmap in Hin as (e' & [= -> ->] & He); [|by apply Hold].
    destruct Hex as [->|(i & o & f & -> & Hp & Ht)]; [by apply not_elem_of_nil in He|].
    apply list_elem_of_singleton in He as ->. by split_and!.
Qed.

Lemma reopen_spec w d sgs extra olds i o :
  NoDup d.*1 -> d ≡ₚ map fs_entry (map quiet sgs) ++ extra ++ olds -> Forall segment_ok sgs -> chained i o sgs -> 0 <= i ->
  Forall (fun e => parse_log_file_name e.1 = None) olds -> headless extra ->
  exists l d' olds', reopen registered hdr_size g dir max_log_file_mb w d =
      Ret (World ERR_OK l d' [] (w_sent w) (w_acked w) (map (entry hdr_size) (log_mutations sgs))) /\
    disk_rep d' [] (map quiet sgs) olds' /\ log_rep l sgs /\ buffers l = init_buffers /\
    valid_start_offset (private_log_info (decrees l)) = 0 /\ covers (private_log_info (decrees l)) (log_mutations sgs) /\
    log_extent l = from_option sg_end 0 (last sgs) /\ last_file_index (on_files l) = from_option sg_index 0 (last sgs).
Proof using iteration_ok dir_ok dir_fits g_ok g_private.
  intros Hnd Hd Hok Hch Hi Hold Hex.
  set (es := entries sgs extra olds).
  assert (map fst es = map fs_entry (map quiet sgs) ++ extra ++ olds) as Efst.
  { unfold es, entries. rewrite !map_app, !map_map. cbn [fst]. by rewrite !map_id. }
  destruct (disk_items d es) as (items & En & Hit); [by rewrite Efst|].
  destruct (items_are sgs extra olds) as [Hw Hh]. fold es in Hw, Hh. rewrite <- Hit in Hw, Hh.
  assert (Forall (fun pi => item_at registered g iteration (disk_Read d) (disk_exists d) (disk_file_size d) pi.1 pi.2) items) as Hat.
  { rewrite Hit. apply Forall_forall. intros pi Hpi. apply list_elem_of_fmap in Hpi as ([e it] & -> & Hin). cbn [fst snd].
    apply entry_item; [done| |by apply (entries_are sgs extra olds e it Hok Hold Hex)].
    rewrite Hd, <- Efst. apply list_elem_of_fmap. by exists (e, it). }
  set (o' := match sgs with [] => 0 | _ => o end).
  assert (chained i o' sgs /\ (sgs = [] -> o' = 0) /\ 0 <= o') as (Hch' & Ho1 & Ho2).
  { unfold o'. destruct sgs as [|sg sgs']; [done|]. split_and!; [done|done|]. destruct Hch as (_ & <- & _).
    apply Forall_cons in Hok as [Hok _]. apply (sgo_start _ _ _ _ Hok). }
  assert (forall p sg, (p, Whole sg) ∈ items -> p = log_file_name dir (sg_index sg) (sg_start sg) /\ sg_wire sg ∈ d.*2) as Hnames.
  { intros p sg Hin. rewrite Hit in Hin. apply list_elem_of_fmap in Hin as ([e it] & E0 & Hin). cbn in E0. injection E0 as -> <-.
    destruct (entries_are sgs extra olds _ _ Hok Hold Hex Hin) as (-> & E & _). split; [done|]. rewrite <- E.
    rewrite Hd, <- Efst. apply list_elem_of_fmap. exists e. split; [done|]. apply list_elem_of_fmap. by exists (e, Whole sg). }
  destruct (open_spec registered hdr_size g dir iteration iteration_ok (fun _ => true) (fun _ => true) (disk_exists d) (disk_file_size d)
    (fun _ => true) (disk_Read d) (fun _ => eq_refl) items sgs i o' (S (disk_size d)) (fun _ _ => true) _ blank_new eq_refl Hat
    (fun p sg Hin => proj1 (Hnames p sg Hin)) Hw Hch' Hi Ho1 Ho2)
    as (l & removed & Eop & Hrm & Hl & _ & Eb & _ & _ & Ev & Eend & Elast & Hcov).
  { apply Forall_forall. intros sg Hsg. assert (exists p, (p, Whole sg) ∈ items) as (p & Hp).
    { rewrite <- Hw in Hsg. apply list_elem_of_omap in Hsg as ([p it] & Hin & E). destruct it; [|done|done].
      cbn in E. injection E as ->. by exists p. }
    apply Hnames in Hp as [_ Hp]. apply list_elem_of_fmap in Hp as ([q f] & Ef & Hin). apply disk_size_in in Hin. cbn [snd] in Ef.
    assert (length (sg_wire sg) = length (sg_whole sg) + length (sg_torn sg))%nat as El by apply length_app.
    rewrite Ef in El. lia. }
  assert (removed = extra.*1) as ->.
  { rewrite Hh in Hrm. destruct Hex as [->|(i' & o2 & f & -> & _)]; [by apply Permutation_nil_r in Hrm|by apply Permutation_singleton_r in Hrm]. }
  destruct (put_away_rep d sgs extra olds Hnd Hd Hok Hold Hex) as (olds' & Hrep).
  exists l, (fold_left disk_put_away extra.*1 d), olds'. unfold reopen. rewrite En, Eop. cbn [obind]. split_and!; try done.
  { eapply Forall_impl; [exact Hcov|]. intros m Hm. left. by apply Hm. }
  unfold log_extent, buffered. rewrite Eb, Eend. cbn [pending_write init_buffers]. rewrite Z.add_0_r.
  destruct (last sgs) as [sg|] eqn:E; [by rewrite (chain_end_last _ _ _ _ E)|]. apply last_None in E. subst sgs. by apply Ho1.
Qed.

(** ** Crashes *)

Lemma ios_applied x : fs_ok x -> fold_left apply_io (fs_ios x) (fs_data x) = sg_wire (fs_full x).
Proof.
  assert (forall x, fs_ok x -> fs_header x = false -> fold_left apply_io (fs_ios x) (fs_data x) = sg_wire (fs_full x)) as Hq.
  { clear x. intros x Hok Eh. destruct (fs_ios x) as [|io ios] eqn:E.
    - unfold fs_ios in E. rewrite Eh in E. cbn [fold_left]. unfold fs_data, fs_full. rewrite Eh. by destruct (fs_fly x).
    - destruct (landed_data x io ios Hok E) as [Hd Hi]. cbn [fold_left]. rewrite Hd. unfold landed in *. rewrite Eh in *. by rewrite <- Hi. }
  intros Hok. destruct (fs_header x) eqn:Eh; [|by apply Hq].
  destruct (fs_ios x) as [|io ios] eqn:E; [unfold fs_ios in E; by rewrite Eh in E|].
  destruct (landed_data x io ios Hok E) as [Hd Hi]. cbn [fold_left]. rewrite Hd, <- Hi, (Hq (landed x)); [by rewrite landed_full|by apply landed_ok|].
  unfold landed. by rewrite Eh.
Qed.

Lemma place_groups_prefix o k gs : place_groups o (take k gs) `prefix_of` place_groups o gs.
Proof. rewrite <- (take_drop k gs) at 2. rewrite place_groups_app. by eexists. Qed.

Lemma full_groups x : sg_groups (fs_full x) = sg_groups (fs_seg x) ++ from_option ft_groups [] (fs_fly x).
Proof. unfold fs_full. destruct (fs_fly x); [done|]. cbn. by rewrite app_nil_r. Qed.

Definition fly_mutations (x : file_state) : list mutation := from_option (fun f => mutations (ft_appender f)) [] (fs_fly x).

Lemma cut_mutations x j t :
  fs_ok x -> (length (sg_groups (fs_seg x)) <= j)%nat ->
  exists u, sg_mutations iteration (cut_at j t (fs_full x)) = sg_mutations iteration (fs_seg x) ++ u /\ u `prefix_of` fly_mutations x.
Proof.
  intros Hok Hj. unfold sg_mutations. cbn [cut_at sg_start sg_groups]. rewrite full_groups, take_app_ge by done. rewrite place_groups_app.
  change (LogReplay.sg_first iteration (cut_at j t (fs_full x))) with (sg_first (fs_full x)).
  assert (sg_start (fs_full x) = sg_start (fs_seg x) /\ sg_first (fs_full x) = sg_first (fs_seg x)) as [-> ->]
    by (unfold fs_full; by destruct (fs_fly x)).
  eexists. split; [reflexivity|]. unfold fly_mutations. destruct (fs_fly x) as [f|] eqn:Ef; cbn [from_option]; [|by rewrite take_nil].
  destruct (fo_fly _ Hok f Ef) as [_ Ha]. rewrite (ar_mutations _ _ _ Ha). apply place_groups_prefix.
Qed.

(** What a crash may leave of the file that was being written. *)
Lemma crash_last x r :
  fs_ok x -> segment_ok (fs_full x) ->
  let c := take (length (fs_data x) + r) (fold_left apply_io (fs_ios x) (fs_data x)) in
  (torn 0 0 c /\ sg_groups (fs_seg x) = []) \/
  exists sg t, c = sg_wire sg /\ segment_ok sg /\ sg_index sg = sg_index (fs_seg x) /\ sg_start sg = sg_start (fs_seg x) /\
    sg_previous sg = sg_previous (fs_seg x) /\ sg_end sg <= sg_end (fs_full x) /\ sg_mutations iteration sg = sg_mutations iteration (fs_seg x) ++ t /\ t `prefix_of` fly_mutations x.
Proof.
  intros Hok Hseg. rewrite ios_applied by done. cbv zeta. destruct (fs_ios x) as [|io ios] eqn:Eios.
  { unfold fs_ios in Eios. apply app_nil in Eios as [E1 E2]. destruct (fs_header x) eqn:Eh; [done|].
    destruct (fs_fly x) as [f|] eqn:Ef; [done|]. right. exists (fs_seg x), [].
    assert (fs_full x = fs_seg x) as E by (by apply still_full). rewrite E in *. unfold fs_data. rewrite Eh, take_ge, app_nil_r by lia.
    split_and!; try done; try lia. apply prefix_nil. }
  assert (sg_torn (fs_full x) = []) as Et.
  { unfold fs_ios in Eios. unfold fs_full. destruct (fs_fly x) as [f|] eqn:Ef; [cbn; by apply (fo_fly _ Hok f Ef)|].
    cbn. destruct (fs_header x) eqn:Eh; [|done]. by apply (fo_header _ Hok Eh). }
  pose proof (cut_segment registered g iteration iteration_ok (length (fs_data x) + r) (fs_full x) Hseg Et) as Hcut.
  assert (LogReplay.sg_header iteration (fs_full x) = LogReplay.sg_header iteration (fs_seg x) /\ sg_first (fs_full x) = sg_first (fs_seg x)
    /\ sg_index (fs_full x) = sg_index (fs_seg x) /\ sg_start (fs_full x) = sg_start (fs_seg x)
    /\ sg_previous (fs_full x) = sg_previous (fs_seg x)) as (E1 & E2 & E3 & E4 & E5)
    by (unfold fs_full; by destruct (fs_fly x)).
  assert (fs_header x = false -> Z.of_nat (length (fs_data x)) >= sg_first (fs_seg x) + groups_size (sg_groups (fs_seg x))) as Hlen.
  { intros Eh. unfold fs_data. rewrite Eh. unfold LogReplay.sg_wire. rewrite length_app, Nat2Z.inj_add, length_sg_whole. lia. }
  destruct (Nat.ltb_spec (length (fs_data x) + r) (length (block_wire 0 0 (LogReplay.sg_header iteration (fs_full x))))) as [Hlt|Hge].
  - left. split; [done|]. destruct (fs_header x) eqn:Eh; [by apply (fo_header _ Hok Eh)|]. specialize (Hlen eq_refl).
    rewrite E1 in Hlt. pose proof (length_block_wire 0 0 (LogReplay.sg_header iteration (fs_seg x))). unfold LogReplay.sg_first in Hlen. pose proof (groups_size_nonneg (sg_groups (fs_seg x))).
    unfold sizeof_log_block_header in *. lia.
  - right. destruct Hcut as (j & t & Ec & Hcok & Hj). destruct (cut_mutations x j t Hok) as (u & Eu & Hu).
    { destruct (fs_header x) eqn:Eh; [rewrite (proj1 (fo_header _ Hok Eh)); apply Nat.le_0_l|]. apply Hj.
      - rewrite full_groups, length_app. lia.
      - rewrite full_groups, take_app_length, E2. specialize (Hlen eq_refl). lia. }
    exists (cut_at j t (fs_full x)), u. rewrite <- E3, <- E4, <- E5. split_and!; try done. unfold LogReplay.sg_end. cbn [cut_at sg_start sg_groups].
    change (LogReplay.sg_first iteration (cut_at j t (fs_full x))) with (sg_first (fs_full x)).
    pose proof (groups_size_take j (sg_groups (fs_full x))). lia.
Qed.

Lemma no_ios x : fs_ios x = [] -> fs_header x = false /\ still x /\ fs_entry (quiet (fs_seg x)) = fs_entry x.
Proof.
  unfold fs_ios, still, fs_entry, fs_data. intros [E1 E2]%app_nil. destruct (fs_header x); [done|]. by destruct (fs_fly x).
Qed.

Lemma crashed_quiet fl r p (f : blob) : flying_for p fl = [] -> crashed_file fl r (p, f) = (p, f).
Proof. intros E. unfold crashed_file. cbn [fst snd]. rewrite E. cbn [fold_left]. by rewrite take_ge by lia. Qed.

(** A crash when only the last file is being written. *)
Lemma crash_disk d fl xs0 x olds r :
  disk_rep d fl (xs0 ++ [x]) olds -> Forall (fun p => p = fs_name x) fl.*1 ->
  let d' := map (crashed_file fl r) d in
  let c := take (length (fs_data x) + r (fs_name x)) (fold_left apply_io (fs_ios x) (fs_data x)) in
  NoDup d'.*1 /\ d' ≡ₚ map fs_entry (map quiet (map fs_seg xs0)) ++ [(fs_name x, c)] ++ olds /\ Forall still xs0.
Proof.
  intros H Hfl d' c. pose proof H as [_ Hd Hnd _ Hf _]. rewrite Forall_forall in Hfl.
  assert (forall p, p <> fs_name x -> flying_for p fl = []) as Hno by (intros p Hp; apply flying_for_nil; intros Hin; by apply Hp, Hfl).
  apply Forall_app in Hf as [Hf0 [Hfx _]%Forall_cons].
  assert (Forall (fun y => fs_ios y = [] /\ fs_name y <> fs_name x) xs0) as Hq.
  { rewrite Forall_forall in Hf0 |- *. intros y Hy. assert (fs_name y <> fs_name x) as Hne.
    { apply (other_names d fl xs0 x [] olds y H). by rewrite app_nil_r. }
    split; [|done]. rewrite <- (Hf0 y Hy). by apply Hno. }
  assert (Forall (fun e => e.1 <> fs_name x) olds) as Ho.
  { apply names_nodup in H. apply NoDup_app in H as (_ & H & _). apply Forall_forall. intros e He E. apply (H (fs_name x)).
    - rewrite map_app. apply elem_of_app. right. by left.
    - rewrite <- E. apply list_elem_of_fmap. by exists e. }
  split_and!.
  - assert (d'.*1 = d.*1) as -> by (unfold d'; change (map (crashed_file fl r) d) with (crashed_file fl r <$> d); by rewrite <- list_fmap_compose).
    done.
  - unfold d'. rewrite Hd, !map_app, <- app_assoc. apply Permutation_app; [|apply Permutation_app].
    + apply perm_eq. clear -Hq Hno. induction Hq as [|y xs0 [Hy Hn] Hq IH]; [done|]. cbn [map]. rewrite IH. f_equal.
      destruct (no_ios y Hy) as (_ & _ & ->). unfold fs_entry. apply crashed_quiet. by apply Hno.
    + cbn [map]. apply perm_eq. f_equal. unfold crashed_file, fs_entry. cbn [fst snd]. by rewrite Hfx.
    + apply perm_eq. clear -Ho Hno. induction Ho as [|[p f] olds Hp Ho IH]; [done|]. cbn [map]. rewrite IH. f_equal.
      apply crashed_quiet. by apply Hno.
  - eapply Forall_impl; [exact Hq|]. intros y [Hy _]. by apply no_ios in Hy as (_ & ? & _).
Qed.

Lemma chained_last i o sgs sg : chained i o (sgs ++ [sg]) -> sg_start sg = chain_end iteration o sgs /\ sg_index sg = i + Z.of_nat (length sgs).
Proof.
  revert i o. induction sgs as [|s0 sgs IH]; intros i o H; cbn in *; [destruct H as (? & ? & _); split; [done|lia]|].
  destruct H as (E1 & E2 & H). destruct (IH _ _ H) as [-> ->]. split; [done|lia].
Qed.

Lemma chain_before i o sgs sg :
  chained i o (sgs ++ [sg]) -> 0 <= i -> segment_ok sg ->
  from_option sg_end 0 (last sgs) <= sg_end sg /\ from_option sg_index 0 (last sgs) <= sg_index sg.
Proof.
  intros Hch Hi Hok. destruct (chained_last _ _ _ _ Hch) as [Es Ei]. pose proof (sgo_start _ _ _ _ Hok) as H0.
  pose proof (groups_size_nonneg (sg_groups sg)) as Hg.
  assert (sg_start sg <= sg_end sg) as Hse by (unfold LogReplay.sg_end, LogReplay.sg_first, sizeof_log_block_header; lia).
  destruct sgs as [|b sgs _] using rev_ind; [cbn; lia|]. rewrite last_snoc. cbn [from_option].
  rewrite (chain_end_last iteration o (sgs ++ [b]) b) in Es by apply last_snoc. apply chained_prefix in Hch.
  destruct (chained_last _ _ _ _ Hch) as [_ Ei']. rewrite length_app in Ei. cbn in Ei. lia.
Qed.

(** The segments a crash leaves: what was settled, and a part of what was being written. *)
Lemma crash_segments d fl xs0 x olds r i o :
  disk_rep d fl (xs0 ++ [x]) olds -> Forall (fun p => p = fs_name x) fl.*1 ->
  Forall segment_ok (map fs_full (xs0 ++ [x])) -> chained i o (map fs_full (xs0 ++ [x])) -> 0 <= i ->
  exists sgs extra t, let d' := map (crashed_file fl r) d in
    NoDup d'.*1 /\ d' ≡ₚ map fs_entry (map quiet sgs) ++ extra ++ olds /\ Forall segment_ok sgs /\ chained i o sgs /\ headless extra /\
    log_mutations sgs = log_mutations (map fs_seg (xs0 ++ [x])) ++ t /\ t `prefix_of` fly_mutations x /\ Forall still xs0 /\
    (forall valid, headers_tell g iteration valid [] (map fs_full (xs0 ++ [x])) -> headers_tell g iteration valid [] sgs) /\
    from_option sg_end 0 (last sgs) <= sg_end (fs_full x) /\ from_option sg_index 0 (last sgs) <= sg_index (fs_full x).
Proof using iteration_ok dir_ok.
  intros Hd Hfl Hok Hch Hi. destruct (crash_disk d fl xs0 x olds r Hd Hfl) as (Hnd & Hp & Hst).
  assert (map fs_full xs0 = map fs_seg xs0) as Efull by (clear -Hst; induction Hst as [|y ys Hy _ IH]; [done|]; cbn; by rewrite IH, still_full).
  rewrite map_app, Efull in Hok, Hch. cbn [map] in Hok, Hch. pose proof Hok as [Hok0 [Hokx _]%Forall_cons]%Forall_app.
  pose proof (dr_ok _ _ _ _ Hd) as [_ [Hx _]%Forall_cons]%Forall_app. rewrite map_app. cbn [map]. rewrite LogTheory.log_mutations_snoc.
  destruct (crash_last x (r (fs_name x)) Hx Hokx) as [[Ht Eg]|(sg & t & Ec & Hsg & Ei & Es & Epv & Hend & Em & Hpre)].
  - exists (map fs_seg xs0), [(fs_name x, take (length (fs_data x) + r (fs_name x)) (fold_left apply_io (fs_ios x) (fs_data x)))], [].
    destruct (chain_before _ _ _ _ Hch Hi Hokx) as [? ?]. split_and!; try done.
    + by apply chained_prefix in Hch.
    + right. do 3 eexists. split; [reflexivity|]. split; [|done]. change (parse_log_file_name (fs_name x) <> None). rewrite <- full_name.
      by rewrite log_file_name_parsed; [|done|apply (sgo_index _ _ _ _ Hokx)|apply (start_ok _ _ _ _ Hokx)].
    + unfold sg_mutations. rewrite Eg. cbn [place_groups]. by rewrite !app_nil_r.
    + apply prefix_nil.
    + intros valid. rewrite map_app, Efull. intros Hh. by apply headers_tell_app in Hh as [? _].
  - exists (map fs_seg xs0 ++ [sg]), [], t. rewrite last_snoc. cbn [from_option].
    assert (sg_index (fs_full x) = sg_index sg /\ sg_start (fs_full x) = sg_start sg) as [E1 E2].
    { rewrite Ei, Es. unfold fs_full. by destruct (fs_fly x). }
    split_and!; try done; [| | |by left| | |lia].
    + cbv zeta. rewrite Hp, !map_app, <- app_assoc. cbn [map app]. apply Permutation_app; [done|].
      rewrite Ec. unfold fs_entry. cbn [quiet fs_data fs_header fs_seg]. unfold fs_name. cbn [quiet fs_seg]. by rewrite Ei, Es.
    + apply Forall_app. by split; [|apply Forall_singleton].
    + by eapply chained_replace; [..|exact Hch].
    + rewrite LogTheory.log_mutations_snoc, Em. by rewrite app_assoc.
    + intros valid. rewrite map_app, Efull. cbn [map]. intros Hh. apply headers_tell_app in Hh as [? [Ht _]].
      apply headers_tell_app. split; [done|]. split; [|done].
      eapply sg_previous_tells; [|exact Ht]. rewrite Epv. unfold fs_full. by destruct (fs_fly x).
Qed.

Lemma issued_fly l xs0 x : under_way l (xs0 ++ [x]) -> Forall still xs0 -> issued_mutations l = fly_mutations x.
Proof.
  unfold under_way, issued_mutations, fly_mutations. intros H Hst. destruct (is_writing (buffers l)).
  - destruct H as (y1 & y & y2 & f & E & Ef & -> & Hy1 & Hy2 & _).
    assert (xs0 = y1 /\ x = y /\ [] = y2) as (-> & -> & _); [|by rewrite Ef].
    apply eq_sym in E. destruct (unique_split still _ _ _ _ _ _ E Hst (Forall_nil_2 _)) as (-> & -> & ->); [|done].
    unfold still. congruence.
  - destruct H as [-> H]. apply Forall_app in H as [_ [Hx _]%Forall_cons]. by rewrite Hx.
Qed.

Lemma settled_last w xs0 x olds kd cleaned :
  world_rep w (xs0 ++ [x]) olds kd cleaned -> settled w = true -> Forall (fun p => p = fs_name x) (w_flying w).*1.
Proof.
  intros [_ Hlog _ _ _ _ _ _ _ _ _] Hs. rewrite map_app in Hlog. cbn [map] in Hlog.
  destruct (files_last _ _ _ _ _ _ _ Hlog) as (fs & lf & Efs & _ & Hfr & _). unfold settled in Hs. rewrite Efs, last_snoc in Hs.
  pose proof (fr_path _ _ _ _ Hfr) as Ep. cbn [snd] in Ep. rewrite full_name in Ep. rewrite Ep in Hs.
  apply Forall_forall. intros p Hp. apply list_elem_of_fmap in Hp as (e & -> & He). rewrite forallb_forall in Hs.
  specialize (Hs e). rewrite bool_decide_eq_true in Hs. apply Hs. by apply list_elem_of_In.
Qed.

Lemma crash_outcome w xs olds kd cleaned r extent index :
  world_rep w xs olds kd cleaned -> room (w_log w) extent index -> settled w = true -> 0 <= extent -> 0 <= index ->
  exists sgs extra t i o, let d' := map (crashed_file (w_flying w) r) (w_disk w) in
    NoDup d'.*1 /\ d' ≡ₚ map fs_entry (map quiet sgs) ++ extra ++ olds /\ Forall segment_ok sgs /\ chained i o sgs /\ 0 <= i /\
    headless extra /\ log_mutations sgs = log_mutations (map fs_seg xs) ++ t /\ t `prefix_of` issued_mutations (w_log w) /\ headers_tell g iteration 0 [] sgs /\
    from_option sg_end 0 (last sgs) <= extent /\ from_option sg_index 0 (last sgs) <= index.
Proof using iteration_ok dir_ok.
  intros H [Hext Hidx] Hset He Hi. pose proof H as [_ Hlog Hd Hway _ [[Hh _ _] Hval] _ _ _ _ _]. rewrite Hval in Hh. destruct xs as [|x xs0 _] using rev_ind.
  - pose proof (lr_files _ _ _ _ _ _ Hlog) as Hf. apply Forall2_nil_inv_l in Hf. unfold settled in Hset. rewrite Hf in Hset.
    cbn in Hset. rewrite bool_decide_eq_true in Hset. rewrite Hset. exists [], [], [], 0, 0.
    assert (map (crashed_file [] r) (w_disk w) = w_disk w) as ->.
    { rewrite (map_ext _ id); [apply map_id|]. intros [p f]. by apply crashed_quiet. }
    destruct Hd as [_ Hp Hnd _ _ _]. split_and!; try done; [by left|apply prefix_nil].
  - destruct (lr_chain _ _ _ _ _ _ Hlog) as (i & o & Hi0 & Hch).
    destruct (crash_segments _ _ _ _ _ r i o Hd (settled_last _ _ _ _ _ _ H Hset) (lr_ok _ _ _ _ _ _ Hlog) Hch Hi0)
      as (sgs & extra & t & C1 & C2 & C3 & C4 & C5 & C6 & C7 & Hst & Hhs & C8 & C9).
    exists sgs, extra, t, i, o. destruct (lr_last _ _ _ _ _ _ Hlog (fs_full x)) as [Ee Ei]; [rewrite map_app; apply last_snoc|].
    pose proof (buffered_nonneg _ _ Hlog). unfold log_extent in Hext. split_and!; try done; [|by apply Hhs|lia|lia].
    by rewrite (issued_fly _ _ _ Hway Hst).
Qed.

Lemma step_crash w xs olds kd cleaned r extent index :
  world_rep w xs olds kd cleaned -> room (w_log w) extent index -> settled w = true -> 0 <= extent -> 0 <= index ->
  exists w' xs' olds' kd', log_step w (Crash r) = Ret w' /\
    world_rep w' xs' olds' kd' cleaned /\ room (w_log w') extent index /\
    w_replayed w' = map (entry hdr_size) (log_mutations (map fs_seg xs')).
Proof using iteration_ok dir_ok dir_fits g_ok g_private.
  intros H Hroom Hset He Hi. destruct (crash_outcome w xs olds kd cleaned r extent index H Hroom Hset He Hi)
    as (sgs & extra & t & i & o & Hnd & Hp & Hok & Hch & Hi0 & Hex & Em & [t' Et] & Hh & Hb1 & Hb2).
  pose proof H as [Herr _ Hd _ _ Hgc Hs H1 H2 _ Hack]. unfold log_step. rewrite Herr. change (negb (is_ok ERR_OK)) with false. cbn iota.
  destruct (reopen_spec w _ sgs extra olds i o Hnd Hp Hok Hch Hi0 (dr_olds _ _ _ _ Hd) Hex)
    as (l & d' & olds' & -> & Hd' & Hl & Eb & Ev & Hcov & El & Ei).
  rewrite Et in H2. apply Forall2_app_inv_r in H2 as (k1 & k2 & Hk1 & _ & Ek). rewrite Ek in Hs.
  destruct (map_quiet sgs) as [E1 E2]. eexists. exists (map quiet sgs), olds', (kd ++ k1). split; [reflexivity|].
  split; [|split; [split; cbn [w_log]; lia|by rewrite E2]].
  split; cbn [w_error w_log w_disk w_flying w_sent w_acked]; rewrite ?E1, ?E2; try done.
  - unfold under_way. rewrite Eb. cbn. split; [done|]. apply Forall_forall. intros x Hx. by apply list_elem_of_fmap in Hx as (sg & -> & _).
  - apply headers_quiet.
  - split; [|done]. split; [by rewrite Ev|done|]. unfold pending_mutations. rewrite Eb. constructor.
  - unfold issued_keys, pending_keys. rewrite Eb. cbn [init_buffers issued_write pending_write from_option]. rewrite !app_nil_r.
    rewrite <- app_assoc, app_assoc in Hs. by apply StronglySorted_app_1_l in Hs.
  - rewrite Em. by apply Forall2_app.
  - unfold issued_keys, issued_mutations. rewrite Eb. constructor.
  - unfold pending_keys, pending_mutations. rewrite Eb. constructor.
  - eapply acked_more; [done|done| |exact Hack]. set_solver.
Qed.

Lemma first_world_rep cleaned :
  exists w olds, first_world registered hdr_size g dir max_log_file_mb = Ret w /\ world_rep w [] olds [] cleaned /\ room (w_log w) 0 0 /\ w_sent w = [].
Proof using iteration_ok dir_ok dir_fits g_ok g_private.
  unfold first_world. set (w0 := World _ _ _ _ _ _ _).
  destruct (reopen_spec w0 [] [] [] [] 0 0 (NoDup_nil_2)) as (l & d & olds' & -> & Hd & Hl & Eb & Ev & Hcov & El & Ei); try done.
  { by left. }
  eexists. exists olds'. split; [reflexivity|]. split; [|split; [|done]].
  - split; cbn [w_error w_log w_disk w_flying w_sent w_acked]; try done.
    + unfold under_way. by rewrite Eb.
    + split; [|done]. split; [done|constructor|]. unfold pending_mutations. rewrite Eb. constructor.
    + unfold issued_keys, pending_keys. rewrite Eb. constructor.
    + unfold issued_keys, issued_mutations. rewrite Eb. constructor.
    + unfold pending_keys, pending_mutations. rewrite Eb. constructor.
    + constructor.
  - cbn in El, Ei. split; cbn [w_log]; lia.
Qed.

(** ** Runs *)

Definition event_ok (cleaned : Z) (e : log_event) : Prop :=
  match e with
  | Append m => loggable registered g m
  | Collect cleanable _ => cleanable <= cleaned
  | _ => True
  end.

Lemma log_step_rep w xs olds kd cleaned e extent index :
  world_rep w xs olds kd cleaned -> room (w_log w) extent index -> event_ok cleaned e -> 0 <= extent -> extent + cost e <= INT64_MAX ->
  0 <= index < INT32_MAX -> allowed e w = true ->
  exists w' xs' olds' kd', log_step w e = Ret w' /\ world_rep w' xs' olds' kd' cleaned /\ room (w_log w') (extent + cost e) (index + 1).
Proof using iteration_ok dir_ok dir_fits g_ok g_private.
  intros H Hr Hok He Hlim Hi Hs. destruct e as [m|demand|i|c now|r]; cbn [cost allowed event_ok] in *.
  - destruct (step_append w xs olds kd cleaned m extent index H Hr Hok Hlim ltac:(lia)) as (w' & xs' & E & H' & Hr'). eauto 10.
  - destruct (step_switch w xs olds kd cleaned demand extent index H Hr) as (w' & E & H' & [? ?]). exists w', xs, olds, kd.
    split_and!; [done|done|split; lia].
  - destruct (step_complete w xs olds kd cleaned i extent index H Hr ltac:(lia)) as (w' & xs' & kd' & E & H' & [? ?]).
    exists w', xs', olds, kd'. split_and!; [done|done|split; lia].
  - destruct (step_collect w xs olds kd cleaned c now extent index H Hr Hok Hs) as (w' & xs' & kd' & E & H' & [? ?]).
    exists w', xs', olds, kd'. split_and!; [done|done|split; lia].
  - destruct (step_crash w xs olds kd cleaned r extent index H Hr Hs He ltac:(lia)) as (w' & xs' & olds' & kd' & E & H' & [? ?] & _).
    exists w', xs', olds', kd'. split_and!; [done|done|split; lia].
Qed.

(** What was appended, in order. *)
Definition appends (es : list log_event) : list mutation := omap (fun e => match e with Append m => Some m | _ => None end) es.

Lemma log_step_sent w e w' : w_error w = ERR_OK -> log_step w e = Ret w' -> w_sent w' = w_sent w ++ appends [e].
Proof.
  intros He. unfold LogRun.log_step. rewrite He. change (negb (is_ok ERR_OK)) with false. cbn iota.
  destruct e as [m|demand|i|c now|r]; cbn [appends omap list_omap]; rewrite ?app_nil_r.
  - destruct (append _ _ _ _ _ _) as [[[[? ?] ?] ?]| |]; [|done|done]. cbn [obind]. by intros [= <-].
  - by intros [= <-].
  - destruct (w_flying w !! i) as [[p io]|]; [|by intros [= <-]]. destruct (bool_decide _); [by intros [= <-]|].
    destruct io as [k o b|k o b a md mc]; [by intros [= <-]|]. destruct (write_buffer_done _ _ _ _ _ _ _ _ _ _ _ _) as [[[? ?] ?]| |]; [|done|done].
    cbn [obind]. by intros [= <-].
  - destruct (garbage_collection _ _ _ _ _ _ _ _ _ _) as [[? ?]| |]; [|done|done]. cbn [obind]. by intros [= <-].
  - unfold reopen. destruct (open _ _ _ _ _ _ _ _ _ _ _ _ _) as [[[[? ?] ?] ?]| |]; [|done|done]. cbn [obind]. by intros [= <-].
Qed.

Lemma log_run_rep es w xs olds kd cleaned extent index :
  world_rep w xs olds kd cleaned -> room (w_log w) extent index -> Forall (event_ok cleaned) es -> 0 <= extent ->
  extent + costs es <= INT64_MAX -> 0 <= index -> index + Z.of_nat (length es) <= INT32_MAX -> run_allowed es w = true ->
  exists w' xs' olds' kd', log_run es w = Ret w' /\ world_rep w' xs' olds' kd' cleaned /\
    room (w_log w') (extent + costs es) (index + Z.of_nat (length es)) /\ w_sent w' = w_sent w ++ appends es.
Proof using iteration_ok dir_ok dir_fits g_ok g_private.
  revert w xs olds kd extent index.
  induction es as [|e es IH]; intros w xs olds kd extent index H Hr Hes He Hlim Hi Hil Hs.
  - exists w, xs, olds, kd. cbn [costs foldr length]. rewrite !Z.add_0_r. split_and!; try done. symmetry. apply app_nil_r.
  - apply Forall_cons in Hes as [Hok Hes]. cbn [LogRun.run_allowed] in Hs. apply andb_prop in Hs as [Hs1 Hs2].
    change (costs (e :: es)) with (cost e + costs es) in *. cbn [length] in Hil |- *.
    pose proof (costs_nonneg es). pose proof (cost_nonneg e).
    destruct (log_step_rep w xs olds kd cleaned e extent index H Hr Hok He ltac:(lia) ltac:(lia) Hs1) as (w' & xs' & olds' & kd' & E & H' & Hr').
    rewrite E in Hs2. cbn [LogRun.log_run]. rewrite E. cbn [obind].
    destruct (IH w' xs' olds' kd' _ _ H' Hr' Hes ltac:(lia) ltac:(lia) ltac:(lia) ltac:(lia) Hs2) as (w2 & xs2 & olds2 & kd2 & E2 & H2 & [? ?] & Es2).
    exists w2, xs2, olds2, kd2. split_and!; [done|done|split; lia|].
    rewrite Es2, (log_step_sent _ _ _ (wr_error _ _ _ _ _ H) E), <- app_assoc. unfold appends. by rewrite <- omap_app.
Qed.

Lemma run_allowed_app es es' w w' :
  log_run es w = Ret w' -> run_allowed (es ++ es') w = run_allowed es w && run_allowed es' w'.
Proof.
  revert w. induction es as [|e es IH]; intros w E; cbn [app LogRun.log_run LogRun.run_allowed] in E |- *; [by injection E as <-|].
  destruct (log_step w e) as [w1| |]; [|done|done]. cbn [obind] in E. by rewrite (IH w1 E), andb_assoc.
Qed.

Lemma run_allowed_prefix es es' w : run_allowed (es ++ es') w = true -> run_allowed es w = true.
Proof.
  revert w. induction es as [|e es IH]; intros w; [done|]. cbn [app LogRun.run_allowed]. intros [-> H]%andb_prop. cbn [andb].
  destruct (log_step w e); [by apply IH|done|done].
Qed.

Lemma log_run_app es es' w w' : log_run es w = Ret w' -> log_run (es ++ es') w = log_run es' w'.
Proof.
  revert w. induction es as [|e es IH]; intros w E; cbn [app LogRun.log_run] in E |- *; [by injection E as <-|].
  destruct (log_step w e) as [w1| |]; [|done|done]. cbn [obind] in *. by apply IH.
Qed.

Lemma entry_sent sent ks ms :
  Forall2 (sent_as sent) ks ms -> Forall2 (fun k x => sent_as sent k x.2) ks (map (entry hdr_size) ms).
Proof. induction 1; constructor; [done|done]. Qed.

End Durability.

(** ** Theorems *)

(** C3. Durability of the private log.  Mutations are appended, files are switched and garbage
    collected, writes complete in any order the disk allows, and the process crashes any
    number of times, with any part of the writes under way on the disk, but not in the
    middle of a switch of files.  Then nothing of that aborts, and after a crash the log is
    opened without an error; what it replays are appended mutations, each once and in the
    order they were appended in, and every mutation whose callback was called with [ERR_OK]
    is among them, but for those with a decree that was given to garbage collection. *)
Theorem log_durable registered hdr_size g dir max_log_file_mb iteration plog_force_flush
  last_write_time remove_path reserve_max_size reserve_max_time cleaned es reached :
  let step_run := log_run registered hdr_size g dir max_log_file_mb iteration plog_force_flush
    last_write_time remove_path reserve_max_size reserve_max_time in
  let permitted := run_allowed registered hdr_size g dir max_log_file_mb iteration plog_force_flush
    last_write_time remove_path reserve_max_size reserve_max_time in
  (forall m, iteration m ≡ₚ map_to_list m) -> NUL ∉ dir -> Z.of_nat (length dir) <= 400 -> gpid_ok g -> gpid_value g <> 0 ->
  Forall (event_ok registered g cleaned) es -> costs es <= INT64_MAX -> Z.of_nat (length es) < INT32_MAX ->
  (forall w, first_world registered hdr_size g dir max_log_file_mb = Ret w -> permitted (es ++ [Crash reached]) w = true) ->
  exists w, (let* w := first_world registered hdr_size g dir max_log_file_mb in step_run (es ++ [Crash reached]) w) = Ret w /\
    w_error w = ERR_OK /\ w_sent w = appends es /\
    exists ks, StronglySorted Z.lt ks /\ Forall2 (fun k x => sent_as (w_sent w) k x.2) ks (w_replayed w) /\
      acked_ok cleaned (w_sent w) ks (w_acked w).
Proof.
  intros step_run permitted Hit Hnul Hlen Hg Hgv Hes Hc Hn Hset.
  destruct (first_world_rep registered hdr_size g dir max_log_file_mb iteration Hit Hnul Hlen Hg Hgv cleaned) as (w0 & olds0 & E0 & H0 & Hr0 & Es0).
  rewrite E0. cbn [obind]. specialize (Hset w0 E0). subst step_run permitted. cbv beta zeta in *.
  pose proof (run_allowed_prefix _ _ _ _ _ _ _ _ _ _ _ _ _ _ Hset) as Hset1.
  destruct (log_run_rep registered hdr_size g dir max_log_file_mb iteration Hit plog_force_flush Hnul last_write_time remove_path
    reserve_max_size reserve_max_time Hlen Hg Hgv es w0 [] olds0 [] cleaned 0 0 H0 Hr0 Hes)
    as (w1 & xs1 & olds1 & kd1 & E1 & H1 & Hr1 & Es1); [lia|lia|lia|lia|done|].
  rewrite (run_allowed_app _ _ _ _ _ _ _ _ _ _ _ _ _ _ _ E1) in Hset. apply andb_prop in Hset as [_ Hset].
  cbn [run_allowed allowed] in Hset. apply andb_prop in Hset as [Hset _]. rewrite (log_run_app _ _ _ _ _ _ _ _ _ _ _ _ _ _ _ E1).
  pose proof (costs_nonneg es).
  destruct (step_crash registered hdr_size g dir max_log_file_mb iteration Hit plog_force_flush Hnul last_write_time remove_path
    reserve_max_size reserve_max_time Hlen Hg Hgv w1 xs1 olds1 kd1 cleaned reached _ _ H1 Hr1 Hset)
    as (w2 & xs2 & olds2 & kd2 & E2 & H2 & _ & Erep); [lia|lia|].
  cbn [log_run]. rewrite E2. cbn [obind]. exists w2. split; [done|]. destruct H2 as [Herr _ _ _ _ _ Hs Hsd _ _ Hack]. split; [done|].
  split; [|exists kd2; split; [by apply StronglySorted_app_1_l in Hs|split; [by rewrite Erep; apply entry_sent|done]]].
  pose proof (log_step_sent _ _ _ _ _ _ _ _ _ _ _ _ _ _ (wr_error _ _ _ _ _ _ _ _ _ H1) E2) as Es2. by rewrite Es2, app_nil_r, Es1, Es0.
Qed.

(** ** Runs of the log of one partition *)

Definition sample_gpid : gpid := Gpid 2 7.
Definition sample_dir : path := str "/p".
Definition sample_write (d : Z) : mutation := set_id 3 d sample_mutation.

Definition sample_run (es : list log_event) : outcome world :=
  let* w := first_world (fun _ => true) 56 sample_gpid sample_dir 32 in
  log_run (fun _ => true) 56 sample_gpid sample_dir 32 map_to_list false (fun _ => None) (fun _ => true) 0 0 es w.

Lemma sample_write_loggable d : int64_ok d -> loggable (fun _ => true) sample_gpid (sample_write d).
Proof.
  intros Hd. pose proof sample_mutation_ok as ((H1 & H2 & H3 & H4 & H5 & H6 & H7) & Hu & Hn). split_and!; [done| | |].
  - split_and!; try done.
  - by apply Forall_forall.
  - change (wire_size (sample_write d)) with (wire_size sample_mutation). apply Z.leb_le. by vm_compute.
Qed.

(** The last write is cut off by the crash, those before it were acknowledged; the first one
    was collected. *)
Definition torn_write : list log_event :=
  [Append (sample_write 1); Complete 0; Complete 0; SwitchFile true; Append (sample_write 2); Complete 0; Complete 0; Collect 1 5; Append (sample_write 3)].

Lemma torn_write_ok : Forall (event_ok (fun _ => true) sample_gpid 1) torn_write.
Proof. repeat (apply Forall_cons; split); try apply sample_write_loggable; done. Qed.

Lemma log_durable_witness :
  exists w, sample_run (torn_write ++ [Crash (fun _ => 20%nat)]) = Ret w /\ w_error w = ERR_OK /\ w_sent w = appends torn_write /\
    exists ks, StronglySorted Z.lt ks /\ Forall2 (fun k x => sent_as (w_sent w) k x.2) ks (w_replayed w) /\
      acked_ok 1 (w_sent w) ks (w_acked w).
Proof.
  apply (log_durable (fun _ => true) 56 sample_gpid sample_dir 32 map_to_list false (fun _ => None) (fun _ => true) 0 0 1 torn_write (fun _ => 20%nat)).
  - done.
  - apply (bool_decide_eq_true_1 _). by vm_compute.
  - done.
  - done.
  - done.
  - exact torn_write_ok.
  - apply Z.leb_le. by vm_compute.
  - done.
  - intros w E. vm_compute in E. injection E as <-. by vm_compute.
Defined.

(** What that run leaves: the files, the callbacks and the decrees replayed. *)
Lemma torn_write_outcome :
  match sample_run (torn_write ++ [Crash (fun _ => 20%nat)]) with
  | Ret w => (length (w_disk w), w_acked w, map (fun x => decree (header x.2)) (w_replayed w)) = (1%nat, [0; 1], [2])
  | _ => False
  end.
Proof. by vm_compute. Qed.


End LogDurability.
