(* ===== verification/LearnDurability.v ===== *)
(** * A learner is given what was acknowledged

    [LogLearn] says which files [get_learn_state] lists, [LogDurability] what the files hold
    in every state a run of the private log reaches.  Together: a mutation whose callback was
    called is in one of the files on the disk that a learner is told to copy. *)
From stdpp Require Import sorting.
From S2P Require Import Prelude Endians BinaryIO Mutation Crc StringConv Strings FileStreamer LogBlock LogFile LogReplay MutationLog LogTheory LogGc LogLearn LogOpen LogRun LogDurability.

Module LearnDurability.
Import BinaryIO Mutation Crc Strings LogBlock LogFile LogReplay MutationLog LogTheory LogGc LogLearn LogRun LogDurability.

#[local] Opaque crc32_calc.

Section Learning.
Context (registered : task_code -> bool) (g : gpid) (dir : path).
Context (iteration : replica_log_info_map -> list (gpid * replica_log_info)).
Local Abbreviation world_rep := (world_rep registered g dir iteration).

(** A settled mutation is on the disk, in a file that holds it also when what is under way is counted. *)
Lemma settled_on_disk w xs olds kd cleaned m :
  world_rep w xs olds kd cleaned -> m ∈ log_mutations iteration (map fs_seg xs) ->
  exists x, x ∈ xs /\ m ∈ sg_mutations iteration (fs_full x) /\ m ∈ sg_mutations iteration (fs_seg x) /\
    (sg_path dir (fs_full x), sg_wire iteration (fs_seg x)) ∈ w_disk w.
Proof.
  intros H Hm. unfold log_mutations in Hm. apply list_elem_of_In, in_concat in Hm as (ms & Hms & Hm).
  apply list_elem_of_In in Hms, Hm. apply list_elem_of_fmap in Hms as (sg & -> & Hsg). apply list_elem_of_fmap in Hsg as (x & -> & Hx).
  exists x. pose proof (wr_disk _ _ _ _ _ _ _ _ _ H) as Hd. pose proof (dr_ok _ _ _ _ _ _ Hd) as Hok. rewrite Forall_forall in Hok.
  split_and!; [done| |done|].
  - unfold fs_full. destruct (fs_fly x) as [f|] eqn:Ef; [|done]. cbn [from_option].
    rewrite (extend_mutations _ _ _ _ (proj2 (fo_fly _ _ (Hok x Hx) f Ef))). apply elem_of_app. by left.
  - unfold sg_path. rewrite full_name, (dr_disk _ _ _ _ _ _ Hd). apply elem_of_app. left. apply list_elem_of_fmap. exists x. split; [|done].
    unfold fs_entry, fs_data. destruct (fs_header x) eqn:Eh; [|done]. unfold sg_mutations in Hm.
    rewrite (proj1 (fo_header _ _ (Hok x Hx) Eh)) in Hm. by apply elem_of_nil in Hm.
Qed.

(** The files that are listed hold every settled mutation that is needed. *)
Lemma settled_learned w xs olds kd cleaned start (paths : list path) k m :
  world_rep w xs olds kd cleaned ->
  Forall (fun sg => has_needed iteration 0 start sg -> sg_path dir sg ∈ paths) (map fs_full xs) ->
  k ∈ kd -> w_sent w !! Z.to_nat k = Some m -> start <= decree (header m) ->
  exists p sg m', p ∈ paths /\ (p, sg_wire iteration sg) ∈ w_disk w /\ m' ∈ sg_mutations iteration sg /\ shared m' = shared m.
Proof.
  intros H HF Hk Hm Hd. apply list_elem_of_lookup in Hk as (j & Hj).
  destruct (Forall2_lookup_l _ _ _ _ _ (wr_settled _ _ _ _ _ _ _ _ _ H) Hj) as (m' & Hm' & [_ Esh]).
  rewrite Hm in Esh. change (Some (shared m) = Some (shared m')) in Esh. apply (inj Some) in Esh. apply list_elem_of_lookup_2 in Hm'.
  destruct (settled_on_disk _ _ _ _ _ _ H Hm') as (x & Hx & Hfull & Hseg & Hdisk).
  exists (sg_path dir (fs_full x)), (fs_seg x), m'. split_and!; [|done|done|done].
  rewrite Forall_forall in HF. assert (fs_full x ∈ map fs_full xs) as Hin by (apply list_elem_of_fmap; by exists x). apply (HF _ Hin).
  apply Exists_exists. exists m'. split; [done|].
  pose proof (lr_ok _ _ _ _ _ _ (wr_log _ _ _ _ _ _ _ _ _ H)) as Hok. rewrite Forall_forall in Hok.
  pose proof (sgo_start _ _ _ _ (Hok _ Hin)) as Hs. pose proof (segment_positions iteration (fs_full x)) as Hp. rewrite Forall_forall in Hp.
  specialize (Hp _ Hfull). cbn beta in Hp. pose proof (f_equal (fun x => decree x.1) Esh) as Ed. cbn in Ed. split; lia.
Qed.
End Learning.

(** C4. A learner is given every mutation that was acknowledged.  In any state that appends,
    switches of files, garbage collections, completions of writes and crashes lead to,
    [get_learn_state] returns; and a mutation whose callback was called, and which has a
    decree the learner asks for, is in a file on the disk that it is told to copy. *)
Theorem acknowledged_is_learned registered hdr_size g dir max_log_file_mb iteration plog_force_flush
  last_write_time remove_path reserve_max_size reserve_max_time cleaned es start :
  (forall m, iteration m ≡ₚ map_to_list m) -> NUL ∉ dir -> Z.of_nat (length dir) <= 400 -> gpid_ok g -> gpid_value g <> 0 ->
  Forall (event_ok registered g cleaned) es -> costs es <= INT64_MAX -> Z.of_nat (length es) < INT32_MAX ->
  (forall w, first_world registered hdr_size g dir max_log_file_mb = Ret w ->
     run_allowed registered hdr_size g dir max_log_file_mb iteration plog_force_flush
       last_write_time remove_path reserve_max_size reserve_max_time es w = true) ->
  cleaned < start ->
  exists w, (let* w := first_world registered hdr_size g dir max_log_file_mb in
    log_run registered hdr_size g dir max_log_file_mb iteration plog_force_flush
      last_write_time remove_path reserve_max_size reserve_max_time es w) = Ret w /\
  exists covered meta paths, get_learn_state iteration g start (w_log w) = Ret (covered, meta, paths) /\
    forall k m, k ∈ w_acked w -> w_sent w !! Z.to_nat k = Some m -> start <= decree (header m) ->
      exists p sg m', p ∈ paths /\ (p, sg_wire iteration sg) ∈ w_disk w /\ m' ∈ sg_mutations iteration sg /\ shared m' = shared m.
Proof.
  intros Hit Hnul Hlen Hg Hgv Hes Hc Hn Hset Hstart.
  destruct (first_world_rep registered hdr_size g dir max_log_file_mb iteration Hit Hnul Hlen Hg Hgv cleaned) as (w0 & olds0 & E0 & H0 & Hr0 & Es0).
  rewrite E0. cbn [obind].
  destruct (log_run_rep registered hdr_size g dir max_log_file_mb iteration Hit plog_force_flush Hnul last_write_time remove_path
    reserve_max_size reserve_max_time Hlen Hg Hgv es w0 [] olds0 [] cleaned 0 0 H0 Hr0 Hes)
    as (w & xs & olds & kd & -> & H & _); [lia|lia|lia|lia|by apply Hset|].
  exists w. split; [done|].
  destruct (wr_gc _ _ _ _ _ _ _ _ _ H) as [Hgc Hval].
  destruct (get_learn_state_files g dir iteration Hit registered start (w_log w) _ (wr_log _ _ _ _ _ _ _ _ _ H) Hgc)
    as (covered & meta & paths & El & HF & _).
  exists covered, meta, paths. split; [done|]. rewrite Hval in HF. intros k m Hk Hm Hd.
  pose proof (wr_acked _ _ _ _ _ _ _ _ _ H) as Hack. unfold acked_ok in Hack. rewrite Forall_forall in Hack.
  destruct (Hack k Hk) as [Hin|(m0 & Em0 & Hle)]; [|rewrite Hm in Em0; injection Em0 as <-; lia].
  apply (settled_learned _ _ _ _ _ _ _ _ _ _ _ _ _ H HF Hin Hm Hd).
Qed.

Lemma acknowledged_is_learned_witness :
  exists w, sample_run torn_write = Ret w /\
  exists covered meta paths, get_learn_state map_to_list sample_gpid 2 (w_log w) = Ret (covered, meta, paths) /\
    forall k m, k ∈ w_acked w -> w_sent w !! Z.to_nat k = Some m -> 2 <= decree (header m) ->
      exists p sg m', p ∈ paths /\ (p, sg_wire map_to_list sg) ∈ w_disk w /\ m' ∈ sg_mutations map_to_list sg /\ shared m' = shared m.
Proof.
  apply (acknowledged_is_learned (fun _ => true) 56 sample_gpid sample_dir 32 map_to_list false (fun _ => None) (fun _ => true) 0 0 1 torn_write 2).
  - done.
  - apply (bool_decide_eq_true_1 _). by vm_compute.
  - done.
  - done.
  - done.
  - exact torn_write_ok.
  - apply Z.leb_le. by vm_compute.
  - done.
  - intros w E. vm_compute in E. injection E as <-. by vm_compute.
  - done.
Defined.

(** In that run the learner that starts with decree 2 is given the second file, and the third
    mutation, which is being written, from memory. *)
Lemma learned_from_torn_write :
  match sample_run torn_write with
  | Ret w => get_learn_state map_to_list sample_gpid 2 (w_log w) =
      Ret (true, mutation_wire (set_log_offset 434 (sample_write 3)), [log_file_name sample_dir 2 209])
  | _ => False
  end.
Proof. by vm_compute. Qed.

End LearnDurability.
