(* ===== verification/Throttling.v ===== *)
(** * Request throttling

    Model of [src/utils/throttling_controller.{h,cpp}] (class
    [throttling_controller]) and of the throttling part of
    [src/replica/replica_throttle.cpp].  The messages that explain a parse error are
    left out. *)
From S2P Require Import Prelude StringConv Strings Mutation.

Module Throttling.
Import StringConv Strings Mutation.

Inductive throttling_type := PASS | DELAY | REJECT.
Inductive ParseResult := kSuccess | kFail | kIgnore.

Record throttling_controller := Controller {
  enabled : bool;
  env_value : blob;
  partition_count : Z;
  delay_units : Z;
  delay_ms : Z;
  reject_units : Z;
  reject_delay_ms : Z;
  last_request_time : Z;
  cur_units : Z
}.

Definition new_controller : throttling_controller := Controller false [] 0 0 0 0 0 0 0.

(** [parse_unit(arg, units)]: '<unsigned integer>[K|M]'. *)
Definition parse_unit (arg : blob) : option Z :=
  let '(unit_multiplier, arg) :=
    match last arg with
    | Some c => if decide (c = char 77) then (2 ^ 20, removelast arg)
                else if decide (c = char 75) then (2 ^ 10, removelast arg)
                else (1, arg)
    | None => (1, arg)
    end in
  match buf2uint64 arg with
  | None => None
  | Some tmp => if tmp * unit_multiplier >=? 2 ^ 64 then None else Some (tmp * unit_multiplier)
  end.

(** [parse_from_env(arg, type, units, delay_ms)]: one '<units>*<type>*<ms>'. *)
Definition parse_arg (arg : blob) (type : blob) : outcome (ParseResult * Z * Z) :=
  let* sub_args := split_args arg (char 42) true in
  match sub_args with
  | [a0; a1; a2] =>
      match parse_unit a0 with
      | None => Ret (kFail, 0, 0)
      | Some u =>
          if decide (a1 = type) then
            match buf2uint64 a2 with
            | None => Ret (kFail, 0, 0)
            | Some ms => Ret (kSuccess, u, ms)
            end
          else Ret (kIgnore, 0, 0)
      end
  | _ => Ret (kFail, 0, 0)
  end.

(** What is parsed so far: units and milliseconds of each kind. *)
Record parsed := Parsed {
  p_delay : option (Z * Z);
  p_reject : option (Z * Z)
}.

Fixpoint parse_args (sargs : list blob) (p : parsed) : outcome (option parsed) :=
  match sargs with
  | [] => Ret (Some p)
  | sarg :: rest =>
      let* (result, units, ms) := parse_arg sarg (str "delay") in
      match result with
      | kFail => Ret None
      | kSuccess =>
          match p_delay p with
          | Some _ => Ret None
          | None => parse_args rest (Parsed (Some (units, ms)) (p_reject p))
          end
      | kIgnore =>
          let* (result, units, ms) := parse_arg sarg (str "reject") in
          match result with
          | kSuccess =>
              match p_reject p with
              | Some _ => Ret None
              | None => parse_args rest (Parsed (p_delay p) (Some (units, ms)))
              end
          | _ => Ret None
          end
      end
  end.

(** The static [parse_from_env(env_value, ...)]. *)
Definition parse_env (env : blob) : outcome (option parsed) :=
  let* sargs := split_args env (char 44) false in
  match sargs with
  | [] => Ret None
  | _ => parse_args sargs (Parsed None None)
  end.

(** The share of one partition; the division is undefined for no partition. *)
Definition units_per_partition (units count : Z) : outcome Z :=
  if units =? 0 then Ret 0
  else if u64 count =? 0 then Undef
  else Ret (i64 (u64 (units / u64 count + 1))).

(** [parse_from_env(env_value, partition_count, changed)]: the result, [changed]
    and the new controller. *)
Definition parse_from_env (env : blob) (count : Z) (c : throttling_controller)
  : outcome (bool * bool * throttling_controller) :=
  if enabled c && bool_decide (env = env_value c) && (count =? partition_count c)
  then Ret (true, false, c)
  else
    let* o := parse_env env in
    match o with
    | None => Ret (false, false, c)
    | Some p =>
        let '(du, dm) := default (0, 0) (p_delay p) in
        let '(ru, rm) := default (0, 0) (p_reject p) in
        let* d := units_per_partition du count in
        let* r := units_per_partition ru count in
        Ret (true, true, Controller true env count d (i64 dm) r (i64 rm)
                           (last_request_time c) (cur_units c))
    end.

(** [reset(changed)]. *)
Definition reset (c : throttling_controller) : bool * throttling_controller :=
  if enabled c then (true, new_controller) else (false, c).

(** [control(client_timeout_ms, request_units, delay_ms)] at second [now_s]; the
    delay is 0 for [PASS]. *)
Definition control (now_s client_timeout_ms request_units : Z) (c : throttling_controller)
  : throttling_type * Z * throttling_controller :=
  if negb (enabled c) then (PASS, 0, c)
  else
    let with_units u := Controller (enabled c) (env_value c) (partition_count c) (delay_units c)
                          (delay_ms c) (reject_units c) (reject_delay_ms c) now_s u in
    let cur := (if now_s =? last_request_time c then cur_units c else 0) + request_units in
    let wait ms := if client_timeout_ms >? 0 then Z.min ms (client_timeout_ms ÷ 2) else ms in
    if (reject_units c >? 0) && (cur >? reject_units c) then
      (REJECT, wait (reject_delay_ms c), with_units (cur - request_units))
    else if (delay_units c >? 0) && (cur >? delay_units c) then
      (DELAY, wait (delay_ms c), with_units cur)
    else (PASS, 0, with_units cur).

(** ** [replica_throttle.cpp] *)

(** What [THROTTLE_REQUEST] does with a request that does not pass. *)
Inductive throttled :=
| RetryAfter (ms : Z)          (* [on_client_*(request, true)] is scheduled *)
| RejectAfter (ms : Z)         (* [ERR_BUSY] is scheduled *)
| RejectNow.

Definition THROTTLE_REQUEST (now_s : Z) (request : message) (request_units : Z)
  (c : throttling_controller) : option throttled * throttling_controller :=
  let '(type, ms, c) := control now_s (timeout_ms request) request_units c in
  (match type with
   | PASS => None
   | DELAY => Some (RetryAfter ms)
   | REJECT => Some (if ms >? 0 then RejectAfter ms else RejectNow)
   end, c).

(** [throttle_write_request]: first by number, then by size. *)
Definition throttle_write_request (now_s : Z) (request : message) (qps size : throttling_controller)
  : option throttled * throttling_controller * throttling_controller :=
  let '(r, qps) := THROTTLE_REQUEST now_s request 1 qps in
  match r with
  | Some t => (Some t, qps, size)
  | None =>
      let '(r, size) := THROTTLE_REQUEST now_s request (i32 (body_size request)) size in
      (r, qps, size)
  end.

Definition throttle_read_request (now_s : Z) (request : message) (qps : throttling_controller)
  : option throttled * throttling_controller :=
  THROTTLE_REQUEST now_s request 1 qps.

(** A rejected backup request is dropped without an answer. *)
Definition throttle_backup_request (now_s : Z) (request : message) (qps : throttling_controller)
  : bool * option Z * throttling_controller :=
  let '(type, ms, c) := control now_s (timeout_ms request) 1 qps in
  match type with
  | PASS => (false, None, c)
  | DELAY => (true, Some ms, c)
  | REJECT => (true, None, c)
  end.

(** [update_throttle_env_internal]: an invalid or missing value turns throttling off. *)
Definition update_throttle_env_internal (env : option blob) (count : Z) (c : throttling_controller)
  : outcome throttling_controller :=
  match env with
  | Some v =>
      let* (ok, _, c) := parse_from_env v count c in
      Ret (if ok : bool then c else snd (reset c))
  | None => Ret (snd (reset c))
  end.

(** ** Theory *)

(** The requests of one second, as (client timeout, units): the units of those let
    in, at once or after a delay. *)
Fixpoint run_second (now_s : Z) (reqs : list (Z * Z)) (c : throttling_controller)
  : Z * throttling_controller :=
  match reqs with
  | [] => (0, c)
  | (timeout, units) :: rest =>
      let '(type, _, c) := control now_s timeout units c in
      let '(n, c) := run_second now_s rest c in
      (match type with REJECT => 0 | _ => units end + n, c)
  end.

(** The units counted for the second [now_s] before a request. *)
Definition counted (now_s : Z) (c : throttling_controller) : Z :=
  if now_s =? last_request_time c then cur_units c else 0.

Lemma control_step now_s timeout units c :
  enabled c = true -> 0 < reject_units c -> 0 <= units -> 0 <= counted now_s c <= reject_units c ->
  let '(type, ms, c') := control now_s timeout units c in
  enabled c' = true /\ reject_units c' = reject_units c /\ last_request_time c' = now_s /\
  cur_units c' = counted now_s c + match type with REJECT => 0 | _ => units end /\
  cur_units c' <= reject_units c /\
  (type = REJECT <-> reject_units c < counted now_s c + units) /\
  (0 < timeout -> 0 <= delay_ms c -> 0 <= reject_delay_ms c -> 0 <= ms <= timeout ÷ 2).
Proof.
  intros He Hr Hu Hc. unfold control. rewrite He. cbn [negb]. fold (counted now_s c).
  destruct (Z.gtb_spec (reject_units c) 0); [|lia]. cbn [andb].
  pose proof (Z.quot_pos timeout 2).
  destruct (Z.gtb_spec (counted now_s c + units) (reject_units c));
    [|destruct (_ && _)]; (split_and!; [done|done|done|cbn; lia|cbn; lia|split; [try done; lia|try done; lia]|]);
    destruct (Z.gtb_spec timeout 0); lia.
Qed.

Lemma run_second_spec now_s reqs c :
  enabled c = true -> 0 < reject_units c -> Forall (fun r => 0 <= snd r) reqs ->
  0 <= counted now_s c <= reject_units c ->
  0 <= fst (run_second now_s reqs c) <= reject_units c - counted now_s c.
Proof.
  revert c. induction reqs as [|[t u] reqs IH]; intros c He Hr HF Hc; cbn [run_second fst]; [lia|].
  apply Forall_cons in HF as [Hu HF]. cbn in Hu.
  pose proof (control_step now_s t u c He Hr Hu Hc) as Hs.
  destruct (control now_s t u c) as [[type ms] c1]. destruct Hs as (He1 & Hr1 & Hl1 & Hc1 & Hb1 & _ & _).
  specialize (IH c1 He1). destruct (run_second now_s reqs c1) as [n c2]. cbn [fst] in *.
  unfold counted in IH at 1 2 3. rewrite Hl1, Z.eqb_refl, Hr1, Hc1 in IH.
  assert (0 <= match type with REJECT => 0 | _ => u end) by (by destruct type).
  specialize (IH Hr HF). lia.
Qed.

(** C38. The units let in during one second never exceed the configured limit, whatever
    the requests; each delay is at most half of the client's timeout. *)
Theorem throttling_limits now_s reqs c :
  enabled c = true -> 0 < reject_units c -> last_request_time c <> now_s ->
  Forall (fun r => 0 <= snd r) reqs ->
  0 <= fst (run_second now_s reqs c) <= reject_units c /\
  (forall timeout units, 0 <= units -> 0 < timeout -> 0 <= delay_ms c -> 0 <= reject_delay_ms c ->
     0 <= snd (fst (control now_s timeout units c)) <= timeout ÷ 2).
Proof.
  intros He Hr Hl HF. assert (counted now_s c = 0) as E0.
  { unfold counted. destruct (Z.eqb_spec now_s (last_request_time c)); congruence. }
  split.
  - pose proof (run_second_spec now_s reqs c He Hr HF). lia.
  - intros t u Hu Ht Hd Hrd. pose proof (control_step now_s t u c He Hr Hu) as Hs.
    destruct (control now_s t u c) as [[type ms] c1]. cbn. apply Hs; [lia|done..].
Qed.

(** ** Printing and parsing *)

(** The text of one limit, as an operator writes it. *)
Definition print_limit (units : Z) (kind : blob) (ms : Z) : blob :=
  join (char 42) [to_string units; kind; to_string ms].

Lemma to_string_plain sep v :
  0 <= v -> digit_val sep = 255 -> Forall (fun c => plain sep c = true) (to_string v).
Proof.
  intros Hv Hs. unfold to_string. destruct (Z.ltb_spec v 0); [lia|]. apply Forall_forall.
  intros c Hc. destruct (decimal_digits 20 v c Hv Hc) as (d & Hd & ->).
  assert (char (48 + d) <> sep) by (intros <-; rewrite digit_val_char in Hs; lia).
  unfold plain. rewrite (bool_decide_false (char (48 + d) = sep)) by done.
  assert (d ∈ seqZ 0 10) as Hin by (apply elem_of_seqZ; lia). clear -Hin.
  repeat (apply elem_of_cons in Hin as [->|Hin]; [reflexivity|]). by apply elem_of_nil in Hin.
Qed.

Lemma parse_unit_to_string v : 0 <= v < 2 ^ 64 -> parse_unit (to_string v) = Some v.
Proof.
  intros Hv. unfold parse_unit. pose proof (to_string_not_nil v) as Hn.
  assert (forall c, last (to_string v) = Some c -> c <> char 77 /\ c <> char 75) as Hlast.
  { intros c Hc. assert (c ∈ to_string v) as Hin.
    { apply last_Some in Hc as [l ->]. apply elem_of_app. right. by apply list_elem_of_singleton. }
    unfold to_string in Hin. destruct (Z.ltb_spec v 0); [lia|].
    destruct (decimal_digits 20 v c) as (d & Hd & ->); [lia|done|]. split; intros E%char_inj; lia. }
  destruct (last (to_string v)) as [c|]; [|].
  - destruct (Hlast c eq_refl) as [H1 H2]. rewrite (decide_False _ _ H1), (decide_False _ _ H2).
    unfold buf2uint64. rewrite buf2unsigned_to_string by (unfold unsigned_max; lia).
    rewrite Z.mul_1_r. destruct (Z.geb_spec v (2 ^ 64)); [lia|done].
  - unfold buf2uint64. rewrite buf2unsigned_to_string by (unfold unsigned_max; lia).
    rewrite Z.mul_1_r. destruct (Z.geb_spec v (2 ^ 64)); [lia|done].
Qed.

Section Limits.
Context (units ms : Z) (Hu : 0 <= units < 2 ^ 64) (Hms : 0 <= ms < 2 ^ 64).

Lemma parse_arg_print kind type :
  clean (char 42) kind ->
  parse_arg (print_limit units kind ms) type
  = Ret (if decide (kind = type) then (kSuccess, units, ms) else (kIgnore, 0, 0)).
Proof.
  intros Hk. unfold parse_arg, print_limit. rewrite split_join.
  - cbn [obind]. rewrite parse_unit_to_string by done. destruct (decide (kind = type)); [|done].
    unfold buf2uint64. by rewrite buf2unsigned_to_string by (unfold unsigned_max; lia).
  - by vm_compute.
  - done.
  - repeat apply Forall_cons_2; try apply Forall_nil_2; try done; (apply clean_plain; [apply to_string_not_nil|]);
      (apply to_string_plain; [lia|by vm_compute]).
Qed.

Lemma print_limit_clean kind :
  kind <> [] -> Forall (fun c => plain (char 44) c = true) kind -> clean (char 44) (print_limit units kind ms).
Proof.
  intros Hn Hk. apply clean_plain.
  - unfold print_limit. cbn [join]. destruct (to_string units) eqn:E; [by apply to_string_not_nil in E|done].
  - unfold print_limit. cbn [join].
    apply Forall_app_2; [apply to_string_plain; [lia|by vm_compute]|]. apply Forall_cons_2; [by vm_compute|].
    apply Forall_app_2; [done|]. apply Forall_cons_2; [by vm_compute|]. apply to_string_plain; [lia|by vm_compute].
Qed.
End Limits.

(** C39. A configuration with both limits, printed and parsed, is itself: the limits are
    shared out between the partitions, rounding up. *)
Theorem parse_from_env_roundtrip du dm ru rm count c :
  0 < du < 2 ^ 62 -> 0 <= dm < 2 ^ 63 -> 0 < ru < 2 ^ 62 -> 0 <= rm < 2 ^ 63 -> 0 < count < 2 ^ 31 ->
  enabled c = false ->
  let env := join (char 44) [print_limit du (str "delay") dm; print_limit ru (str "reject") rm] in
  parse_from_env env count c
  = Ret (true, true, Controller true env count (du / count + 1) dm (ru / count + 1) rm
                       (last_request_time c) (cur_units c)).
Proof.
  intros Hdu Hdm Hru Hrm Hc He env. unfold parse_from_env. rewrite He. cbn [andb].
  assert (clean (char 42) (str "delay")) as Hdc by (apply clean_plain; [done|repeat constructor]).
  assert (clean (char 42) (str "reject")) as Hrc by (apply clean_plain; [done|repeat constructor]).
  assert (parse_env env = Ret (Some (Parsed (Some (du, dm)) (Some (ru, rm))))) as ->.
  { unfold parse_env, env. rewrite split_join.
    - cbn [obind parse_args]. rewrite parse_arg_print by (done || lia). rewrite decide_True by done. cbn [obind p_delay p_reject].
      rewrite (parse_arg_print ru rm ltac:(lia) ltac:(lia) (str "reject") (str "delay")) by done.
      rewrite decide_False by (by vm_compute). cbn [obind].
      rewrite parse_arg_print by (done || lia). by rewrite decide_True by done.
    - by vm_compute.
    - done.
    - repeat apply Forall_cons_2; try apply Forall_nil_2; (apply print_limit_clean; [lia|lia|done|repeat constructor]). }
  cbn [obind p_delay p_reject default]. unfold units_per_partition, default, id.
  rewrite (uwrap_small 64 count) by lia. destruct (Z.eqb_spec du 0), (Z.eqb_spec ru 0), (Z.eqb_spec count 0); try lia.
  pose proof (Z.div_pos du count). pose proof (Z.div_pos ru count).
  pose proof (Z.div_le_upper_bound du count du ltac:(lia) ltac:(nia)).
  pose proof (Z.div_le_upper_bound ru count ru ltac:(lia) ltac:(nia)).
  cbn [obind]. rewrite !uwrap_small by lia. by rewrite !swrap_small by (cbn; lia).
Qed.

Lemma parse_from_env_roundtrip_witness :
  parse_from_env (join (char 44) [print_limit 100 (str "delay") 10; print_limit 200 (str "reject") 20]) 8 new_controller
  = Ret (true, true, Controller true (str "100*delay*10,200*reject*20") 8 13 10 26 20 0 0).
Proof. apply (parse_from_env_roundtrip 100 10 200 20 8 new_controller); [lia..|reflexivity]. Defined.

(** The header says that a limit of 0 is taken as 1; it turns the limit off. *)
Theorem zero_limit_is_no_limit count :
  exists c, parse_from_env (str "0*reject*100") count new_controller = Ret (true, true, c) /\
    reject_units c = 0 /\ forall now_s timeout units, fst (fst (control now_s timeout units c)) = PASS.
Proof. by eexists (Controller true (str "0*reject*100") count 0 0 0 100 0 0). Qed.

Lemma throttling_limits_witness :
  0 <= fst (run_second 7 [(100, 1); (100, 1); (100, 1)] (Controller true [] 1 0 0 2 50 6 0)) <= 2.
Proof.
  apply (throttling_limits 7 [(100, 1); (100, 1); (100, 1)] (Controller true [] 1 0 0 2 50 6 0));
    [reflexivity|reflexivity|discriminate|repeat constructor; discriminate].
Defined.

End Throttling.
