(* ===== verification/RocksdbWrapper.v ===== *)
(** * The storage engine wrapper

    Model of [src/server/rocksdb_wrapper.{h,cpp}] and of [db_write_context]
    ([src/server/pegasus_write_service.h]).  RocksDB is a third-party library:
    it is the interface [RocksDB], and what Pegasus relies on is [RocksDBLaws].
    A finite map implements both. *)
From S2P Require Import Prelude StringConv KeySchema ValueSchema Mutation.

Module RocksdbWrapper.
Import StringConv KeySchema ValueSchema.

(** ** RocksDB *)

Inductive column_family := data_cf | meta_cf.

#[global] Instance column_family_eq_dec : EqDecision column_family.
Proof. solve_decision. Defined.

(** [rocksdb::Status::Code]. *)
Definition kOk : Z := 0.
Definition kNotFound : Z := 1.
Definition kCorruption : Z := 2.
Definition kInvalidArgument : Z := 4.
Definition kIOError : Z := 5.
Definition kTryAgain : Z := 13.

(** The entries of a [rocksdb::WriteBatch]. *)
Inductive batch_op :=
| BatchPut (cf : column_family) (key value : blob)
| BatchDelete (cf : column_family) (key : blob).

Class RocksDB := {
  db : Type;
  (* DB::Get: the status code and the value read *)
  Get : db -> column_family -> blob -> Z * blob;
  (* WriteBatch::Put and Delete: the status of appending an entry *)
  batch_status : list batch_op -> batch_op -> Z;
  (* DB::Write: the status code and the new state *)
  Write : db -> list batch_op -> Z * db
}.

(** The effect of a batch on the contents. *)
Definition apply_op (op : batch_op) (m : column_family -> blob -> option blob)
  : column_family -> blob -> option blob :=
  fun c k =>
    match op with
    | BatchPut c' k' v => if decide (c = c' /\ k = k') then Some v else m c k
    | BatchDelete c' k' => if decide (c = c' /\ k = k') then None else m c k
    end.

Definition apply_batch (ops : list batch_op) (m : column_family -> blob -> option blob)
  : column_family -> blob -> option blob := fold_left (fun m op => apply_op op m) ops m.

Class RocksDBLaws {R : RocksDB} := {
  view : db -> column_family -> blob -> option blob;
  Get_ok d c k v : Get d c k = (kOk, v) -> view d c k = Some v;
  Get_not_found d c k v : Get d c k = (kNotFound, v) -> view d c k = None;
  Write_ok d ops d' : Write d ops = (kOk, d') ->
    forall c k, view d' c k = apply_batch ops (view d) c k
}.

(** ** Context of a write *)

Record db_write_context := WriteContext {
  ctx_decree : Z;
  ctx_timestamp : Z;
  remote_timetag : Z;
  verify_timetag : bool
}.

Definition create_context (decree timestamp : Z) : db_write_context :=
  WriteContext decree timestamp 0 false.
Definition empty_context (d : Z) : db_write_context := create_context d 0.
Definition create_duplicate (decree timetag : Z) (verify : bool) : db_write_context :=
  WriteContext decree 0 timetag verify.
Definition is_duplicated_write (ctx : db_write_context) : bool := remote_timetag ctx >? 0.

Record db_get_context := GetContext {
  raw_value : blob;
  found : bool;
  expire_ts : Z;
  expired : bool
}.

(** What the wrapper reads of the server, of the flags and of the clock, which is
    read as one instant during an operation.  The fail points are those of the
    test framework; outside tests they are all off. *)
Record config := Config {
  data_version : Z;                    (* _pegasus_data_version *)
  epoch_now : Z;
  dup_cluster_id : Z;                  (* get_current_dup_cluster_id_or_default() *)
  FLAGS_inject_write_error_for_test : Z;
  fail_db_get : bool;
  fail_db_write_batch_put : bool;
  fail_db_write_batch_delete : bool;
  fail_db_write : bool;
  server_gpid : Mutation.gpid;
  primary_host_port : blob
}.

Definition FAIL_DB_WRITE_BATCH_PUT : Z := -101.
Definition FAIL_DB_WRITE_BATCH_DELETE : Z := -102.
Definition FAIL_DB_WRITE : Z := -103.
Definition FAIL_DB_GET : Z := -104.

Definition LAST_FLUSHED_DECREE : blob := String.list_byte_of_string "pegasus_last_flushed_decree"%string.

Section Wrapper.
Context {R : RocksDB} (cfg : config).

Record wrapper := Wrapper {
  w_db : db;
  write_batch : list batch_op;
  default_ttl : Z
}.

Definition with_batch (b : list batch_op) (s : wrapper) : wrapper := Wrapper (w_db s) b (default_ttl s).

Definition get (raw_key : blob) (s : wrapper) : outcome (Z * db_get_context) :=
  if fail_db_get cfg then Ret (FAIL_DB_GET, GetContext [] false 0 false)
  else
    let '(code, raw) := Get (w_db s) data_cf raw_key in
    if code =? kOk then
      let* ts := pegasus_extract_expire_ts (data_version cfg) raw in
      Ret (kOk, GetContext raw true ts (check_if_ts_expired (epoch_now cfg) ts))
    else if code =? kNotFound then Ret (kOk, GetContext raw false 0 false)
    else
      (* the keys are restored for the error log *)
      let* _ := pegasus_restore_key raw_key in
      Ret (code, GetContext raw false 0 false).

Definition db_expire_ts (ts : Z) (s : wrapper) : Z :=
  if negb (default_ttl s =? 0) && (ts =? 0) then u32 (epoch_now cfg + default_ttl s) else ts.

(** Appending to [_write_batch]; a failure is logged with the restored key. *)
Definition batch_append (op : batch_op) (raw_key : blob) (s : wrapper) : outcome (Z * wrapper) :=
  let code := batch_status (write_batch s) op in
  if code =? kOk then Ret (code, with_batch (write_batch s ++ [op]) s)
  else let* _ := pegasus_restore_key raw_key in Ret (code, s).

(** Whether an update is stale: a record exists with a timetag not below it. *)
Definition timetag_is_stale (raw_key : blob) (new_timetag : Z) (s : wrapper) : outcome (Z * bool) :=
  let* (err, g) := get raw_key s in
  if negb (err =? kOk) then Ret (err, false)
  else if found g && negb (expired g) then
    let* local_timetag := pegasus_extract_timetag (data_version cfg) (raw_value g) in
    Ret (kOk, local_timetag >=? new_timetag)
  else Ret (kOk, false).

Definition write_batch_put_ctx (ctx : db_write_context) (raw_key value : blob) (expire_sec : Z)
  (s : wrapper) : outcome (Z * wrapper) :=
  if fail_db_write_batch_put cfg then Ret (FAIL_DB_WRITE_BATCH_PUT, s)
  else
    let new_timetag :=
      if is_duplicated_write ctx then remote_timetag ctx
      else generate_timetag (ctx_timestamp ctx) (dup_cluster_id cfg) false in
    let* (err, stale) :=
      if verify_timetag ctx && (data_version cfg >=? 1) && negb (bool_decide (raw_key = []))
      then timetag_is_stale raw_key new_timetag s
      else Ret (kOk, false) in
    if negb (err =? kOk) then Ret (err, s)
    else
      let '(raw_key, value) := if stale then ([], []) else (raw_key, value) in
      let* svalue := generate_value (data_version cfg) value (db_expire_ts expire_sec s) new_timetag in
      batch_append (BatchPut data_cf raw_key (concat svalue)) raw_key s.

Definition write_batch_put (decree : Z) (raw_key value : blob) (expire_sec : Z) (s : wrapper)
  : outcome (Z * wrapper) :=
  write_batch_put_ctx (empty_context decree) raw_key value expire_sec s.

(** The overload on blobs takes the expiration as an int32. *)
Definition write_batch_put_ctx_i32 (ctx : db_write_context) (raw_key value : blob) (expire_sec : Z)
  (s : wrapper) : outcome (Z * wrapper) :=
  write_batch_put_ctx ctx raw_key value (u32 expire_sec) s.

Definition write_batch_delete (decree : Z) (raw_key : blob) (s : wrapper) : outcome (Z * wrapper) :=
  if fail_db_write_batch_delete cfg then Ret (FAIL_DB_WRITE_BATCH_DELETE, s)
  else batch_append (BatchDelete data_cf raw_key) raw_key s.

Definition write (decree : Z) (s : wrapper) : outcome (Z * wrapper) :=
  CHECK (0 <? length (write_batch s))%nat
    (if negb (FLAGS_inject_write_error_for_test cfg =? kOk)
     then Ret (FLAGS_inject_write_error_for_test cfg, s)
     else if fail_db_write cfg then Ret (FAIL_DB_WRITE, s)
     else
       let op := BatchPut meta_cf LAST_FLUSHED_DECREE (to_string decree) in
       let code := batch_status (write_batch s) op in
       if negb (code =? kOk) then Ret (code, s)
       else
         let s := with_batch (write_batch s ++ [op]) s in
         let '(code, d) := Write (w_db s) (write_batch s) in
         Ret (code, Wrapper d (write_batch s) (default_ttl s))).

Definition clear_up_write_batch (s : wrapper) : wrapper := with_batch [] s.

Definition set_default_ttl (ttl : Z) (s : wrapper) : wrapper :=
  if negb (default_ttl s =? ttl) then Wrapper (w_db s) (write_batch s) ttl else s.

End Wrapper.

(** Goes on to the next call after one that returned [kOk]. *)
Ltac step := cbn [obind negb Z.eqb kOk].

(** In [E], the run after a call with the code [c]: an early return of another
    code contradicts the final [kOk]. *)
Ltac on_ok c E :=
  destruct (Z.eqb_spec c kOk) as [->|?]; cbn [negb] in E; [|by simplify_eq].

(** ** A finite map is a RocksDB *)

Definition cf_index (c : column_family) : nat := match c with data_cf => 0 | meta_cf => 1 end.

Definition map_write (ops : list batch_op) (m : gmap (nat * blob) blob) : gmap (nat * blob) blob :=
  fold_left (fun m op =>
    match op with
    | BatchPut c k v => <[(cf_index c, k) := v]> m
    | BatchDelete c k => delete (cf_index c, k) m
    end) ops m.

Definition map_rocksdb : RocksDB := {|
  db := gmap (nat * blob) blob;
  Get d c k := match d !! (cf_index c, k) with Some v => (kOk, v) | None => (kNotFound, []) end;
  batch_status _ _ := kOk;
  Write d ops := (kOk, map_write ops d)
|}.

Lemma cf_index_inj c c' : cf_index c = cf_index c' -> c = c'.
Proof. by destruct c, c'. Qed.

#[global] Instance map_rocksdb_laws : @RocksDBLaws map_rocksdb.
Proof.
  refine {| view := fun (d : @db map_rocksdb) c k => (d : gmap (nat * blob) blob) !! (cf_index c, k) |}.
  - intros d c k v. cbn. destruct (_ !! _); by intros [= <-].
  - intros d c k v. cbn. destruct (_ !! _) eqn:E; [done|]. done.
  - intros d ops d' [= <-]. unfold apply_batch, map_write. cbn.
    set (f := fun (m : gmap (nat * blob) blob) op => _). revert d.
    induction ops as [|op ops IH]; intros d c k; cbn [fold_left]; [done|].
    rewrite IH. clear IH. revert c k.
    assert (forall m1 m2, (forall c k, m1 c k = m2 c k) -> forall c k,
      fold_left (fun m op => apply_op op m) ops m1 c k = fold_left (fun m op => apply_op op m) ops m2 c k) as Hext.
    { induction ops as [|o ops IH]; intros m1 m2 Hm; cbn [fold_left]; [done|]. apply IH.
      intros c k. unfold apply_op. destruct o; case_decide; auto. }
    apply Hext. intros c k. unfold apply_op, f. destruct op as [c' k' v|c' k'].
    + case_decide as Hd; [destruct Hd as [-> ->]; by rewrite lookup_insert_eq|].
      rewrite lookup_insert_ne; [done|]. intros [= E ->]. apply Hd. split; [by apply cf_index_inj|done].
    + case_decide as Hd; [destruct Hd as [-> ->]; by rewrite lookup_delete_eq|].
      rewrite lookup_delete_ne; [done|]. intros [= E ->]. apply Hd. split; [by apply cf_index_inj|done].
Defined.

End RocksdbWrapper.
