(* ===== verification/WriteService.v ===== *)
(** * The write service

    Model of [src/server/pegasus_write_service_impl.h] (class
    [pegasus_write_service::impl]): the write operations of the key-value store,
    each in its direct form (applied on every replica) and, for the atomic ones,
    in the two-step form that first makes the operation idempotent on the primary
    and then applies plain puts and removes; and of the batched path of
    [src/server/pegasus_server_write.cpp] that secondaries use to apply them. *)
From S2P Require Import Prelude StringConv KeySchema ValueSchema Mutation RocksdbWrapper.

Module WriteService.
Import StringConv KeySchema ValueSchema RocksdbWrapper.

(** ** Requests and responses ([idl/rrdb.thrift]) *)

(** [update_type]; the field is optional. *)
Inductive update_type := UT_PUT | UT_INCR | UT_CHECK_AND_SET | UT_CHECK_AND_MUTATE_PUT | UT_CHECK_AND_MUTATE_REMOVE.

#[global] Instance update_type_eq_dec : EqDecision update_type.
Proof. solve_decision. Defined.

Record update_request := UpdateRequest {
  upd_key : blob;
  upd_value : blob;
  upd_expire_ts_seconds : Z;
  upd_type : option update_type;
  upd_check_value_returned : bool;
  upd_check_value_exist : bool;
  upd_check_value : blob
}.

(** A request as the thrift constructor leaves it. *)
Definition empty_update : update_request := UpdateRequest [] [] 0 None false false [].

Record incr_request := IncrRequest { incr_key : blob; increment : Z; incr_expire_ts_seconds : Z }.

Record key_value := KeyValue { kv_key : blob; kv_value : blob }.
Record multi_put_request := MultiPutRequest { mp_hash_key : blob; mp_kvs : list key_value; mp_expire_ts_seconds : Z }.
Record multi_remove_request := MultiRemoveRequest { mr_hash_key : blob; mr_sort_keys : list blob }.

(** [cas_check_type] and [mutate_operation] as the integers of the wire: a client
    may send values that are not in the enumeration. *)
Definition CT_NO_CHECK : Z := 0.
Definition CT_VALUE_NOT_EXIST : Z := 1.
Definition CT_VALUE_NOT_EXIST_OR_EMPTY : Z := 2.
Definition CT_VALUE_EXIST : Z := 3.
Definition CT_VALUE_NOT_EMPTY : Z := 4.
Definition CT_VALUE_MATCH_ANYWHERE : Z := 5.
Definition CT_VALUE_MATCH_PREFIX : Z := 6.
Definition CT_VALUE_MATCH_POSTFIX : Z := 7.
Definition CT_VALUE_BYTES_LESS : Z := 8.
Definition CT_VALUE_BYTES_LESS_OR_EQUAL : Z := 9.
Definition CT_VALUE_BYTES_EQUAL : Z := 10.
Definition CT_VALUE_BYTES_GREATER_OR_EQUAL : Z := 11.
Definition CT_VALUE_BYTES_GREATER : Z := 12.
Definition CT_VALUE_INT_LESS : Z := 13.
Definition CT_VALUE_INT_LESS_OR_EQUAL : Z := 14.
Definition CT_VALUE_INT_EQUAL : Z := 15.
Definition CT_VALUE_INT_GREATER_OR_EQUAL : Z := 16.
Definition CT_VALUE_INT_GREATER : Z := 17.

Definition MO_PUT : Z := 0.
Definition MO_DELETE : Z := 1.

Record check_and_set_request := CasRequest {
  cas_hash_key : blob;
  cas_check_sort_key : blob;
  cas_check_type : Z;
  cas_check_operand : blob;
  cas_set_diff_sort_key : bool;
  cas_set_sort_key : blob;
  cas_set_value : blob;
  cas_set_expire_ts_seconds : Z;
  cas_return_check_value : bool
}.

Record mutate := Mutate {
  mu_operation : Z;
  mu_sort_key : blob;
  mu_value : blob;
  mu_set_expire_ts_seconds : Z
}.

Record check_and_mutate_request := CamRequest {
  cam_hash_key : blob;
  cam_check_sort_key : blob;
  cam_check_type : Z;
  cam_check_operand : blob;
  cam_mutate_list : list mutate;
  cam_return_check_value : bool
}.

(** The fields every response has. *)
Record response := Response {
  r_error : Z;
  r_app_id : Z;
  r_partition_index : Z;
  r_decree : Z;
  r_server : blob
}.

Definition default_response : response := Response 0 0 0 0 [].
Definition with_error (e : Z) (r : response) : response :=
  Response e (r_app_id r) (r_partition_index r) (r_decree r) (r_server r).

Record incr_response := IncrResponse { ir_base : response; new_value : Z }.
Record multi_remove_response := MultiRemoveResponse { mrr_base : response; mrr_count : Z }.

(** [check_and_set_response] and [check_and_mutate_response]. *)
Record check_response := CheckResponse {
  cr_base : response;
  check_value_returned : bool;
  check_value_exist : bool;
  check_value : blob
}.

Definition empty_check_response : check_response := CheckResponse default_response false false [].

(** ** [validate_check] *)

Definition is_check_type_supported (check_type : Z) : bool :=
  (check_type >=? CT_NO_CHECK) && (check_type <=? CT_VALUE_INT_GREATER).

(** [blob::compare], [starts_with], [ends_with], [contains]. *)
Definition blob_compare (a b : blob) : Z := if key_ltb a b then -1 else if key_ltb b a then 1 else 0.

Definition blob_starts_with (a b : blob) : bool := bool_decide (take (length b) a = b).
Definition blob_ends_with (a b : blob) : bool :=
  (length b <=? length a)%nat && bool_decide (drop (length a - length b) a = b).

Fixpoint blob_contains (a b : blob) : bool :=
  blob_starts_with a b ||
  match a with
  | [] => false
  | _ :: a' => blob_contains a' b
  end.

(** The verdict, and [invalid_argument]. *)
Definition validate_check (check_type : Z) (check_operand : blob) (value_exist : bool)
  (check_value : blob) : outcome (bool * bool) :=
  if check_type =? CT_NO_CHECK then Ret (true, false)
  else if check_type =? CT_VALUE_NOT_EXIST then Ret (negb value_exist, false)
  else if check_type =? CT_VALUE_NOT_EXIST_OR_EMPTY then
    Ret (negb value_exist || bool_decide (check_value = []), false)
  else if check_type =? CT_VALUE_EXIST then Ret (value_exist, false)
  else if check_type =? CT_VALUE_NOT_EMPTY then
    Ret (value_exist && negb (bool_decide (check_value = [])), false)
  else if (CT_VALUE_MATCH_ANYWHERE <=? check_type) && (check_type <=? CT_VALUE_MATCH_POSTFIX) then
    if negb value_exist then Ret (false, false)
    else if bool_decide (check_operand = []) then Ret (true, false)
    else if (length check_value <? length check_operand)%nat then Ret (false, false)
    else if check_type =? CT_VALUE_MATCH_ANYWHERE then
      Ret (blob_contains check_value check_operand, false)
    else if check_type =? CT_VALUE_MATCH_PREFIX then
      Ret (blob_starts_with check_value check_operand, false)
    else CHECK (check_type =? CT_VALUE_MATCH_POSTFIX)
           (Ret (blob_ends_with check_value check_operand, false))
  else if (CT_VALUE_BYTES_LESS <=? check_type) && (check_type <=? CT_VALUE_BYTES_GREATER) then
    if negb value_exist then Ret (false, false)
    else
      let c := blob_compare check_value check_operand in
      if c <? 0 then Ret (check_type <=? CT_VALUE_BYTES_LESS_OR_EQUAL, false)
      else if c >? 0 then Ret (check_type >=? CT_VALUE_BYTES_GREATER_OR_EQUAL, false)
      else Ret ((check_type >=? CT_VALUE_BYTES_LESS_OR_EQUAL)
                && (check_type <=? CT_VALUE_BYTES_GREATER_OR_EQUAL), false)
  else if (CT_VALUE_INT_LESS <=? check_type) && (check_type <=? CT_VALUE_INT_GREATER) then
    if negb value_exist then Ret (false, false)
    else
      match buf2int64 check_value with
      | None => Ret (false, true)
      | Some check_value_int =>
          match buf2int64 check_operand with
          | None => Ret (false, true)
          | Some check_operand_int =>
              if check_value_int <? check_operand_int then
                Ret (check_type <=? CT_VALUE_INT_LESS_OR_EQUAL, false)
              else if check_value_int >? check_operand_int then
                Ret (check_type >=? CT_VALUE_INT_GREATER_OR_EQUAL, false)
              else Ret ((check_type >=? CT_VALUE_INT_LESS_OR_EQUAL)
                        && (check_type <=? CT_VALUE_INT_GREATER_OR_EQUAL), false)
          end
      end
  else Abort.

(** ** Building idempotent requests *)

Definition calc_expire_on_non_existent (expire_ts_seconds : Z) : Z :=
  if expire_ts_seconds >? 0 then expire_ts_seconds else 0.

Definition calc_expire_on_existing (expire_ts_seconds : Z) (g : db_get_context) : Z :=
  if expire_ts_seconds =? 0 then i32 (expire_ts g)
  else if expire_ts_seconds <? 0 then 0
  else expire_ts_seconds.

(** The key and the type are set, the other fields of [update] kept. *)
Definition make_idempotent_request (key : blob) (type : update_type) (u : update_request) : update_request :=
  UpdateRequest key (upd_value u) (upd_expire_ts_seconds u) (Some type)
    (upd_check_value_returned u) (upd_check_value_exist u) (upd_check_value u).

Definition make_idempotent_put (key value : blob) (expire_ts_seconds : Z) (type : update_type)
  (u : update_request) : update_request :=
  let u := make_idempotent_request key type u in
  UpdateRequest (upd_key u) value expire_ts_seconds (upd_type u)
    (upd_check_value_returned u) (upd_check_value_exist u) (upd_check_value u).

Definition make_idempotent_request_for_incr (key : blob) (value expire_ts_seconds : Z) (u : update_request)
  : update_request := make_idempotent_put key (to_string value) expire_ts_seconds UT_INCR u.

Definition make_idempotent_request_for_check_and_set (key value : blob) (expire_ts_seconds : Z)
  (u : update_request) : update_request := make_idempotent_put key value expire_ts_seconds UT_CHECK_AND_SET u.

Definition make_idempotent_request_for_check_and_mutate_put (key value : blob) (expire_ts_seconds : Z)
  (u : update_request) : update_request :=
  make_idempotent_put key value expire_ts_seconds UT_CHECK_AND_MUTATE_PUT u.

Definition make_idempotent_request_for_check_and_mutate_remove (key : blob) (u : update_request)
  : update_request := make_idempotent_request key UT_CHECK_AND_MUTATE_REMOVE u.

(** [make_check_value], on a response and on an update. *)
Definition make_check_value (return_check_value value_exist : bool) (value : blob) (r : check_response)
  : check_response :=
  let exist := return_check_value && value_exist in
  CheckResponse (cr_base r) return_check_value exist (if exist then value else check_value r).

Definition make_check_value_update (return_check_value value_exist : bool) (value : blob) (u : update_request)
  : update_request :=
  let exist := return_check_value && value_exist in
  UpdateRequest (upd_key u) (upd_value u) (upd_expire_ts_seconds u) (upd_type u)
    return_check_value exist (if exist then value else upd_check_value u).

Definition copy_check_value (u : update_request) (r : check_response) : check_response :=
  CheckResponse (cr_base r) (upd_check_value_returned u) (upd_check_value_exist u) (upd_check_value u).

Section Service.
Context {R : RocksDB} (cfg : config).

Definition make_basic_response (decree : Z) (r : response) : response :=
  Response (r_error r) (Mutation.app_id (server_gpid cfg)) (Mutation.partition_index (server_gpid cfg))
    decree (primary_host_port cfg).

Definition make_error_response (err : Z) (r : response) : outcome response :=
  CHECK (negb (err =? kOk))
    (Ret (Response err (Mutation.app_id (server_gpid cfg)) (Mutation.partition_index (server_gpid cfg))
            (-1) (primary_host_port cfg))).

(** [dsn::defer]: the batch is cleared when the scope is left. *)
Definition with_cleanup {A} (m : outcome (A * wrapper)) : outcome (A * wrapper) :=
  let* (a, s) := m in Ret (a, clear_up_write_batch s).

Definition composite_raw_key (hash_key sort_key : blob) : outcome blob := pegasus_generate_key hash_key sort_key.

(** ** Plain writes *)

Definition empty_put (decree : Z) (s : wrapper) : outcome (Z * wrapper) :=
  with_cleanup
    (let* (err, s) := write_batch_put cfg decree [] [] 0 s in
     if negb (err =? kOk) then Ret (err, s) else write cfg decree s).

(** The loop over [update.kvs]. *)
Fixpoint multi_put_loop (ctx : db_write_context) (hash_key : blob) (expire : Z) (kvs : list key_value)
  (s : wrapper) : outcome (Z * wrapper) :=
  match kvs with
  | [] => Ret (kOk, s)
  | kv :: rest =>
      let* key := composite_raw_key hash_key (kv_key kv) in
      let* (err, s) := write_batch_put_ctx_i32 cfg ctx key (kv_value kv) expire s in
      if negb (err =? kOk) then Ret (err, s) else multi_put_loop ctx hash_key expire rest s
  end.

Definition multi_put (ctx : db_write_context) (update : multi_put_request) (s : wrapper)
  : outcome (Z * response * wrapper) :=
  let decree := ctx_decree ctx in
  let resp := make_basic_response decree default_response in
  match mp_kvs update with
  | [] =>
      let* (err, s) := empty_put decree s in Ret (err, with_error kInvalidArgument resp, s)
  | _ =>
      let* (err, s) :=
        with_cleanup
          (let* (err, s) := multi_put_loop ctx (mp_hash_key update) (mp_expire_ts_seconds update)
                              (mp_kvs update) s in
           if negb (err =? kOk) then Ret (err, s) else write cfg decree s) in
      Ret (err, with_error err resp, s)
  end.

Fixpoint multi_remove_loop (decree : Z) (hash_key : blob) (sort_keys : list blob) (s : wrapper)
  : outcome (Z * wrapper) :=
  match sort_keys with
  | [] => Ret (kOk, s)
  | k :: rest =>
      let* key := composite_raw_key hash_key k in
      let* (err, s) := write_batch_delete cfg decree key s in
      if negb (err =? kOk) then Ret (err, s) else multi_remove_loop decree hash_key rest s
  end.

Definition multi_remove (decree : Z) (update : multi_remove_request) (s : wrapper)
  : outcome (Z * multi_remove_response * wrapper) :=
  let resp := make_basic_response decree default_response in
  match mr_sort_keys update with
  | [] =>
      let* (err, s) := empty_put decree s in
      Ret (err, MultiRemoveResponse (with_error kInvalidArgument resp) 0, s)
  | _ =>
      let* (err, s) :=
        with_cleanup
          (let* (err, s) := multi_remove_loop decree (mr_hash_key update) (mr_sort_keys update) s in
           if negb (err =? kOk) then Ret (err, s) else write cfg decree s) in
      Ret (err, MultiRemoveResponse (with_error err resp)
                  (if err =? kOk then Z.of_nat (length (mr_sort_keys update)) else 0), s)
  end.

(** ** incr *)

Definition with_incr_error (e : Z) (r : incr_response) : incr_response :=
  IncrResponse (with_error e (ir_base r)) (new_value r).

(** The end of [incr]: the new value is put and written. *)
Definition incr_write (decree : Z) (key : blob) (value expire : Z) (resp : incr_response) (s : wrapper)
  : outcome (Z * incr_response * wrapper) :=
  with_cleanup
    (let* (err, s) := write_batch_put cfg decree key (to_string value) expire s in
     if negb (err =? kOk) then Ret (err, with_incr_error err resp, s)
     else
       let* (err, s) := write cfg decree s in
       Ret (err, IncrResponse (with_error err (ir_base resp)) (if err =? kOk then value else new_value resp), s)).

Definition incr (decree : Z) (update : incr_request) (s : wrapper) : outcome (Z * incr_response * wrapper) :=
  let resp := IncrResponse (make_basic_response decree default_response) 0 in
  let ts := incr_expire_ts_seconds update in
  let* (err, g) := get cfg (incr_key update) s in
  if negb (err =? kOk) then Ret (err, with_incr_error err resp, s)
  else if negb (found g) then
    incr_write decree (incr_key update) (increment update) (if ts >? 0 then ts else 0) resp s
  else if expired g then
    incr_write decree (incr_key update) (increment update) (if ts >? 0 then ts else 0) resp s
  else
    let* old_value := pegasus_extract_user_data (data_version cfg) (raw_value g) in
    let new_expire_ts := if ts =? 0 then expire_ts g else if ts <? 0 then 0 else ts in
    if (length old_value =? 0)%nat then
      incr_write decree (incr_key update) (increment update) new_expire_ts resp s
    else
      match buf2int64 old_value with
      | None =>
          let* (err, s) := empty_put decree s in Ret (err, with_incr_error kInvalidArgument resp, s)
      | Some old_value_int =>
          match safe_add_signed 64 old_value_int (increment update) with
          | None =>
              let* (err, s) := empty_put decree s in
              Ret (err, IncrResponse (with_error kInvalidArgument (ir_base resp)) old_value_int, s)
          | Some value => incr_write decree (incr_key update) value new_expire_ts resp s
          end
      end.

(** [make_idempotent(incr_request)]: the status, the error response and the
    single-put request. *)
Definition make_idempotent_incr (req : incr_request) (s : wrapper)
  : outcome (Z * incr_response * update_request) :=
  let fail err value :=
    let* r := make_error_response err default_response in
    Ret (err, IncrResponse r value, empty_update) in
  let ok value expire :=
    Ret (kOk, IncrResponse default_response 0,
         make_idempotent_request_for_incr (incr_key req) value expire empty_update) in
  let* (err, g) := get cfg (incr_key req) s in
  if negb (err =? kOk) then fail err 0
  else if negb (found g) || expired g then
    ok (increment req) (calc_expire_on_non_existent (incr_expire_ts_seconds req))
  else
    let* base_value := pegasus_extract_user_data (data_version cfg) (raw_value g) in
    let expire := calc_expire_on_existing (incr_expire_ts_seconds req) g in
    if bool_decide (base_value = []) then ok (increment req) expire
    else
      match buf2int64 base_value with
      | None => fail kInvalidArgument 0
      | Some base_int =>
          match safe_add_signed 64 base_int (increment req) with
          | None => fail kInvalidArgument base_int
          | Some new_int => ok new_int expire
          end
      end.

(** [put(ctx, update, incr_response)]. *)
Definition put_incr (ctx : db_write_context) (update : update_request) (s : wrapper)
  : outcome (Z * incr_response * wrapper) :=
  let resp := IncrResponse (make_basic_response (ctx_decree ctx) default_response) 0 in
  with_cleanup
    (let* (err, s) := write_batch_put_ctx_i32 cfg ctx (upd_key update) (upd_value update)
                        (upd_expire_ts_seconds update) s in
     if negb (err =? kOk) then Ret (err, with_incr_error err resp, s)
     else
       let* (err, s) := write cfg (ctx_decree ctx) s in
       if negb (err =? kOk) then Ret (err, with_incr_error err resp, s)
       else
         match buf2int64 (upd_value update) with
         | None => Abort
         | Some v => Ret (kOk, IncrResponse (with_error err (ir_base resp)) v, s)
         end).

(** ** check_and_set *)

Definition with_check_error (e : Z) (r : check_response) : check_response :=
  CheckResponse (with_error e (cr_base r)) (check_value_returned r) (check_value_exist r) (check_value r).

(** The check value: whether it exists, and its user data. *)
Definition read_check_value (g : db_get_context) : outcome (bool * blob) :=
  let value_exist := negb (expired g) && found g in
  if value_exist then
    let* v := pegasus_extract_user_data (data_version cfg) (raw_value g) in Ret (true, v)
  else Ret (false, []).

(** [if (update.return_check_value)] of the direct forms. *)
Definition set_check_value (return_check_value value_exist : bool) (v : blob) (r : check_response)
  : check_response :=
  if return_check_value then
    if value_exist then CheckResponse (cr_base r) true true v
    else CheckResponse (cr_base r) true (check_value_exist r) (check_value r)
  else r.

(** The end of both direct forms: write, then report a failed check. *)
Definition check_finish (decree err : Z) (passed invalid_argument : bool) (resp : check_response)
  (s : wrapper) : outcome (Z * check_response * wrapper) :=
  with_cleanup
    (if negb (err =? 0) then Ret (err, with_check_error err resp, s)
     else
       let* (err, s) := write cfg decree s in
       if negb (err =? 0) then Ret (err, with_check_error err resp, s)
       else if passed then Ret (kOk, with_check_error err resp, s)
       else Ret (kOk, with_check_error (if invalid_argument then kInvalidArgument else kTryAgain) resp, s)).

Definition check_and_set (decree : Z) (update : check_and_set_request) (s : wrapper)
  : outcome (Z * check_response * wrapper) :=
  let resp := CheckResponse (make_basic_response decree default_response) false false [] in
  if negb (is_check_type_supported (cas_check_type update)) then
    let* (err, s) := empty_put decree s in Ret (err, with_check_error kInvalidArgument resp, s)
  else
    let* check_key := pegasus_generate_key (cas_hash_key update) (cas_check_sort_key update) in
    let* (err, g) := get cfg check_key s in
    if negb (err =? kOk) then Ret (err, with_check_error err resp, s)
    else
      let* (value_exist, v) := read_check_value g in
      let resp := set_check_value (cas_return_check_value update) value_exist v resp in
      let* (passed, invalid_argument) :=
        validate_check (cas_check_type update) (cas_check_operand update) value_exist v in
      let* (err, s) :=
        if passed : bool then
          let* set_key := if cas_set_diff_sort_key update
                          then pegasus_generate_key (cas_hash_key update) (cas_set_sort_key update)
                          else Ret check_key in
          write_batch_put cfg decree set_key (cas_set_value update) (u32 (cas_set_expire_ts_seconds update)) s
        else write_batch_put cfg decree [] [] 0 s in
      check_finish decree err passed invalid_argument resp s.

(** [make_error_response] after [make_check_value] for a failed check. *)
Definition check_failed (return_check_value value_exist : bool) (v : blob) (invalid_argument : bool)
  : outcome (Z * check_response) :=
  let err := if invalid_argument then kInvalidArgument else kTryAgain in
  let r := make_check_value return_check_value value_exist v empty_check_response in
  let* b := make_error_response err (cr_base r) in
  Ret (err, CheckResponse b (check_value_returned r) (check_value_exist r) (check_value r)).

Definition check_error (err : Z) : outcome (Z * check_response) :=
  let* b := make_error_response err default_response in Ret (err, CheckResponse b false false []).

Definition make_idempotent_check_and_set (req : check_and_set_request) (s : wrapper)
  : outcome (Z * check_response * update_request) :=
  if negb (is_check_type_supported (cas_check_type req)) then
    let* r := check_error kInvalidArgument in Ret (r, empty_update)
  else
    let* check_key := pegasus_generate_key (cas_hash_key req) (cas_check_sort_key req) in
    let* (err, g) := get cfg check_key s in
    if negb (err =? kOk) then let* r := check_error err in Ret (r, empty_update)
    else
      let* (value_exist, v) := read_check_value g in
      let* (passed, invalid_argument) :=
        validate_check (cas_check_type req) (cas_check_operand req) value_exist v in
      if negb passed then
        let* r := check_failed (cas_return_check_value req) value_exist v invalid_argument in
        Ret (r, empty_update)
      else
        let* set_key := if cas_set_diff_sort_key req
                        then pegasus_generate_key (cas_hash_key req) (cas_set_sort_key req)
                        else Ret check_key in
        let u := make_check_value_update (cas_return_check_value req) value_exist v empty_update in
        Ret (kOk, empty_check_response,
             make_idempotent_request_for_check_and_set set_key (cas_set_value req)
               (cas_set_expire_ts_seconds req) u).

(** [put(ctx, update, check_and_set_response)]. *)
Definition put_check_and_set (ctx : db_write_context) (update : update_request) (s : wrapper)
  : outcome (Z * check_response * wrapper) :=
  let resp := CheckResponse (make_basic_response (ctx_decree ctx) default_response) false false [] in
  let resp := copy_check_value update resp in
  with_cleanup
    (let* (err, s) := write_batch_put_ctx_i32 cfg ctx (upd_key update) (upd_value update)
                        (upd_expire_ts_seconds update) s in
     if negb (err =? kOk) then Ret (err, with_check_error err resp, s)
     else
       let* (err, s) := write cfg (ctx_decree ctx) s in
       Ret (err, with_check_error err resp, s)).

(** ** check_and_mutate *)

Definition mutate_operation_valid (mu : mutate) : bool :=
  (mu_operation mu =? MO_PUT) || (mu_operation mu =? MO_DELETE).

(** The loop of the direct form over [mutate_list]; it stops at a failure. *)
Fixpoint mutate_loop (decree : Z) (hash_key : blob) (l : list mutate) (s : wrapper) : outcome (Z * wrapper) :=
  match l with
  | [] => Ret (kOk, s)
  | m :: rest =>
      let* key := pegasus_generate_key hash_key (mu_sort_key m) in
      let* (err, s) :=
        if mu_operation m =? MO_PUT then
          write_batch_put cfg decree key (mu_value m) (u32 (mu_set_expire_ts_seconds m)) s
        else CHECK (mu_operation m =? MO_DELETE) (write_batch_delete cfg decree key s) in
      if negb (err =? 0) then Ret (err, s) else mutate_loop decree hash_key rest s
  end.

Definition check_and_mutate (decree : Z) (update : check_and_mutate_request) (s : wrapper)
  : outcome (Z * check_response * wrapper) :=
  let resp := CheckResponse (make_basic_response decree default_response) false false [] in
  let invalid := let* (err, s) := empty_put decree s in Ret (err, with_check_error kInvalidArgument resp, s) in
  match cam_mutate_list update with
  | [] => invalid
  | _ =>
      if negb (forallb mutate_operation_valid (cam_mutate_list update)) then invalid
      else if negb (is_check_type_supported (cam_check_type update)) then invalid
      else
        let* check_key := pegasus_generate_key (cam_hash_key update) (cam_check_sort_key update) in
        let* (err, g) := get cfg check_key s in
        if negb (err =? kOk) then Ret (err, with_check_error err resp, s)
        else
          let* (value_exist, v) := read_check_value g in
          let resp := set_check_value (cam_return_check_value update) value_exist v resp in
          let* (passed, invalid_argument) :=
            validate_check (cam_check_type update) (cam_check_operand update) value_exist v in
          let* (err, s) :=
            if passed : bool then mutate_loop decree (cam_hash_key update) (cam_mutate_list update) s
            else write_batch_put cfg decree [] [] 0 s in
          check_finish decree err passed invalid_argument resp s
  end.

(** The requests generated from [mutate_list]. *)
Fixpoint make_updates (hash_key : blob) (l : list mutate) : outcome (list update_request) :=
  match l with
  | [] => Ret []
  | mu :: rest =>
      let* set_key := pegasus_generate_key hash_key (mu_sort_key mu) in
      let* u :=
        if mu_operation mu =? MO_PUT then
          Ret (make_idempotent_request_for_check_and_mutate_put set_key (mu_value mu)
                 (mu_set_expire_ts_seconds mu) empty_update)
        else if mu_operation mu =? MO_DELETE then
          Ret (make_idempotent_request_for_check_and_mutate_remove set_key empty_update)
        else Abort in
      let* us := make_updates hash_key rest in
      Ret (u :: us)
  end.

Definition make_idempotent_check_and_mutate (req : check_and_mutate_request) (s : wrapper)
  : outcome (Z * check_response * list update_request) :=
  let fail err := let* r := check_error err in Ret (r, []) in
  match cam_mutate_list req with
  | [] => fail kInvalidArgument
  | _ =>
      if negb (forallb mutate_operation_valid (cam_mutate_list req)) then fail kInvalidArgument
      else if negb (is_check_type_supported (cam_check_type req)) then fail kInvalidArgument
      else
        let* check_key := pegasus_generate_key (cam_hash_key req) (cam_check_sort_key req) in
        let* (err, g) := get cfg check_key s in
        if negb (err =? kOk) then fail err
        else
          let* (value_exist, v) := read_check_value g in
          let* (passed, invalid_argument) :=
            validate_check (cam_check_type req) (cam_check_operand req) value_exist v in
          if negb passed then
            let* r := check_failed (cam_return_check_value req) value_exist v invalid_argument in Ret (r, [])
          else
            let* us := make_updates (cam_hash_key req) (cam_mutate_list req) in
            match us with
            | [] => Undef
            | u :: us => Ret (kOk, empty_check_response,
                              make_check_value_update (cam_return_check_value req) value_exist v u :: us)
            end
  end.

Fixpoint put_updates (ctx : db_write_context) (updates : list update_request) (s : wrapper)
  : outcome (Z * wrapper) :=
  match updates with
  | [] => Ret (kOk, s)
  | u :: rest =>
      let* (err, s) :=
        match upd_type u with
        | Some UT_CHECK_AND_MUTATE_PUT =>
            write_batch_put_ctx_i32 cfg ctx (upd_key u) (upd_value u) (upd_expire_ts_seconds u) s
        | Some UT_CHECK_AND_MUTATE_REMOVE => write_batch_delete cfg (ctx_decree ctx) (upd_key u) s
        | _ => Abort
        end in
      if negb (err =? kOk) then Ret (err, s) else put_updates ctx rest s
  end.

(** [put(ctx, updates, check_and_mutate_response)]. *)
Definition put_check_and_mutate (ctx : db_write_context) (updates : list update_request) (s : wrapper)
  : outcome (Z * check_response * wrapper) :=
  match updates with
  | [] => Abort
  | u :: _ =>
      let resp := CheckResponse (make_basic_response (ctx_decree ctx) default_response) false false [] in
      let resp := copy_check_value u resp in
      with_cleanup
        (let* (err, s) := put_updates ctx updates s in
         if negb (err =? kOk) then Ret (err, with_check_error err resp, s)
         else
           let* (err, s) := write cfg (ctx_decree ctx) s in
           Ret (err, with_check_error err resp, s))
  end.

(** ** Batched writes *)

(** The service during a batch: the responses of the batched RPCs are objects
    that [_update_responses] points to. *)
Record batch_state := BatchState {
  bs_wrapper : wrapper;
  update_responses : list nat;
  resps : gmap nat response
}.

Definition set_response_error (id : nat) (err : Z) (m : gmap nat response) : gmap nat response :=
  <[id := with_error err (default default_response (m !! id))]> m.

Definition batch_put (ctx : db_write_context) (update : update_request) (id : nat) (st : batch_state)
  : outcome (Z * batch_state) :=
  let* (err, w) := write_batch_put_ctx_i32 cfg ctx (upd_key update) (upd_value update)
                     (upd_expire_ts_seconds update) (bs_wrapper st) in
  Ret (err, BatchState w (update_responses st ++ [id]) (set_response_error id err (resps st))).

Definition batch_remove (decree : Z) (key : blob) (id : nat) (st : batch_state) : outcome (Z * batch_state) :=
  let* (err, w) := write_batch_delete cfg decree key (bs_wrapper st) in
  Ret (err, BatchState w (update_responses st ++ [id]) (set_response_error id err (resps st))).

Definition clear_up_batch_states (decree err : Z) (st : batch_state) : batch_state :=
  let resp := with_error err (make_basic_response decree default_response) in
  BatchState (clear_up_write_batch (bs_wrapper st)) []
    (fold_left (fun m id => <[id := resp]> m) (update_responses st) (resps st)).

Definition batch_commit (decree : Z) (st : batch_state) : outcome (Z * batch_state) :=
  let* (err, w) := write cfg decree (bs_wrapper st) in
  Ret (err, clear_up_batch_states decree err (BatchState w (update_responses st) (resps st))).

Definition batch_abort (decree err : Z) (st : batch_state) : outcome batch_state :=
  CHECK (negb (err =? 0)) (Ret (clear_up_batch_states decree err st)).

(** A request of a batch: the hashes of its header, and its body as far as it
    can be decoded. *)
Inductive batch_request :=
| BatchedPut (hash thread_hash : Z) (update : update_request)
| BatchedRemove (hash thread_hash : Z) (key : blob)
| BatchedCorrupt          (* the thrift decoder throws *)
| BatchedOther.           (* neither RPC_RRDB_RRDB_PUT nor RPC_RRDB_RRDB_REMOVE *)

Definition thread_hash_of (p : Mutation.gpid) : Z :=
  i32 (Mutation.app_id p * 7919 + Mutation.partition_index p).

Definition request_key_check (hash thread_hash : Z) (key : blob) : outcome unit :=
  if negb (hash =? 0) then
    let* h := pegasus_key_hash key in
    CHECK (hash =? h) (CHECK (thread_hash =? thread_hash_of (server_gpid cfg)) (Ret tt))
  else Ret tt.

(** One turn of the loop: its error, and how many RPCs it batched. *)
Definition on_single_in_batch (ctx : db_write_context) (r : batch_request) (id : nat) (st : batch_state)
  : outcome (Z * nat * batch_state) :=
  match r with
  | BatchedPut h t u =>
      let* (err, st) := batch_put ctx u id st in
      let* _ := request_key_check h t (upd_key u) in Ret (err, 1%nat, st)
  | BatchedRemove h t k =>
      let* (err, st) := batch_remove (ctx_decree ctx) k id st in
      let* _ := request_key_check h t k in Ret (err, 1%nat, st)
  | BatchedCorrupt => Ret (kOk, 0%nat, st)
  | BatchedOther => Abort
  end.

Fixpoint batched_loop (ctx : db_write_context) (rs : list batch_request) (id : nat) (err : Z) (n : nat)
  (st : batch_state) : outcome (Z * nat * batch_state) :=
  match rs with
  | [] => Ret (err, n, st)
  | r :: rest =>
      let* (local_err, k, st) := on_single_in_batch ctx r id st in
      let err := if (err =? kOk) && negb (local_err =? kOk) then local_err else err in
      batched_loop ctx rest (S id) err (n + k)%nat st
  end.

Definition on_batched_writes (ctx : db_write_context) (rs : list batch_request) (st : batch_state)
  : outcome (Z * batch_state) :=
  let* (err, n, st) := batched_loop ctx rs 0 kOk 0 st in
  if negb (err =? kOk) || (n =? 0)%nat then
    let* st := batch_abort (ctx_decree ctx) (if err =? kOk then -1 else err) st in Ret (err, st)
  else batch_commit (ctx_decree ctx) st.

End Service.

(** ** The meaning of the checks *)

Lemma blob_starts_with_spec a b : blob_starts_with a b = true <-> exists t, a = b ++ t.
Proof.
  unfold blob_starts_with. rewrite bool_decide_eq_true. split.
  - intros E. exists (drop (length b) a). rewrite <- E at 1. by rewrite take_drop.
  - intros (t & ->). by rewrite take_app_length.
Qed.

Lemma blob_ends_with_spec a b : blob_ends_with a b = true <-> exists t, a = t ++ b.
Proof.
  unfold blob_ends_with. rewrite andb_true_iff, bool_decide_eq_true, Nat.leb_le. split.
  - intros [Hl E]. exists (take (length a - length b) a). rewrite <- E at 2. by rewrite take_drop.
  - intros (t & ->). rewrite length_app. split; [lia|].
    replace (length t + length b - length b)%nat with (length t) by lia. by rewrite drop_app_length.
Qed.

Lemma blob_contains_spec a b : blob_contains a b = true <-> exists l r, a = l ++ b ++ r.
Proof.
  induction a as [|x a IH]; cbn [blob_contains]; rewrite orb_true_iff, blob_starts_with_spec.
  - split; [intros [(t & E)|]; [|done]|].
    + exists [], t. done.
    + intros (l & r & E). left. destruct l; [|done]. by exists r.
  - rewrite IH. split.
    + intros [(t & E)|(l & r & ->)]; [by exists [], t|by exists (x :: l), r].
    + intros ([|y l] & r & E); [left; by exists r|right]. injection E as -> ->. by exists l, r.
Qed.

(** What each check type asks of the value, if there is one. *)
Definition check_meaning (check_type : Z) (operand : blob) (value : option blob) : Prop :=
  let on_value P := match value with Some v => P v | None => False end in
  let on_int P := on_value (fun v => match buf2int64 v, buf2int64 operand with
                                    | Some a, Some b => P a b
                                    | _, _ => False
                                    end) in
  match check_type with
  | 0 => True
  | 1 => value = None
  | 2 => value = None \/ value = Some []
  | 3 => value <> None
  | 4 => on_value (fun v => v <> [])
  | 5 => on_value (fun v => exists l r, v = l ++ operand ++ r)
  | 6 => on_value (fun v => exists t, v = operand ++ t)
  | 7 => on_value (fun v => exists t, v = t ++ operand)
  | 8 => on_value (fun v => key_ltb v operand = true)
  | 9 => on_value (fun v => key_leb v operand = true)
  | 10 => on_value (fun v => v = operand)
  | 11 => on_value (fun v => key_leb operand v = true)
  | 12 => on_value (fun v => key_ltb operand v = true)
  | 13 => on_int (fun a b => a < b)
  | 14 => on_int (fun a b => a <= b)
  | 15 => on_int (fun a b => a = b)
  | 16 => on_int (fun a b => a >= b)
  | 17 => on_int (fun a b => a > b)
  | _ => False
  end.

(** An integer check on a value that exists, where an operand is not a number. *)
Definition check_invalid (check_type : Z) (operand : blob) (value : option blob) : Prop :=
  13 <= check_type <= 17 /\
  match value with
  | Some v => buf2int64 v = None \/ buf2int64 operand = None
  | None => False
  end.

Definition value_of (value_exist : bool) (v : blob) : option blob := if value_exist then Some v else None.

Lemma blob_compare_cases a b :
  (blob_compare a b = -1 /\ key_ltb a b = true /\ key_ltb b a = false) \/
  (blob_compare a b = 0 /\ a = b) \/
  (blob_compare a b = 1 /\ key_ltb b a = true /\ key_ltb a b = false).
Proof.
  unfold blob_compare. destruct (key_ltb a b) eqn:E1.
  - left. auto using key_ltb_asym.
  - destruct (key_ltb b a) eqn:E2; right; [right|left]; auto using key_ltb_total.
Qed.

(** The match checks, for types 5 to 7. *)
Lemma validate_match_spec ct operand v :
  5 <= ct <= 7 ->
  exists b, validate_check ct operand true v = Ret (b, false) /\ (b = true <-> check_meaning ct operand (Some v)).
Proof.
  intros Hct. assert (ct = 5 \/ ct = 6 \/ ct = 7) as H by lia.
  assert (forall P : Prop, (operand = [] -> P) -> (P -> (length operand <= length v)%nat) ->
    forall r, (r = true <-> P) ->
    exists b, (if bool_decide (operand = []) then Ret (true, false)
          else if (length v <? length operand)%nat then Ret (false, false) else Ret (r, false))
         = Ret (b, false) /\ (b = true <-> P)) as Hshape.
  { intros P Hnil Hlen r Hr. case_bool_decide; [exists true; tauto|].
    destruct (Nat.ltb_spec (length v) (length operand)); [|by exists r].
    exists false. split; [done|]. split; [done|]. intros Hp%Hlen. lia. }
  destruct H as [->|[->| ->]]; apply Hshape; cbn.
  - intros ->. by exists [], v.
  - intros (l & r & ->). rewrite !length_app. lia.
  - apply blob_contains_spec.
  - intros ->. by exists v.
  - intros (t & ->). rewrite length_app. lia.
  - apply blob_starts_with_spec.
  - intros ->. exists v. by rewrite app_nil_r.
  - intros (t & ->). rewrite length_app. lia.
  - apply blob_ends_with_spec.
Qed.

Lemma validate_bytes_spec ct operand v :
  8 <= ct <= 12 ->
  exists b, validate_check ct operand true v = Ret (b, false) /\ (b = true <-> check_meaning ct operand (Some v)).
Proof.
  intros Hct. assert (ct = 8 \/ ct = 9 \/ ct = 10 \/ ct = 11 \/ ct = 12) as H by lia.
  pose proof (key_ltb_irrefl operand) as Hirr. unfold check_meaning, key_leb.
  destruct H as [->|[->|[->|[->| ->]]]]; cbn [validate_check Z.eqb Z.leb Z.compare andb Pos.eqb negb];
    unfold validate_check; cbn;
    destruct (blob_compare_cases v operand) as [(-> & H1 & H2)|[(-> & ->)|(-> & H1 & H2)]]; cbn;
    rewrite ?H1, ?H2, ?Hirr; cbn; eexists; (split; [reflexivity|]); split; try done; intros ->; congruence.
Qed.

Lemma validate_int_spec ct operand v :
  13 <= ct <= 17 ->
  exists b i, validate_check ct operand true v = Ret (b, i) /\
    (b = true <-> check_meaning ct operand (Some v)) /\ (i = true <-> check_invalid ct operand (Some v)).
Proof.
  intros Hct. assert (ct = 13 \/ ct = 14 \/ ct = 15 \/ ct = 16 \/ ct = 17) as H by lia.
  unfold check_meaning, check_invalid.
  destruct H as [->|[->|[->|[->| ->]]]]; unfold validate_check; cbn;
    (destruct (buf2int64 v) as [a|];
      [|eexists _, _; split_and!; [reflexivity|done|split; [intros _; split; [lia|by left]|done]]]);
    (destruct (buf2int64 operand) as [b|];
      [|eexists _, _; split_and!; [reflexivity|done|split; [intros _; split; [lia|by right]|done]]]);
    destruct (Z.ltb_spec a b), (Z.gtb_spec a b); try lia; cbn;
    (eexists _, _; split_and!; [reflexivity|split; intros; try lia; done|]); split; try done;
    intros [_ [|]]; done.
Qed.

(** The checks on existence and emptiness, and every check on a missing value. *)
Lemma validate_simple_spec ct operand value_exist v :
  0 <= ct <= 4 \/ (5 <= ct <= 17 /\ value_exist = false) ->
  exists b, validate_check ct operand value_exist v = Ret (b, false) /\
    (b = true <-> check_meaning ct operand (value_of value_exist v)).
Proof.
  intros [Hct|[Hct ->]].
  - assert (ct = 0 \/ ct = 1 \/ ct = 2 \/ ct = 3 \/ ct = 4) as H by lia.
    destruct H as [->|[->|[->|[->| ->]]]], value_exist, v; cbn; eexists; (split; [reflexivity|]); cbn;
      naive_solver.
  - exists false.
    assert (ct = 5 \/ ct = 6 \/ ct = 7 \/ ct = 8 \/ ct = 9 \/ ct = 10 \/ ct = 11 \/ ct = 12 \/ ct = 13 \/
            ct = 14 \/ ct = 15 \/ ct = 16 \/ ct = 17) as H by lia.
    repeat (destruct H as [->|H]; [done|]). by subst ct.
Qed.

Lemma validate_unsupported ct operand value_exist v :
  is_check_type_supported ct = false -> validate_check ct operand value_exist v = Abort.
Proof.
  unfold is_check_type_supported, validate_check, CT_NO_CHECK, CT_VALUE_NOT_EXIST, CT_VALUE_NOT_EXIST_OR_EMPTY,
    CT_VALUE_EXIST, CT_VALUE_NOT_EMPTY, CT_VALUE_MATCH_ANYWHERE, CT_VALUE_MATCH_POSTFIX, CT_VALUE_BYTES_LESS,
    CT_VALUE_BYTES_GREATER, CT_VALUE_INT_LESS, CT_VALUE_INT_GREATER. intros H.
  assert (ct < 0 \/ 17 < ct) as Hct by lia. rewrite !(proj2 (Z.eqb_neq ct _)) by lia.
  destruct (Z.leb_spec 5 ct), (Z.leb_spec ct 7), (Z.leb_spec 8 ct), (Z.leb_spec ct 12),
    (Z.leb_spec 13 ct), (Z.leb_spec ct 17); try lia; done.
Qed.

(** C11. [validate_check] decides the meaning of every check type that
    [is_check_type_supported] lets through, says that an argument is invalid
    exactly for an integer check on something that is not a number, and aborts
    on every other type. *)
Theorem validate_check_correct ct operand value_exist v :
  if is_check_type_supported ct then
    exists b i, validate_check ct operand value_exist v = Ret (b, i) /\
      (b = true <-> check_meaning ct operand (value_of value_exist v)) /\
      (i = true <-> check_invalid ct operand (value_of value_exist v))
  else validate_check ct operand value_exist v = Abort.
Proof.
  destruct (is_check_type_supported ct) eqn:Hs; [|by apply validate_unsupported].
  assert (0 <= ct <= 17) as Hct.
  { unfold is_check_type_supported, CT_NO_CHECK, CT_VALUE_INT_GREATER in Hs. lia. }
  assert (forall b, ~ check_invalid ct operand (value_of value_exist v) ->
    validate_check ct operand value_exist v = Ret (b, false) /\
      (b = true <-> check_meaning ct operand (value_of value_exist v)) ->
    exists b i, validate_check ct operand value_exist v = Ret (b, i) /\
      (b = true <-> check_meaning ct operand (value_of value_exist v)) /\
      (i = true <-> check_invalid ct operand (value_of value_exist v))) as Hvalid.
  { intros b Hi [-> Hb]. exists b, false. split_and!; [done|done|]. by split. }
  destruct (decide (ct <= 4 \/ value_exist = false)) as [Hc|Hc].
  { destruct (validate_simple_spec ct operand value_exist v) as [b Hb].
    { destruct Hc; [left; lia|]. destruct (decide (ct <= 4)); [left; lia|right; split; [lia|done]]. }
    apply (Hvalid b); [|done]. intros [H1 H2]. destruct Hc as [| ->]; [lia|done]. }
  destruct value_exist; [|tauto]. cbn [value_of] in *. destruct (decide (ct <= 12)) as [H12|H12].
  - destruct (decide (ct <= 7)).
    + destruct (validate_match_spec ct operand v) as [b Hb]; [lia|]. apply (Hvalid b); [|done]. intros [? _]; lia.
    + destruct (validate_bytes_spec ct operand v) as [b Hb]; [lia|]. apply (Hvalid b); [|done]. intros [? _]; lia.
  - apply validate_int_spec. lia.
Qed.

(** ** Records in the engine *)

Section Theory.
Context {R : RocksDB} {L : RocksDBLaws} (cfg : config).

(** Outside tests no fault is injected, and the data version is 0 or 1. *)
Record normal : Prop := Normal {
  n_version : data_version cfg = 0 \/ data_version cfg = 1;
  n_cluster : 0 <= dup_cluster_id cfg < 256;
  n_inject : FLAGS_inject_write_error_for_test cfg = kOk;
  n_get : fail_db_get cfg = false;
  n_put : fail_db_write_batch_put cfg = false;
  n_delete : fail_db_write_batch_delete cfg = false;
  n_write : fail_db_write cfg = false
}.

(** A stored value that carries expiration [e] and user data [v]. *)
Definition holds (raw : blob) (e : Z) (v : blob) : Prop :=
  pegasus_extract_expire_ts (data_version cfg) raw = Ret e /\
  pegasus_extract_user_data (data_version cfg) raw = Ret v.

(** Every stored value has its header. *)
Definition store_ok (d : db) : Prop :=
  forall k raw, view d data_cf k = Some raw -> exists e v, 0 <= e < 2 ^ 32 /\ holds raw e v.

(** The live record of a key: present and not expired. *)
Definition live (d : db) (k : blob) (o : option (Z * blob)) : Prop :=
  match o with
  | Some (e, v) => exists raw, view d data_cf k = Some raw /\ holds raw e v /\
                    check_if_ts_expired (epoch_now cfg) e = false
  | None => view d data_cf k = None \/
            exists raw e v, view d data_cf k = Some raw /\ holds raw e v /\
              check_if_ts_expired (epoch_now cfg) e = true
  end.

Hypothesis Hn : normal.

Lemma holds_inj raw e v e' v' : holds raw e v -> holds raw e' v' -> e = e' /\ v = v'.
Proof. intros [H1 H2] [H3 H4]. split; congruence. Qed.

(** A successful [get] reads the live record. *)
Lemma get_live k s g :
  store_ok (w_db s) -> get cfg k s = Ret (kOk, g) ->
  (found g = true /\ expired g = false /\ exists v, holds (raw_value g) (expire_ts g) v /\
     0 <= expire_ts g < 2 ^ 32 /\ live (w_db s) k (Some (expire_ts g, v))) \/
  (negb (found g) || expired g = true /\ live (w_db s) k None).
Proof.
  intros Hs. unfold get. rewrite (n_get Hn). destruct (Get (w_db s) data_cf k) as [code raw] eqn:E.
  destruct (Z.eqb_spec code kOk) as [->|Hc].
  - apply Get_ok in E. destruct (Hs k raw E) as (e & v & He & Hh). destruct Hh as [Hh1 Hh2].
    rewrite Hh1. cbn [obind]. intros [= <-]. cbn [found expired raw_value expire_ts].
    destruct (check_if_ts_expired (epoch_now cfg) e) eqn:Ex.
    + right. split; [done|]. right. by exists raw, e, v.
    + left. split_and!; [done|done|]. exists v. split_and!; [by split|lia|lia|]. by exists raw.
  - destruct (Z.eqb_spec code kNotFound) as [->|Hc'].
    + apply Get_not_found in E. intros [= <-]. right. split; [done|by left].
    + intros (x & _ & [= -> _])%obind_Ret_inv. done.
Qed.

(** The expiration of a write fits 32 bits. *)
Lemma db_expire_ts_range ts s : 0 <= ts < 2 ^ 32 -> 0 <= db_expire_ts cfg ts s < 2 ^ 32.
Proof.
  intros. unfold db_expire_ts. destruct (_ && _); [auto with pegasus|lia].
Qed.

(** A put without timetag verification appends one record. *)
Lemma put_ctx_spec ctx k v e s code s' :
  verify_timetag ctx = false -> 0 <= remote_timetag ctx < 2 ^ 64 -> 0 <= e < 2 ^ 32 ->
  write_batch_put_ctx cfg ctx k v e s = Ret (code, s') ->
  if code =? kOk then exists raw, holds raw (db_expire_ts cfg e s) v /\
       s' = with_batch (write_batch s ++ [BatchPut data_cf k raw]) s
  else s' = s.
Proof.
  intros Hv Ht He. unfold write_batch_put_ctx. rewrite (n_put Hn), Hv. cbn [andb obind negb Z.eqb kOk].
  set (t := if is_duplicated_write ctx then _ else _).
  assert (0 <= t < 2 ^ 64) as Hr.
  { unfold t. destruct (is_duplicated_write ctx); [done|]. apply generate_timetag_range, Hn. }
  destruct (generate_value_facts (data_version cfg) (db_expire_ts cfg e s) t v (n_version Hn)
    (db_expire_ts_range e s He) Hr) as (sl & _ & -> & _ & _ & H1 & H2 & _). cbn [obind].
  unfold batch_append. destruct (Z.eqb_spec (batch_status (write_batch s) (BatchPut data_cf k (concat sl))) kOk) as [E|E].
  - intros [= <- <-]. rewrite E. cbn. exists (concat sl). split; [by split|done].
  - intros (x & _ & [= <- <-])%obind_Ret_inv. by rewrite (proj2 (Z.eqb_neq _ _) E).
Qed.

Lemma delete_spec d k s code s' :
  write_batch_delete cfg d k s = Ret (code, s') ->
  s' = if code =? kOk then with_batch (write_batch s ++ [BatchDelete data_cf k]) s else s.
Proof.
  unfold write_batch_delete, batch_append. rewrite (n_delete Hn).
  destruct (Z.eqb_spec (batch_status (write_batch s) (BatchDelete data_cf k)) kOk) as [E|E].
  - intros [= <- <-]. by rewrite E.
  - intros (x & _ & [= <- <-])%obind_Ret_inv. by rewrite (proj2 (Z.eqb_neq _ _) E).
Qed.

(** A successful [write] applies the batch and records the decree. *)
Lemma write_spec decree s s' :
  write cfg decree s = Ret (kOk, s') ->
  default_ttl s' = default_ttl s /\
  (forall k, view (w_db s') data_cf k = apply_batch (write_batch s) (view (w_db s)) data_cf k) /\
  view (w_db s') meta_cf LAST_FLUSHED_DECREE = Some (to_string decree).
Proof.
  unfold write. intros [_ E]%CHECK_Ret_inv. revert E. rewrite (n_inject Hn), (n_write Hn). cbn [negb Z.eqb kOk].
  destruct (Z.eqb_spec (batch_status (write_batch s)
    (BatchPut meta_cf LAST_FLUSHED_DECREE (to_string decree))) kOk) as [_|Hc]; cbn [negb].
  2:{ by intros [= E _]. }
  cbn [with_batch write_batch w_db default_ttl].
  destruct (Write (w_db s) _) as [code d] eqn:E. intros [= -> <-]. cbn [default_ttl w_db].
  pose proof (Write_ok _ _ _ E) as Hw. split_and!; [done| |].
  - intros k. rewrite Hw. unfold apply_batch. rewrite fold_left_app. cbn [fold_left apply_op].
    rewrite decide_False; [done|]. by intros [? _].
  - rewrite Hw. unfold apply_batch. rewrite fold_left_app. cbn [fold_left apply_op]. by rewrite decide_True.
Qed.

Lemma apply_batch_app a b m : apply_batch (a ++ b) m = apply_batch b (apply_batch a m).
Proof. unfold apply_batch. by rewrite fold_left_app. Qed.

(** A record written alone: the key holds it, the other keys are unchanged. *)
Definition stored_only (d d' : db) (k : blob) (e : Z) (v : blob) : Prop :=
  (exists raw, view d' data_cf k = Some raw /\ holds raw e v) /\
  forall k', k' <> k -> view d' data_cf k' = view d data_cf k'.

(** Put and write, from an empty batch. *)
Lemma put_write_spec ctx k v e s s1 s2 :
  verify_timetag ctx = false -> 0 <= remote_timetag ctx < 2 ^ 64 -> 0 <= e < 2 ^ 32 ->
  write_batch s = [] ->
  write_batch_put_ctx cfg ctx k v e s = Ret (kOk, s1) -> write cfg (ctx_decree ctx) s1 = Ret (kOk, s2) ->
  stored_only (w_db s) (w_db s2) k (db_expire_ts cfg e s) v /\
  view (w_db s2) meta_cf LAST_FLUSHED_DECREE = Some (to_string (ctx_decree ctx)).
Proof.
  intros Hv Ht He Hb E1 E2. pose proof (put_ctx_spec _ _ _ _ _ _ _ Hv Ht He E1) as H1. cbn in H1.
  destruct H1 as (raw & Hraw & ->). apply write_spec in E2 as (_ & Hw & Hd). split; [|done].
  cbn [write_batch with_batch w_db] in Hw. rewrite Hb in Hw. cbn in Hw. split.
  - exists raw. split; [|done]. rewrite Hw. unfold apply_op. by rewrite decide_True.
  - intros k' Hk'. rewrite Hw. unfold apply_op. rewrite decide_False; [done|]. by intros [_ ?].
Qed.

(** *** An engine without errors *)

(** The engine answers every read, accepts every batch and writes it. *)
Record healthy : Prop := Healthy {
  h_get : forall d c k, fst (Get d c k) = kOk \/ fst (Get d c k) = kNotFound;
  h_batch : forall b op, batch_status b op = kOk;
  h_write : forall d ops, fst (Write d ops) = kOk
}.

Lemma get_total k s : healthy -> store_ok (w_db s) -> exists g, get cfg k s = Ret (kOk, g).
Proof.
  intros Hh Hs. unfold get. rewrite (n_get Hn). pose proof (h_get Hh (w_db s) data_cf k) as Hc.
  destruct (Get (w_db s) data_cf k) as [code raw] eqn:E. cbn in Hc. destruct Hc as [-> | ->]; cbn [Z.eqb].
  - destruct (Hs k raw (Get_ok _ _ _ _ E)) as (e & v & _ & [-> _]). by eexists.
  - by eexists.
Qed.

Lemma put_total ctx k v e s :
  healthy -> verify_timetag ctx = false -> 0 <= remote_timetag ctx < 2 ^ 64 -> 0 <= e < 2 ^ 32 ->
  exists s', write_batch_put_ctx cfg ctx k v e s = Ret (kOk, s') /\ write_batch s' <> [].
Proof.
  intros Hh Hv Ht He. unfold write_batch_put_ctx. rewrite (n_put Hn), Hv. cbn [andb obind negb Z.eqb kOk].
  set (t := if is_duplicated_write ctx then _ else _).
  assert (0 <= t < 2 ^ 64) as Hr.
  { unfold t. destruct (is_duplicated_write ctx); [done|]. apply generate_timetag_range, Hn. }
  destruct (generate_value_facts (data_version cfg) (db_expire_ts cfg e s) t v (n_version Hn)
    (db_expire_ts_range e s He) Hr) as (sl & _ & -> & _). cbn [obind].
  unfold batch_append. rewrite (h_batch Hh). eexists. split; [done|]. by destruct (write_batch s).
Qed.

Lemma delete_total d k s :
  healthy -> exists s', write_batch_delete cfg d k s = Ret (kOk, s') /\ write_batch s' <> [].
Proof.
  intros Hh. unfold write_batch_delete, batch_append. rewrite (n_delete Hn), (h_batch Hh).
  eexists. split; [done|]. by destruct (write_batch s).
Qed.

Lemma write_total decree s :
  healthy -> write_batch s <> [] -> exists s', write cfg decree s = Ret (kOk, s').
Proof.
  intros Hh Hb. unfold write. rewrite (n_inject Hn), (n_write Hn), (h_batch Hh).
  destruct (write_batch s) as [|op b]; [done|]. cbn [length Nat.ltb Nat.leb CHECK negb Z.eqb kOk].
  destruct (Write _ _) as [code d] eqn:E. pose proof (h_write Hh (w_db (with_batch
    ((op :: b) ++ [BatchPut meta_cf LAST_FLUSHED_DECREE (to_string decree)]) s))
    ((op :: b) ++ [BatchPut meta_cf LAST_FLUSHED_DECREE (to_string decree)])) as Hw.
  cbn in E, Hw. rewrite E in Hw. cbn in Hw. subst code. by eexists.
Qed.

Lemma empty_put_total decree s : healthy -> exists s', empty_put cfg decree s = Ret (kOk, s').
Proof.
  intros Hh. unfold empty_put, with_cleanup, write_batch_put.
  destruct (put_total (empty_context decree) [] [] 0 s) as (s1 & -> & Hb); [done|done|cbn; lia|lia|].
  step. destruct (write_total decree s1) as [s2 ->]; [done..|]. by eexists.
Qed.

(** *** incr *)

(** The live record is unique. *)
Lemma live_inj d k o o' : live d k o -> live d k o' -> o = o'.
Proof.
  assert (forall e v, live d k None -> live d k (Some (e, v)) -> False) as Hno.
  { intros e v [Hn0|(raw & e' & v' & E & Hh & Hx)] (raw' & E' & Hh' & Hx'); [congruence|].
    rewrite E in E'. injection E' as <-. destruct (holds_inj _ _ _ _ _ Hh Hh') as [-> ->]. congruence. }
  destruct o as [[e v]|], o' as [[e' v']|]; intros H H'; [|by edestruct Hno..|done].
  destruct H as (raw & E & Hh & _), H' as (raw' & E' & Hh' & _).
  rewrite E in E'. injection E' as <-. by destruct (holds_inj _ _ _ _ _ Hh Hh') as [-> ->].
Qed.

(** What an increment of a live record gives: the new value, or the value
    reported when it is refused. *)
Definition incr_result (o : option (Z * blob)) (inc : Z) : Z + Z :=
  match o with
  | None | Some (_, []) => inl inc
  | Some (_, v) =>
      match buf2int64 v with
      | None => inr 0
      | Some b => if (INT64_MIN <=? b + inc) && (b + inc <=? INT64_MAX) then inl (b + inc) else inr b
      end
  end.

(** The expiration it gets: a positive one is set, 0 keeps the present one, a
    negative one removes it. *)
Definition incr_expire (o : option (Z * blob)) (ts : Z) : Z :=
  match o with
  | Some (e, _) => if ts =? 0 then e else if ts <? 0 then 0 else ts
  | None => if ts >? 0 then ts else 0
  end.

Record incr_ok (req : incr_request) : Prop := IncrOk {
  io_increment : INT64_MIN <= increment req <= INT64_MAX;
  io_expire : - 2 ^ 31 <= incr_expire_ts_seconds req < 2 ^ 31
}.

Lemma incr_expire_range d k o req :
  live d k o -> store_ok d -> incr_ok req -> 0 <= incr_expire o (incr_expire_ts_seconds req) < 2 ^ 32.
Proof.
  intros Hl Hs [_ Hts]. unfold incr_expire. destruct o as [[e v]|].
  - destruct Hl as (raw & E & Hh & _). destruct (Hs _ _ E) as (e' & v' & He & Hh').
    destruct (holds_inj _ _ _ _ _ Hh Hh') as [-> ->].
    destruct (Z.eqb_spec (incr_expire_ts_seconds req) 0), (Z.ltb_spec (incr_expire_ts_seconds req) 0); lia.
  - destruct (Z.gtb_spec (incr_expire_ts_seconds req) 0); lia.
Qed.

(** Writing the empty record only. *)
Definition untouched (d d' : db) : Prop := forall k, k <> [] -> view d' data_cf k = view d data_cf k.

Lemma empty_put_spec decree s s' :
  write_batch s = [] -> empty_put cfg decree s = Ret (kOk, s') ->
  untouched (w_db s) (w_db s') /\ write_batch s' = [] /\
  view (w_db s') meta_cf LAST_FLUSHED_DECREE = Some (to_string decree).
Proof.
  intros Hb. unfold empty_put, with_cleanup. intros ([c s2] & E & [= -> <-])%obind_Ret_inv.
  apply obind_Ret_inv in E as ([c1 s1] & E1 & E). destruct (Z.eqb_spec c1 kOk) as [->|Hc]; cbn [negb] in E.
  - destruct (put_write_spec (empty_context decree) [] [] 0 s s1 s2) as [[_ Hu] Hd]; [done|cbn; lia|lia|done..|].
    split_and!; [|done|done]. intros k Hk. by apply Hu.
  - by injection E as -> _.
Qed.

Lemma incr_write_spec decree key v e resp s r s' :
  0 <= e < 2 ^ 32 -> write_batch s = [] ->
  incr_write cfg decree key v e resp s = Ret (kOk, r, s') ->
  r_error (ir_base r) = kOk /\ new_value r = v /\ write_batch s' = [] /\
  stored_only (w_db s) (w_db s') key (db_expire_ts cfg e s) (to_string v) /\
  view (w_db s') meta_cf LAST_FLUSHED_DECREE = Some (to_string decree).
Proof.
  intros He Hb. unfold incr_write, with_cleanup. intros ([[c r1] s3] & E & [= -> -> <-])%obind_Ret_inv.
  apply obind_Ret_inv in E as ([c1 s1] & E1 & E). destruct (Z.eqb_spec c1 kOk) as [->|Hc]; cbn [negb] in E.
  - apply obind_Ret_inv in E as ([c2 s2] & E2 & [= -> <- <-]). cbn.
    destruct (put_write_spec (empty_context decree) key (to_string v) e s s1 s2) as [Hst Hd]; [done|cbn; lia|lia|done..|].
    split_and!; done.
  - by injection E as -> _ _.
Qed.

(** The addition of both forms. *)
Lemma incr_sum v0 e inc :
  v0 <> [] -> INT64_MIN <= inc <= INT64_MAX ->
  incr_result (Some (e, v0)) inc =
    match buf2int64 v0 with
    | None => inr 0
    | Some b => match safe_add_signed 64 b inc with Some v => inl v | None => inr b end
    end.
Proof.
  intros Hv Hi. unfold incr_result. destruct v0; [done|]. destruct (buf2int64 _) as [b0|] eqn:E; [|done].
  apply buf2signed_range in E. rewrite safe_add_signed_eq by done.
  unfold signed_min, signed_max, INT64_MIN, INT64_MAX in *. by destruct (_ && _).
Qed.

(** The direct form. *)
Lemma incr_spec decree req s resp s' o :
  store_ok (w_db s) -> write_batch s = [] -> incr_ok req -> live (w_db s) (incr_key req) o ->
  incr cfg decree req s = Ret (kOk, resp, s') ->
  write_batch s' = [] /\ view (w_db s') meta_cf LAST_FLUSHED_DECREE = Some (to_string decree) /\
  match incr_result o (increment req) with
  | inl v => r_error (ir_base resp) = kOk /\ new_value resp = v /\
      stored_only (w_db s) (w_db s') (incr_key req)
        (db_expire_ts cfg (incr_expire o (incr_expire_ts_seconds req)) s) (to_string v)
  | inr b => r_error (ir_base resp) = kInvalidArgument /\ new_value resp = b /\
      untouched (w_db s) (w_db s')
  end.
Proof.
  intros Hs Hb Hreq Hlive. pose proof (incr_expire_range _ _ _ _ Hlive Hs Hreq) as Hexp.
  unfold incr. intros ([err g] & Eg & E)%obind_Ret_inv.
  on_ok err E.
  assert (forall v r s1, incr_write cfg decree (incr_key req) v (incr_expire o (incr_expire_ts_seconds req))
    (IncrResponse (make_basic_response cfg decree default_response) 0) s = Ret (kOk, r, s1) ->
    incr_result o (increment req) = inl v ->
    write_batch s1 = [] /\ view (w_db s1) meta_cf LAST_FLUSHED_DECREE = Some (to_string decree) /\
    match incr_result o (increment req) with
    | inl v => r_error (ir_base r) = kOk /\ new_value r = v /\
        stored_only (w_db s) (w_db s1) (incr_key req)
          (db_expire_ts cfg (incr_expire o (incr_expire_ts_seconds req)) s) (to_string v)
    | inr b => r_error (ir_base r) = kInvalidArgument /\ new_value r = b /\ untouched (w_db s) (w_db s1)
    end) as Hw.
  { intros v r s1 Ew ->. destruct (incr_write_spec _ _ _ _ _ _ _ _ Hexp Hb Ew) as (?&?&?&?&?). done. }
  destruct (get_live _ _ _ Hs Eg) as [(Hf & Hx & v0 & Hh & Hr & Hl)|[Hmiss Hl]];
    pose proof (live_inj _ _ _ _ Hlive Hl) as ->.
  - rewrite Hf, Hx in E. cbn [negb] in E. rewrite (proj2 Hh) in E. cbn [obind] in E.
    destruct (Nat.eqb_spec (length v0) 0) as [Hz|Hz].
    { apply nil_length_inv in Hz as ->. by apply (Hw (increment req)). }
    assert (v0 <> []) as Hv by (by destruct v0). pose proof (incr_sum v0 (expire_ts g) _ Hv (io_increment _ Hreq)) as Hsum.
    destruct (buf2int64 v0) as [b|].
    + destruct (safe_add_signed 64 b (increment req)) as [v|]; [by apply (Hw v)|].
      apply obind_Ret_inv in E as ([c s1] & E1 & [= -> <- <-]).
      apply empty_put_spec in E1 as (?&?&?); [|done]. rewrite Hsum. done.
    + apply obind_Ret_inv in E as ([c s1] & E1 & [= -> <- <-]).
      apply empty_put_spec in E1 as (?&?&?); [|done]. rewrite Hsum. done.
  - destruct (found g), (expired g); cbn in Hmiss, E; try done; by apply (Hw (increment req)).
Qed.

(** The idempotent translation computes the same. *)
Lemma make_idempotent_incr_spec req s o g e1 r1 u :
  store_ok (w_db s) -> incr_ok req -> live (w_db s) (incr_key req) o ->
  get cfg (incr_key req) s = Ret (kOk, g) -> make_idempotent_incr cfg req s = Ret (e1, r1, u) ->
  match incr_result o (increment req) with
  | inl v => e1 = kOk /\ INT64_MIN <= v <= INT64_MAX /\ upd_key u = incr_key req /\ upd_value u = to_string v /\
      u32 (upd_expire_ts_seconds u) = incr_expire o (incr_expire_ts_seconds req)
  | inr b => e1 = kInvalidArgument /\ r_error (ir_base r1) = kInvalidArgument /\ new_value r1 = b
  end.
Proof.
  intros Hs Hreq Hlive Eg. pose proof (incr_expire_range _ _ _ _ Hlive Hs Hreq) as Hexp.
  pose proof (io_expire _ Hreq). unfold make_idempotent_incr. rewrite Eg. cbn [obind negb Z.eqb].
  change (kOk =? kOk) with true. cbn [negb].
  destruct (get_live _ _ _ Hs Eg) as [(Hf & Hx & v0 & Hh & Hr & Hl)|[Hmiss Hl]];
    pose proof (live_inj _ _ _ _ Hlive Hl) as ->.
  - rewrite Hf, Hx. cbn [negb orb]. rewrite (proj2 Hh). cbn [obind].
    assert (u32 (calc_expire_on_existing (incr_expire_ts_seconds req) g)
            = incr_expire (Some (expire_ts g, v0)) (incr_expire_ts_seconds req)) as Hts.
    { unfold calc_expire_on_existing, incr_expire in *. destruct (Z.eqb_spec (incr_expire_ts_seconds req) 0);
        [by apply u32_i32|]. destruct (Z.ltb_spec (incr_expire_ts_seconds req) 0); [done|].
      apply uwrap_small. lia. }
    case_bool_decide as Hv.
    { subst v0. intros [= <- <- <-]. cbn. split_and!; try done; apply (io_increment _ Hreq). }
    rewrite (incr_sum v0 (expire_ts g) _ Hv (io_increment _ Hreq)).
    destruct (buf2int64 v0) as [b|] eqn:Eb.
    + apply buf2signed_range in Eb. rewrite safe_add_signed_eq by (done || apply (io_increment _ Hreq)).
      destruct (Z.leb_spec (signed_min 64) (b + increment req)), (Z.leb_spec (b + increment req) (signed_max 64));
        cbn [andb]; intros [= <- <- <-]; done.
    + by intros [= <- <- <-].
  - rewrite Hmiss. intros [= <- <- <-]. cbn. split_and!; try done; [apply (io_increment _ Hreq)..|].
    unfold calc_expire_on_non_existent, incr_expire in *. apply uwrap_small.
    destruct (Z.gtb_spec (incr_expire_ts_seconds req) 0); lia.
Qed.

(** A context of a local write. *)
Definition local_ctx (ctx : db_write_context) : Prop := verify_timetag ctx = false /\ remote_timetag ctx = 0.

Lemma put_incr_spec ctx u s r s' v :
  local_ctx ctx -> write_batch s = [] -> INT64_MIN <= v <= INT64_MAX -> upd_value u = to_string v ->
  put_incr cfg ctx u s = Ret (kOk, r, s') ->
  r_error (ir_base r) = kOk /\ new_value r = v /\ write_batch s' = [] /\
  stored_only (w_db s) (w_db s') (upd_key u) (db_expire_ts cfg (u32 (upd_expire_ts_seconds u)) s) (to_string v) /\
  view (w_db s') meta_cf LAST_FLUSHED_DECREE = Some (to_string (ctx_decree ctx)).
Proof.
  intros [Hv Hr] Hb Hv64 Hu. unfold put_incr, with_cleanup. rewrite Hu.
  intros ([[c r1] s3] & E & [= -> -> <-])%obind_Ret_inv.
  apply obind_Ret_inv in E as ([c1 s1] & E1 & E). on_ok c1 E.
  apply obind_Ret_inv in E as ([c2 s2] & E2 & E). on_ok c2 E.
  unfold buf2int64 in E. rewrite buf2signed_to_string in E by (done || lia). injection E as <- <-. cbn.
  destruct (put_write_spec ctx (upd_key u) (to_string v) (u32 (upd_expire_ts_seconds u)) s s1 s2) as [Hst Hd];
    [done|lia|auto with pegasus|done..|]. split_and!; done.
Qed.

(** With an engine that does not fail, every step of both forms returns. *)
Lemma incr_write_total decree key v e resp s :
  healthy -> 0 <= e < 2 ^ 32 -> exists r s', incr_write cfg decree key v e resp s = Ret (kOk, r, s').
Proof.
  intros Hh He. unfold incr_write, with_cleanup, write_batch_put.
  destruct (put_total (empty_context decree) key (to_string v) e s) as (s1 & -> & Hb); [done|done|cbn; lia|lia|].
  step. destruct (write_total decree s1) as [s2 ->]; [done..|]. by do 2 eexists.
Qed.

Lemma incr_total decree req s o :
  healthy -> store_ok (w_db s) -> incr_ok req -> live (w_db s) (incr_key req) o ->
  exists resp s', incr cfg decree req s = Ret (kOk, resp, s').
Proof.
  intros Hh Hs Hreq Hlive. pose proof (incr_expire_range _ _ _ _ Hlive Hs Hreq) as Hexp.
  destruct (get_total (incr_key req) s Hh Hs) as [g Eg]. unfold incr. rewrite Eg. step.
  destruct (empty_put_total decree s Hh) as [s0 E0].
  destruct (get_live _ _ _ Hs Eg) as [(Hf & Hx & v0 & Hv0 & Hr & Hl)|[Hmiss Hl]];
    pose proof (live_inj _ _ _ _ Hlive Hl) as ->; cbn [incr_expire] in Hexp.
  - rewrite Hf, Hx. cbn [negb]. rewrite (proj2 Hv0). cbn [obind].
    destruct (length v0 =? 0)%nat; [by apply incr_write_total|].
    destruct (buf2int64 v0) as [b|]; [|rewrite E0; by do 2 eexists].
    destruct (safe_add_signed 64 b (increment req)); [by apply incr_write_total|rewrite E0; by do 2 eexists].
  - destruct (found g), (expired g); cbn in Hmiss |- *; try done; by apply incr_write_total.
Qed.

Lemma make_idempotent_incr_total req s :
  healthy -> store_ok (w_db s) -> exists e1 r1 u, make_idempotent_incr cfg req s = Ret (e1, r1, u).
Proof.
  intros Hh Hs. destruct (get_total (incr_key req) s Hh Hs) as [g Eg]. unfold make_idempotent_incr. rewrite Eg.
  step.
  destruct (get_live _ _ _ Hs Eg) as [(Hf & Hx & v0 & Hv0 & _)|[-> _]]; [|by do 3 eexists].
  rewrite Hf, Hx. cbn [negb orb]. rewrite (proj2 Hv0). cbn [obind].
  case_bool_decide; [by do 3 eexists|]. destruct (buf2int64 v0) as [b|]; [|by do 3 eexists].
  destruct (safe_add_signed 64 b (increment req)); by do 3 eexists.
Qed.

Lemma put_incr_total ctx u s v :
  healthy -> local_ctx ctx -> INT64_MIN <= v <= INT64_MAX -> upd_value u = to_string v ->
  exists r s', put_incr cfg ctx u s = Ret (kOk, r, s').
Proof.
  intros Hh [Hv Ht] Hv64 Hu. unfold put_incr, with_cleanup, write_batch_put_ctx_i32. rewrite Hu.
  destruct (put_total ctx (upd_key u) (to_string v) (u32 (upd_expire_ts_seconds u)) s) as (s1 & -> & Hb);
    [done|done|lia|auto with pegasus|].
  step. destruct (write_total (ctx_decree ctx) s1) as [s2 ->]; [done..|].
  step. unfold buf2int64. rewrite buf2signed_to_string by (done || lia). by do 2 eexists.
Qed.

(** C10. An increment done directly and one done through its idempotent translation
    agree: both add to the live value (to 0 when there is none or it is empty),
    store the decimal sum under the same key with the same expiration, and answer
    with it; both refuse a value that is not a number and a sum that does not fit
    64 bits, answer with the same error and value, and change no record.  Over an
    engine that reports no error every step of both forms returns. *)
Theorem incr_both_forms decree req s o :
  store_ok (w_db s) -> write_batch s = [] -> incr_ok req -> live (w_db s) (incr_key req) o ->
  let kept_record s' v := stored_only (w_db s) (w_db s') (incr_key req)
      (db_expire_ts cfg (incr_expire o (incr_expire_ts_seconds req)) s) (to_string v) in
  (forall resp s', incr cfg decree req s = Ret (kOk, resp, s') ->
     match incr_result o (increment req) with
     | inl v => r_error (ir_base resp) = kOk /\ new_value resp = v /\ kept_record s' v
     | inr b => r_error (ir_base resp) = kInvalidArgument /\ new_value resp = b /\ untouched (w_db s) (w_db s')
     end) /\
  (forall g e1 r1 u, get cfg (incr_key req) s = Ret (kOk, g) ->
     make_idempotent_incr cfg req s = Ret (e1, r1, u) ->
     match incr_result o (increment req) with
     | inl v => e1 = kOk /\ forall ctx resp s', local_ctx ctx -> put_incr cfg ctx u s = Ret (kOk, resp, s') ->
         r_error (ir_base resp) = kOk /\ new_value resp = v /\ kept_record s' v
     | inr b => e1 = kInvalidArgument /\ r_error (ir_base r1) = kInvalidArgument /\ new_value r1 = b
     end) /\
  (healthy ->
     (exists resp s', incr cfg decree req s = Ret (kOk, resp, s')) /\
     exists e1 r1 u, make_idempotent_incr cfg req s = Ret (e1, r1, u) /\
       (e1 = kOk -> forall ctx, local_ctx ctx -> exists resp s', put_incr cfg ctx u s = Ret (kOk, resp, s'))).
Proof.
  intros Hs Hb Hreq Hlive kept_record. split_and!.
  - intros resp s' E. destruct (incr_spec _ _ _ _ _ _ Hs Hb Hreq Hlive E) as (_ & _ & H). done.
  - intros g e1 r1 u Eg Em. pose proof (make_idempotent_incr_spec _ _ _ _ _ _ _ Hs Hreq Hlive Eg Em) as H.
    destruct (incr_result o (increment req)) as [v|b]; [|done]. destruct H as (-> & Hv & Hk & Hval & Hts).
    split; [done|]. intros ctx resp s' Hctx E.
    destruct (put_incr_spec _ _ _ _ _ _ Hctx Hb Hv Hval E) as (? & ? & _ & Hst & _).
    unfold kept_record. rewrite <- Hts, <- Hk. done.
  - intros Hh. split; [by eapply incr_total|].
    destruct (make_idempotent_incr_total req s Hh Hs) as (e1 & r1 & u & Em). exists e1, r1, u. split; [done|].
    intros -> ctx Hctx. destruct (get_total (incr_key req) s Hh Hs) as [g Eg].
    pose proof (make_idempotent_incr_spec _ _ _ _ _ _ _ Hs Hreq Hlive Eg Em) as H.
    destruct (incr_result o (increment req)) as [v|b]; [|by destruct H].
    destruct H as (_ & Hv & _ & Hval & _). by eapply put_incr_total.
Qed.

(** *** check_and_set and check_and_mutate *)

Definition live_exist (o : option (Z * blob)) : bool := match o with Some _ => true | None => false end.
Definition live_value (o : option (Z * blob)) : blob := match o with Some (_, v) => v | None => [] end.

(** What both operations answer: the error, and the checked value when the client
    asked for it and it exists. *)
Record check_answer (err : Z) (rcv : bool) (o : option (Z * blob)) (r : check_response) : Prop := CheckAnswer {
  ca_error : r_error (cr_base r) = err;
  ca_returned : check_value_returned r = rcv;
  ca_exist : check_value_exist r = rcv && live_exist o;
  ca_value : check_value r = if rcv then live_value o else []
}.

(** The error of a check with the given verdict. *)
Definition check_error_code (passed invalid : bool) : Z :=
  if passed then kOk else if invalid then kInvalidArgument else kTryAgain.

Lemma read_check_value_spec k s o g :
  store_ok (w_db s) -> live (w_db s) k o -> get cfg k s = Ret (kOk, g) ->
  read_check_value cfg g = Ret (live_exist o, live_value o).
Proof.
  intros Hs Hlive Eg. unfold read_check_value.
  destruct (get_live _ _ _ Hs Eg) as [(Hf & Hx & v & Hh & _ & Hl)|[Hmiss Hl]];
    pose proof (live_inj _ _ _ _ Hlive Hl) as ->.
  - rewrite Hf, Hx. cbn. by rewrite (proj2 Hh).
  - by destruct (found g), (expired g).
Qed.

Lemma check_finish_spec decree passed invalid rcv o b s r s' :
  check_finish cfg decree kOk passed invalid
    (set_check_value rcv (live_exist o) (live_value o) (CheckResponse b false false [])) s = Ret (kOk, r, s') ->
  check_answer (check_error_code passed invalid) rcv o r /\
  exists s1, write cfg decree s = Ret (kOk, s1) /\ s' = clear_up_write_batch s1.
Proof.
  unfold check_finish, with_cleanup. cbn [negb Z.eqb kOk].
  intros ([[c r1] s3] & E & [= -> -> <-])%obind_Ret_inv. apply obind_Ret_inv in E as ([c2 s2] & E2 & E).
  destruct (Z.eqb_spec c2 0) as [->|Hc]; cbn [negb] in E; [|by injection E as ? _ _].
  assert (r = with_check_error (check_error_code passed invalid)
    (set_check_value rcv (live_exist o) (live_value o) (CheckResponse b false false [])) /\ s3 = s2) as [-> ->].
  { by destruct passed; injection E as <- <-. }
  split; [|by exists s2]. destruct rcv, o as [[? ?]|]; done.
Qed.

Lemma check_finish_total decree passed invalid resp s :
  healthy -> write_batch s <> [] ->
  exists r s', check_finish cfg decree kOk passed invalid resp s = Ret (kOk, r, s').
Proof.
  intros Hh Hb. unfold check_finish, with_cleanup. cbn [negb Z.eqb kOk].
  destruct (write_total decree s) as [s2 ->]; [done..|]. step.
  destruct passed; by do 2 eexists.
Qed.

Lemma check_failed_spec rcv o invalid :
  exists r, check_failed cfg rcv (live_exist o) (live_value o) invalid = Ret (check_error_code false invalid, r) /\
    check_answer (check_error_code false invalid) rcv o r.
Proof.
  unfold check_failed, make_error_response. destruct invalid; eexists; (split; [reflexivity|]);
    destruct rcv, o as [[? ?]|]; done.
Qed.

(** The key a check_and_set writes. *)
Definition cas_set_key (req : check_and_set_request) (check_key : blob) : outcome blob :=
  if cas_set_diff_sort_key req then pegasus_generate_key (cas_hash_key req) (cas_set_sort_key req) else Ret check_key.

Section CheckAndSet.
Context (req : check_and_set_request) (s : wrapper) (o : option (Z * blob)) (check_key set_key : blob).
Context (passed invalid : bool).

(** The situation of a check_and_set on a supported check: the keys it uses, the
    live record it checks, and the verdict. *)
Record cas_case : Prop := CasCase {
  cc_store : store_ok (w_db s);
  cc_batch : write_batch s = [];
  cc_supported : is_check_type_supported (cas_check_type req) = true;
  cc_check_key : pegasus_generate_key (cas_hash_key req) (cas_check_sort_key req) = Ret check_key;
  cc_set_key : cas_set_key req check_key = Ret set_key;
  cc_live : live (w_db s) check_key o;
  cc_verdict : validate_check (cas_check_type req) (cas_check_operand req) (live_exist o) (live_value o)
                 = Ret (passed, invalid)
}.

(** The new record when the check passed, nothing but the empty record otherwise. *)
Definition cas_effect (s' : wrapper) : Prop :=
  if passed then stored_only (w_db s) (w_db s') set_key
                   (db_expire_ts cfg (u32 (cas_set_expire_ts_seconds req)) s) (cas_set_value req)
  else untouched (w_db s) (w_db s').

Hypothesis Hc : cas_case.

Lemma check_and_set_spec decree resp s' :
  check_and_set cfg decree req s = Ret (kOk, resp, s') ->
  check_answer (check_error_code passed invalid) (cas_return_check_value req) o resp /\ cas_effect s'.
Proof.
  destruct Hc as [Hs Hb Hsup Hck Hsk Hlive Hv]. unfold check_and_set. rewrite Hsup, Hck. cbn [negb obind].
  intros ([err g] & Eg & E)%obind_Ret_inv.
  on_ok err E.
  rewrite (read_check_value_spec _ _ _ _ Hs Hlive Eg) in E. cbn [obind] in E. rewrite Hv in E. cbn [obind] in E.
  apply obind_Ret_inv in E as ([c s1] & E1 & E). unfold cas_effect.
  assert (c = kOk) as ->.
  { unfold check_finish, with_cleanup in E. destruct (Z.eqb_spec c 0); [done|]. cbn in E. by injection E as ? _ _. }
  apply check_finish_spec in E as [Ha (s2 & E2 & ->)]. split; [done|].
  destruct passed.
  - unfold cas_set_key in Hsk. rewrite Hsk in E1. cbn [obind] in E1.
    apply (put_write_spec (empty_context decree) _ _ _ s s1 s2);
      [done|cbn; lia|auto with pegasus|done..].
  - destruct (put_write_spec (empty_context decree) [] [] 0 s s1 s2) as [[_ Hu] _]; [done|cbn; lia|lia|done..|].
    intros k Hk. by apply Hu.
Qed.

Lemma make_idempotent_check_and_set_spec g :
  get cfg check_key s = Ret (kOk, g) ->
  exists r u, make_idempotent_check_and_set cfg req s = Ret (check_error_code passed invalid, r, u) /\
    if passed then upd_key u = set_key /\ upd_value u = cas_set_value req /\
        upd_expire_ts_seconds u = cas_set_expire_ts_seconds req /\
        upd_check_value_returned u = cas_return_check_value req /\
        upd_check_value_exist u = cas_return_check_value req && live_exist o /\
        upd_check_value u = (if cas_return_check_value req then live_value o else [])
    else check_answer (check_error_code passed invalid) (cas_return_check_value req) o r.
Proof.
  destruct Hc as [Hs Hb Hsup Hck Hsk Hlive Hv]. intros Eg. unfold make_idempotent_check_and_set.
  rewrite Hsup, Hck. cbn [negb obind]. rewrite Eg. step.
  rewrite (read_check_value_spec _ _ _ _ Hs Hlive Eg). cbn [obind]. rewrite Hv. cbn [obind].
  destruct passed; cbn [negb].
  - unfold cas_set_key in Hsk. rewrite Hsk. cbn [obind]. do 2 eexists. split; [reflexivity|].
    cbn. by destruct (cas_return_check_value req), o as [[? ?]|].
  - destruct (check_failed_spec (cas_return_check_value req) o invalid) as (r & -> & Ha). by exists r, empty_update.
Qed.

Lemma put_check_and_set_spec ctx u r s' :
  local_ctx ctx -> put_check_and_set cfg ctx u s = Ret (kOk, r, s') ->
  stored_only (w_db s) (w_db s') (upd_key u) (db_expire_ts cfg (u32 (upd_expire_ts_seconds u)) s) (upd_value u) /\
  r_error (cr_base r) = kOk /\ check_value_returned r = upd_check_value_returned u /\
  check_value_exist r = upd_check_value_exist u /\ check_value r = upd_check_value u.
Proof.
  intros [Hv Hr]. unfold put_check_and_set, with_cleanup.
  intros ([[c r1] s3] & E & [= -> -> <-])%obind_Ret_inv.
  apply obind_Ret_inv in E as ([c1 s1] & E1 & E). on_ok c1 E.
  apply obind_Ret_inv in E as ([c2 s2] & E2 & [= -> <- <-]).
  destruct (put_write_spec ctx (upd_key u) (upd_value u) (u32 (upd_expire_ts_seconds u)) s s1 s2) as [Hst _];
    [done|lia|auto with pegasus|apply Hc|done..].
Qed.

Lemma check_and_set_total decree :
  healthy -> exists resp s', check_and_set cfg decree req s = Ret (kOk, resp, s').
Proof.
  intros Hh. destruct Hc as [Hs Hb Hsup Hck Hsk Hlive Hv]. unfold check_and_set. rewrite Hsup, Hck.
  cbn [negb obind]. destruct (get_total check_key s Hh Hs) as [g Eg]. rewrite Eg. step.
  rewrite (read_check_value_spec _ _ _ _ Hs Hlive Eg). cbn [obind]. rewrite Hv. cbn [obind].
  unfold cas_set_key in Hsk. rewrite Hsk. unfold write_batch_put. cbn [obind].
  destruct (put_total (empty_context decree) [] [] 0 s) as (s0 & E0 & Hb0); [done|done|cbn; lia|lia|].
  destruct (put_total (empty_context decree) set_key (cas_set_value req) (u32 (cas_set_expire_ts_seconds req)) s)
    as (s1 & E1 & Hb1); [done|done|cbn; lia|auto with pegasus|].
  destruct passed; [rewrite E1|rewrite E0]; by apply check_finish_total.
Qed.

Lemma put_check_and_set_total ctx u :
  healthy -> local_ctx ctx -> exists resp s', put_check_and_set cfg ctx u s = Ret (kOk, resp, s').
Proof.
  intros Hh [Hv Hr]. unfold put_check_and_set, with_cleanup, write_batch_put_ctx_i32.
  destruct (put_total ctx (upd_key u) (upd_value u) (u32 (upd_expire_ts_seconds u)) s) as (s1 & -> & Hb);
    [done|done|lia|auto with pegasus|].
  step. destruct (write_total (ctx_decree ctx) s1) as [s2 ->]; [done..|]. by do 2 eexists.
Qed.


End CheckAndSet.

Section CheckAndMutate.
Context (req : check_and_mutate_request) (s : wrapper) (o : option (Z * blob)) (check_key : blob).
Context (passed invalid : bool).

(** The batch entry a mutation stands for. *)
Definition mutation_op (m : mutate) (op : batch_op) : Prop :=
  exists key, pegasus_generate_key (cam_hash_key req) (mu_sort_key m) = Ret key /\
    ((mu_operation m = MO_PUT /\ exists raw, op = BatchPut data_cf key raw /\
        holds raw (db_expire_ts cfg (u32 (mu_set_expire_ts_seconds m)) s) (mu_value m)) \/
     (mu_operation m = MO_DELETE /\ op = BatchDelete data_cf key)).

Record cam_case : Prop := CamCase {
  mc_store : store_ok (w_db s);
  mc_batch : write_batch s = [];
  mc_nonempty : cam_mutate_list req <> [];
  mc_valid : forallb mutate_operation_valid (cam_mutate_list req) = true;
  mc_supported : is_check_type_supported (cam_check_type req) = true;
  mc_check_key : pegasus_generate_key (cam_hash_key req) (cam_check_sort_key req) = Ret check_key;
  mc_keys : Forall (fun m => exists key, pegasus_generate_key (cam_hash_key req) (mu_sort_key m) = Ret key)
              (cam_mutate_list req);
  mc_live : live (w_db s) check_key o;
  mc_verdict : validate_check (cam_check_type req) (cam_check_operand req) (live_exist o) (live_value o)
                 = Ret (passed, invalid)
}.

(** All mutations in order and nothing else when the check passed, nothing but
    the empty record otherwise. *)
Definition cam_effect (s' : wrapper) : Prop :=
  if passed then exists ops, Forall2 mutation_op (cam_mutate_list req) ops /\
       forall k, view (w_db s') data_cf k = apply_batch ops (view (w_db s)) data_cf k
  else untouched (w_db s) (w_db s').

(** The request a mutation is translated to. *)
Definition mutation_update (m : mutate) (u : update_request) : Prop :=
  pegasus_generate_key (cam_hash_key req) (mu_sort_key m) = Ret (upd_key u) /\
  ((mu_operation m = MO_PUT /\ upd_type u = Some UT_CHECK_AND_MUTATE_PUT /\ upd_value u = mu_value m /\
      upd_expire_ts_seconds u = mu_set_expire_ts_seconds m) \/
   (mu_operation m = MO_DELETE /\ upd_type u = Some UT_CHECK_AND_MUTATE_REMOVE)).

Lemma put_op ctx key v ts m b s' :
  verify_timetag ctx = false -> 0 <= remote_timetag ctx < 2 ^ 64 ->
  pegasus_generate_key (cam_hash_key req) (mu_sort_key m) = Ret key -> mu_operation m = MO_PUT ->
  mu_value m = v -> mu_set_expire_ts_seconds m = ts ->
  write_batch_put_ctx cfg ctx key v (u32 ts) (with_batch b s) = Ret (kOk, s') ->
  exists op, mutation_op m op /\ s' = with_batch (b ++ [op]) s.
Proof.
  intros Hv Ht Hk Hm <- <- E. pose proof (put_ctx_spec _ _ _ _ _ _ _ Hv Ht (uwrap_range 32 _ ltac:(lia)) E) as H.
  cbn in H. destruct H as (raw & Hraw & ->). eexists. split; [|reflexivity]. exists key. split; [done|].
  left. split; [done|]. by exists raw.
Qed.

Lemma delete_op d key m b s' :
  pegasus_generate_key (cam_hash_key req) (mu_sort_key m) = Ret key -> mu_operation m = MO_DELETE ->
  write_batch_delete cfg d key (with_batch b s) = Ret (kOk, s') ->
  exists op, mutation_op m op /\ s' = with_batch (b ++ [op]) s.
Proof.
  intros Hk Hm E. apply delete_spec in E as ->. eexists. split; [|reflexivity]. exists key. split; [done|].
  by right.
Qed.

(** Both loops append the entries of the mutations, in order. *)
Lemma mutate_loop_spec decree l b s' :
  mutate_loop cfg decree (cam_hash_key req) l (with_batch b s) = Ret (kOk, s') ->
  exists ops, Forall2 mutation_op l ops /\ s' = with_batch (b ++ ops) s.
Proof.
  revert b. induction l as [|m l IH]; intros b; cbn [mutate_loop].
  { intros [= <-]. exists []. by rewrite app_nil_r. }
  intros (key & Hk & ([c s1] & E1 & E)%obind_Ret_inv)%obind_Ret_inv.
  destruct (Z.eqb_spec c 0) as [->|Hne]; cbn [negb] in E; [|by injection E as ? _].
  assert (exists op, mutation_op m op /\ s1 = with_batch (b ++ [op]) s) as (op & Hop & ->).
  { destruct (Z.eqb_spec (mu_operation m) MO_PUT).
    - by eapply (put_op (empty_context decree)); [done|cbn; lia|done..].
    - apply CHECK_Ret_inv in E1 as [?%Z.eqb_eq E1]. by eapply delete_op. }
  apply IH in E as (ops & Hops & ->). exists (op :: ops). rewrite <- app_assoc. split; [by constructor|done].
Qed.

Lemma put_updates_spec ctx l us b s' :
  local_ctx ctx -> Forall2 mutation_update l us ->
  put_updates cfg ctx us (with_batch b s) = Ret (kOk, s') ->
  exists ops, Forall2 mutation_op l ops /\ s' = with_batch (b ++ ops) s.
Proof.
  intros [Hv Ht] Hl. revert b. induction Hl as [|m u l us Hm Hl IH]; intros b; cbn [put_updates].
  { intros [= <-]. exists []. by rewrite app_nil_r. }
  intros ([c s1] & E1 & E)%obind_Ret_inv.
  on_ok c E.
  assert (exists op, mutation_op m op /\ s1 = with_batch (b ++ [op]) s) as (op & Hop & ->).
  { destruct Hm as [Hk [(Hm & Hu & Hval & Hts)|[Hm Hu]]]; rewrite Hu in E1.
    - by eapply (put_op ctx); [done|lia|done..].
    - by eapply delete_op. }
  apply IH in E as (ops & Hops & ->). exists (op :: ops). rewrite <- app_assoc. split; [by constructor|done].
Qed.

Lemma make_updates_spec l :
  Forall (fun m => exists key, pegasus_generate_key (cam_hash_key req) (mu_sort_key m) = Ret key) l ->
  forallb mutate_operation_valid l = true ->
  exists us, make_updates (cam_hash_key req) l = Ret us /\ Forall2 mutation_update l us.
Proof.
  induction 1 as [|m l (key & Hk) _ IH]; cbn [make_updates forallb]; [by exists []|].
  intros [Hm Hl]%andb_true_iff. destruct (IH Hl) as (us & -> & Hus). rewrite Hk. cbn [obind].
  unfold mutate_operation_valid in Hm.
  destruct (Z.eqb_spec (mu_operation m) MO_PUT); cbn [obind].
  - eexists. split; [reflexivity|]. constructor; [|done]. split; [done|]. by left.
  - cbn [orb] in Hm. rewrite Hm. apply Z.eqb_eq in Hm. cbn [obind]. eexists. split; [reflexivity|].
    constructor; [|done]. split; [done|]. by right.
Qed.

Hypothesis Hc : cam_case.

Lemma with_own_batch : with_batch [] s = s.
Proof. destruct s as [d b t] eqn:E. pose proof (mc_batch Hc) as Hb. rewrite E in Hb. cbn in Hb. by rewrite Hb. Qed.

(** Writing the batch of the mutations. *)
Lemma write_mutations decree ops s2 :
  Forall2 mutation_op (cam_mutate_list req) ops -> write cfg decree (with_batch ops s) = Ret (kOk, s2) ->
  exists ops, Forall2 mutation_op (cam_mutate_list req) ops /\
    forall k, view (w_db s2) data_cf k = apply_batch ops (view (w_db s)) data_cf k.
Proof. intros Hops E. apply write_spec in E as (_ & Hw & _). by exists ops. Qed.

Lemma check_and_mutate_spec decree resp s' :
  check_and_mutate cfg decree req s = Ret (kOk, resp, s') ->
  check_answer (check_error_code passed invalid) (cam_return_check_value req) o resp /\ cam_effect s'.
Proof.
  destruct Hc as [Hs Hb Hne Hval Hsup Hck Hkeys Hlive Hv]. unfold check_and_mutate. rewrite Hval, Hsup, Hck.
  cbn [negb obind]. intros E.
  assert (exists err g, get cfg check_key s = Ret (err, g) /\ (err = kOk ->
    (let* (err, s) :=
       if passed then mutate_loop cfg decree (cam_hash_key req) (cam_mutate_list req) s
       else write_batch_put cfg decree [] [] 0 s in
     check_finish cfg decree err passed invalid
       (set_check_value (cam_return_check_value req) (live_exist o) (live_value o)
          (CheckResponse (make_basic_response cfg decree default_response) false false [])) s)
    = Ret (kOk, resp, s')) /\ err = kOk) as (err & g & Eg & E' & ->).
  { destruct (cam_mutate_list req) as [|m l] eqn:El; [done|].
    apply obind_Ret_inv in E as ([err g] & Eg & E). exists err, g. split; [done|].
    on_ok err E. split; [|done].
    intros _. rewrite (read_check_value_spec _ _ _ _ Hs Hlive Eg) in E. cbn [obind] in E.
    by rewrite Hv in E. }
  specialize (E' eq_refl). clear E. apply obind_Ret_inv in E' as ([c s1] & E1 & E). unfold cam_effect.
  assert (c = kOk) as ->.
  { unfold check_finish, with_cleanup in E. destruct (Z.eqb_spec c 0); [done|]. cbn in E. by injection E as ? _ _. }
  apply check_finish_spec in E as [Ha (s2 & E2 & ->)]. split; [done|]. destruct passed.
  - rewrite <- with_own_batch in E1. apply mutate_loop_spec in E1 as (ops & Hops & ->). by apply (write_mutations decree ops s2).
  - destruct (put_write_spec (empty_context decree) [] [] 0 s s1 s2) as [[_ Hu] _]; [done|cbn; lia|lia|done..|].
    intros k Hk. by apply Hu.
Qed.

Lemma make_idempotent_check_and_mutate_spec g :
  get cfg check_key s = Ret (kOk, g) ->
  exists r us, make_idempotent_check_and_mutate cfg req s = Ret (check_error_code passed invalid, r, us) /\
    if passed then Forall2 mutation_update (cam_mutate_list req) us /\
      exists u us', us = u :: us' /\ upd_check_value_returned u = cam_return_check_value req /\
        upd_check_value_exist u = cam_return_check_value req && live_exist o /\
        upd_check_value u = (if cam_return_check_value req then live_value o else [])
    else check_answer (check_error_code passed invalid) (cam_return_check_value req) o r.
Proof.
  destruct Hc as [Hs Hb Hne Hval Hsup Hck Hkeys Hlive Hv]. intros Eg.
  destruct (make_updates_spec _ Hkeys Hval) as (us & Eus & Hus).
  unfold make_idempotent_check_and_mutate. rewrite Hval, Hsup, Hck. cbn [negb obind]. rewrite Eg, Eus.
  step. rewrite (read_check_value_spec _ _ _ _ Hs Hlive Eg). cbn [obind]. rewrite Hv.
  destruct Hus as [|m u l us Hmu Hus]; [done|]. cbn [obind]. destruct passed; cbn [negb].
  - do 2 eexists. split; [reflexivity|]. split; [by constructor|]. do 2 eexists. split; [reflexivity|].
    cbn. assert (upd_check_value u = []) as ->; [|by destruct (cam_return_check_value req), o as [[? ?]|]].
    cbn [make_updates] in Eus. apply obind_Ret_inv in Eus as (key & _ & E).
    apply obind_Ret_inv in E as (u' & Eu & E). apply obind_Ret_inv in E as (? & _ & [= <- _]).
    repeat case_match; by simplify_eq.
  - destruct (check_failed_spec (cam_return_check_value req) o invalid) as (r & -> & Ha). by exists r, [].
Qed.

Lemma put_check_and_mutate_spec ctx u us r s' :
  local_ctx ctx -> Forall2 mutation_update (cam_mutate_list req) (u :: us) ->
  put_check_and_mutate cfg ctx (u :: us) s = Ret (kOk, r, s') ->
  (exists ops, Forall2 mutation_op (cam_mutate_list req) ops /\
    forall k, view (w_db s') data_cf k = apply_batch ops (view (w_db s)) data_cf k) /\
  r_error (cr_base r) = kOk /\ check_value_returned r = upd_check_value_returned u /\
  check_value_exist r = upd_check_value_exist u /\ check_value r = upd_check_value u.
Proof.
  intros Hctx Hus. unfold put_check_and_mutate, with_cleanup.
  intros ([[c r1] s3] & E & [= -> -> <-])%obind_Ret_inv.
  apply obind_Ret_inv in E as ([c1 s1] & E1 & E). on_ok c1 E.
  apply obind_Ret_inv in E as ([c2 s2] & E2 & [= -> <- <-]).
  rewrite <- with_own_batch in E1. apply (put_updates_spec _ _ _ _ _ Hctx Hus) in E1 as (ops & Hops & ->).
  split; [by apply (write_mutations (ctx_decree ctx) ops s2)|done].
Qed.

Lemma mutate_loop_total decree l b :
  healthy -> Forall (fun m => exists key, pegasus_generate_key (cam_hash_key req) (mu_sort_key m) = Ret key) l ->
  forallb mutate_operation_valid l = true ->
  exists s', mutate_loop cfg decree (cam_hash_key req) l (with_batch b s) = Ret (kOk, s').
Proof.
  intros Hh Hk. revert b. induction Hk as [|m l (key & Hk) _ IH]; intros b; cbn [mutate_loop forallb]; [by eexists|].
  intros [Hm Hl]%andb_true_iff. rewrite Hk. cbn [obind]. unfold mutate_operation_valid in Hm.
  destruct (Z.eqb_spec (mu_operation m) MO_PUT) as [Ho|Ho].
  - destruct (put_total (empty_context decree) key (mu_value m) (u32 (mu_set_expire_ts_seconds m)) (with_batch b s))
      as (s1 & E1 & _); [done|done|cbn; lia|auto with pegasus|].
    unfold write_batch_put. rewrite E1. step.
    destruct (put_op (empty_context decree) _ _ _ m b s1 eq_refl ltac:(cbn; lia) Hk Ho eq_refl eq_refl E1)
      as (op & _ & ->). by apply IH.
  - cbn [orb] in Hm. rewrite Hm. cbn [CHECK]. apply Z.eqb_eq in Hm.
    destruct (delete_total decree key (with_batch b s) Hh) as (s1 & E1 & _). rewrite E1. step.
    destruct (delete_op _ _ m b s1 Hk Hm E1) as (op & _ & ->). by apply IH.
Qed.

Lemma put_updates_total ctx l us b :
  healthy -> local_ctx ctx -> Forall2 mutation_update l us ->
  exists s', put_updates cfg ctx us (with_batch b s) = Ret (kOk, s').
Proof.
  intros Hh [Hv Ht] Hl. revert b. induction Hl as [|m u l us Hm Hl IH]; intros b; cbn [put_updates]; [by eexists|].
  destruct Hm as [Hk [(Hm & -> & Hval & Hts)|[Hm ->]]].
  - destruct (put_total ctx (upd_key u) (upd_value u) (u32 (upd_expire_ts_seconds u)) (with_batch b s))
      as (s1 & E1 & _); [done|done|lia|auto with pegasus|].
    unfold write_batch_put_ctx_i32. rewrite E1. step.
    destruct (put_op ctx (upd_key u) (upd_value u) (upd_expire_ts_seconds u) m b s1 Hv ltac:(lia) Hk Hm
      ltac:(done) ltac:(done) E1) as (op & _ & ->). by apply IH.
  - destruct (delete_total (ctx_decree ctx) (upd_key u) (with_batch b s) Hh) as (s1 & E1 & _). rewrite E1.
    step. destruct (delete_op _ _ m b s1 Hk Hm E1) as (op & _ & ->). by apply IH.
Qed.

Lemma ops_nonempty ops : Forall2 mutation_op (cam_mutate_list req) ops -> ops <> [].
Proof. pose proof (mc_nonempty Hc). by destruct 1. Qed.

Lemma check_and_mutate_total decree :
  healthy -> exists resp s', check_and_mutate cfg decree req s = Ret (kOk, resp, s').
Proof.
  intros Hh. destruct Hc as [Hs Hb Hne Hval Hsup Hck Hkeys Hlive Hv]. unfold check_and_mutate.
  destruct (get_total check_key s Hh Hs) as [g Eg]. rewrite Hval, Hsup, Hck. cbn [negb obind].
  rewrite Eg. step. rewrite (read_check_value_spec _ _ _ _ Hs Hlive Eg). cbn [obind].
  rewrite Hv. cbn [obind]. unfold write_batch_put.
  destruct (put_total (empty_context decree) [] [] 0 s) as (s0 & -> & Hb0); [done|done|cbn; lia|lia|].
  destruct (mutate_loop_total decree _ [] Hh Hkeys Hval) as [s1 E1].
  pose proof (mutate_loop_spec _ _ _ _ E1) as (ops & Hops%ops_nonempty & ->). rewrite with_own_batch in E1.
  rewrite E1. cbn [obind]. destruct (cam_mutate_list req); [done|].
  destruct passed; by apply check_finish_total.
Qed.

Lemma put_check_and_mutate_total ctx us :
  healthy -> local_ctx ctx -> Forall2 mutation_update (cam_mutate_list req) us ->
  exists resp s', put_check_and_mutate cfg ctx us s = Ret (kOk, resp, s').
Proof.
  intros Hh Hctx Hus. unfold put_check_and_mutate, with_cleanup.
  destruct us as [|u us]; [by pose proof (mc_nonempty Hc); inversion Hus|].
  destruct (put_updates_total ctx _ _ [] Hh Hctx Hus) as [s1 E1].
  pose proof (put_updates_spec _ _ _ _ _ Hctx Hus E1) as (ops & Hops%ops_nonempty & ->).
  rewrite with_own_batch in E1. rewrite E1. step.
  destruct (write_total (ctx_decree ctx) (with_batch ([] ++ ops) s)) as [s2 ->]; [done..|]. by do 2 eexists.
Qed.

(** C9. A check_and_mutate done directly and one done through its idempotent
    translation agree: they give the same verdict, error and returned check
    value; when the check passes both apply all the mutations in their order and
    change nothing else, and when it does not neither changes a record.  Over an
    engine that reports no error every step returns. *)
Theorem check_and_mutate_both_forms decree :
  let answer := check_answer (check_error_code passed invalid) (cam_return_check_value req) o in
  (forall resp s', check_and_mutate cfg decree req s = Ret (kOk, resp, s') -> answer resp /\ cam_effect s') /\
  (forall g, get cfg check_key s = Ret (kOk, g) ->
     exists r1 us, make_idempotent_check_and_mutate cfg req s = Ret (check_error_code passed invalid, r1, us) /\
       if passed then
         (forall ctx resp s', local_ctx ctx ->
            put_check_and_mutate cfg ctx us s = Ret (kOk, resp, s') -> answer resp /\ cam_effect s') /\
         (healthy -> forall ctx, local_ctx ctx ->
            exists resp s', put_check_and_mutate cfg ctx us s = Ret (kOk, resp, s'))
       else answer r1) /\
  (healthy ->
     (exists resp s', check_and_mutate cfg decree req s = Ret (kOk, resp, s')) /\
     exists g, get cfg check_key s = Ret (kOk, g)).
Proof.
  intros answer. split_and!.
  - apply check_and_mutate_spec.
  - intros g Eg. destruct (make_idempotent_check_and_mutate_spec g Eg) as (r & us & E & H). exists r, us.
    split; [done|]. unfold answer, cam_effect. destruct passed; [|done].
    destruct H as (Hus & u & us' & -> & H1 & H2 & H3). split.
    + intros ctx resp s' Hctx Ep.
      destruct (put_check_and_mutate_spec _ _ _ _ _ Hctx Hus Ep) as (Hst & ? & ? & ? & ?).
      split; [|done]. split; cbn; congruence.
    + intros Hh ctx Hctx. by apply put_check_and_mutate_total.
  - intros Hh. split; [by apply check_and_mutate_total|apply get_total; [done|apply Hc]].
Qed.

End CheckAndMutate.

(** *** multi_put and multi_remove *)

(** The batch entries of a key-value and of a sort key. *)
Definition kv_op (s : wrapper) (hash_key : blob) (expire : Z) (kv : key_value) (op : batch_op) : Prop :=
  exists key raw, pegasus_generate_key hash_key (kv_key kv) = Ret key /\ op = BatchPut data_cf key raw /\
    holds raw (db_expire_ts cfg (u32 expire) s) (kv_value kv).

Definition sort_key_op (hash_key sort_key : blob) (op : batch_op) : Prop :=
  exists key, pegasus_generate_key hash_key sort_key = Ret key /\ op = BatchDelete data_cf key.

Lemma multi_put_loop_spec ctx hash_key expire kvs s s' :
  local_ctx ctx -> multi_put_loop cfg ctx hash_key expire kvs s = Ret (kOk, s') ->
  exists ops, Forall2 (kv_op s hash_key expire) kvs ops /\ s' = with_batch (write_batch s ++ ops) s.
Proof.
  intros [Hv Ht]. revert s. induction kvs as [|kv kvs IH]; intros s; cbn [multi_put_loop].
  { intros [= <-]. exists []. rewrite app_nil_r. by destruct s. }
  intros (key & Hk & ([c s1] & E1 & E)%obind_Ret_inv)%obind_Ret_inv.
  on_ok c E.
  apply put_ctx_spec in E1; [|done|lia|auto with pegasus]. cbn in E1. destruct E1 as (raw & Hraw & ->).
  apply IH in E as (ops & Hops & ->). eexists (_ :: ops). split; [constructor; [by exists key, raw|exact Hops]|].
  cbn. by rewrite <- app_assoc.
Qed.

Lemma multi_remove_loop_spec decree hash_key ks s s' :
  multi_remove_loop cfg decree hash_key ks s = Ret (kOk, s') ->
  exists ops, Forall2 (sort_key_op hash_key) ks ops /\ s' = with_batch (write_batch s ++ ops) s.
Proof.
  revert s. induction ks as [|k ks IH]; intros s; cbn [multi_remove_loop].
  { intros [= <-]. exists []. rewrite app_nil_r. by destruct s. }
  intros (key & Hk & ([c s1] & E1 & E)%obind_Ret_inv)%obind_Ret_inv.
  on_ok c E.
  apply delete_spec in E1. cbn in E1. subst s1.
  apply IH in E as (ops & Hops & ->). eexists (_ :: ops). split; [constructor; [by exists key|exact Hops]|].
  cbn. by rewrite <- app_assoc.
Qed.

Lemma multi_put_loop_total ctx hash_key expire kvs s :
  healthy -> local_ctx ctx -> Forall (fun kv => exists key, pegasus_generate_key hash_key (kv_key kv) = Ret key) kvs ->
  exists s', multi_put_loop cfg ctx hash_key expire kvs s = Ret (kOk, s').
Proof.
  intros Hh [Hv Ht] Hk. revert s. induction Hk as [|kv kvs (key & Hk) _ IH]; intros s; cbn [multi_put_loop]; [by eexists|].
  unfold composite_raw_key, write_batch_put_ctx_i32. rewrite Hk. cbn [obind].
  destruct (put_total ctx key (kv_value kv) (u32 expire) s) as (s1 & -> & _); [done|done|lia|auto with pegasus|].
  apply IH.
Qed.

Lemma multi_remove_loop_total decree hash_key ks s :
  healthy -> Forall (fun k => exists key, pegasus_generate_key hash_key k = Ret key) ks ->
  exists s', multi_remove_loop cfg decree hash_key ks s = Ret (kOk, s').
Proof.
  intros Hh Hk. revert s. induction Hk as [|k ks (key & Hk) _ IH]; intros s; cbn [multi_remove_loop]; [by eexists|].
  unfold composite_raw_key. rewrite Hk. cbn [obind].
  destruct (delete_total decree key s Hh) as (s1 & -> & _). apply IH.
Qed.

(** multi_put stores all its values in order under one hash key, with one
    expiration, and nothing else; without values it answers with an invalid
    argument and changes no record. *)
Theorem multi_put_correct ctx req s :
  local_ctx ctx -> write_batch s = [] ->
  (forall resp s', multi_put cfg ctx req s = Ret (kOk, resp, s') ->
     match mp_kvs req with
     | [] => r_error resp = kInvalidArgument /\ untouched (w_db s) (w_db s')
     | _ => r_error resp = kOk /\ exists ops,
         Forall2 (kv_op s (mp_hash_key req) (mp_expire_ts_seconds req)) (mp_kvs req) ops /\
         forall k, view (w_db s') data_cf k = apply_batch ops (view (w_db s)) data_cf k
     end) /\
  (healthy -> Forall (fun kv => exists key, pegasus_generate_key (mp_hash_key req) (kv_key kv) = Ret key) (mp_kvs req) ->
   exists resp s', multi_put cfg ctx req s = Ret (kOk, resp, s')).
Proof.
  intros Hctx Hb. unfold multi_put, with_cleanup. destruct (mp_kvs req) as [|kv kvs].
  - split.
    + intros resp s' ([c s1] & E & [= -> <- <-])%obind_Ret_inv. by apply empty_put_spec in E as (? & _).
    + intros Hh _. destruct (empty_put_total (ctx_decree ctx) s Hh) as [s1 ->]. by do 2 eexists.
  - split.
    + intros resp s' ([c s1] & ([c1 s2] & E & [= <- <-])%obind_Ret_inv & [= -> <- <-])%obind_Ret_inv. split; [done|].
      apply obind_Ret_inv in E as ([c s3] & E1 & E). on_ok c E.
      apply multi_put_loop_spec in E1 as (ops & Hops & ->); [|done]. apply write_spec in E as (_ & Hw & _).
      exists ops. split; [done|]. cbn in Hw. by rewrite Hb in Hw.
    + intros Hh Hk. destruct (multi_put_loop_total ctx _ (mp_expire_ts_seconds req) _ s Hh Hctx Hk) as [s1 E1].
      rewrite E1. step. apply multi_put_loop_spec in E1 as (ops & Hops & ->); [|done].
      destruct (write_total (ctx_decree ctx) (with_batch (write_batch s ++ ops) s) Hh) as [s2 ->]; [|by do 2 eexists].
      inversion Hops. cbn. by destruct (write_batch s).
Qed.

(** multi_remove deletes all its sort keys and nothing else, and answers with
    their number; without sort keys it answers with an invalid argument and
    changes no record. *)
Theorem multi_remove_correct decree req s :
  write_batch s = [] ->
  (forall resp s', multi_remove cfg decree req s = Ret (kOk, resp, s') ->
     match mr_sort_keys req with
     | [] => r_error (mrr_base resp) = kInvalidArgument /\ untouched (w_db s) (w_db s')
     | _ => r_error (mrr_base resp) = kOk /\ mrr_count resp = Z.of_nat (length (mr_sort_keys req)) /\ exists ops,
         Forall2 (sort_key_op (mr_hash_key req)) (mr_sort_keys req) ops /\
         forall k, view (w_db s') data_cf k = apply_batch ops (view (w_db s)) data_cf k
     end) /\
  (healthy -> Forall (fun k => exists key, pegasus_generate_key (mr_hash_key req) k = Ret key) (mr_sort_keys req) ->
   exists resp s', multi_remove cfg decree req s = Ret (kOk, resp, s')).
Proof.
  intros Hb. unfold multi_remove, with_cleanup. destruct (mr_sort_keys req) as [|k ks].
  - split.
    + intros resp s' ([c s1] & E & [= -> <- <-])%obind_Ret_inv. by apply empty_put_spec in E as (? & _).
    + intros Hh _. destruct (empty_put_total decree s Hh) as [s1 ->]. by do 2 eexists.
  - split.
    + intros resp s' ([c s1] & ([c1 s2] & E & [= <- <-])%obind_Ret_inv & [= -> <- <-])%obind_Ret_inv.
      split; [done|]. split; [done|].
      apply obind_Ret_inv in E as ([c s3] & E1 & E). on_ok c E.
      apply multi_remove_loop_spec in E1 as (ops & Hops & ->). apply write_spec in E as (_ & Hw & _).
      exists ops. split; [done|]. cbn in Hw. by rewrite Hb in Hw.
    + intros Hh Hk. destruct (multi_remove_loop_total decree _ _ s Hh Hk) as [s1 E1].
      rewrite E1. step. apply multi_remove_loop_spec in E1 as (ops & Hops & ->).
      destruct (write_total decree (with_batch (write_batch s ++ ops) s) Hh) as [s2 ->]; [|by do 2 eexists].
      inversion Hops. cbn. by destruct (write_batch s).
Qed.

(** *** Batched writes *)

(** The requests that can be decoded, and their positions. *)
Definition decoded (r : batch_request) : bool :=
  match r with BatchedPut _ _ _ | BatchedRemove _ _ _ => true | _ => false end.

Fixpoint decoded_ids (rs : list batch_request) (id : nat) : list nat :=
  match rs with
  | [] => []
  | r :: rest => (if decoded r then [id] else []) ++ decoded_ids rest (S id)
  end.

(** The batch entry of a request. *)
Definition request_op (s : wrapper) (r : batch_request) (op : batch_op) : Prop :=
  match r with
  | BatchedPut _ _ u => exists raw, op = BatchPut data_cf (upd_key u) raw /\
      holds raw (db_expire_ts cfg (u32 (upd_expire_ts_seconds u)) s) (upd_value u)
  | BatchedRemove _ _ k => op = BatchDelete data_cf k
  | _ => False
  end.

Section Batch.
Context (ctx : db_write_context) (Hctx : local_ctx ctx).

(** One request appends its entry, and its response is remembered. *)
Lemma on_single_spec r id st err n st' :
  on_single_in_batch cfg ctx r id st = Ret (err, n, st') ->
  n = (if decoded r then 1 else 0)%nat /\
  update_responses st' = update_responses st ++ (if decoded r then [id] else []) /\
  exists ops, bs_wrapper st' = with_batch (write_batch (bs_wrapper st) ++ ops) (bs_wrapper st) /\
    (err = kOk -> if decoded r then exists op, ops = [op] /\ request_op (bs_wrapper st) r op else ops = []).
Proof.
  destruct Hctx as [Hv Ht].
  assert (forall w : wrapper, w = with_batch (write_batch w ++ []) w) as Hid.
  { intros [? ? ?]. unfold with_batch. cbn. by rewrite app_nil_r. }
  destruct r as [h t u|h t k| |]; cbn [on_single_in_batch decoded].
  - unfold batch_put. intros ([e1 st1] & E & (_ & _ & [= <- <- <-])%obind_Ret_inv)%obind_Ret_inv.
    apply obind_Ret_inv in E as ([e2 w] & E & [= <- <-]). cbn. split_and!; [done|done|].
    apply put_ctx_spec in E; [|done|lia|auto with pegasus]. destruct (Z.eqb_spec e2 kOk).
    + destruct E as (raw & Hraw & ->). eexists. split; [done|]. intros _. eexists. split; [done|]. by exists raw.
    + subst w. exists []. by split; [apply Hid|].
  - unfold batch_remove. intros ([e1 st1] & E & (_ & _ & [= <- <- <-])%obind_Ret_inv)%obind_Ret_inv.
    apply obind_Ret_inv in E as ([e2 w] & E & [= <- <-]). cbn. split_and!; [done|done|].
    apply delete_spec in E as ->. destruct (Z.eqb_spec e2 kOk).
    + eexists. split; [done|]. intros _. by eexists.
    + exists []. by split; [apply Hid|].
  - intros [= <- <- <-]. split_and!; [done|by rewrite app_nil_r|]. exists []. by split; [apply Hid|].
  - done.
Qed.

Lemma batched_loop_spec rs id err n st err' n' st' :
  batched_loop cfg ctx rs id err n st = Ret (err', n', st') ->
  n' = (n + length (decoded_ids rs id))%nat /\
  update_responses st' = update_responses st ++ decoded_ids rs id /\
  (err <> kOk -> err' = err) /\
  exists ops, bs_wrapper st' = with_batch (write_batch (bs_wrapper st) ++ ops) (bs_wrapper st) /\
    (err' = kOk -> Forall2 (request_op (bs_wrapper st)) (filter (fun r => decoded r = true) rs) ops).
Proof.
  revert id err n st. induction rs as [|r rs IH]; intros id err n st; cbn [batched_loop decoded_ids].
  { intros [= <- <- <-]. rewrite app_nil_r. split_and!; [cbn; lia|done|done|]. exists [].
    destruct (bs_wrapper st) as [? ? ?]. unfold with_batch. cbn. by rewrite app_nil_r. }
  intros ([[le k] st1] & E1 & E)%obind_Ret_inv.
  apply on_single_spec in E1 as (-> & Hu & ops1 & Hw & Hops1).
  apply IH in E as (-> & Hu' & Herr & ops2 & Hw' & Hops2). rewrite Hw in Hops2, Hw'. cbn in Hw'.
  split_and!.
  - rewrite length_app. destruct (decoded r); cbn; lia.
  - rewrite Hu', Hu. by rewrite app_assoc.
  - intros He. destruct (Z.eqb_spec err kOk); [done|]. by apply Herr.
  - exists (ops1 ++ ops2). split; [rewrite Hw', app_assoc; done|]. intros He'. specialize (Hops2 He').
    assert (le = kOk) as ->.
    { destruct (Z.eqb_spec err kOk); cbn [andb] in Herr.
      - destruct (Z.eqb_spec le kOk); [done|]. cbn [negb] in Herr. rewrite Herr in He' by done. done.
      - rewrite Herr in He' by done. done. }
    specialize (Hops1 eq_refl). rewrite filter_cons. destruct (decoded r) eqn:Ed; cbn [decide].
    + rewrite decide_True by done. destruct Hops1 as (op & -> & Hop). by constructor.
    + subst ops1. by rewrite decide_False.
Qed.

Lemma clear_up_resps (l : list nat) (resp : response) (m : gmap nat response) id :
  id ∈ l -> fold_left (fun m id => <[id := resp]> m) l m !! id = Some resp.
Proof.
  revert m. induction l as [|x l IH] using rev_ind; intros m; [by intros ?%elem_of_nil|].
  rewrite fold_left_app. cbn. intros [H|H]%elem_of_app.
  - destruct (decide (x = id)) as [->|]; [by rewrite lookup_insert_eq|]. rewrite lookup_insert_ne by done. by apply IH.
  - apply list_elem_of_singleton in H as ->. by rewrite lookup_insert_eq.
Qed.

(** The requests that do not stop the process: of a known code, and of this
    partition when they carry a hash. *)
Definition acceptable (r : batch_request) : Prop :=
  match r with
  | BatchedPut h t u => request_key_check cfg h t (upd_key u) = Ret tt
  | BatchedRemove h t k => request_key_check cfg h t k = Ret tt
  | BatchedCorrupt => True
  | BatchedOther => False
  end.

Lemma batched_loop_total rs id n st :
  healthy -> Forall acceptable rs -> exists n' st', batched_loop cfg ctx rs id kOk n st = Ret (kOk, n', st').
Proof.
  intros Hh Hrs. destruct Hctx as [Hv Ht]. revert id n st.
  induction Hrs as [|r rs Hr Hrs IH]; intros id n st; cbn [batched_loop]; [by do 2 eexists|].
  assert (exists k st1, on_single_in_batch cfg ctx r id st = Ret (kOk, k, st1)) as (k & st1 & ->); [|apply IH].
  destruct r as [h t u|h t key| |]; cbn [on_single_in_batch acceptable] in *; [| |by do 2 eexists|done].
  - unfold batch_put, write_batch_put_ctx_i32.
    destruct (put_total ctx (upd_key u) (upd_value u) (u32 (upd_expire_ts_seconds u)) (bs_wrapper st))
      as (w & -> & _); [done|done|lia|auto with pegasus|]. cbn [obind]. rewrite Hr. by do 2 eexists.
  - unfold batch_remove. destruct (delete_total (ctx_decree ctx) key (bs_wrapper st) Hh) as (w & -> & _).
    cbn [obind]. rewrite Hr. by do 2 eexists.
Qed.

Lemma on_batched_writes_total rs st :
  healthy -> Forall acceptable rs -> write_batch (bs_wrapper st) = [] ->
  exists st', on_batched_writes cfg ctx rs st = Ret (kOk, st').
Proof.
  intros Hh Hrs Hb. unfold on_batched_writes. destruct (batched_loop_total rs 0 0 st Hh Hrs) as (n & st1 & E).
  rewrite E. cbn [obind]. change (kOk =? kOk) with true. cbn [negb orb].
  pose proof (batched_loop_spec _ _ _ _ _ _ _ _ E) as (-> & _ & _ & ops & Hw & Hops). rewrite Hb in Hw.
  destruct (Nat.eqb_spec (0 + length (decoded_ids rs 0)) 0) as [Hz|Hz]; [by eexists|].
  unfold batch_commit. destruct (write_total (ctx_decree ctx) (bs_wrapper st1)) as [w ->]; [done| |by eexists].
  rewrite Hw. cbn [write_batch with_batch app]. specialize (Hops eq_refl). intros ->.
  apply Forall2_nil_inv_r in Hops. apply Hz. clear -Hops. revert Hops. generalize 0%nat at 2.
  induction rs as [|r rs IH]; intros id; [done|]. rewrite filter_cons. cbn [decoded_ids].
  destruct (decoded r); [by rewrite decide_True|]. rewrite decide_False by done. apply IH.
Qed.


End Batch.

(** *** The primary and the other replicas *)

Section Replicas.
Context (ctx : db_write_context) (Hctx : local_ctx ctx) (h t : Z).

Lemma put_updates_same_db us w e w1 :
  put_updates cfg ctx us w = Ret (e, w1) -> clear_up_write_batch w1 = clear_up_write_batch w.
Proof.
  destruct Hctx as [Hv Ht]. revert w. induction us as [|u us IH]; intros w; cbn [put_updates]; [by intros [= _ <-]|].
  intros ([c w2] & E1 & E)%obind_Ret_inv.
  assert (clear_up_write_batch w2 = clear_up_write_batch w) as <-.
  { destruct (upd_type u) as [[]|]; try done.
    - apply put_ctx_spec in E1; [|done|lia|auto with pegasus].
      destruct (c =? kOk); [by destruct E1 as (raw & _ & ->)|by subst w2].
    - apply delete_spec in E1 as ->. by destruct (c =? kOk). }
  destruct (negb (c =? kOk)); [by injection E as _ <-|by apply IH].
Qed.

Lemma batched_loop_error us id err n st e2 n2 st2 :
  batched_loop cfg ctx us id err n st = Ret (e2, n2, st2) -> err <> kOk -> e2 = err.
Proof. intros E He. apply batched_loop_spec in E as (_ & _ & H & _); [by apply H|done]. Qed.

(** Batching the puts one by one gives the batch of the primary. *)
Lemma batched_loop_puts us id n st e w1 e2 n2 st2 :
  Forall (fun u => upd_type u = Some UT_CHECK_AND_MUTATE_PUT) us ->
  put_updates cfg ctx us (bs_wrapper st) = Ret (e, w1) ->
  batched_loop cfg ctx (BatchedPut h t <$> us) id kOk n st = Ret (e2, n2, st2) ->
  e2 = e /\ (e = kOk -> bs_wrapper st2 = w1).
Proof.
  intros Hus. revert id n st. induction Hus as [|u us Hu Hus IH]; intros id n st; cbn [put_updates fmap list_fmap].
  { intros [= <- <-] [= <- _ <-]. done. }
  rewrite Hu. intros ([c w2] & E1 & E)%obind_Ret_inv. cbn [batched_loop on_single_in_batch].
  unfold batch_put. rewrite E1. cbn [obind].
  intros ([[le k] st1] & (_ & _ & [= <- <- <-])%obind_Ret_inv & E2)%obind_Ret_inv. change (kOk =? kOk) with true in E2.
  destruct (Z.eqb_spec c kOk) as [->|Hc]; cbn [negb andb] in E, E2.
  - eapply IH; [|exact E2]. done.
  - injection E as <- <-. apply batched_loop_error in E2; [|done]. subst e2. done.
Qed.

(** A nonempty batch of puts is written or dropped. *)
Lemma on_batched_puts_inv us st e2 st2 :
  us <> [] -> on_batched_writes cfg ctx (BatchedPut h t <$> us) st = Ret (e2, st2) ->
  exists e1 n1 st1, batched_loop cfg ctx (BatchedPut h t <$> us) 0 kOk 0 st = Ret (e1, n1, st1) /\
    if e1 =? kOk then exists w, write cfg (ctx_decree ctx) (bs_wrapper st1) = Ret (e2, w) /\
                        bs_wrapper st2 = clear_up_write_batch w
    else e2 = e1 /\ bs_wrapper st2 = clear_up_write_batch (bs_wrapper st1).
Proof.
  intros Hne. unfold on_batched_writes. intros ([[e1 n1] st1] & E1 & E)%obind_Ret_inv. exists e1, n1, st1.
  split; [done|]. pose proof (batched_loop_spec _ Hctx _ _ _ _ _ _ _ _ E1) as (-> & _).
  assert ((0 + length (decoded_ids (BatchedPut h t <$> us) 0) =? 0)%nat = false) as Hz by (by destruct us).
  rewrite Hz, orb_false_r in E. destruct (e1 =? kOk) eqn:Ee; cbn [negb] in E.
  - unfold batch_commit in E. apply obind_Ret_inv in E as ([c w] & E2 & [= -> <-]). by exists w.
  - by apply obind_Ret_inv in E as (st3 & [_ [= <-]]%CHECK_Ret_inv & [= -> <-]).
Qed.

(** Likewise one put alone. *)
Lemma on_batched_put_inv u s e2 st2 :
  on_batched_writes cfg ctx [BatchedPut h t u] (BatchState s [] ∅) = Ret (e2, st2) ->
  exists c s1, write_batch_put_ctx_i32 cfg ctx (upd_key u) (upd_value u) (upd_expire_ts_seconds u) s = Ret (c, s1) /\
    if c =? kOk then exists w, write cfg (ctx_decree ctx) s1 = Ret (e2, w) /\
                       bs_wrapper st2 = clear_up_write_batch w
    else e2 = c /\ bs_wrapper st2 = clear_up_write_batch s1.
Proof.
  intros E. change [BatchedPut h t u] with (BatchedPut h t <$> [u]) in E.
  apply on_batched_puts_inv in E as (e1 & n1 & st1 & E & H); [|done]. cbn in E.
  apply obind_Ret_inv in E as ([[le k] st3] & E1 & [= <- _ <-]). unfold batch_put in E1.
  apply obind_Ret_inv in E1 as ([c st4] & E1 & (_ & _ & [= <- _ <-])%obind_Ret_inv).
  apply obind_Ret_inv in E1 as ([c' w] & E1 & [= <- <-]). cbn [bs_wrapper] in *. exists c', w. split; [done|].
  destruct (c' =? kOk) eqn:Ec; cbn [negb andb] in H; [done|by rewrite Ec in H].
Qed.


End Replicas.

(** *** Duplicated writes *)

(** The timetag of the live record of a key. *)
Definition live_tag (d : db) (k : blob) (o : option Z) : Prop :=
  match o with
  | Some lt => exists raw e v, view d data_cf k = Some raw /\ holds raw e v /\
                 check_if_ts_expired (epoch_now cfg) e = false /\
                 pegasus_extract_timetag (data_version cfg) raw = Ret lt
  | None => live d k None
  end.

Definition not_newer (t : Z) (o : option Z) : bool := match o with Some lt => lt >=? t | None => false end.

Lemma timetag_is_stale_spec k t s o :
  store_ok (w_db s) -> live_tag (w_db s) k o ->
  (forall c b, timetag_is_stale cfg k t s = Ret (c, b) -> c = kOk -> b = not_newer t o) /\
  (healthy -> timetag_is_stale cfg k t s = Ret (kOk, not_newer t o)).
Proof.
  intros Hs Ho.
  assert (forall g, get cfg k s = Ret (kOk, g) -> timetag_is_stale cfg k t s = Ret (kOk, not_newer t o)) as Hg.
  { intros g Eg. unfold timetag_is_stale. rewrite Eg. step.
    destruct (get_live _ _ _ Hs Eg) as [(Hf & Hx & v & Hh & _ & Hl)|[Hmiss Hl]].
    - rewrite Hf, Hx. cbn [negb andb]. destruct o as [lt|]; [|by pose proof (live_inj _ _ _ _ Ho Hl)].
      destruct Ho as (raw & e' & v' & E & Hh' & Hx' & Ht).
      assert (raw_value g = raw) as ->; [|by rewrite Ht].
      clear -Eg E Hn Hf L. revert Eg. unfold get. rewrite (n_get Hn).
      destruct (Get (w_db s) data_cf k) as [c r] eqn:Er. destruct (Z.eqb_spec c kOk) as [->|].
      + intros (x & _ & [= <-])%obind_Ret_inv. apply Get_ok in Er. cbn. congruence.
      + destruct (c =? kNotFound); [intros [= <-]; done|]. intros (x & _ & [= _ <-])%obind_Ret_inv. done.
    - destruct o as [lt|].
      + destruct Ho as (raw & e' & v' & E & Hh' & Hx' & Ht).
        assert (live (w_db s) k (Some (e', v'))) as Hl' by (by exists raw).
        by pose proof (live_inj _ _ _ _ Hl Hl').
      + by destruct (found g), (expired g). }
  split.
  - intros c b E ->. revert E. unfold timetag_is_stale. intros ([c g] & Eg & E)%obind_Ret_inv.
    on_ok c E.
    specialize (Hg g Eg). unfold timetag_is_stale in Hg. rewrite Eg in Hg. cbn [obind negb Z.eqb kOk] in Hg.
    rewrite E in Hg. by injection Hg.
  - intros Hh. destruct (get_total k s Hh Hs) as [g Eg]. by apply (Hg g).
Qed.

Section Duplicate.
Context (ctx : db_write_context) (k v : blob) (e : Z) (s : wrapper) (o : option Z).

(** A write from another cluster whose timetag is to be verified. *)
Record duplicate_case : Prop := DuplicateCase {
  dc_version : data_version cfg = 1;
  dc_verify : verify_timetag ctx = true;
  dc_remote : 0 < remote_timetag ctx < 2 ^ 64;
  dc_key : k <> [];
  dc_expire : 0 <= e < 2 ^ 32;
  dc_store : store_ok (w_db s);
  dc_batch : write_batch s = [];
  dc_tag : live_tag (w_db s) k o
}.

Hypothesis Hd : duplicate_case.

Lemma duplicate_value val :
  exists raw, (let* sl := generate_value (data_version cfg) val (db_expire_ts cfg e s) (remote_timetag ctx) in
               Ret (concat sl)) = Ret raw /\
    holds raw (db_expire_ts cfg e s) val /\ pegasus_extract_timetag (data_version cfg) raw = Ret (remote_timetag ctx).
Proof.
  destruct Hd as [Hv Hver Hr Hk He _ _ _].
  destruct (generate_value_facts (data_version cfg) (db_expire_ts cfg e s) (remote_timetag ctx) val
    (n_version Hn) (db_expire_ts_range e s He) ltac:(lia)) as (sl & _ & -> & _ & _ & H1 & H2 & H3 & _).
  exists (concat sl). split_and!; [done|by split|by apply H3].
Qed.

(** The entry that is batched: the record, or the empty record when it is not
    newer than the live one. *)
Lemma duplicate_put c s1 :
  write_batch_put_ctx cfg ctx k v e s = Ret (c, s1) -> c = kOk ->
  exists raw, s1 = with_batch [BatchPut data_cf (if not_newer (remote_timetag ctx) o then [] else k) raw] s /\
    (not_newer (remote_timetag ctx) o = false -> holds raw (db_expire_ts cfg e s) v /\
       pegasus_extract_timetag (data_version cfg) raw = Ret (remote_timetag ctx)).
Proof.
  destruct Hd as [Hv Hver Hr Hk He Hs Hb Ho]. unfold write_batch_put_ctx, is_duplicated_write.
  rewrite (n_put Hn), Hver, Hv, bool_decide_eq_false_2 by done. cbn [andb negb Z.geb Z.compare Pos.compare Pos.compare_cont].
  rewrite (proj2 (Z.gtb_lt (remote_timetag ctx) 0)) by lia.
  intros ([c1 b] & Est & E)%obind_Ret_inv ->.
  on_ok c1 E.
  destruct (timetag_is_stale_spec k (remote_timetag ctx) s o Hs Ho) as [Hst _]. rewrite (Hst _ _ Est eq_refl) in E.
  destruct (not_newer (remote_timetag ctx) o).
  - apply obind_Ret_inv in E as (sl & _ & E). unfold batch_append in E.
    destruct (batch_status _ _ =? kOk) eqn:Ec.
    + injection E as _ <-. exists (concat sl). by rewrite Hb.
    + apply obind_Ret_inv in E as (x & _ & [= E _]). rewrite E in Ec. done.
  - destruct (duplicate_value v) as (raw & Eraw & Hraw). rewrite <- Hv in E.
    apply obind_Ret_inv in Eraw as (sl & Esl & [= <-]). rewrite Esl in E. cbn [obind] in E. unfold batch_append in E.
    destruct (batch_status _ _ =? kOk) eqn:Ec.
    + injection E as _ <-. exists (concat sl). rewrite Hb. split; [done|]. intros _. by rewrite Hv in Hraw.
    + apply obind_Ret_inv in E as (x & _ & [= E _]). rewrite E in Ec. done.
Qed.

Lemma duplicate_put_total :
  healthy -> exists s1 s2, write_batch_put_ctx cfg ctx k v e s = Ret (kOk, s1) /\
    write cfg (ctx_decree ctx) s1 = Ret (kOk, s2).
Proof.
  intros Hh. destruct Hd as [Hv Hver Hr Hk He Hs Hb Ho].
  assert (exists s1, write_batch_put_ctx cfg ctx k v e s = Ret (kOk, s1)) as [s1 E1].
  { unfold write_batch_put_ctx, is_duplicated_write.
    rewrite (n_put Hn), Hver, bool_decide_eq_false_2 by done. rewrite (proj2 (Z.gtb_lt (remote_timetag ctx) 0)) by lia.
    destruct (timetag_is_stale_spec k (remote_timetag ctx) s o Hs Ho) as [_ Hst]. rewrite (Hst Hh).
    rewrite Hv. cbn [andb negb Z.geb Z.compare Pos.compare Pos.compare_cont obind]. rewrite <- Hv.
    change (kOk =? kOk) with true. cbn [negb].
    assert (forall key val, exists s1,
      (let* svalue := generate_value (data_version cfg) val (db_expire_ts cfg e s) (remote_timetag ctx) in
       batch_append (BatchPut data_cf key (concat svalue)) key s) = Ret (kOk, s1)) as Hput.
    { intros key val. destruct (duplicate_value val) as (raw & (sl & Esl & _)%obind_Ret_inv & _).
      rewrite Esl. cbn [obind]. unfold batch_append. rewrite (h_batch Hh). by eexists. }
    destruct (not_newer _ _); apply Hput. }
  destruct (duplicate_put _ _ E1 eq_refl) as (raw & Hs1 & _).
  destruct (write_total (ctx_decree ctx) s1 Hh) as [s2 E2]; [by rewrite Hs1|]. by exists s1, s2.
Qed.


End Duplicate.

End Theory.

(** ** A server on the finite map *)

#[local] Existing Instance map_rocksdb.

Definition sample_cfg : config :=
  Config 1 100 1 kOk false false false false (Mutation.Gpid 2 3) (String.list_byte_of_string "host:1"%string).

Lemma sample_normal : normal sample_cfg.
Proof. split; try reflexivity; [right; reflexivity|cbn; lia]. Qed.

Lemma map_healthy : healthy.
Proof. split; [|reflexivity|reflexivity]. intros d c k. cbn. destruct (_ !! _); [by left|by right]. Qed.

(** One record, under hash key "h" and sort key "s", without expiration and with
    timetag 1000. *)
Definition sample_key : blob := encoded (String.list_byte_of_string "h"%string) (String.list_byte_of_string "s"%string).
Definition sample_raw : blob := be_bytes 4 0 ++ be_bytes 8 1000 ++ String.list_byte_of_string "5"%string.
Definition sample_state : wrapper := Wrapper (R := map_rocksdb) {[ (0%nat, sample_key) := sample_raw ]} [] 0.

Lemma sample_holds : holds sample_cfg sample_raw 0 (String.list_byte_of_string "5"%string).
Proof. split; vm_compute; reflexivity. Qed.

Lemma sample_store_ok : store_ok (L := map_rocksdb_laws) sample_cfg (w_db sample_state).
Proof.
  intros k raw H. cbn in H. apply lookup_singleton_Some in H as [_ <-].
  exists 0, (String.list_byte_of_string "5"%string). split; [lia|apply sample_holds].
Qed.

Lemma sample_live :
  live (L := map_rocksdb_laws) sample_cfg (w_db sample_state) sample_key
    (Some (0, String.list_byte_of_string "5"%string)).
Proof. exists sample_raw. split_and!; [|apply sample_holds|reflexivity]. cbn. by rewrite lookup_singleton_eq. Qed.

(** Adding 3 to the record "5": both forms store and answer 8. *)
Lemma incr_both_forms_witness :
  let req := IncrRequest sample_key 3 0 in
  exists resp s', incr sample_cfg 7 req sample_state = Ret (kOk, resp, s') /\ new_value resp = 8.
Proof.
  intros req. destruct (incr_both_forms (L := map_rocksdb_laws) sample_cfg sample_normal 7 req sample_state
    (Some (0, String.list_byte_of_string "5"%string))) as (H & _ & Ht).
  - apply sample_store_ok.
  - reflexivity.
  - split; cbn; unfold INT64_MIN, INT64_MAX; lia.
  - apply sample_live.
  - destruct (Ht map_healthy) as [(resp & s' & E) _]. exists resp, s'. split; [exact E|].
    specialize (H resp s' E).
    assert (incr_result (Some (0, String.list_byte_of_string "5"%string)) (increment req) = inl 8) as Er
      by (vm_compute; reflexivity).
    rewrite Er in H. exact (proj1 (proj2 H)).
Defined.

(** Setting the sort key "t" when the record "5" is below 9. *)
Definition sample_cas : check_and_set_request :=
  CasRequest (String.list_byte_of_string "h"%string) (String.list_byte_of_string "s"%string) CT_VALUE_INT_LESS
    (String.list_byte_of_string "9"%string) true (String.list_byte_of_string "t"%string)
    (String.list_byte_of_string "new"%string) 0 true.


(** Removing the record and putting another one, without a check. *)
Definition sample_cam : check_and_mutate_request :=
  CamRequest (String.list_byte_of_string "h"%string) (String.list_byte_of_string "s"%string) CT_NO_CHECK []
    [Mutate MO_DELETE (String.list_byte_of_string "s"%string) [] 0;
     Mutate MO_PUT (String.list_byte_of_string "t"%string) (String.list_byte_of_string "new"%string) 50] false.

Lemma check_and_mutate_both_forms_witness :
  exists resp s', check_and_mutate sample_cfg 7 sample_cam sample_state = Ret (kOk, resp, s') /\
    cam_effect (L := map_rocksdb_laws) sample_cfg sample_cam sample_state true s'.
Proof.
  destruct (check_and_mutate_both_forms (L := map_rocksdb_laws) sample_cfg sample_normal sample_cam sample_state
    (Some (0, String.list_byte_of_string "5"%string)) sample_key true false) with (decree := 7) as (H & _ & Ht).
  - split; [apply sample_store_ok|reflexivity|discriminate|reflexivity|reflexivity|vm_compute; reflexivity| |
            apply sample_live|vm_compute; reflexivity].
    repeat constructor; eexists; vm_compute; reflexivity.
  - destruct (Ht map_healthy) as [(resp & s' & E) _]. exists resp, s'. split; [exact E|].
    exact (proj2 (H resp s' E)).
Defined.

(** Two values under the hash key "h". *)
Lemma multi_put_correct_witness :
  let req := MultiPutRequest (String.list_byte_of_string "h"%string)
    [KeyValue (String.list_byte_of_string "a"%string) []; KeyValue (String.list_byte_of_string "b"%string) []] 0 in
  exists resp s', multi_put sample_cfg (create_context 7 1) req sample_state = Ret (kOk, resp, s') /\ r_error resp = kOk.
Proof.
  intros req. destruct (multi_put_correct (L := map_rocksdb_laws) sample_cfg sample_normal (create_context 7 1) req
    sample_state) as (H & Ht).
  - split; reflexivity.
  - reflexivity.
  - destruct (Ht map_healthy) as (resp & s' & E).
    + repeat constructor; eexists; vm_compute; reflexivity.
    + exists resp, s'. split; [exact E|]. exact (proj1 (H _ _ E)).
Defined.

Lemma multi_remove_correct_witness :
  let req := MultiRemoveRequest (String.list_byte_of_string "h"%string)
    [String.list_byte_of_string "s"%string; String.list_byte_of_string "b"%string] in
  exists resp s', multi_remove sample_cfg 7 req sample_state = Ret (kOk, resp, s') /\ mrr_count resp = 2.
Proof.
  intros req. destruct (multi_remove_correct (L := map_rocksdb_laws) sample_cfg sample_normal 7 req
    sample_state) as (H & Ht).
  - reflexivity.
  - destruct (Ht map_healthy) as (resp & s' & E).
    + repeat constructor; eexists; vm_compute; reflexivity.
    + exists resp, s'. split; [exact E|]. exact (proj1 (proj2 (H _ _ E))).
Defined.






End WriteService.
