(* ===== verification/ReplicaContext.v ===== *)
(** * Configurations and replica contexts

    Model of [src/replica/replica_context.{h,cpp}] (the state a replica keeps as a
    primary, a secondary, a learner or a child of a split), of
    [replica_helper::get_replica_config] ([src/common/replication_common.cpp]), and of the
    configuration structures of [idl/dsn.layer2.thrift] and [idl/metadata.thrift].  A task
    is known by a number; cancelling it is an effect, and whether it is finished then
    ([stopped]) is an input. *)
From S2P Require Import Prelude Mutation MutationCache PrepareList MutationQueue.

Module ReplicaContext.
Import Mutation PrepareList MutationQueue.

Abbreviation task := Z.

Definition invalid_signature : Z := 0.

(** [partition_configuration], without the drop history kept for the meta server. *)
Record partition_configuration := PartitionConfiguration {
  pc_pid : gpid;
  pc_ballot : Z;
  max_replica_count : Z;
  hp_primary : host_port;
  hp_secondaries : list host_port;
  pc_last_committed_decree : Z
}.

Record replica_configuration := ReplicaConfiguration {
  rc_pid : gpid;
  rc_ballot : Z;
  rc_primary : host_port;
  rc_status : partition_status;
  learner_signature : Z;
  pop_all : bool;
  split_sync_to_child : bool
}.

(** [learner_status] of [src/common/consensus.thrift]. *)
Inductive learner_status :=
| LearningInvalid | LearningWithoutPrepare | LearningWithPrepareTransient | LearningWithPrepare
| LearningSucceeded | LearningFailed.

#[global] Instance learner_status_eq_dec : EqDecision learner_status.
Proof. solve_decision. Defined.

(** [disk_status], [ingestion_status] of the idl. *)
Inductive disk_status := DS_NORMAL | DS_SPACE_INSUFFICIENT | DS_IO_ERROR.
#[global] Instance disk_status_eq_dec : EqDecision disk_status.
Proof. solve_decision. Defined.

Inductive ingestion_status := IS_INVALID | IS_RUNNING | IS_SUCCEED | IS_FAILED.

Definition disk_status_to_error_code (ds : disk_status) : error_code :=
  match ds with
  | DS_SPACE_INSUFFICIENT => ERR_DISK_INSUFFICIENT
  | DS_IO_ERROR => ERR_DISK_IO_ERROR
  | DS_NORMAL => ERR_OK
  end.

Record partition_bulk_load_state := PartitionBulkLoadState {
  download_progress : Z;
  download_status : error_code;
  ingest_status : ingestion_status;
  bls_is_cleaned_up : bool;
  bls_is_paused : bool
}.

(** [remote_learner_state]; its timer is never set. *)
Record remote_learner_state := RemoteLearnerState {
  signature : Z;
  prepare_start_decree : Z
}.

Record primary_context := PrimaryContext {
  pc : partition_configuration;
  statuses : gmap host_port partition_status;
  learners : gmap host_port remote_learner_state;
  next_learning_version : Z;
  write_queue : mutation_queue;
  group_check_task : option task;
  group_check_pending_replies : gmap host_port task;
  reconfiguration_task : option task;
  last_prepare_decree_on_new_primary : Z;
  p_checkpoint_task : option task;
  last_prepare_ts_ms : Z;
  caught_up_children : gset host_port;
  sync_send_write_request : bool;
  register_child_task : option task;
  split_stopped_secondary : gset host_port;
  query_child_task : option task;
  group_bulk_load_pending_replies : gmap host_port task;
  secondary_bulk_load_states : gmap host_port partition_bulk_load_state;
  ingestion_is_empty_prepare_sent : bool;
  secondary_disk_status : gmap host_port disk_status
}.

(** Field updates. *)
Definition set_pc (x : partition_configuration) (s : primary_context) : primary_context :=
  PrimaryContext x (statuses s) (learners s) (next_learning_version s) (write_queue s)
    (group_check_task s) (group_check_pending_replies s) (reconfiguration_task s)
    (last_prepare_decree_on_new_primary s) (p_checkpoint_task s) (last_prepare_ts_ms s)
    (caught_up_children s) (sync_send_write_request s) (register_child_task s)
    (split_stopped_secondary s) (query_child_task s) (group_bulk_load_pending_replies s)
    (secondary_bulk_load_states s) (ingestion_is_empty_prepare_sent s)
    (secondary_disk_status s).

Definition set_statuses (x : gmap host_port partition_status) (s : primary_context) : primary_context :=
  PrimaryContext (pc s) x (learners s) (next_learning_version s) (write_queue s)
    (group_check_task s) (group_check_pending_replies s) (reconfiguration_task s)
    (last_prepare_decree_on_new_primary s) (p_checkpoint_task s) (last_prepare_ts_ms s)
    (caught_up_children s) (sync_send_write_request s) (register_child_task s)
    (split_stopped_secondary s) (query_child_task s) (group_bulk_load_pending_replies s)
    (secondary_bulk_load_states s) (ingestion_is_empty_prepare_sent s)
    (secondary_disk_status s).

Definition set_learners (x : gmap host_port remote_learner_state) (s : primary_context) : primary_context :=
  PrimaryContext (pc s) (statuses s) x (next_learning_version s) (write_queue s)
    (group_check_task s) (group_check_pending_replies s) (reconfiguration_task s)
    (last_prepare_decree_on_new_primary s) (p_checkpoint_task s) (last_prepare_ts_ms s)
    (caught_up_children s) (sync_send_write_request s) (register_child_task s)
    (split_stopped_secondary s) (query_child_task s) (group_bulk_load_pending_replies s)
    (secondary_bulk_load_states s) (ingestion_is_empty_prepare_sent s)
    (secondary_disk_status s).

Definition set_next_learning_version (x : Z) (s : primary_context) : primary_context :=
  PrimaryContext (pc s) (statuses s) (learners s) x (write_queue s) (group_check_task s)
    (group_check_pending_replies s) (reconfiguration_task s)
    (last_prepare_decree_on_new_primary s) (p_checkpoint_task s) (last_prepare_ts_ms s)
    (caught_up_children s) (sync_send_write_request s) (register_child_task s)
    (split_stopped_secondary s) (query_child_task s) (group_bulk_load_pending_replies s)
    (secondary_bulk_load_states s) (ingestion_is_empty_prepare_sent s)
    (secondary_disk_status s).

Definition set_write_queue (x : mutation_queue) (s : primary_context) : primary_context :=
  PrimaryContext (pc s) (statuses s) (learners s) (next_learning_version s) x
    (group_check_task s) (group_check_pending_replies s) (reconfiguration_task s)
    (last_prepare_decree_on_new_primary s) (p_checkpoint_task s) (last_prepare_ts_ms s)
    (caught_up_children s) (sync_send_write_request s) (register_child_task s)
    (split_stopped_secondary s) (query_child_task s) (group_bulk_load_pending_replies s)
    (secondary_bulk_load_states s) (ingestion_is_empty_prepare_sent s)
    (secondary_disk_status s).

Definition set_group_check_task (x : option task) (s : primary_context) : primary_context :=
  PrimaryContext (pc s) (statuses s) (learners s) (next_learning_version s) (write_queue s) x
    (group_check_pending_replies s) (reconfiguration_task s)
    (last_prepare_decree_on_new_primary s) (p_checkpoint_task s) (last_prepare_ts_ms s)
    (caught_up_children s) (sync_send_write_request s) (register_child_task s)
    (split_stopped_secondary s) (query_child_task s) (group_bulk_load_pending_replies s)
    (secondary_bulk_load_states s) (ingestion_is_empty_prepare_sent s)
    (secondary_disk_status s).

Definition set_group_check_pending_replies (x : gmap host_port task) (s : primary_context) : primary_context :=
  PrimaryContext (pc s) (statuses s) (learners s) (next_learning_version s) (write_queue s)
    (group_check_task s) x (reconfiguration_task s) (last_prepare_decree_on_new_primary s)
    (p_checkpoint_task s) (last_prepare_ts_ms s) (caught_up_children s)
    (sync_send_write_request s) (register_child_task s) (split_stopped_secondary s)
    (query_child_task s) (group_bulk_load_pending_replies s) (secondary_bulk_load_states s)
    (ingestion_is_empty_prepare_sent s) (secondary_disk_status s).

Definition set_reconfiguration_task (x : option task) (s : primary_context) : primary_context :=
  PrimaryContext (pc s) (statuses s) (learners s) (next_learning_version s) (write_queue s)
    (group_check_task s) (group_check_pending_replies s) x
    (last_prepare_decree_on_new_primary s) (p_checkpoint_task s) (last_prepare_ts_ms s)
    (caught_up_children s) (sync_send_write_request s) (register_child_task s)
    (split_stopped_secondary s) (query_child_task s) (group_bulk_load_pending_replies s)
    (secondary_bulk_load_states s) (ingestion_is_empty_prepare_sent s)
    (secondary_disk_status s).

Definition set_last_prepare_decree_on_new_primary (x : Z) (s : primary_context) : primary_context :=
  PrimaryContext (pc s) (statuses s) (learners s) (next_learning_version s) (write_queue s)
    (group_check_task s) (group_check_pending_replies s) (reconfiguration_task s) x
    (p_checkpoint_task s) (last_prepare_ts_ms s) (caught_up_children s)
    (sync_send_write_request s) (register_child_task s) (split_stopped_secondary s)
    (query_child_task s) (group_bulk_load_pending_replies s) (secondary_bulk_load_states s)
    (ingestion_is_empty_prepare_sent s) (secondary_disk_status s).

Definition set_p_checkpoint_task (x : option task) (s : primary_context) : primary_context :=
  PrimaryContext (pc s) (statuses s) (learners s) (next_learning_version s) (write_queue s)
    (group_check_task s) (group_check_pending_replies s) (reconfiguration_task s)
    (last_prepare_decree_on_new_primary s) x (last_prepare_ts_ms s) (caught_up_children s)
    (sync_send_write_request s) (register_child_task s) (split_stopped_secondary s)
    (query_child_task s) (group_bulk_load_pending_replies s) (secondary_bulk_load_states s)
    (ingestion_is_empty_prepare_sent s) (secondary_disk_status s).

Definition set_last_prepare_ts_ms (x : Z) (s : primary_context) : primary_context :=
  PrimaryContext (pc s) (statuses s) (learners s) (next_learning_version s) (write_queue s)
    (group_check_task s) (group_check_pending_replies s) (reconfiguration_task s)
    (last_prepare_decree_on_new_primary s) (p_checkpoint_task s) x (caught_up_children s)
    (sync_send_write_request s) (register_child_task s) (split_stopped_secondary s)
    (query_child_task s) (group_bulk_load_pending_replies s) (secondary_bulk_load_states s)
    (ingestion_is_empty_prepare_sent s) (secondary_disk_status s).

Definition set_caught_up_children (x : gset host_port) (s : primary_context) : primary_context :=
  PrimaryContext (pc s) (statuses s) (learners s) (next_learning_version s) (write_queue s)
    (group_check_task s) (group_check_pending_replies s) (reconfiguration_task s)
    (last_prepare_decree_on_new_primary s) (p_checkpoint_task s) (last_prepare_ts_ms s) x
    (sync_send_write_request s) (register_child_task s) (split_stopped_secondary s)
    (query_child_task s) (group_bulk_load_pending_replies s) (secondary_bulk_load_states s)
    (ingestion_is_empty_prepare_sent s) (secondary_disk_status s).

Definition set_sync_send_write_request (x : bool) (s : primary_context) : primary_context :=
  PrimaryContext (pc s) (statuses s) (learners s) (next_learning_version s) (write_queue s)
    (group_check_task s) (group_check_pending_replies s) (reconfiguration_task s)
    (last_prepare_decree_on_new_primary s) (p_checkpoint_task s) (last_prepare_ts_ms s)
    (caught_up_children s) x (register_child_task s) (split_stopped_secondary s)
    (query_child_task s) (group_bulk_load_pending_replies s) (secondary_bulk_load_states s)
    (ingestion_is_empty_prepare_sent s) (secondary_disk_status s).

Definition set_register_child_task (x : option task) (s : primary_context) : primary_context :=
  PrimaryContext (pc s) (statuses s) (learners s) (next_learning_version s) (write_queue s)
    (group_check_task s) (group_check_pending_replies s) (reconfiguration_task s)
    (last_prepare_decree_on_new_primary s) (p_checkpoint_task s) (last_prepare_ts_ms s)
    (caught_up_children s) (sync_send_write_request s) x (split_stopped_secondary s)
    (query_child_task s) (group_bulk_load_pending_replies s) (secondary_bulk_load_states s)
    (ingestion_is_empty_prepare_sent s) (secondary_disk_status s).

Definition set_split_stopped_secondary (x : gset host_port) (s : primary_context) : primary_context :=
  PrimaryContext (pc s) (statuses s) (learners s) (next_learning_version s) (write_queue s)
    (group_check_task s) (group_check_pending_replies s) (reconfiguration_task s)
    (last_prepare_decree_on_new_primary s) (p_checkpoint_task s) (last_prepare_ts_ms s)
    (caught_up_children s) (sync_send_write_request s) (register_child_task s) x
    (query_child_task s) (group_bulk_load_pending_replies s) (secondary_bulk_load_states s)
    (ingestion_is_empty_prepare_sent s) (secondary_disk_status s).

Definition set_query_child_task (x : option task) (s : primary_context) : primary_context :=
  PrimaryContext (pc s) (statuses s) (learners s) (next_learning_version s) (write_queue s)
    (group_check_task s) (group_check_pending_replies s) (reconfiguration_task s)
    (last_prepare_decree_on_new_primary s) (p_checkpoint_task s) (last_prepare_ts_ms s)
    (caught_up_children s) (sync_send_write_request s) (register_child_task s)
    (split_stopped_secondary s) x (group_bulk_load_pending_replies s)
    (secondary_bulk_load_states s) (ingestion_is_empty_prepare_sent s)
    (secondary_disk_status s).

Definition set_group_bulk_load_pending_replies (x : gmap host_port task) (s : primary_context) : primary_context :=
  PrimaryContext (pc s) (statuses s) (learners s) (next_learning_version s) (write_queue s)
    (group_check_task s) (group_check_pending_replies s) (reconfiguration_task s)
    (last_prepare_decree_on_new_primary s) (p_checkpoint_task s) (last_prepare_ts_ms s)
    (caught_up_children s) (sync_send_write_request s) (register_child_task s)
    (split_stopped_secondary s) (query_child_task s) x (secondary_bulk_load_states s)
    (ingestion_is_empty_prepare_sent s) (secondary_disk_status s).

Definition set_secondary_bulk_load_states (x : gmap host_port partition_bulk_load_state) (s : primary_context) : primary_context :=
  PrimaryContext (pc s) (statuses s) (learners s) (next_learning_version s) (write_queue s)
    (group_check_task s) (group_check_pending_replies s) (reconfiguration_task s)
    (last_prepare_decree_on_new_primary s) (p_checkpoint_task s) (last_prepare_ts_ms s)
    (caught_up_children s) (sync_send_write_request s) (register_child_task s)
    (split_stopped_secondary s) (query_child_task s) (group_bulk_load_pending_replies s) x
    (ingestion_is_empty_prepare_sent s) (secondary_disk_status s).

Definition set_ingestion_is_empty_prepare_sent (x : bool) (s : primary_context) : primary_context :=
  PrimaryContext (pc s) (statuses s) (learners s) (next_learning_version s) (write_queue s)
    (group_check_task s) (group_check_pending_replies s) (reconfiguration_task s)
    (last_prepare_decree_on_new_primary s) (p_checkpoint_task s) (last_prepare_ts_ms s)
    (caught_up_children s) (sync_send_write_request s) (register_child_task s)
    (split_stopped_secondary s) (query_child_task s) (group_bulk_load_pending_replies s)
    (secondary_bulk_load_states s) x (secondary_disk_status s).

Definition set_secondary_disk_status (x : gmap host_port disk_status) (s : primary_context) : primary_context :=
  PrimaryContext (pc s) (statuses s) (learners s) (next_learning_version s) (write_queue s)
    (group_check_task s) (group_check_pending_replies s) (reconfiguration_task s)
    (last_prepare_decree_on_new_primary s) (p_checkpoint_task s) (last_prepare_ts_ms s)
    (caught_up_children s) (sync_send_write_request s) (register_child_task s)
    (split_stopped_secondary s) (query_child_task s) (group_bulk_load_pending_replies s)
    (secondary_bulk_load_states s) (ingestion_is_empty_prepare_sent s) x.

(** [primary_context(r, gpid, max_concurrent_2pc_count, batch_write_disabled)]. *)
Definition new_primary_context (now_ms : Z) (p : gpid) (max_op : Z) (batch_disabled : bool)
  : outcome primary_context :=
  let* q := new_mutation_queue p max_op batch_disabled in
  Ret (PrimaryContext (PartitionConfiguration (Gpid 0 0) 0 0 None [] 0) ∅ ∅ 0 q None ∅ None 0 None
         now_ms ∅ false None ∅ None ∅ ∅ false ∅).

Section Tasks.
(** Whether a cancelled task is finished, or is the one that is running now. *)
Context (stopped : task -> bool).

(** [CLEANUP_TASK_ALWAYS(task_)]: [task_] is null afterwards. *)
Definition CLEANUP_TASK_ALWAYS {A} (t : option task) (k : outcome A) : outcome A :=
  match t with
  | Some t => CHECK (stopped t) k
  | None => k
  end.

(** [CLEANUP_TASK(task_, force)]: [None] makes the function return false. *)
Definition CLEANUP_TASK (t : option task) : bool :=
  match t with
  | Some t => stopped t
  | None => true
  end.

Definition cleanup_all (l : gmap host_port task) : bool := forallb stopped (map snd (map_to_list l)).

Definition cleanup_bulk_load_states (s : primary_context) : primary_context :=
  set_ingestion_is_empty_prepare_sent false (set_secondary_bulk_load_states ∅ s).

Definition cleanup_split_states (s : primary_context) : outcome primary_context :=
  CLEANUP_TASK_ALWAYS (register_child_task s) (CLEANUP_TASK_ALWAYS (query_child_task s)
    (Ret (set_split_stopped_secondary ∅ (set_sync_send_write_request false
            (set_caught_up_children ∅ (set_query_child_task None (set_register_child_task None s))))))).

Definition do_cleanup_pending_mutations (clean_pending_mutations : bool) (s : primary_context)
  : primary_context :=
  if clean_pending_mutations then set_write_queue (snd (clear (write_queue s))) s else s.

Definition primary_cleanup (clean_pending_mutations : bool) (s : primary_context)
  : outcome primary_context :=
  let s := do_cleanup_pending_mutations clean_pending_mutations s in
  CLEANUP_TASK_ALWAYS (group_check_task s)
  (CHECK (cleanup_all (group_check_pending_replies s))
  (CLEANUP_TASK_ALWAYS (reconfiguration_task s)
  (CLEANUP_TASK_ALWAYS (p_checkpoint_task s)
  (CHECK (cleanup_all (group_bulk_load_pending_replies s))
    (let s := set_group_bulk_load_pending_replies ∅ (set_p_checkpoint_task None
                (set_reconfiguration_task None (set_group_check_pending_replies ∅
                  (set_group_check_task None s)))) in
     let c := pc s in
     let s := set_pc (PartitionConfiguration (pc_pid c) 0 (max_replica_count c) (hp_primary c)
                        (hp_secondaries c) (pc_last_committed_decree c)) s in
     let* s := cleanup_split_states (cleanup_bulk_load_states s) in
     Ret (set_secondary_disk_status ∅ s)))))).

End Tasks.

Definition primary_is_cleaned (s : primary_context) : bool :=
  bool_decide (group_check_task s = None) && bool_decide (reconfiguration_task s = None) &&
  bool_decide (p_checkpoint_task s = None) && bool_decide (group_check_pending_replies s = ∅) &&
  bool_decide (register_child_task s = None) && bool_decide (query_child_task s = None) &&
  bool_decide (group_bulk_load_pending_replies s = ∅).

(** [reset_membership(new_pc, clear_learners)]. *)
Definition reset_membership (new_pc : partition_configuration) (clear_learners : bool)
  (s : primary_context) : primary_context :=
  let version := if pc_ballot new_pc >? pc_ballot (pc s)
                 then u64 (Z.shiftl (u64 (pc_ballot new_pc)) 32 + 1)
                 else u64 (next_learning_version s + 1) in
  let learners0 := if clear_learners then ∅ else learners s in
  let sts : gmap host_port partition_status :=
    match hp_primary new_pc with Some _ => {[hp_primary new_pc := PS_PRIMARY]} | None => ∅ end in
  let '(sts, learners1) :=
    fold_left (fun '(sts, ls) it => (<[it := PS_SECONDARY]> sts, delete it ls))
      (hp_secondaries new_pc) (sts, learners0) in
  let sts := fold_left (fun sts it => <[it := PS_POTENTIAL_SECONDARY]> sts)
               (map fst (map_to_list learners1)) sts in
  set_pc new_pc (set_next_learning_version version (set_learners learners1 (set_statuses sts s))).

(** [primary_context::get_replica_config(st, config, learner_signature)]. *)
Definition get_replica_config (st : partition_status) (sig : Z) (s : primary_context)
  : replica_configuration :=
  ReplicaConfiguration (pc_pid (pc s)) (pc_ballot (pc s)) (hp_primary (pc s)) st sig false false.

Definition check_exist (node : host_port) (st : partition_status) (s : primary_context)
  : outcome bool :=
  match st with
  | PS_PRIMARY => Ret (bool_decide (hp_primary (pc s) = node))
  | PS_SECONDARY => Ret (bool_decide (node ∈ hp_secondaries (pc s)))
  | PS_POTENTIAL_SECONDARY => Ret (bool_decide (is_Some (learners s !! node)))
  | _ => Abort
  end.

Definition get_node_status (hp : host_port) (s : primary_context) : partition_status :=
  default PS_INACTIVE (statuses s !! hp).

Definition reset_node_bulk_load_states (node : host_port) (s : primary_context) : primary_context :=
  set_secondary_bulk_load_states
    (<[node := PartitionBulkLoadState 0 ERR_OK IS_INVALID false false]> (secondary_bulk_load_states s)) s.

Definition secondary_disk_abnormal (s : primary_context) : bool :=
  existsb (fun d => negb (bool_decide (d = DS_NORMAL))) (map snd (map_to_list (secondary_disk_status s))).

(** [replica_helper::get_replica_config(pc, node, rc)]. *)
Definition replica_config_of (c : partition_configuration) (node : host_port) : replica_configuration :=
  let st := if decide (node = hp_primary c) then PS_PRIMARY
            else if decide (node ∈ hp_secondaries c) then PS_SECONDARY else PS_INACTIVE in
  ReplicaConfiguration (pc_pid c) (pc_ballot c) (hp_primary c) st invalid_signature false false.

(** ** Secondary, potential secondary and split contexts *)

Record secondary_context := SecondaryContext {
  checkpoint_is_running : bool;
  s_checkpoint_task : option task;
  checkpoint_completed_task : option task;
  s_catchup_with_private_log_task : option task
}.

Definition new_secondary_context : secondary_context := SecondaryContext false None None None.

(** [cleanup(force)]: whether it succeeded and the context; a task that is not
    finished ends it early, with the tasks before it already dropped. *)
Definition secondary_cleanup (stopped : task -> bool) (force : bool) (s : secondary_context)
  : outcome (bool * secondary_context) :=
  if negb (CLEANUP_TASK stopped (s_checkpoint_task s)) then Ret (false, s)
  else
    let s1 := SecondaryContext (checkpoint_is_running s) None (checkpoint_completed_task s)
                (s_catchup_with_private_log_task s) in
    let rest (_ : unit) :=
      let s2 := SecondaryContext (checkpoint_is_running s) None None (s_catchup_with_private_log_task s) in
      if negb (CLEANUP_TASK stopped (s_catchup_with_private_log_task s)) then Ret (false, s2)
      else Ret (true, SecondaryContext false None None None) in
    if negb force then CLEANUP_TASK_ALWAYS stopped (checkpoint_completed_task s) (rest tt)
    else if negb (CLEANUP_TASK stopped (checkpoint_completed_task s)) then Ret (false, s1)
    else rest tt.

Definition secondary_is_cleaned (s : secondary_context) : bool := negb (checkpoint_is_running s).

Record learn_tasks := LearnTasks {
  delay_learning_task : option task;
  learning_task : option task;
  learn_remote_files_completed_task : option task;
  completion_notify_task : option task;
  learn_remote_files_task : option task;
  l_catchup_with_private_log_task : option task
}.

Definition no_learn_tasks : learn_tasks := LearnTasks None None None None None None.

Record potential_secondary_context := PotentialSecondaryContext {
  learning_version : Z;
  learning_start_ts_ns : Z;
  learning_copy_file_count : Z;
  learning_copy_file_size : Z;
  learning_copy_buffer_size : Z;
  learning_status : learner_status;
  learning_round_is_running : bool;
  learn_app_concurrent_count_increased : bool;
  learning_start_prepare_decree : Z;
  first_learn_start_decree : Z;
  l_tasks : learn_tasks
}.

Definition new_potential_secondary_context : potential_secondary_context :=
  PotentialSecondaryContext 0 0 0 0 0 LearningInvalid false false invalid_decree invalid_decree
    no_learn_tasks.

Definition set_learning_status (st : learner_status) (s : potential_secondary_context)
  : potential_secondary_context :=
  PotentialSecondaryContext (learning_version s) (learning_start_ts_ns s) (learning_copy_file_count s)
    (learning_copy_file_size s) (learning_copy_buffer_size s) st (learning_round_is_running s)
    (learn_app_concurrent_count_increased s) (learning_start_prepare_decree s)
    (first_learn_start_decree s) (l_tasks s).

Definition set_l_tasks (t : learn_tasks) (s : potential_secondary_context)
  : potential_secondary_context :=
  PotentialSecondaryContext (learning_version s) (learning_start_ts_ns s) (learning_copy_file_count s)
    (learning_copy_file_size s) (learning_copy_buffer_size s) (learning_status s)
    (learning_round_is_running s) (learn_app_concurrent_count_increased s)
    (learning_start_prepare_decree s) (first_learn_start_decree s) t.

(** The four tasks that are dropped first, in order.  Without [force] a task that
    is not finished stops the process; with it, it ends the cleanup. *)
Definition cleanup_learning_tasks (stopped : task -> bool) (force : bool) (t : learn_tasks)
  : outcome (bool * learn_tasks) :=
  let t1 := LearnTasks None (learning_task t) (learn_remote_files_completed_task t)
              (completion_notify_task t) (learn_remote_files_task t) (l_catchup_with_private_log_task t) in
  let t2 := LearnTasks None None (learn_remote_files_completed_task t)
              (completion_notify_task t) (learn_remote_files_task t) (l_catchup_with_private_log_task t) in
  let t3 := LearnTasks None None None
              (completion_notify_task t) (learn_remote_files_task t) (l_catchup_with_private_log_task t) in
  let t4 := LearnTasks None None None None (learn_remote_files_task t) (l_catchup_with_private_log_task t) in
  if negb force then
    CLEANUP_TASK_ALWAYS stopped (delay_learning_task t)
      (CLEANUP_TASK_ALWAYS stopped (learning_task t)
        (CLEANUP_TASK_ALWAYS stopped (learn_remote_files_completed_task t)
          (CLEANUP_TASK_ALWAYS stopped (completion_notify_task t) (Ret (true, t4)))))
  else if negb (CLEANUP_TASK stopped (delay_learning_task t)) then Ret (false, t)
  else if negb (CLEANUP_TASK stopped (learning_task t)) then Ret (false, t1)
  else if negb (CLEANUP_TASK stopped (learn_remote_files_completed_task t)) then Ret (false, t2)
  else if negb (CLEANUP_TASK stopped (completion_notify_task t)) then Ret (false, t3)
  else Ret (true, t4).

(** [potential_secondary_context::cleanup(force)]. *)
Definition potential_secondary_cleanup (stopped : task -> bool) (force : bool)
  (s : potential_secondary_context) : outcome (bool * potential_secondary_context) :=
  let* (ok, t) := cleanup_learning_tasks stopped force (l_tasks s) in
  if negb ok then Ret (false, set_l_tasks t s)
  else if negb (CLEANUP_TASK stopped (learn_remote_files_task t)) then Ret (false, set_l_tasks t s)
  else if negb (CLEANUP_TASK stopped (l_catchup_with_private_log_task t)) then
    Ret (false, set_l_tasks (LearnTasks None None None None None (l_catchup_with_private_log_task t)) s)
  else Ret (true, new_potential_secondary_context).

Definition potential_secondary_is_cleaned (s : potential_secondary_context) : bool :=
  let t := l_tasks s in
  bool_decide (delay_learning_task t = None) && bool_decide (learning_task t = None) &&
  bool_decide (learn_remote_files_task t = None) &&
  bool_decide (learn_remote_files_completed_task t = None) &&
  bool_decide (l_catchup_with_private_log_task t = None) && bool_decide (completion_notify_task t = None).

Record partition_split_context := PartitionSplitContext {
  parent_gpid : gpid;
  is_prepare_list_copied : bool;
  is_caught_up : bool;
  async_learn_task : option task;
  check_state_task : option task
}.

Definition new_partition_split_context : partition_split_context :=
  PartitionSplitContext (Gpid 0 0) false false None None.

(** [partition_split_context::cleanup(force)]; its time stamps and counters are
    only reported. *)
Definition split_cleanup (stopped : task -> bool) (force : bool) (s : partition_split_context)
  : outcome (bool * partition_split_context) :=
  if negb (CLEANUP_TASK stopped (async_learn_task s)) then Ret (false, s)
  else
    let finish := PartitionSplitContext (Gpid 0 (partition_index (parent_gpid s))) false false None None in
    if negb force then CLEANUP_TASK_ALWAYS stopped (check_state_task s) (Ret (true, finish))
    else if negb (CLEANUP_TASK stopped (check_state_task s)) then
      Ret (false, PartitionSplitContext (parent_gpid s) (is_prepare_list_copied s) (is_caught_up s)
                    None (check_state_task s))
    else Ret (true, finish).

Definition split_is_cleaned (s : partition_split_context) : bool :=
  bool_decide (async_learn_task s = None) && bool_decide (check_state_task s = None).

End ReplicaContext.
