(* ===== verification/Replica.v ===== *)
(** * The replica: two-phase commit and configuration changes

    Model of class [replica]: [src/replica/replica_2pc.cpp], [replica_config.cpp],
    [replica_failover.cpp], the commit path of [replica.cpp] and of
    [replication_app_base.cpp], and the part of [split/replica_split_manager.cpp] that takes
    part in two-phase commit.

    The state of a replica is its prepare list together with everything else
    ([replica_state], the list's owner).  Handlers take the inputs they read from outside
    (clock, flags, other components of the process) as [env].  A call into another
    component that does not change the state modelled here (an RPC sent or answered, a log
    append, a notification) is an [effect], recorded in order.  The committer of the
    prepare list is [execute_mutation], which may start the next mutation and so call back
    into the list: the recursion is cut by fuel, and [ReplicaTheory] shows how much is
    needed. *)
From S2P Require Import Prelude Mutation MutationCache PrepareList MutationQueue.
From S2P Require Import ReplicaContext StringConv Strings Throttling RocksdbWrapper.

Module Replica.
Import Mutation MutationCache PrepareList MutationQueue ReplicaContext Throttling RocksdbWrapper.

Definition RPC_RRDB_RRDB_BULK_LOAD : task_code := Strings.str "RPC_RRDB_RRDB_BULK_LOAD".
Definition TASK_CODE_INVALID : task_code := Strings.str "TASK_CODE_INVALID".

(** Enumerations of the idl. *)
Inductive config_type :=
| CT_INVALID | CT_ASSIGN_PRIMARY | CT_UPGRADE_TO_PRIMARY | CT_ADD_SECONDARY | CT_UPGRADE_TO_SECONDARY
| CT_DOWNGRADE_TO_SECONDARY | CT_DOWNGRADE_TO_INACTIVE | CT_REMOVE | CT_ADD_SECONDARY_FOR_LB
| CT_PRIMARY_FORCE_UPDATE_BALLOT | CT_DROP_PARTITION | CT_REGISTER_CHILD.

#[global] Instance config_type_eq_dec : EqDecision config_type.
Proof. solve_decision. Defined.

Inductive bulk_load_status :=
| BLS_INVALID | BLS_DOWNLOADING | BLS_DOWNLOADED | BLS_INGESTING | BLS_SUCCEED | BLS_FAILED
| BLS_PAUSING | BLS_PAUSED | BLS_CANCELED.

#[global] Instance bulk_load_status_eq_dec : EqDecision bulk_load_status.
Proof. solve_decision. Defined.

Inductive split_status := NOT_SPLIT | SPLITTING | PAUSING | PAUSED | CANCELING.

#[global] Instance split_status_eq_dec : EqDecision split_status.
Proof. solve_decision. Defined.

(** What a replica reads of [app_info]. *)
Record app_info := AppInfo {
  app_name : blob;
  app_partition_count : Z;
  app_max_replica_count : Z;
  app_atomic_idempotent : bool;
  app_duplicating : bool
}.

Record deny_client := DenyClient { deny_read : bool; deny_write : bool; deny_reconfig : bool }.

(** The state of [replica_split_manager] of a parent partition. *)
Record split_manager := SplitManager {
  child_gpid : gpid;
  child_init_ballot : Z;
  split_status_ : split_status;
  partition_version : Z
}.

Record configuration_update_request := ConfigurationUpdateRequest {
  cur_duplicating : bool;
  cur_config : partition_configuration;
  cur_type : config_type;
  cur_node : host_port
}.

Record prepare_ack := PrepareAck {
  ack_pid : gpid;
  ack_err : error_code;
  ack_ballot : Z;
  ack_decree : Z;
  last_committed_decree_in_app : Z;
  last_committed_decree_in_prepare_list : Z
}.

(** The body of a prepare message: a mutation as [mutation::write_to] writes it
    and [read_from] reads it. *)
Record prepare_body := PrepareBody { pb_header : mutation_header; pb_updates : list mutation_update }.

(** Calls into other components and processes, in the order they are made. *)
Inductive effect :=
| ResponseClient (is_read : bool) (request : message) (err : error_code)
| DelayClient (is_read : bool) (request : message) (ms : Z)             (* on_client_*(request, true) later *)
| DelayBusy (is_read : bool) (request : message) (ms : Z)               (* ERR_BUSY later *)
| SendPrepare (rpc : task) (to : host_port) (timeout : Z) (mu : mutation_ptr) (target : partition_status)
    (rconfig : replica_configuration) (body : prepare_body)
| DelayPrepare (to : host_port) (target : partition_status) (mu : mutation_ptr) (timeout sig : Z)
| ReplyPrepare (request : Z) (resp : prepare_ack)
| AppendLog (mu : mutation_ptr) (callback : bool)
| CancelTask (t : task)
| UpdateConfigurationOnMeta (rpc : task) (req : configuration_update_request)
| DelayUpdateConfiguration (t : task) (req : configuration_update_request)
| RemoveReplicaOnMeta (req : configuration_update_request)
| LearnAddLearner (to : host_port) (config : replica_configuration) (last_committed : Z)
| RemoveReplicaRpc (to : host_port) (config : replica_configuration)
| StoreInitInfo (ballot durable : Z)
| StoreAppInfo
| NotifyStateUpdate (config : replica_configuration) (is_closing : bool)
| BeginClose
| CancelBackup
| ClearBulkLoad
| CopyToChild (child : gpid) (mu : mutation)
| AckParent (parent : gpid) (err : error_code) (ballot decree : Z)
| CleanupParent (parent : gpid)                    (* parent_cleanup_split_context on the parent *)
| TriggerSplit (partition_count : Z)
| ReadRequest (request : message).

(** The storage engine behind a replica: the virtual functions of
    [replication_app_base] that two-phase commit calls.  [make_idempotent_of] gives the
    status, the idempotent requests and whether a writer was made for them. *)
Class StorageApp (St : Type) := {
  on_batched_write_requests : Z -> Z -> list message -> option message -> St -> Z * St;
  make_idempotent_of : message -> St -> Z * list message * bool * St;
  storage_last_durable_decree : St -> Z;
  on_request : message -> St -> Z
}.

(** Inputs of a handler. *)
Record env := Env {
  self : host_port;                              (* _stub->primary_host_port() *)
  now_ms : Z;
  now_us : Z;
  is_connected : bool;                           (* _stub->is_connected() *)
  allowed : bool -> message -> bool;             (* access controller; true for reads *)
  is_backup_request : message -> bool;
  stopped : task -> bool;                        (* a cancelled task is finished *)
  split_replica_exec : gpid -> error_code;
  store_app_info_ok : bool;
  task_spec_get : task_code -> option task_spec;
  sizeof_header : Z;
  has_private_log : bool;
  s_not_exit_on_log_failure : bool;
  FLAGS_max_allowed_write_size : Z;
  FLAGS_reject_write_when_disk_insufficient : bool;
  FLAGS_staleness_for_commit : Z;
  FLAGS_max_mutation_count_in_prepare_list : Z;
  FLAGS_prepare_timeout_ms_for_secondaries : Z;
  FLAGS_prepare_timeout_ms_for_potential_secondaries : Z;
  FLAGS_mutation_2pc_min_replica_count : Z;
  FLAGS_group_check_disabled : bool;
  FLAGS_fd_disabled : bool;
  FLAGS_lock_map_capacity : Z;
  verbose_commit_log : bool
}.

Section Storage.
Context {St : Type} `{StorageApp St}.

(** Everything of a replica but its prepare list.  [last_ts] is the state of
    [uniq_timestamp_us]; [next_task] numbers tasks and RPCs. *)
Record replica_state := ReplicaState {
  r_gpid : gpid;
  app_lcd : Z;
  storage : St;
  config : replica_configuration;
  pstates : primary_context;
  sstates : secondary_context;
  lstates : potential_secondary_context;
  split_states : partition_split_context;
  app_info_ : app_info;
  inactive_is_transient : bool;
  is_initializing : bool;
  deny_client_ : deny_client;
  write_qps : throttling_controller;
  write_size : throttling_controller;
  read_qps : throttling_controller;
  backup_qps : throttling_controller;
  is_duplication_master : bool;
  bulk_load : bulk_load_status;
  is_bulk_load_ingestion : bool;
  bulk_load_ingestion_start_time_ms : Z;
  split_mgr : split_manager;
  validate_partition_hash : bool;
  dir_status : disk_status;
  data_corrupted : bool;
  last_ts : Z;
  next_task : Z;
  effects : list effect
}.

(** Field updates. *)
Definition set_app_lcd (x : Z) (s : replica_state) : replica_state :=
  ReplicaState (r_gpid s) x (storage s) (config s) (pstates s) (sstates s) (lstates s)
    (split_states s) (app_info_ s) (inactive_is_transient s) (is_initializing s)
    (deny_client_ s) (write_qps s) (write_size s) (read_qps s) (backup_qps s)
    (is_duplication_master s) (bulk_load s) (is_bulk_load_ingestion s)
    (bulk_load_ingestion_start_time_ms s) (split_mgr s) (validate_partition_hash s)
    (dir_status s) (data_corrupted s) (last_ts s) (next_task s) (effects s).

Definition set_storage (x : St) (s : replica_state) : replica_state :=
  ReplicaState (r_gpid s) (app_lcd s) x (config s) (pstates s) (sstates s) (lstates s)
    (split_states s) (app_info_ s) (inactive_is_transient s) (is_initializing s)
    (deny_client_ s) (write_qps s) (write_size s) (read_qps s) (backup_qps s)
    (is_duplication_master s) (bulk_load s) (is_bulk_load_ingestion s)
    (bulk_load_ingestion_start_time_ms s) (split_mgr s) (validate_partition_hash s)
    (dir_status s) (data_corrupted s) (last_ts s) (next_task s) (effects s).

Definition set_config (x : replica_configuration) (s : replica_state) : replica_state :=
  ReplicaState (r_gpid s) (app_lcd s) (storage s) x (pstates s) (sstates s) (lstates s)
    (split_states s) (app_info_ s) (inactive_is_transient s) (is_initializing s)
    (deny_client_ s) (write_qps s) (write_size s) (read_qps s) (backup_qps s)
    (is_duplication_master s) (bulk_load s) (is_bulk_load_ingestion s)
    (bulk_load_ingestion_start_time_ms s) (split_mgr s) (validate_partition_hash s)
    (dir_status s) (data_corrupted s) (last_ts s) (next_task s) (effects s).

Definition set_pstates (x : primary_context) (s : replica_state) : replica_state :=
  ReplicaState (r_gpid s) (app_lcd s) (storage s) (config s) x (sstates s) (lstates s)
    (split_states s) (app_info_ s) (inactive_is_transient s) (is_initializing s)
    (deny_client_ s) (write_qps s) (write_size s) (read_qps s) (backup_qps s)
    (is_duplication_master s) (bulk_load s) (is_bulk_load_ingestion s)
    (bulk_load_ingestion_start_time_ms s) (split_mgr s) (validate_partition_hash s)
    (dir_status s) (data_corrupted s) (last_ts s) (next_task s) (effects s).

Definition set_sstates (x : secondary_context) (s : replica_state) : replica_state :=
  ReplicaState (r_gpid s) (app_lcd s) (storage s) (config s) (pstates s) x (lstates s)
    (split_states s) (app_info_ s) (inactive_is_transient s) (is_initializing s)
    (deny_client_ s) (write_qps s) (write_size s) (read_qps s) (backup_qps s)
    (is_duplication_master s) (bulk_load s) (is_bulk_load_ingestion s)
    (bulk_load_ingestion_start_time_ms s) (split_mgr s) (validate_partition_hash s)
    (dir_status s) (data_corrupted s) (last_ts s) (next_task s) (effects s).

Definition set_lstates (x : potential_secondary_context) (s : replica_state) : replica_state :=
  ReplicaState (r_gpid s) (app_lcd s) (storage s) (config s) (pstates s) (sstates s) x
    (split_states s) (app_info_ s) (inactive_is_transient s) (is_initializing s)
    (deny_client_ s) (write_qps s) (write_size s) (read_qps s) (backup_qps s)
    (is_duplication_master s) (bulk_load s) (is_bulk_load_ingestion s)
    (bulk_load_ingestion_start_time_ms s) (split_mgr s) (validate_partition_hash s)
    (dir_status s) (data_corrupted s) (last_ts s) (next_task s) (effects s).

Definition set_split_states (x : partition_split_context) (s : replica_state) : replica_state :=
  ReplicaState (r_gpid s) (app_lcd s) (storage s) (config s) (pstates s) (sstates s)
    (lstates s) x (app_info_ s) (inactive_is_transient s) (is_initializing s) (deny_client_ s)
    (write_qps s) (write_size s) (read_qps s) (backup_qps s) (is_duplication_master s)
    (bulk_load s) (is_bulk_load_ingestion s) (bulk_load_ingestion_start_time_ms s)
    (split_mgr s) (validate_partition_hash s) (dir_status s) (data_corrupted s) (last_ts s)
    (next_task s) (effects s).

Definition set_app_info_ (x : app_info) (s : replica_state) : replica_state :=
  ReplicaState (r_gpid s) (app_lcd s) (storage s) (config s) (pstates s) (sstates s)
    (lstates s) (split_states s) x (inactive_is_transient s) (is_initializing s)
    (deny_client_ s) (write_qps s) (write_size s) (read_qps s) (backup_qps s)
    (is_duplication_master s) (bulk_load s) (is_bulk_load_ingestion s)
    (bulk_load_ingestion_start_time_ms s) (split_mgr s) (validate_partition_hash s)
    (dir_status s) (data_corrupted s) (last_ts s) (next_task s) (effects s).

Definition set_inactive_is_transient (x : bool) (s : replica_state) : replica_state :=
  ReplicaState (r_gpid s) (app_lcd s) (storage s) (config s) (pstates s) (sstates s)
    (lstates s) (split_states s) (app_info_ s) x (is_initializing s) (deny_client_ s)
    (write_qps s) (write_size s) (read_qps s) (backup_qps s) (is_duplication_master s)
    (bulk_load s) (is_bulk_load_ingestion s) (bulk_load_ingestion_start_time_ms s)
    (split_mgr s) (validate_partition_hash s) (dir_status s) (data_corrupted s) (last_ts s)
    (next_task s) (effects s).

Definition set_is_initializing (x : bool) (s : replica_state) : replica_state :=
  ReplicaState (r_gpid s) (app_lcd s) (storage s) (config s) (pstates s) (sstates s)
    (lstates s) (split_states s) (app_info_ s) (inactive_is_transient s) x (deny_client_ s)
    (write_qps s) (write_size s) (read_qps s) (backup_qps s) (is_duplication_master s)
    (bulk_load s) (is_bulk_load_ingestion s) (bulk_load_ingestion_start_time_ms s)
    (split_mgr s) (validate_partition_hash s) (dir_status s) (data_corrupted s) (last_ts s)
    (next_task s) (effects s).

Definition set_deny_client_ (x : deny_client) (s : replica_state) : replica_state :=
  ReplicaState (r_gpid s) (app_lcd s) (storage s) (config s) (pstates s) (sstates s)
    (lstates s) (split_states s) (app_info_ s) (inactive_is_transient s) (is_initializing s) x
    (write_qps s) (write_size s) (read_qps s) (backup_qps s) (is_duplication_master s)
    (bulk_load s) (is_bulk_load_ingestion s) (bulk_load_ingestion_start_time_ms s)
    (split_mgr s) (validate_partition_hash s) (dir_status s) (data_corrupted s) (last_ts s)
    (next_task s) (effects s).

Definition set_write_qps (x : throttling_controller) (s : replica_state) : replica_state :=
  ReplicaState (r_gpid s) (app_lcd s) (storage s) (config s) (pstates s) (sstates s)
    (lstates s) (split_states s) (app_info_ s) (inactive_is_transient s) (is_initializing s)
    (deny_client_ s) x (write_size s) (read_qps s) (backup_qps s) (is_duplication_master s)
    (bulk_load s) (is_bulk_load_ingestion s) (bulk_load_ingestion_start_time_ms s)
    (split_mgr s) (validate_partition_hash s) (dir_status s) (data_corrupted s) (last_ts s)
    (next_task s) (effects s).

Definition set_write_size (x : throttling_controller) (s : replica_state) : replica_state :=
  ReplicaState (r_gpid s) (app_lcd s) (storage s) (config s) (pstates s) (sstates s)
    (lstates s) (split_states s) (app_info_ s) (inactive_is_transient s) (is_initializing s)
    (deny_client_ s) (write_qps s) x (read_qps s) (backup_qps s) (is_duplication_master s)
    (bulk_load s) (is_bulk_load_ingestion s) (bulk_load_ingestion_start_time_ms s)
    (split_mgr s) (validate_partition_hash s) (dir_status s) (data_corrupted s) (last_ts s)
    (next_task s) (effects s).

Definition set_read_qps (x : throttling_controller) (s : replica_state) : replica_state :=
  ReplicaState (r_gpid s) (app_lcd s) (storage s) (config s) (pstates s) (sstates s)
    (lstates s) (split_states s) (app_info_ s) (inactive_is_transient s) (is_initializing s)
    (deny_client_ s) (write_qps s) (write_size s) x (backup_qps s) (is_duplication_master s)
    (bulk_load s) (is_bulk_load_ingestion s) (bulk_load_ingestion_start_time_ms s)
    (split_mgr s) (validate_partition_hash s) (dir_status s) (data_corrupted s) (last_ts s)
    (next_task s) (effects s).

Definition set_backup_qps (x : throttling_controller) (s : replica_state) : replica_state :=
  ReplicaState (r_gpid s) (app_lcd s) (storage s) (config s) (pstates s) (sstates s)
    (lstates s) (split_states s) (app_info_ s) (inactive_is_transient s) (is_initializing s)
    (deny_client_ s) (write_qps s) (write_size s) (read_qps s) x (is_duplication_master s)
    (bulk_load s) (is_bulk_load_ingestion s) (bulk_load_ingestion_start_time_ms s)
    (split_mgr s) (validate_partition_hash s) (dir_status s) (data_corrupted s) (last_ts s)
    (next_task s) (effects s).

Definition set_is_duplication_master (x : bool) (s : replica_state) : replica_state :=
  ReplicaState (r_gpid s) (app_lcd s) (storage s) (config s) (pstates s) (sstates s)
    (lstates s) (split_states s) (app_info_ s) (inactive_is_transient s) (is_initializing s)
    (deny_client_ s) (write_qps s) (write_size s) (read_qps s) (backup_qps s) x (bulk_load s)
    (is_bulk_load_ingestion s) (bulk_load_ingestion_start_time_ms s) (split_mgr s)
    (validate_partition_hash s) (dir_status s) (data_corrupted s) (last_ts s) (next_task s)
    (effects s).

Definition set_bulk_load (x : bulk_load_status) (s : replica_state) : replica_state :=
  ReplicaState (r_gpid s) (app_lcd s) (storage s) (config s) (pstates s) (sstates s)
    (lstates s) (split_states s) (app_info_ s) (inactive_is_transient s) (is_initializing s)
    (deny_client_ s) (write_qps s) (write_size s) (read_qps s) (backup_qps s)
    (is_duplication_master s) x (is_bulk_load_ingestion s)
    (bulk_load_ingestion_start_time_ms s) (split_mgr s) (validate_partition_hash s)
    (dir_status s) (data_corrupted s) (last_ts s) (next_task s) (effects s).

Definition set_is_bulk_load_ingestion (x : bool) (s : replica_state) : replica_state :=
  ReplicaState (r_gpid s) (app_lcd s) (storage s) (config s) (pstates s) (sstates s)
    (lstates s) (split_states s) (app_info_ s) (inactive_is_transient s) (is_initializing s)
    (deny_client_ s) (write_qps s) (write_size s) (read_qps s) (backup_qps s)
    (is_duplication_master s) (bulk_load s) x (bulk_load_ingestion_start_time_ms s)
    (split_mgr s) (validate_partition_hash s) (dir_status s) (data_corrupted s) (last_ts s)
    (next_task s) (effects s).

Definition set_bulk_load_ingestion_start_time_ms (x : Z) (s : replica_state) : replica_state :=
  ReplicaState (r_gpid s) (app_lcd s) (storage s) (config s) (pstates s) (sstates s)
    (lstates s) (split_states s) (app_info_ s) (inactive_is_transient s) (is_initializing s)
    (deny_client_ s) (write_qps s) (write_size s) (read_qps s) (backup_qps s)
    (is_duplication_master s) (bulk_load s) (is_bulk_load_ingestion s) x (split_mgr s)
    (validate_partition_hash s) (dir_status s) (data_corrupted s) (last_ts s) (next_task s)
    (effects s).

Definition set_split_mgr (x : split_manager) (s : replica_state) : replica_state :=
  ReplicaState (r_gpid s) (app_lcd s) (storage s) (config s) (pstates s) (sstates s)
    (lstates s) (split_states s) (app_info_ s) (inactive_is_transient s) (is_initializing s)
    (deny_client_ s) (write_qps s) (write_size s) (read_qps s) (backup_qps s)
    (is_duplication_master s) (bulk_load s) (is_bulk_load_ingestion s)
    (bulk_load_ingestion_start_time_ms s) x (validate_partition_hash s) (dir_status s)
    (data_corrupted s) (last_ts s) (next_task s) (effects s).

Definition set_validate_partition_hash (x : bool) (s : replica_state) : replica_state :=
  ReplicaState (r_gpid s) (app_lcd s) (storage s) (config s) (pstates s) (sstates s)
    (lstates s) (split_states s) (app_info_ s) (inactive_is_transient s) (is_initializing s)
    (deny_client_ s) (write_qps s) (write_size s) (read_qps s) (backup_qps s)
    (is_duplication_master s) (bulk_load s) (is_bulk_load_ingestion s)
    (bulk_load_ingestion_start_time_ms s) (split_mgr s) x (dir_status s) (data_corrupted s)
    (last_ts s) (next_task s) (effects s).

Definition set_dir_status (x : disk_status) (s : replica_state) : replica_state :=
  ReplicaState (r_gpid s) (app_lcd s) (storage s) (config s) (pstates s) (sstates s)
    (lstates s) (split_states s) (app_info_ s) (inactive_is_transient s) (is_initializing s)
    (deny_client_ s) (write_qps s) (write_size s) (read_qps s) (backup_qps s)
    (is_duplication_master s) (bulk_load s) (is_bulk_load_ingestion s)
    (bulk_load_ingestion_start_time_ms s) (split_mgr s) (validate_partition_hash s) x
    (data_corrupted s) (last_ts s) (next_task s) (effects s).

Definition set_data_corrupted (x : bool) (s : replica_state) : replica_state :=
  ReplicaState (r_gpid s) (app_lcd s) (storage s) (config s) (pstates s) (sstates s)
    (lstates s) (split_states s) (app_info_ s) (inactive_is_transient s) (is_initializing s)
    (deny_client_ s) (write_qps s) (write_size s) (read_qps s) (backup_qps s)
    (is_duplication_master s) (bulk_load s) (is_bulk_load_ingestion s)
    (bulk_load_ingestion_start_time_ms s) (split_mgr s) (validate_partition_hash s)
    (dir_status s) x (last_ts s) (next_task s) (effects s).

Definition set_last_ts (x : Z) (s : replica_state) : replica_state :=
  ReplicaState (r_gpid s) (app_lcd s) (storage s) (config s) (pstates s) (sstates s)
    (lstates s) (split_states s) (app_info_ s) (inactive_is_transient s) (is_initializing s)
    (deny_client_ s) (write_qps s) (write_size s) (read_qps s) (backup_qps s)
    (is_duplication_master s) (bulk_load s) (is_bulk_load_ingestion s)
    (bulk_load_ingestion_start_time_ms s) (split_mgr s) (validate_partition_hash s)
    (dir_status s) (data_corrupted s) x (next_task s) (effects s).

Definition set_next_task (x : Z) (s : replica_state) : replica_state :=
  ReplicaState (r_gpid s) (app_lcd s) (storage s) (config s) (pstates s) (sstates s)
    (lstates s) (split_states s) (app_info_ s) (inactive_is_transient s) (is_initializing s)
    (deny_client_ s) (write_qps s) (write_size s) (read_qps s) (backup_qps s)
    (is_duplication_master s) (bulk_load s) (is_bulk_load_ingestion s)
    (bulk_load_ingestion_start_time_ms s) (split_mgr s) (validate_partition_hash s)
    (dir_status s) (data_corrupted s) (last_ts s) x (effects s).

Definition set_effects (x : list effect) (s : replica_state) : replica_state :=
  ReplicaState (r_gpid s) (app_lcd s) (storage s) (config s) (pstates s) (sstates s)
    (lstates s) (split_states s) (app_info_ s) (inactive_is_transient s) (is_initializing s)
    (deny_client_ s) (write_qps s) (write_size s) (read_qps s) (backup_qps s)
    (is_duplication_master s) (bulk_load s) (is_bulk_load_ingestion s)
    (bulk_load_ingestion_start_time_ms s) (split_mgr s) (validate_partition_hash s)
    (dir_status s) (data_corrupted s) (last_ts s) (next_task s) x.

Abbreviation replica := (plist replica_state).

Definition status (p : replica) : partition_status := rc_status (config (owner p)).
Definition get_ballot (p : replica) : Z := rc_ballot (config (owner p)).
Definition get_gpid (p : replica) : gpid := r_gpid (owner p).
Definition max_prepared_decree (p : replica) : Z := max_decree (cache p).
Definition last_durable_decree (p : replica) : Z := storage_last_durable_decree (storage (owner p)).
Definition has_status (p : replica) (s : partition_status) : bool := bool_decide (status p = s).

(** State updates. *)
Definition upd (f : replica_state -> replica_state) (p : replica) : replica :=
  PList (cache p) (last_committed p) (objects p) (committed p) (f (owner p)).

Definition emit (e : effect) : replica -> replica := upd (fun s => set_effects (effects s ++ [e]) s).

Definition upd_primary (f : primary_context -> primary_context) : replica -> replica :=
  upd (fun s => set_pstates (f (pstates s)) s).

Definition set_mu (q : mutation_ptr) (m : mutation) (p : replica) : replica :=
  PList (cache p) (last_committed p) (<[q := m]> (objects p)) (committed p) (owner p).

(** A new object. *)
Definition alloc (m : mutation) (p : replica) : mutation_ptr * replica :=
  let q := fresh (dom (objects p)) in (q, set_mu q m p).

Definition new_task (p : replica) : task * replica :=
  let t := next_task (owner p) in (t, upd (set_next_task (t + 1)) p).

Definition response_client_write (request : option message) (err : error_code) (p : replica) : replica :=
  match request with Some r => emit (ResponseClient false r err) p | None => p end.

Definition response_client_read (request : message) (err : error_code) : replica -> replica :=
  emit (ResponseClient true request err).

Fixpoint response_all (requests : list (option message)) (err : error_code) (p : replica) : replica :=
  match requests with
  | [] => p
  | r :: rest => response_all rest err (response_client_write r err p)
  end.

(** What the mutation queue reads of its replica. *)
Definition queue_env (e : env) (p : replica) : replica_env :=
  ReplicaEnv (get_gpid p) (get_ballot p) (app_atomic_idempotent (app_info_ (owner p)))
    (app_lcd (owner p)) (FLAGS_lock_map_capacity e) (sizeof_header e).

(** [new_mutation(d)]. *)
Definition new_mutation_of (e : env) (d : Z) (p : replica) : mutation :=
  new_mutation_obj (sizeof_header e) (MutationHeader (get_gpid p) (get_ballot p) d invalid_offset 0 0).

(** [uniq_timestamp_us]. *)
Definition ts_next (e : env) (p : replica) : Z * replica :=
  let t := Z.max (now_us e) (u64 (last_ts (owner p) + 1)) in (t, upd (set_last_ts t) p).

Definition ts_try_update (new_ts : Z) : replica -> replica :=
  upd (fun s => if new_ts >? last_ts s then set_last_ts new_ts s else s).

(** [replication_options::app_mutation_2pc_min_replica_count]. *)
Definition app_mutation_2pc_min_replica_count (e : env) (app_max : Z) : outcome Z :=
  CHECK (app_max >? 0)
    (Ret (if FLAGS_mutation_2pc_min_replica_count e >? 0 then FLAGS_mutation_2pc_min_replica_count e
          else if app_max <=? 2 then 1 else app_max ÷ 2 + 1)).

Definition secondary_count (p : replica) : Z := Z.of_nat (length (hp_secondaries (pc (pstates (owner p))))).

(** [is_duplication_master], [need_reject_non_idempotent], [need_make_idempotent]. *)
Definition need_reject_non_idempotent (spec : task_spec) (p : replica) : bool :=
  if negb (is_duplication_master (owner p)) then false
  else if app_atomic_idempotent (app_info_ (owner p)) then false
  else negb (rpc_request_is_write_idempotent spec).

Definition need_make_idempotent_request (e : env) (request : option message) (p : replica) : outcome bool :=
  match request with
  | None => Ret false
  | Some r =>
      if negb (app_atomic_idempotent (app_info_ (owner p))) then Ret false
      else match task_spec_get e (rpc_code r) with
           | None => Abort
           | Some spec => Ret (negb (rpc_request_is_write_idempotent spec))
           end
  end.

(** [make_idempotent(mu)]: the status, the mutation to go on with. *)
Definition make_idempotent (e : env) (mu : mutation) (p : replica) : outcome (Z * mutation * replica) :=
  match client_requests mu with
  | [] => Abort
  | front :: others =>
      let* need := need_make_idempotent_request e front p in
      match front, need with
      | Some request, true =>
          CHECK (bool_decide (others = []))
            (let '(err, new_requests, has_writer, st) := make_idempotent_of request (storage (owner p)) in
             let p := upd (set_storage st) p in
             if negb (err =? kOk) then Ret (err, mu, p)
             else CHECK (bool_decide (new_requests <> [])) (CHECK has_writer
                    (CHECK (get_decree mu =? invalid_decree)
                      (let m := new_mutation_of e invalid_decree p in
                       let m := with_origin (is_blocking_candidate m) (sync_to_child m) (Some request) m in
                       Ret (kOk, fold_left (fun m r => add_client_request (Some r) m) new_requests m, p)))))
      | _, _ => Ret (kOk, mu, p)
      end
  end.

(** [reply_with_error(mu, err)]. *)
Definition reply_with_error (mu : mutation) (err : error_code) (p : replica) : replica :=
  match idem_writer mu with
  | Some r => response_client_write (Some r) err p
  | None => response_all (client_requests mu) err p
  end.

(** [send_prepare_message]. *)
Definition send_prepare_message (hp : host_port) (target : partition_status) (q : mutation_ptr)
  (timeout : Z) (pop_all_committed_mutations : bool) (learn_signature : Z) (p : replica) : outcome replica :=
  let* m := deref (objects p !! q) in
  let c := get_replica_config target learn_signature (pstates (owner p)) in
  let sync := bool_decide (target = PS_SECONDARY) && sync_send_write_request (pstates (owner p)) in
  let rconfig := ReplicaConfiguration (rc_pid c) (rc_ballot c) (rc_primary c) (rc_status c)
                   (learner_signature c) pop_all_committed_mutations sync in
  let (t, p) := new_task p in
  let p := emit (SendPrepare t hp timeout q target rconfig (PrepareBody (header m) (updates m))) p in
  Ret (set_mu q (set_remote_task hp t m) p).

(** [for (secondary : hp_secondaries) send_prepare_message(...)]. *)
Fixpoint send_to_secondaries (e : env) (l : list host_port) (q : mutation_ptr) (pop : bool) (p : replica)
  : outcome replica :=
  match l with
  | [] => Ret p
  | hp :: l =>
      let* p := send_prepare_message hp PS_SECONDARY q (FLAGS_prepare_timeout_ms_for_secondaries e)
                  pop invalid_signature p in
      send_to_secondaries e l q pop p
  end.

(** The loop over the learners, with the number of messages sent. *)
Fixpoint send_to_learners (e : env) (l : list (host_port * remote_learner_state)) (q : mutation_ptr)
  (d : Z) (pop : bool) (count : Z) (p : replica) : outcome (Z * replica) :=
  match l with
  | [] => Ret (count, p)
  | (hp, s) :: l =>
      if negb (prepare_start_decree s =? invalid_decree) && (d >=? prepare_start_decree s) then
        let* p := send_prepare_message hp PS_POTENTIAL_SECONDARY q
                    (FLAGS_prepare_timeout_ms_for_potential_secondaries e) pop (signature s) p in
        send_to_learners e l q d pop (u8 (count + 1)) p
      else send_to_learners e l q d pop count p
  end.

(** ** Partition split ([split/replica_split_manager.{h,cpp}]) *)

Definition is_splitting (p : replica) : bool :=
  let s := split_mgr (owner p) in
  (app_id (child_gpid s) >? 0) && (child_init_ballot s >? 0) && bool_decide (split_status_ s = SPLITTING).

Definition parent_cleanup_split_context : replica -> replica :=
  upd (fun s => set_split_mgr
    (SplitManager (Gpid 0 (partition_index (child_gpid (split_mgr s)))) 0 NOT_SPLIT
       (partition_version (split_mgr s))) s).

Definition should_reject_request (p : replica) : bool := partition_version (split_mgr (owner p)) =? -1.

(** The version is converted to 64 bits, the index compared as unsigned. *)
Definition check_partition_hash (hash : Z) (p : replica) : bool :=
  Z.land (u64 (partition_version (split_mgr (owner p)))) hash =? u64 (partition_index (get_gpid p)).

(** [copy_mutation(mu)]. *)
Definition copy_mutation (e : env) (q : mutation_ptr) (p : replica) : outcome replica :=
  let child := child_gpid (split_mgr (owner p)) in
  CHECK (app_id child >? 0)
    (let* m := deref (objects p !! q) in
     let m := if sync_to_child m then set_wait_child true m else m in
     let p := emit (CopyToChild child (copy_no_reply (sizeof_header e) m)) (set_mu q m p) in
     Ret (if is_ok (split_replica_exec e child) then p else parent_cleanup_split_context p)).

(** ** The prepare phase *)

(** The check of leading bulk load requests in [init_prepare]. *)
Fixpoint bulk_load_check (l : list mutation_update) (enough : bool) : error_code :=
  match l with
  | [] => ERR_OK
  | u :: l => if negb (bool_decide (code u = RPC_RRDB_RRDB_BULK_LOAD)) then ERR_OK
              else if negb enough then ERR_NOT_ENOUGH_MEMBER else bulk_load_check l enough
  end.

(** The header [init_prepare] gives to a mutation. *)
Definition assign_id (e : env) (m : mutation) (p : replica) : mutation * replica :=
  let m := with_header (fun h => MutationHeader (pid h) (ballot h) (decree h) (log_offset h)
                          (last_committed p) (timestamp h)) m in
  let '(m, p) :=
    if get_decree m =? invalid_decree then
      let m := set_id (get_ballot p) (max_prepared_decree p + 1) m in
      let '(t, p) := ts_next e p in (set_timestamp (i64 t) m, p)
    else (set_id (get_ballot p) (get_decree m) m, p) in
  (set_is_sync_to_child (sync_send_write_request (pstates (owner p))) m, p).

Section Committer.
(** [execute_mutation], the committer given to the prepare list. *)
Context (exec : mutation_ptr -> replica -> outcome replica).

Definition do_possible_commit_on_primary (q : mutation_ptr) (p : replica) : outcome replica :=
  let* m := deref (objects p !! q) in
  CHECK (get_ballot p =? Mutation.get_ballot m) (CHECK (has_status p PS_PRIMARY)
    (if is_ready_for_commit m then commit exec (get_decree m) COMMIT_ALL_READY p else Ret p)).

(** The remote part of [init_prepare], once the mutation is in the list. *)
Definition start_2pc (e : env) (q : mutation_ptr) (pop : bool) (p : replica) : outcome replica :=
  let* m := deref (objects p !! q) in
  let* queue := enter_2pc (task_spec_get e) (queue_env e p) m (write_queue (pstates (owner p))) in
  let p := upd_primary (set_write_queue queue) p in
  let m := set_left_secondary_ack_count (u32 (secondary_count p)) (set_prepare_ts (now_ms e) m) in
  let p := set_mu q m p in
  let* p := send_to_secondaries e (hp_secondaries (pc (pstates (owner p)))) q pop p in
  let* (count, p) := send_to_learners e (map_to_list (learners (pstates (owner p)))) q (get_decree m)
                       pop 0 p in
  let* m := deref (objects p !! q) in
  let p := set_mu q (set_left_potential_secondary_ack_count count m) p in
  let* p := if is_splitting p then copy_mutation e q p else Ret p in
  let* m := deref (objects p !! q) in
  let* p :=
    if is_logged m then do_possible_commit_on_primary q p
    else CHECK (log_offset (header m) =? invalid_offset) (CHECK (negb (has_log_task m))
           (Ret (emit (AppendLog q true) (set_mu q (set_log_task m) p)))) in
  Ret (upd_primary (set_last_prepare_ts_ms (prepare_ts_ms m)) p).

(** [init_prepare(mu, reconciliation, pop_all_committed_mutations)]. *)
Definition init_prepare (e : env) (mu : mutation) (reconciliation pop : bool) (p : replica) : outcome replica :=
  CHECK (has_status p PS_PRIMARY)
    (let* (err, mu, p) := make_idempotent e mu p in
     if negb (err =? kOk) then Ret p
     else
       let '(mu, p) := assign_id e mu p in
       if get_decree mu >? last_committed p + FLAGS_staleness_for_commit e then
         Ret (reply_with_error mu ERR_CAPACITY_EXCEEDED p)
       else
         let enough := negb (i32 (secondary_count p) + 1 <? max_replica_count (pc (pstates (owner p)))) in
         let err := bulk_load_check (take (length (client_requests mu)) (updates mu)) enough in
         if negb (is_ok err) then Ret (reply_with_error mu err p)
         else
           let* min := app_mutation_2pc_min_replica_count e (app_max_replica_count (app_info_ (owner p))) in
           if (i32 (secondary_count p) + 1 <? min) && negb reconciliation then
             Ret (reply_with_error mu ERR_NOT_ENOUGH_MEMBER p)
           else
             CHECK (get_decree mu >? last_committed p)
               (let '(q, p) := alloc mu p in
                let* (err, p) := prepare exec q PS_PRIMARY pop true p in
                if negb (is_ok err) then Ret (reply_with_error mu err p)
                else start_2pc e q pop p)).

(** [next_work] of the queue, and its mutation prepared. *)
Definition prepare_next (e : env) (running : Z) (p : replica) : outcome replica :=
  let* (next, queue) := next_work (task_spec_get e) (queue_env e p) (i32 running)
                          (write_queue (pstates (owner p))) in
  let p := upd_primary (set_write_queue queue) p in
  match next with
  | Some m => init_prepare e m false false p
  | None => Ret p
  end.

(** [replay_prepare_list]: decrees from [d] on, [n] of them. *)
Fixpoint replay_loop (e : env) (n : nat) (d : Z) (p : replica) : outcome replica :=
  match n with
  | O => Ret p
  | S n' =>
      let* old := get_mutation_by_decree d (cache p) in
      let mu := new_mutation_of e d p in
      let* mu := match old with
                 | Some q => let* o := deref (objects p !! q) in Ret (copy_from o mu)
                 | None => Ret (add_client_request None mu)
                 end in
      let* p := init_prepare e mu true false p in
      replay_loop e n' (d + 1) p
  end.

Definition replay_prepare_list (e : env) (p : replica) : outcome replica :=
  replay_loop e (Z.to_nat (max_prepared_decree p - last_committed p)) (last_committed p + 1) p.

(** ** Configuration changes ([replica_config.cpp]) *)

(** [cleanup_preparing_mutations(false)]; waiting for the log does not change the
    state. *)
Fixpoint cleanup_loop (n : nat) (d : Z) (p : replica) : outcome replica :=
  match n with
  | O => Ret p
  | S n' =>
      let* o := get_mutation_by_decree d (cache p) in
      match o with
      | None => cleanup_loop n' (d + 1) p
      | Some q =>
          let* m := deref (objects p !! q) in
          let '(ts, m) := clear_prepare_or_commit_tasks m in
          cleanup_loop n' (d + 1) (fold_left (fun p t => emit (CancelTask t) p) ts (set_mu q m p))
      end
  end.

Definition cleanup_preparing_mutations (p : replica) : outcome replica :=
  cleanup_loop (Z.to_nat (max_prepared_decree p - last_committed p)) (last_committed p + 1) p.

Definition init_group_check (e : env) (p : replica) : outcome replica :=
  if negb (has_status p PS_PRIMARY) || FLAGS_group_check_disabled e then Ret p
  else CHECK (bool_decide (group_check_task (pstates (owner p)) = None))
         (let (t, p) := new_task p in Ret (upd_primary (set_group_check_task (Some t)) p)).

Definition check_state_completeness (p : replica) (k : outcome replica) : outcome replica :=
  CHECK (max_prepared_decree p >=? last_committed p)
    (CHECK (last_committed p >=? last_durable_decree p) k).

Definition set_inactive_state_transient (t : bool) (p : replica) : replica :=
  if has_status p PS_INACTIVE then upd (set_inactive_is_transient t) p else p.

Definition is_same_ballot_status_change_allowed (olds news : partition_status) (transient : bool) : bool :=
  (bool_decide (olds = PS_INACTIVE) && bool_decide (news = PS_POTENTIAL_SECONDARY))
  || (bool_decide (olds = PS_POTENTIAL_SECONDARY) && bool_decide (news = PS_SECONDARY))
  || (bool_decide (olds = PS_INACTIVE) && bool_decide (news = PS_SECONDARY) && transient)
  || (bool_decide (olds = PS_INACTIVE) && bool_decide (news = PS_PRIMARY) && transient)
  || bool_decide (olds = news).

(** [clear_bulk_load_states_if_needed(old_status, new_status)]. *)
Definition clear_bulk_load_states_if_needed (old_status new_status : partition_status) (p : replica) : replica :=
  if (bool_decide (new_status = PS_PRIMARY) || bool_decide (new_status = PS_SECONDARY))
     && negb (bool_decide (new_status = old_status)) then
    match bulk_load (owner p) with
    | BLS_SUCCEED | BLS_CANCELED | BLS_FAILED | BLS_INVALID => p
    | _ => emit ClearBulkLoad (upd (fun s => set_bulk_load BLS_INVALID
             (set_bulk_load_ingestion_start_time_ms 0 (set_is_bulk_load_ingestion false s))) p)
    end
  else p.

Definition clean_primary (e : env) (clean_pending : bool) (p : replica) : outcome replica :=
  let* s := primary_cleanup (stopped e) clean_pending (pstates (owner p)) in
  Ret (upd (set_pstates s) p).

Definition clean_secondary (e : env) (force : bool) (p : replica) : outcome (bool * replica) :=
  let* (ok, s) := secondary_cleanup (stopped e) force (sstates (owner p)) in
  Ret (ok, upd (set_sstates s) p).

Definition clean_learner (e : env) (force : bool) (p : replica) : outcome (bool * replica) :=
  let* (ok, s) := potential_secondary_cleanup (stopped e) force (lstates (owner p)) in
  Ret (ok, upd (set_lstates s) p).

Definition clean_split (e : env) (force : bool) (p : replica) : outcome (bool * replica) :=
  let* (ok, s) := split_cleanup (stopped e) force (split_states (owner p)) in
  Ret (ok, upd (set_split_states s) p).

Definition cancel_backup : replica -> replica := emit CancelBackup.

(** The switch that skips invalid changes: whether to go on. *)
Definition change_allowed (e : env) (new_status : partition_status) (p : replica) : outcome (bool * replica) :=
  match status p with
  | PS_ERROR => Ret (false, p)
  | PS_INACTIVE =>
      Ret (negb ((bool_decide (new_status = PS_PRIMARY) || bool_decide (new_status = PS_SECONDARY))
                 && negb (inactive_is_transient (owner p))), p)
  | PS_POTENTIAL_SECONDARY =>
      if decide (new_status = PS_INACTIVE) then clean_learner e false p else Ret (true, p)
  | PS_SECONDARY =>
      if negb (bool_decide (new_status = PS_SECONDARY)) && negb (bool_decide (new_status = PS_ERROR))
      then clean_secondary e false p else Ret (true, p)
  | PS_PARTITION_SPLIT => Ret (negb (bool_decide (new_status = PS_INACTIVE)), p)
  | _ => Ret (true, p)
  end.

(** The switch over the old status, once [config] is set. *)
Definition leave_primary (e : env) (old_ballot : Z) (c : replica_configuration) (p : replica) : outcome replica :=
  let* p := cleanup_preparing_mutations p in
  match rc_status c with
  | PS_PRIMARY => replay_prepare_list e p
  | PS_INACTIVE =>
      let* p := clean_primary e (negb (old_ballot =? rc_ballot c)) p in
      Ret (if (old_ballot =? rc_ballot c) && is_connected e then p else cancel_backup p)
  | PS_SECONDARY | PS_ERROR =>
      let* p := clean_primary e true p in Ret (cancel_backup p)
  | _ => Abort
  end.

Definition leave_secondary (e : env) (c : replica_configuration) (p : replica) : outcome replica :=
  let* p := cleanup_preparing_mutations p in
  let p := if decide (rc_status c = PS_SECONDARY) then p else cancel_backup p in
  match rc_status c with
  | PS_PRIMARY => let* p := init_group_check e p in replay_prepare_list e p
  | PS_SECONDARY | PS_INACTIVE | PS_ERROR => Ret p
  | PS_POTENTIAL_SECONDARY =>
      Ret (upd (fun s => set_lstates (set_learning_status LearningWithoutPrepare (lstates s)) s) p)
  | _ => Abort
  end.

Definition leave_potential_secondary (e : env) (c : replica_configuration) (p : replica) : outcome replica :=
  match rc_status c with
  | PS_SECONDARY =>
      let* p := truncate (app_lcd (owner p)) p in
      let* (ok, p) := clean_learner e true p in
      CHECK ok (check_state_completeness p (Ret p))
  | PS_POTENTIAL_SECONDARY | PS_INACTIVE => Ret p
  | PS_ERROR =>
      let* (_, p) := clean_learner e false (PrepareList.reset (app_lcd (owner p)) p) in Ret p
  | _ => Abort
  end.

Definition leave_partition_split (e : env) (c : replica_configuration) (p : replica) : outcome replica :=
  match rc_status c with
  | PS_PRIMARY =>
      let* (_, p) := clean_split e true p in
      let* p := init_group_check e p in replay_prepare_list e p
  | PS_SECONDARY => let* (_, p) := clean_split e true p in Ret p
  | PS_INACTIVE => Ret p
  | PS_ERROR => let* (_, p) := clean_split e false p in Ret p
  | _ => Abort
  end.

Definition leave_inactive (e : env) (c : replica_configuration) (p : replica) : outcome replica :=
  let transient := inactive_is_transient (owner p) in
  let p := if negb (bool_decide (rc_status c = PS_PRIMARY)) || negb transient then cancel_backup p else p in
  let clear := upd (set_inactive_is_transient false) in
  match rc_status c with
  | PS_PRIMARY =>
      CHECK transient (let* p := init_group_check e (clear p) in replay_prepare_list e p)
  | PS_SECONDARY => CHECK transient (Ret (clear p))
  | PS_POTENTIAL_SECONDARY => Ret (clear p)
  | PS_INACTIVE => Ret p
  | PS_ERROR =>
      let* p := if transient then
                  let* p := clean_primary e true p in
                  let* (_, p) := clean_secondary e false p in Ret p
                else Ret p in
      Ret (clear p)
  | _ => Abort
  end.

Definition leave_status (e : env) (old_status : partition_status) (old_ballot : Z)
  (c : replica_configuration) (p : replica) : outcome replica :=
  match old_status with
  | PS_PRIMARY => leave_primary e old_ballot c p
  | PS_SECONDARY => leave_secondary e c p
  | PS_POTENTIAL_SECONDARY => leave_potential_secondary e c p
  | PS_PARTITION_SPLIT => leave_partition_split e c p
  | PS_INACTIVE => leave_inactive e c p
  | PS_ERROR => match rc_status c with PS_ERROR => Ret p | _ => Abort end
  | PS_INVALID => Abort
  end.

(** "start pending mutations if necessary". *)
Definition start_pending (e : env) (p : replica) : outcome replica :=
  if negb (has_status p PS_PRIMARY) then Ret p
  else
    let* p := prepare_next e (max_prepared_decree p - last_committed p) p in
    let* min := app_mutation_2pc_min_replica_count e (app_max_replica_count (app_info_ (owner p))) in
    if secondary_count p + 1 <? min then
      let '(queued, queue) := clear (write_queue (pstates (owner p))) in
      let p := upd_primary (set_write_queue queue) p in
      Ret (response_all (concat (map client_requests queued)) ERR_NOT_ENOUGH_MEMBER p)
    else Ret p.

(** The notifications at the end, and whether the replica goes on. *)
Definition finish_change (e : env) (old_status : partition_status) (old_ballot : Z)
  (c : replica_configuration) (p : replica) : outcome (bool * replica) :=
  let closing := has_status p PS_ERROR || (has_status p PS_INACTIVE && (get_ballot p >? old_ballot)) in
  if negb (has_status p old_status) then
    let p := emit (NotifyStateUpdate c closing) p in
    if closing then Ret (false, emit BeginClose p)
    else let* p := start_pending e p in Ret (true, p)
  else
    let* p := start_pending e (emit (NotifyStateUpdate c false) p) in Ret (true, p).

Definition update_local_configuration (e : env) (c : replica_configuration) (same_ballot : bool)
  (p : replica) : outcome (bool * replica) :=
  CHECK ((rc_ballot c >? get_ballot p) || (same_ballot && (rc_ballot c =? get_ballot p)))
  (CHECK (bool_decide (rc_pid c = get_gpid p))
    (let old_status := status p in
     let old_ballot := get_ballot p in
     if bool_decide (old_status = rc_status c) && (old_ballot =? rc_ballot c) then Ret (true, p)
     else
       let* (ok, p) := change_allowed e (rc_status c) p in
       if negb ok then Ret (false, p)
       else
         let p := upd (set_config c) p in
         let p := if rc_ballot c >? old_ballot
                  then parent_cleanup_split_context (emit (StoreInitInfo (rc_ballot c) (last_durable_decree p)) p)
                  else p in
         CHECK (max_prepared_decree p >=? last_committed p)
           (let p := clear_bulk_load_states_if_needed old_status (rc_status c) p in
            let* p := leave_status e old_status old_ballot c p in
            finish_change e old_status old_ballot c p))).

Definition update_local_configuration_with_no_ballot_change (e : env) (s : partition_status)
  (p : replica) : outcome (bool * replica) :=
  if has_status p s then Ret (false, p)
  else
    let c := config (owner p) in
    update_local_configuration e
      (ReplicaConfiguration (rc_pid c) (rc_ballot c) (rc_primary c) s (learner_signature c)
         (pop_all c) (split_sync_to_child c)) true p.

Definition update_configuration (e : env) (c : partition_configuration) (p : replica)
  : outcome (bool * replica) :=
  CHECK (pc_ballot c >=? get_ballot p)
    (let rconfig := replica_config_of c (self e) in
     let p := if bool_decide (rc_status rconfig = PS_PRIMARY)
                 && ((rc_ballot rconfig >? get_ballot p) || negb (has_status p PS_PRIMARY))
              then upd_primary (reset_membership c (negb (bool_decide (hp_primary c = self e)))) p
              else p in
     if (pc_ballot c >? get_ballot p)
        || is_same_ballot_status_change_allowed (status p) (rc_status rconfig)
             (inactive_is_transient (owner p))
     then update_local_configuration e rconfig true p
     else Ret (false, p)).

(** [REMOVE_IP_AND_HOST_PORT]: the first occurrence. *)
Fixpoint remove_node (hp : host_port) (l : list host_port) : bool * list host_port :=
  match l with
  | [] => (false, [])
  | x :: l => if decide (x = hp) then (true, l)
              else let '(found, l) := remove_node hp l in (found, x :: l)
  end.

Definition with_members (primary : host_port) (secondaries : list host_port)
  (c : partition_configuration) : partition_configuration :=
  PartitionConfiguration (pc_pid c) (pc_ballot c) (max_replica_count c) primary secondaries
    (pc_last_committed_decree c).

Definition with_ballot (b : Z) (c : partition_configuration) : partition_configuration :=
  PartitionConfiguration (pc_pid c) b (max_replica_count c) (hp_primary c) (hp_secondaries c)
    (pc_last_committed_decree c).

(** [replica_stub::remove_replica_on_meta_server(info, pc)]. *)
Definition remove_replica_on_meta_server (e : env) (c : partition_configuration) (p : replica) : replica :=
  if FLAGS_fd_disabled e then p
  else
    let req c := ConfigurationUpdateRequest (app_duplicating (app_info_ (owner p)))
                   (with_ballot (pc_ballot c + 1) c) CT_DOWNGRADE_TO_INACTIVE (self e) in
    if decide (self e = hp_primary c) then
      emit (RemoveReplicaOnMeta (req (with_members None (hp_secondaries c) c))) p
    else match remove_node (self e) (hp_secondaries c) with
         | (true, l) => emit (RemoveReplicaOnMeta (req (with_members (hp_primary c) l c))) p
         | (false, _) => p
         end.

(** [update_configuration_on_meta_server(type, node, new_pc)]. *)
Definition update_configuration_on_meta_server (e : env) (type : config_type) (node : host_port)
  (new_pc : partition_configuration) (p : replica) : outcome replica :=
  CHECK (negb (bool_decide (type = CT_REGISTER_CHILD)))
  (CHECK (match type with
          | CT_PRIMARY_FORCE_UPDATE_BALLOT =>
              has_status p PS_INACTIVE && inactive_is_transient (owner p) && is_initializing (owner p)
              && bool_decide (hp_primary new_pc = node)
          | CT_ASSIGN_PRIMARY | CT_UPGRADE_TO_PRIMARY => true
          | _ => has_status p PS_PRIMARY && (pc_ballot new_pc =? pc_ballot (pc (pstates (owner p))))
          end)
    (let new_pc := PartitionConfiguration (pc_pid new_pc) (pc_ballot new_pc) (max_replica_count new_pc)
                     (hp_primary new_pc) (hp_secondaries new_pc) (last_committed p) in
     let* (_, p) := update_local_configuration_with_no_ballot_change e PS_INACTIVE p in
     let p := set_inactive_state_transient true p in
     let p := match reconfiguration_task (pstates (owner p)) with
              | Some t => emit (CancelTask t) p
              | None => p
              end in
     let (t, p) := new_task p in
     let req := ConfigurationUpdateRequest (app_duplicating (app_info_ (owner p)))
                  (with_ballot (pc_ballot new_pc + 1) new_pc) type node in
     Ret (emit (UpdateConfigurationOnMeta t req) (upd_primary (set_reconfiguration_task (Some t)) p)))).

(** The members of the proposal are those of the primary. *)
Definition same_members (c : partition_configuration) (p : replica) : bool :=
  let own := pc (pstates (owner p)) in
  bool_decide (pc_pid c = pc_pid own) && bool_decide (hp_primary c = hp_primary own)
  && bool_decide (hp_secondaries c = hp_secondaries own).

Definition assign_primary (e : env) (proposal : configuration_update_request) (p : replica) : outcome replica :=
  CHECK (bool_decide (cur_node proposal = self e))
    (if has_status p PS_PRIMARY then Ret p
     else if bool_decide (cur_type proposal = CT_UPGRADE_TO_PRIMARY)
             && (negb (has_status p PS_SECONDARY) || checkpoint_is_running (sstates (owner p)))
             && negb (has_status p PS_PARTITION_SPLIT) then Ret p
     else
       let c := cur_config proposal in
       let c := with_members (self e) (snd (remove_node (self e) (hp_secondaries c))) c in
       update_configuration_on_meta_server e (cur_type proposal) (cur_node proposal) c p).

Definition add_potential_secondary (e : env) (proposal : configuration_update_request) (p : replica)
  : outcome replica :=
  if negb (has_status p PS_PRIMARY) then Ret p
  else
    let c := cur_config proposal in
    let node := cur_node proposal in
    let s := pstates (owner p) in
    CHECK (pc_ballot c =? get_ballot p) (CHECK (same_members c p)
    (CHECK (negb (bool_decide (hp_primary (pc s) = node)))
    (CHECK (negb (bool_decide (node ∈ hp_secondaries (pc s))))
      (let count := i32 (Z.of_nat (length (hp_secondaries (pc s))) + Z.of_nat (size (learners s))) in
       let* skip :=
         if count >=? max_replica_count (pc s) - 1 then
           match cur_type proposal with
           | CT_ADD_SECONDARY => Ret (negb (bool_decide (is_Some (learners s !! node))))
           | CT_ADD_SECONDARY_FOR_LB => Ret (count >=? max_replica_count (pc s))
           | _ => Abort
           end
         else Ret false in
       if skip : bool then Ret p
       else
         let '(sig, s) :=
           match learners s !! node with
           | Some rls => (signature rls, s)
           | None =>
               let v := u64 (next_learning_version s + 1) in
               (v, set_statuses (<[node := PS_POTENTIAL_SECONDARY]> (statuses s))
                     (set_learners (<[node := RemoteLearnerState v invalid_decree]> (learners s))
                       (set_next_learning_version v s)))
           end in
         Ret (emit (LearnAddLearner node (get_replica_config PS_POTENTIAL_SECONDARY sig s) (last_committed p))
                (upd (set_pstates s) p)))))).

Definition upgrade_to_secondary_on_primary (e : env) (node : host_port) (p : replica) : outcome replica :=
  let c := pc (pstates (owner p)) in
  update_configuration_on_meta_server e CT_UPGRADE_TO_SECONDARY node
    (with_members (hp_primary c) (hp_secondaries c ++ [node]) c) p.

Definition not_current (proposal : configuration_update_request) (p : replica) : bool :=
  negb (pc_ballot (cur_config proposal) =? get_ballot p) || negb (has_status p PS_PRIMARY).

Definition downgrade_to_secondary_on_primary (e : env) (proposal : configuration_update_request)
  (p : replica) : outcome replica :=
  if not_current proposal p then Ret p
  else
    let c := cur_config proposal in
    CHECK (same_members c p) (CHECK (bool_decide (cur_node proposal = hp_primary c))
      (update_configuration_on_meta_server e CT_DOWNGRADE_TO_SECONDARY (cur_node proposal)
         (with_members None (hp_secondaries c ++ [cur_node proposal]) c) p)).

Definition downgrade_to_inactive_on_primary (e : env) (proposal : configuration_update_request)
  (p : replica) : outcome replica :=
  if not_current proposal p then Ret p
  else
    let c := cur_config proposal in
    let node := cur_node proposal in
    CHECK (same_members c p)
      (let* c :=
         if decide (node = hp_primary c) then Ret (with_members None (hp_secondaries c) c)
         else match remove_node node (hp_secondaries c) with
              | (true, l) => Ret (with_members (hp_primary c) l c)
              | (false, _) => Abort
              end in
       update_configuration_on_meta_server e CT_DOWNGRADE_TO_INACTIVE node c p).

Definition remove (e : env) (proposal : configuration_update_request) (p : replica) : outcome replica :=
  if not_current proposal p then Ret p
  else
    let c := cur_config proposal in
    let node := cur_node proposal in
    CHECK (same_members c p)
      (let* c :=
         match get_node_status node (pstates (owner p)) with
         | PS_PRIMARY => CHECK (bool_decide (hp_primary c = node)) (Ret (with_members None (hp_secondaries c) c))
         | PS_SECONDARY =>
             match remove_node node (hp_secondaries c) with
             | (true, l) => Ret (with_members (hp_primary c) l c)
             | (false, _) => Abort
             end
         | _ => Ret c
         end in
       update_configuration_on_meta_server e CT_REMOVE node c p).

Definition on_remove (e : env) (request : replica_configuration) (p : replica) : outcome replica :=
  if rc_ballot request <? get_ballot p then Ret p
  else if (rc_ballot request =? get_ballot p) && has_status p PS_POTENTIAL_SECONDARY then Ret p
  else CHECK (bool_decide (rc_status request = PS_INACTIVE))
         (let* (_, p) := update_local_configuration e request false p in Ret p).

Definition on_config_proposal (e : env) (proposal : configuration_update_request) (p : replica)
  : outcome replica :=
  let b := pc_ballot (cur_config proposal) in
  if b <? get_ballot p then Ret p
  else if bool_decide (is_Some (reconfiguration_task (pstates (owner p)))) then Ret p
  else
    let* (ok, p) := if b >? get_ballot p then update_configuration e (cur_config proposal) p
                    else Ret (true, p) in
    if negb ok then Ret p
    else
      let p := upd (fun s => let i := app_info_ s in
                 set_app_info_ (AppInfo (app_name i) (app_partition_count i) (app_max_replica_count i)
                                  (app_atomic_idempotent i) (cur_duplicating proposal)) s) p in
      match cur_type proposal with
      | CT_ASSIGN_PRIMARY | CT_UPGRADE_TO_PRIMARY => assign_primary e proposal p
      | CT_ADD_SECONDARY | CT_ADD_SECONDARY_FOR_LB => add_potential_secondary e proposal p
      | CT_DOWNGRADE_TO_SECONDARY => downgrade_to_secondary_on_primary e proposal p
      | CT_DOWNGRADE_TO_INACTIVE => downgrade_to_inactive_on_primary e proposal p
      | CT_REMOVE => remove e proposal p
      | _ => Abort
      end.

Definition clear_reconfiguration_task : replica -> replica := upd_primary (set_reconfiguration_task None).

Definition default_partition_configuration : partition_configuration :=
  PartitionConfiguration (Gpid 0 0) 0 0 None [] 0.

(** [on_update_configuration_on_meta_server_reply]: [err] is the error of the RPC,
    [resp] the response when there is none. *)
Definition on_update_configuration_on_meta_server_reply (e : env) (err : error_code)
  (resp : error_code * partition_configuration) (req : configuration_update_request) (p : replica)
  : outcome replica :=
  if negb (has_status p PS_INACTIVE) || negb (is_connected e) then Ret (clear_reconfiguration_task p)
  else
    let '(resp_err, resp_config) :=
      if is_ok err then resp else (ERR_OK, default_partition_configuration) in
    let err := if is_ok err then resp_err else err in
    if negb (is_ok err) && negb (bool_decide (err = ERR_INVALID_VERSION)) then
      let (t, p) := new_task p in
      Ret (emit (DelayUpdateConfiguration t req) (upd_primary (set_reconfiguration_task (Some t)) p))
    else if pc_ballot resp_config <? get_ballot p then Ret (clear_reconfiguration_task p)
    else
      let c := cur_config req in
      let* p :=
        if is_ok resp_err then
          CHECK (bool_decide (pc_pid c = pc_pid resp_config)
                 && bool_decide (hp_primary c = hp_primary resp_config)
                 && bool_decide (hp_secondaries c = hp_secondaries resp_config))
            match cur_type req with
            | CT_UPGRADE_TO_PRIMARY =>
                Ret (upd_primary (set_last_prepare_decree_on_new_primary (max_prepared_decree p)) p)
            | CT_ASSIGN_PRIMARY => Ret (upd_primary (set_last_prepare_decree_on_new_primary 0) p)
            | CT_DOWNGRADE_TO_SECONDARY | CT_DOWNGRADE_TO_INACTIVE | CT_UPGRADE_TO_SECONDARY => Ret p
            | CT_REMOVE =>
                Ret (if decide (cur_node req = self e) then p
                     else emit (RemoveReplicaRpc (cur_node req) (replica_config_of resp_config (cur_node req))) p)
            | CT_PRIMARY_FORCE_UPDATE_BALLOT =>
                CHECK (is_initializing (owner p)) (Ret (upd (set_is_initializing false) p))
            | _ => Abort
            end
        else Ret p in
      let* (_, p) := update_configuration e resp_config p in
      Ret (clear_reconfiguration_task p).

(** ** Failures ([replica_failover.cpp]) *)

Definition handle_local_failure (e : env) (error : error_code) (p : replica) : outcome replica :=
  let p := if decide (error = ERR_DISK_IO_ERROR) then upd (set_dir_status DS_IO_ERROR) p
           else if decide (error = ERR_RDB_CORRUPTION) then upd (set_data_corrupted true) p else p in
  let p := if has_status p PS_PRIMARY then remove_replica_on_meta_server e (pc (pstates (owner p))) p else p in
  let* (_, p) := update_local_configuration_with_no_ballot_change e PS_ERROR p in Ret p.

Definition handle_learning_error (e : env) (err : error_code) (is_local_error : bool) (p : replica)
  : outcome replica :=
  let p := if is_local_error then
             if decide (err = ERR_DISK_IO_ERROR) then upd (set_dir_status DS_IO_ERROR) p
             else if decide (err = ERR_RDB_CORRUPTION) then upd (set_data_corrupted true) p else p
           else p in
  let* (_, p) := update_local_configuration_with_no_ballot_change e
                   (if is_local_error then PS_ERROR else PS_INACTIVE) p in Ret p.

Definition handle_remote_failure (e : env) (st : partition_status) (node : host_port) (p : replica)
  : outcome replica :=
  CHECK (has_status p PS_PRIMARY) (CHECK (negb (bool_decide (node = self e)))
    match st with
    | PS_SECONDARY =>
        let* found := check_exist node PS_SECONDARY (pstates (owner p)) in
        CHECK found
          (downgrade_to_inactive_on_primary e
             (ConfigurationUpdateRequest false (pc (pstates (owner p))) CT_DOWNGRADE_TO_INACTIVE node) p)
    | PS_POTENTIAL_SECONDARY =>
        Ret (upd_primary (fun s => set_statuses (delete node (statuses s))
                                     (set_learners (delete node (learners s)) s)) p)
    | PS_INACTIVE | PS_ERROR => Ret p
    | _ => Abort
    end).

Definition on_meta_server_disconnected (e : env) (p : replica) : outcome replica :=
  let old_status := status p in
  let* (_, p) := update_local_configuration_with_no_ballot_change e PS_INACTIVE p in
  Ret (match old_status with
       | PS_PRIMARY | PS_SECONDARY => set_inactive_state_transient true p
       | _ => p
       end).

(** ** Applying a mutation *)

(** [replication_app_base::apply_mutation]: the requests given to the storage
    engine; an update without its request gets a faked one. *)
Fixpoint batched_requests (us : list mutation_update) (rs : list (option message)) : list message :=
  match us, rs with
  | u :: us, r :: rs =>
      if decide (code u = RPC_REPLICATION_WRITE_EMPTY) then batched_requests us rs
      else match r with
           | Some req => req
           | None => Message (code u) (serialization_type u) (data u) 0 0
           end :: batched_requests us rs
  | _, _ => []
  end.

Definition has_ingestion_request (us : list mutation_update) : bool :=
  existsb (fun u => bool_decide (code u = RPC_RRDB_RRDB_BULK_LOAD)
                    && negb (bool_decide (code u = RPC_REPLICATION_WRITE_EMPTY))) us.

(** The statuses the commit log has a name for. *)
Definition has_commit_log_name (s : partition_status) : bool :=
  match s with PS_INACTIVE | PS_PRIMARY | PS_SECONDARY | PS_POTENTIAL_SECONDARY => true | _ => false end.

Definition apply_mutation (e : env) (q : mutation_ptr) (p : replica) : outcome (error_code * replica) :=
  let* m := deref (objects p !! q) in
  CHECK (get_decree m =? app_lcd (owner p) + 1)
  (CHECK ((length (updates m) =? length (client_requests m))%nat)
  (CHECK (bool_decide (updates m <> []))
    (let '(storage_error, st) :=
       on_batched_write_requests (get_decree m) (timestamp (header m))
         (batched_requests (updates m) (client_requests m)) (idem_writer m) (storage (owner p)) in
     let p := set_mu q (with_origin (is_blocking_candidate m) (sync_to_child m) None m)
                (upd (set_storage st) p) in
     if negb (storage_error =? kOk) && negb (has_ingestion_request (updates m)) then
       Ret (if storage_error =? kCorruption then ERR_RDB_CORRUPTION
            else if storage_error =? kIOError then ERR_DISK_IO_ERROR else ERR_LOCAL_APP_FAILURE, p)
     else
       let p := upd (fun s => set_app_lcd (app_lcd s + 1) s) p in
       CHECK (negb (verbose_commit_log e) || has_commit_log_name (status p)) (Ret (ERR_OK, p))))).

(** The part of [execute_mutation] that applies the mutation, by status. *)
Definition execute_apply (e : env) (q : mutation_ptr) (d : Z) (p : replica) : outcome (error_code * replica) :=
  let apply := CHECK (app_lcd (owner p) + 1 =? d) (apply_mutation e q p) in
  match status p with
  | PS_INACTIVE => if app_lcd (owner p) + 1 =? d then apply_mutation e q p else Ret (ERR_OK, p)
  | PS_PRIMARY => let* p := check_state_completeness p (Ret p) in apply
  | PS_SECONDARY =>
      if negb (checkpoint_is_running (sstates (owner p))) then
        let* p := check_state_completeness p (Ret p) in apply
      else CHECK (has_private_log e) (Ret (ERR_OK, p))
  | PS_POTENTIAL_SECONDARY =>
      match learning_status (lstates (owner p)) with
      | LearningSucceeded | LearningWithPrepareTransient => apply
      | _ => CHECK (has_private_log e) (Ret (ERR_OK, p))
      end
  | PS_PARTITION_SPLIT => if is_caught_up (split_states (owner p)) then apply else Ret (ERR_OK, p)
  | PS_ERROR => Ret (ERR_OK, p)
  | PS_INVALID => Abort
  end.

(** [execute_mutation(mu)]. *)
Definition execute_mutation_body (e : env) (q : mutation_ptr) (p : replica) : outcome replica :=
  let* m := deref (objects p !! q) in
  let d := get_decree m in
  let* (err, p) := execute_apply e q d p in
  let* p := if is_ok err then Ret p else handle_local_failure e err p in
  if negb (has_status p PS_PRIMARY) then Ret p
  else prepare_next e (max_prepared_decree p - d) p.

End Committer.

(** The committer, with [fuel] nested calls. *)
Fixpoint execute_mutation (e : env) (fuel : nat) : mutation_ptr -> replica -> outcome replica :=
  match fuel with
  | O => fun _ _ => Undef
  | S fuel' => execute_mutation_body (execute_mutation e fuel') e
  end.

(** ** The handlers of two-phase commit *)

(** [ack_prepare_message(err, mu)]: the mutation may be marked. *)
Definition ack_prepare_message (err : error_code) (m : mutation) (p : replica) : outcome (mutation * replica) :=
  let resp := PrepareAck (get_gpid p) err (get_ballot p) (get_decree m) (app_lcd (owner p)) (last_committed p) in
  let reply_all p := fold_left (fun p r => emit (ReplyPrepare r resp) p) (prepare_requests m) p in
  CHECK (bool_decide (prepare_requests m <> []))
    (if is_ok err then Ret (m, if is_child_acked m then reply_all p else p)
     else if error_acked m then Ret (m, p)
     else Ret (if sync_to_child m then set_error_acked m else m, reply_all p)).

(** Of a mutation in memory, and of one just received. *)
Definition ack_prepare_ptr (err : error_code) (q : mutation_ptr) (p : replica) : outcome replica :=
  let* m := deref (objects p !! q) in
  let* (m, p) := ack_prepare_message err m p in
  Ret (set_mu q m p).

Definition ack_prepare_new (err : error_code) (m : mutation) (p : replica) : outcome replica :=
  let* (_, p) := ack_prepare_message err m p in Ret p.

(** The mutation [mutation::read_from] makes of a prepare message. *)
Definition received_mutation (e : env) (request : Z) (b : prepare_body) : mutation :=
  received (sizeof_header e) (Some request) (pb_header b) (pb_updates b).

Section Handlers.
Context (e : env) (exec : mutation_ptr -> replica -> outcome replica).

(** The end of [on_prepare]: the mutation is stored and appended to the log. *)
Definition store_prepared (m : mutation) (pop : bool) (p : replica) : outcome replica :=
  let '(q, p) := alloc m p in
  let* (err, p) := prepare exec q (status p) pop true p in
  CHECK (is_ok err)
    (let* m := deref (objects p !! q) in
     if has_status p PS_POTENTIAL_SECONDARY || has_status p PS_SECONDARY then
       CHECK (get_decree m <=? last_committed p + FLAGS_max_mutation_count_in_prepare_list e)
         (let* p := if is_splitting p then copy_mutation e q p else Ret p in
          let* m := deref (objects p !! q) in
          CHECK (negb (has_log_task m)) (Ret (emit (AppendLog q true) (set_mu q (set_log_task m) p))))
     else ack_prepare_ptr ERR_INVALID_STATE q p).

(** From "real prepare start" on. *)
Definition real_prepare (request : Z) (m : mutation) (pop : bool) (p : replica) : outcome replica :=
  let p := ts_try_update (u64 (timestamp (header m))) p in
  let* mu2 := get_mutation_by_decree (get_decree m) (cache p) in
  match mu2 with
  | Some q2 =>
      let* o := deref (objects p !! q2) in
      if Mutation.get_ballot o =? Mutation.get_ballot m then
        if is_logged o then ack_prepare_new ERR_OK m p
        else Ret (set_mu q2 (add_prepare_request request o) p)
      else store_prepared m pop p
  | None => store_prepared m pop p
  end.

(** [on_prepare(request)]. *)
Definition on_prepare (request : Z) (rconfig : replica_configuration) (body : prepare_body) (p : replica)
  : outcome replica :=
  let m := set_is_sync_to_child (split_sync_to_child rconfig) (received_mutation e request body) in
  let pop := pop_all rconfig in
  let rconfig := ReplicaConfiguration (rc_pid rconfig) (rc_ballot rconfig) (rc_primary rconfig)
                   (rc_status rconfig) (learner_signature rconfig) false false in
  CHECK (bool_decide (pid (header m) = rc_pid rconfig)) (CHECK (Mutation.get_ballot m =? rc_ballot rconfig)
    (if Mutation.get_ballot m <? get_ballot p then Ret p
     else
       let* (ok, p) := if rc_ballot rconfig >? get_ballot p then update_local_configuration exec e rconfig false p
                       else Ret (true, p) in
       if negb ok then ack_prepare_new ERR_INVALID_STATE m p
       else
         let go p :=
           CHECK (bool_decide (rc_status rconfig = status p))
             (if get_decree m <=? last_committed p then ack_prepare_new ERR_OK m p
              else real_prepare request m pop p) in
         match status p with
         | PS_INACTIVE | PS_ERROR =>
             ack_prepare_new (if has_status p PS_INACTIVE && inactive_is_transient (owner p)
                              then ERR_INACTIVE_STATE else ERR_INVALID_STATE) m p
         | PS_POTENTIAL_SECONDARY =>
             if negb (u64 (learner_signature rconfig) =? learning_version (lstates (owner p))) then
               let* p := handle_learning_error exec e ERR_INVALID_STATE false p in
               ack_prepare_new ERR_INVALID_STATE m p
             else match learning_status (lstates (owner p)) with
                  | LearningWithPrepare | LearningSucceeded => go p
                  | LearningWithoutPrepare => ack_prepare_new ERR_TRY_AGAIN m p
                  | _ => ack_prepare_new ERR_INVALID_STATE m p
                  end
         | _ => go p
         end)).

(** [replica_split_manager::ack_parent]. *)
Definition ack_parent (err : error_code) (q : mutation_ptr) (p : replica) : outcome replica :=
  let* m := deref (objects p !! q) in
  CHECK (sync_to_child m)
    (Ret (emit (AckParent (parent_gpid (split_states (owner p))) err (Mutation.get_ballot m) (get_decree m)) p)).

(** The log takes the mutation given to it by [AppendLog]. *)
Definition append_mutation (q : mutation_ptr) (offset : Z) (p : replica) : outcome replica :=
  let* m := deref (objects p !! q) in
  Ret (set_mu q (set_log_offset offset m) p).

(** The switch of [on_append_log_completed]. *)
Definition logged_on_status (q : mutation_ptr) (err : error_code) (p : replica) : outcome replica :=
  match status p with
  | PS_PRIMARY =>
      if is_ok err then do_possible_commit_on_primary exec q p else handle_local_failure exec e err p
  | PS_SECONDARY | PS_POTENTIAL_SECONDARY =>
      let* p := if is_ok err then Ret p else handle_local_failure exec e err p in
      let* p := ack_prepare_ptr err q p in
      let* m := deref (objects p !! q) in
      commit exec (last_committed_decree (header m)) COMMIT_TO_DECREE_HARD p
  | PS_PARTITION_SPLIT =>
      let* p := if is_ok err then Ret p else handle_local_failure exec e err p in
      ack_parent err q p
  | PS_ERROR => Ret p
  | _ => Abort
  end.

(** [on_append_log_completed(mu, err, size)]. *)
Definition on_append_log_completed (q : mutation_ptr) (err : error_code) (p : replica) : outcome replica :=
  let* m := deref (objects p !! q) in
  let* p := if is_ok err then let* m := set_logged m in Ret (set_mu q m p) else Ret p in
  let* p := if (Mutation.get_ballot m >=? get_ballot p) && negb (has_status p PS_INACTIVE)
            then logged_on_status q err p else Ret p in
  if is_ok err then Ret p else CHECK (s_not_exit_on_log_failure e) (Ret p).

(** The failure branch of [on_prepare_reply]. *)
Definition prepare_failed (q : mutation_ptr) (m : mutation) (target : partition_status) (node : host_port)
  (err : error_code) (p : replica) : outcome replica :=
  let timeout := if decide (target = PS_SECONDARY) then FLAGS_prepare_timeout_ms_for_secondaries e
                 else FLAGS_prepare_timeout_ms_for_potential_secondaries e in
  if (bool_decide (err = ERR_INACTIVE_STATE) || bool_decide (err = ERR_TRY_AGAIN))
     && negb (is_prepare_close_to_timeout (now_ms e) (5 + 2) timeout m) then
    let sig := if decide (target = PS_POTENTIAL_SECONDARY)
               then from_option signature invalid_signature (learners (pstates (owner p)) !! node)
               else invalid_signature in
    Ret (emit (DelayPrepare node target q timeout sig) p)
  else
    let* p := handle_remote_failure exec e (get_node_status node (pstates (owner p))) node p in
    if decide (target = PS_POTENTIAL_SECONDARY) then
      let* m := deref (objects p !! q) in
      CHECK (left_potential_secondary_ack_count m >? 0)
        (let '(n, m) := decrease_left_potential_secondary_ack_count m in
         let p := set_mu q m p in
         if n =? 0 then do_possible_commit_on_primary exec q p else Ret p)
    else Ret p.

(** [on_prepare_reply(pr, err, request, reply)]: [node] is the target of the
    request; [resp] is the reply when [err] is [ERR_OK]. *)
Definition on_prepare_reply (q : mutation_ptr) (target : partition_status) (node : host_port)
  (err : error_code) (resp : prepare_ack) (p : replica) : outcome replica :=
  let* m := deref (objects p !! q) in
  if negb (has_status p PS_PRIMARY) || (Mutation.get_ballot m <? get_ballot p) || (get_decree m <=? last_committed p)
  then Ret p
  else
    CHECK (Mutation.get_ballot m =? get_ballot p)
      (let resp_err := if is_ok err then ack_err resp else err in
       if is_ok resp_err then
         CHECK (ack_ballot resp =? get_ballot p) (CHECK (ack_decree resp =? get_decree m)
           match target with
           | PS_SECONDARY =>
               let* found := check_exist node PS_SECONDARY (pstates (owner p)) in
               CHECK found (CHECK (left_secondary_ack_count m >? 0)
                 (let '(n, m) := decrease_left_secondary_ack_count m in
                  let p := set_mu q m p in
                  if n =? 0 then do_possible_commit_on_primary exec q p else Ret p))
           | PS_POTENTIAL_SECONDARY =>
               CHECK (left_potential_secondary_ack_count m >? 0)
                 (let '(n, m) := decrease_left_potential_secondary_ack_count m in
                  let p := set_mu q m p in
                  if n =? 0 then do_possible_commit_on_primary exec q p else Ret p)
           | _ => Ret p
           end)
       else prepare_failed q m target node resp_err p).

(** The task [LPC_DELAY_PREPARE] of [on_prepare_reply]. *)
Definition delay_prepare (node : host_port) (target : partition_status) (q : mutation_ptr)
  (timeout sig : Z) (p : replica) : outcome replica :=
  let* m := deref (objects p !! q) in
  if has_status p PS_PRIMARY && (get_ballot p =? Mutation.get_ballot m) && (get_decree m >? last_committed p)
  then send_prepare_message node target q timeout false sig p
  else Ret p.

(** [replica_split_manager::child_handle_split_error]. *)
Definition child_handle_split_error (p : replica) : outcome replica :=
  if has_status p PS_ERROR then Ret p
  else let* (_, p) := update_local_configuration_with_no_ballot_change exec e PS_ERROR p in Ret p.

(** [replica_split_manager::on_copy_mutation]: a mutation of the parent, on the
    child. *)
Definition on_copy_mutation (m : mutation) (p : replica) : outcome replica :=
  let s := split_states (owner p) in
  let tell_parent p := emit (AckParent (parent_gpid s) ERR_OK (Mutation.get_ballot m) (get_decree m))
                         (emit (CleanupParent (parent_gpid s)) p) in
  if negb (has_status p PS_PARTITION_SPLIT) then Ret (tell_parent p)
  else if negb (is_prepare_list_copied s) then Ret p
  else if Mutation.get_ballot m >? get_ballot p then child_handle_split_error (tell_parent p)
  else
    let m := with_header (fun h => MutationHeader (get_gpid p) (ballot h) (decree h) (log_offset h)
                            (last_committed_decree h) (timestamp h)) m in
    let '(q, p) := alloc m p in
    let* (_, p) := prepare exec q PS_SECONDARY false true p in
    let* m := deref (objects p !! q) in
    if negb (sync_to_child m) then
      let* m := if is_logged m then Ret m else set_logged m in
      Ret (emit (AppendLog q false) (set_mu q (set_log_task m) p))
    else Ret (emit (AppendLog q true) (set_mu q (set_log_task m) p)).

(** [replica_split_manager::on_copy_mutation_reply], on the parent. *)
Definition on_copy_mutation_reply (err : error_code) (b d : Z) (p : replica) : outcome replica :=
  let* mu := get_mutation_by_decree d (cache p) in
  match mu with
  | None => Ret p
  | Some q =>
      let* m := deref (objects p !! q) in
      if negb (Mutation.get_ballot m =? b) then Ret p
      else
        let m := if is_ok err then set_wait_child false m else m in
        let p := set_mu q m p in
        if (Mutation.get_ballot m >=? get_ballot p) && negb (has_status p PS_INACTIVE) then
          match status p with
          | PS_PRIMARY =>
              if is_ok err then do_possible_commit_on_primary exec q p else handle_local_failure exec e err p
          | PS_SECONDARY | PS_POTENTIAL_SECONDARY =>
              let* p := if is_ok err then Ret p else handle_local_failure exec e err p in
              ack_prepare_ptr err q p
          | PS_ERROR => Ret p
          | _ => Abort
          end
        else Ret p
  end.

(** ** Client requests *)

(** [CHECK_REQUEST_IF_SPLITTING]: the error to answer with, if any. *)
Definition check_request_if_splitting (request : message) (p : replica) : option error_code :=
  if negb (validate_partition_hash (owner p)) then None
  else if should_reject_request p then Some ERR_SPLITTING
  else if negb (check_partition_hash (partition_hash request) p) then Some ERR_PARENT_PARTITION_MISUSED
  else None.

(** What the throttling of a request decided, as effects. *)
Definition throttle_effect (is_read : bool) (request : message) (t : throttled) : replica -> replica :=
  match t with
  | RetryAfter ms => emit (DelayClient is_read request ms)
  | RejectAfter ms => emit (DelayBusy is_read request ms)
  | RejectNow => emit (ResponseClient is_read request ERR_BUSY)
  end.

Definition throttle_write (request : message) (p : replica) : bool * replica :=
  let s := owner p in
  let '(r, qps, size) := throttle_write_request (now_ms e / 1000) request (write_qps s) (write_size s) in
  let p := upd (fun s => set_write_size size (set_write_qps qps s)) p in
  match r with
  | Some t => (true, throttle_effect false request t p)
  | None => (false, p)
  end.

(** The last part of [on_client_write]: the request joins the queue. *)
Definition enqueue_write (request : message) (p : replica) : outcome replica :=
  let* (mu, queue) := add_work (task_spec_get e) (queue_env e p) request (write_queue (pstates (owner p))) in
  let p := upd_primary (set_write_queue queue) p in
  match mu with
  | Some m => init_prepare exec e m false false p
  | None => Ret p
  end.

(** The bulk load branch, then the queue. *)
Definition accept_write (request : message) (p : replica) : outcome replica :=
  let reject err := Ret (response_client_write (Some request) err p) in
  if decide (rpc_code request = RPC_RRDB_RRDB_BULK_LOAD) then
    match bulk_load (owner p) with
    | BLS_DOWNLOADED | BLS_INGESTING =>
        if i32 (secondary_count p) + 1 <? max_replica_count (pc (pstates (owner p)))
        then reject ERR_NOT_ENOUGH_MEMBER
        else enqueue_write request
               (upd (fun s => set_bulk_load_ingestion_start_time_ms (now_ms e)
                                (set_is_bulk_load_ingestion true s)) p)
    | _ => reject ERR_INVALID_STATE
    end
  else enqueue_write request p.

(** [on_client_write(request, ignore_throttling)]. *)
Definition on_client_write (request : message) (ignore_throttling : bool) (p : replica) : outcome replica :=
  let reject err := Ret (response_client_write (Some request) err p) in
  let s := owner p in
  if negb (allowed e false request) then reject ERR_ACL_DENY
  else if deny_write (deny_client_ s) then
    if deny_reconfig (deny_client_ s) then reject ERR_INVALID_STATE else Ret p
  else if (FLAGS_max_allowed_write_size e >? 0) && (body_size request >? FLAGS_max_allowed_write_size e) then
    reject ERR_INVALID_DATA
  else if decide (rpc_code request = TASK_CODE_INVALID) then reject ERR_INVALID_PARAMETERS
  else
    match task_spec_get e (rpc_code request) with
    | None => reject ERR_HANDLER_NOT_FOUND
    | Some spec =>
        if need_reject_non_idempotent spec p then reject ERR_OPERATION_DISABLED
        else match check_request_if_splitting request p with
        | Some err => reject err
        | None =>
            if negb (has_status p PS_PRIMARY) then reject ERR_INVALID_STATE
            else if FLAGS_reject_write_when_disk_insufficient e
                    && (negb (bool_decide (dir_status s = DS_NORMAL)) || secondary_disk_abnormal (pstates s)) then
              reject (disk_status_to_error_code (dir_status s))
            else if is_bulk_load_ingestion s then
              reject (if decide (rpc_code request = RPC_RRDB_RRDB_BULK_LOAD)
                      then ERR_NO_NEED_OPERATE else ERR_OPERATION_DISABLED)
            else
              let* min := app_mutation_2pc_min_replica_count e (app_max_replica_count (app_info_ s)) in
              if i32 (secondary_count p) + 1 <? min then reject ERR_NOT_ENOUGH_MEMBER
              else
                let '(throttled, p) := if ignore_throttling then (false, p) else throttle_write request p in
                if throttled : bool then Ret p else accept_write request p
        end
    end.

Definition throttle_read (request : message) (p : replica) : bool * replica :=
  let '(r, qps) := throttle_read_request (now_ms e / 1000) request (read_qps (owner p)) in
  let p := upd (set_read_qps qps) p in
  match r with
  | Some t => (true, throttle_effect true request t p)
  | None => (false, p)
  end.

Definition throttle_backup (request : message) (p : replica) : bool * replica :=
  let '(stop, delay, qps) := throttle_backup_request (now_ms e / 1000) request (backup_qps (owner p)) in
  let p := upd (set_backup_qps qps) p in
  (stop, match delay with Some ms => emit (DelayClient true request ms) p | None => p end).

(** The read itself, and the failures of the storage engine. *)
Definition serve_read (request : message) (p : replica) : outcome replica :=
  let storage_error := on_request request (storage (owner p)) in
  let p := emit (ReadRequest request) p in
  if (storage_error =? kOk) || (storage_error =? kNotFound) then Ret p
  else if storage_error =? kCorruption then handle_local_failure exec e ERR_RDB_CORRUPTION p
  else if storage_error =? kIOError then handle_local_failure exec e ERR_DISK_IO_ERROR p
  else Ret p.

(** [on_client_read(request, ignore_throttling)]. *)
Definition on_client_read (request : message) (ignore_throttling : bool) (p : replica) : outcome replica :=
  let reject err p := Ret (response_client_read request err p) in
  let s := owner p in
  if negb (allowed e true request) then reject ERR_ACL_DENY p
  else if deny_read (deny_client_ s) then
    if deny_reconfig (deny_client_ s) then reject ERR_INVALID_STATE p else Ret p
  else match check_request_if_splitting request p with
  | Some err => reject err p
  | None =>
      if has_status p PS_INACTIVE || has_status p PS_POTENTIAL_SECONDARY then reject ERR_INVALID_STATE p
      else if negb (is_backup_request e request) then
        let '(stop, p) := if ignore_throttling then (false, p) else throttle_read request p in
        if stop : bool then Ret p
        else if negb (has_status p PS_PRIMARY) then reject ERR_INVALID_STATE p
        else if last_committed p <? last_prepare_decree_on_new_primary (pstates (owner p)) then
          reject ERR_INVALID_STATE p
        else serve_read request p
      else
        let '(stop, p) := if ignore_throttling then (false, p) else throttle_backup request p in
        if stop : bool then Ret p else serve_read request p
  end.

End Handlers.

(** [last_prepared_decree]: the last decree of the logged run after the committed
    point, [fuel] decrees at most. *)
Fixpoint last_prepared_loop (fuel : nat) (start last_bt : Z) (p : replica) : outcome Z :=
  match fuel with
  | O => Undef
  | S fuel' =>
      let* mu := get_mutation_by_decree (start + 1) (cache p) in
      match mu with
      | None => Ret start
      | Some q =>
          let* m := deref (objects p !! q) in
          if (Mutation.get_ballot m <? last_bt) || negb (is_logged m) then Ret start
          else last_prepared_loop fuel' (start + 1) (Mutation.get_ballot m) p
      end
  end.

Definition last_prepared_decree (p : replica) : outcome Z :=
  last_prepared_loop (S (Z.to_nat (max_prepared_decree p - last_committed p))) (last_committed p) 0 p.

End Storage.
Arguments replica_state St : clear implicits.

End Replica.
