(* ===== verification/ReplicaTheory.v ===== *)
(** * What every handler of a replica keeps

    For any state of a replica and any input, the handlers of [Replica] let the ballot
    only grow, never leave the error status, never change or forget a mutation in memory,
    and hand to the storage engine only mutations that are in the local log
    ([extends]). *)
From S2P Require Import Prelude Mutation MutationCache PrepareList MutationQueue.
From S2P Require Import ReplicaContext Throttling RocksdbWrapper Replica.

Module ReplicaTheory.
Import Mutation MutationCache PrepareList MutationQueue ReplicaContext Throttling RocksdbWrapper Replica.

Section Theory.
Context {St : Type} `{StorageApp St}.
Abbreviation replica := (plist (replica_state St)).
Implicit Types (p : replica) (e : env).

(** [m'] is [m] later: same identity and content, still logged if it was. *)
Definition later (m m' : mutation) : Prop :=
  shared m' = shared m /\ (is_logged m = true -> is_logged m' = true).

Lemma later_refl m : later m m.
Proof. done. Qed.

Lemma later_trans m1 m2 m3 : later m1 m2 -> later m2 m3 -> later m1 m3.
Proof. intros [E1 E2] [F1 F2]. split; [congruence|auto]. Qed.

(** A mutation that waits in the queue: not logged, without a decree. *)
Definition waiting (m : mutation) : Prop := is_logged m = false /\ get_decree m = invalid_decree.

Definition queue_waits (p : replica) : Prop := Forall waiting (content (write_queue (pstates (owner p)))).

Record extends (p p' : replica) : Prop := Extends {
  ext_ballot : get_ballot p <= get_ballot p';
  ext_gpid : get_gpid p' = get_gpid p;
  ext_error : status p = PS_ERROR -> status p' = PS_ERROR;
  ext_objects q m : objects p !! q = Some m -> exists m', objects p' !! q = Some m' /\ later m m';
  ext_committed : exists l, committed p' = committed p ++ l /\ Forall (fun m => is_logged m = true) l;
  ext_effects : exists es, effects (owner p') = effects (owner p) ++ es;
  ext_queue : queue_waits p -> queue_waits p'
}.

Lemma ext_refl p : extends p p.
Proof.
  split; [lia|done|done|eauto using later_refl| | |done].
  - exists []. by rewrite app_nil_r.
  - exists []. by rewrite app_nil_r.
Qed.

Lemma ext_trans p1 p2 p3 : extends p1 p2 -> extends p2 p3 -> extends p1 p3.
Proof.
  intros [B1 G1 S1 O1 (l1 & C1 & F1) (e1 & E1) Q1] [B2 G2 S2 O2 (l2 & C2 & F2) (e2 & E2) Q2].
  split; [lia|congruence|auto| | | |auto].
  - intros q m Hq. destruct (O1 q m Hq) as (m1 & H1 & L1). destruct (O2 q m1 H1) as (m2 & H2 & L2).
    exists m2. split; [done|by eapply later_trans].
  - exists (l1 ++ l2). rewrite C2, C1, <- app_assoc. split; [done|by apply Forall_app].
  - exists (e1 ++ e2). by rewrite E2, E1, <- app_assoc.
Qed.

(** *** State updates *)

(** The same list and heap, an owner that differs in other fields. *)
Lemma ext_owner p p' :
  objects p' = objects p -> committed p' = committed p ->
  config (owner p') = config (owner p) -> r_gpid (owner p') = r_gpid (owner p) ->
  effects (owner p') = effects (owner p) ->
  (queue_waits p -> queue_waits p') -> extends p p'.
Proof.
  intros Eo Ec Ecf Eg Ee Eq. split.
  - unfold get_ballot. rewrite Ecf. lia.
  - done.
  - unfold status. by rewrite Ecf.
  - rewrite Eo. eauto using later_refl.
  - exists []. by rewrite app_nil_r.
  - exists []. by rewrite app_nil_r.
  - done.
Qed.

Lemma ext_emit ev p : extends p (emit ev p).
Proof.
  split; [done|done|done|eauto using later_refl| | |done].
  - exists []. by rewrite app_nil_r.
  - by exists [ev].
Qed.

Lemma ext_set_mu q m m' p : objects p !! q = Some m -> later m m' -> extends p (set_mu q m' p).
Proof.
  intros Hq Hl. split; [done|done|done| | | |done].
  - intros x mx Hx. cbn. destruct (decide (q = x)) as [->|Hne].
    + rewrite lookup_insert_eq. rewrite Hq in Hx. injection Hx as <-. eauto.
    + rewrite lookup_insert_ne by done. eauto using later_refl.
  - exists []. by rewrite app_nil_r.
  - exists []. by rewrite app_nil_r.
Qed.

Lemma alloc_spec m p q p' :
  alloc m p = (q, p') -> p' = set_mu q m p /\ objects p !! q = None.
Proof. unfold alloc. intros [= <- <-]. split; [done|]. apply not_elem_of_dom, is_fresh. Qed.

Lemma ext_alloc m p q p' : alloc m p = (q, p') -> extends p p'.
Proof.
  intros [-> Hn]%alloc_spec. split; [done|done|done| | | |done].
  - intros x mx Hx. cbn. rewrite lookup_insert_ne by congruence. eauto using later_refl.
  - exists []. by rewrite app_nil_r.
  - exists []. by rewrite app_nil_r.
Qed.

Create HintDb ext_queue discriminated.
Create HintDb ext discriminated.
Hint Constants Opaque : ext.

(** Peels the last update of the final state. *)
Ltac ext_step :=
  match goal with
  | |- extends ?p ?p => apply ext_refl
  | |- extends _ (emit _ ?p) => apply (ext_trans _ p); [|apply ext_emit]
  | |- extends _ (upd _ ?p) => apply (ext_trans _ p); [|by apply ext_owner]
  | |- extends _ (upd_primary (set_write_queue _) ?p) => apply (ext_trans _ p); [|solve [eauto 2 with ext_queue nocore]]
  | |- extends _ (upd_primary _ ?p) => apply (ext_trans _ p); [|by apply ext_owner]
  | |- extends _ (set_mu _ _ ?p) =>
      apply (ext_trans _ p); [|eapply ext_set_mu; [eassumption|repeat case_match; by split_and!]]
  | |- extends _ (with_cache _ ?p) => apply (ext_trans _ p); [|by apply ext_owner]
  | |- extends _ (with_last_committed _ ?p) => apply (ext_trans _ p); [|by apply ext_owner]
  | |- extends _ (if ?b then _ else _) => let H := fresh "Hb" in destruct b eqn:H
  | |- extends _ (match ?x with _ => _ end) => let H := fresh "Hm" in destruct x eqn:H
  | |- _ => eapply ext_trans; [|solve [eauto 2 with ext nocore]]
  end.

(** A run that returned: inverted, then the final state peeled. *)
Ltac inv_pairs :=
  repeat match goal with
  | x : (_ * _)%type |- _ => destruct x
  | E : (_, _) = (_, _) |- _ => injection E as E; subst
  | E : alloc _ _ = (?q, ?p) |- _ => apply ext_alloc in E
  | E : new_task _ = (_, _) |- _ => unfold new_task in E
  | E : deref _ = Ret _ |- _ => apply deref_Ret_inv in E
  end.

Ltac inv_run :=
  repeat (match goal with
          | E : _ = Ret _ |- _ => progress (cbv beta iota zeta in E); inv_run_in E
          | E : _ = Ret _ |- _ => inv_run_in E
          end; subst; inv_pairs; cbn [negb] in *; try discriminate).

Ltac ext_auto := intros; inv_run; repeat ext_step.

(** *** The prepare list *)

Lemma ready_is_logged m : is_ready_for_commit m = true -> is_logged m = true.
Proof. unfold is_ready_for_commit, is_logged. rewrite !andb_true_iff. tauto. Qed.

Lemma ext_reset d p : extends p (PrepareList.reset d p).
Proof. by apply ext_owner. Qed.

Lemma ext_truncate d p p' : truncate d p = Ret p' -> extends p p'.
Proof. unfold truncate. ext_auto. Qed.

Lemma ext_pop_committed pop d p p' : pop_committed pop d p = Ret p' -> extends p p'.
Proof. unfold pop_committed. ext_auto. Qed.

Lemma ext_plist_put q p err p' : plist_put q p = Ret (err, p') -> extends p p'.
Proof. unfold plist_put. ext_auto. Qed.

Hint Resolve ext_reset ext_truncate ext_pop_committed ext_plist_put : ext.

Lemma ext_put_or_die q p err p' : put_or_die q p = Ret (err, p') -> extends p p'.
Proof. unfold put_or_die. ext_auto. Qed.
Hint Resolve ext_put_or_die : ext.

Lemma ext_response_client_write r err p : extends p (response_client_write r err p).
Proof. unfold response_client_write. repeat ext_step. Qed.
Hint Resolve ext_response_client_write : ext.

Lemma ext_response_all rs err p : extends p (response_all rs err p).
Proof.
  revert p. induction rs as [|r rs IH]; intros p; cbn; [apply ext_refl|].
  eapply ext_trans; [apply ext_response_client_write|apply IH].
Qed.
Hint Resolve ext_response_all : ext.

Lemma ext_reply_with_error mu err p : extends p (reply_with_error mu err p).
Proof. unfold reply_with_error. repeat ext_step. Qed.
Hint Resolve ext_reply_with_error : ext.

Lemma ext_parent_cleanup p : extends p (parent_cleanup_split_context p).
Proof. by apply ext_owner. Qed.
Hint Resolve ext_parent_cleanup : ext.

Lemma ext_send_prepare hp target q t pop sig p p' :
  send_prepare_message hp target q t pop sig p = Ret p' -> extends p p'.
Proof. unfold send_prepare_message. ext_auto. Qed.
Hint Resolve ext_send_prepare : ext.

Lemma ext_send_to_secondaries e l q pop p p' : send_to_secondaries e l q pop p = Ret p' -> extends p p'.
Proof. revert p. induction l as [|hp l IH]; cbn [send_to_secondaries]; ext_auto. Qed.

Lemma ext_send_to_learners e l q d pop n p n' p' :
  send_to_learners e l q d pop n p = Ret (n', p') -> extends p p'.
Proof.
  revert n p. induction l as [|[hp s] l IH]; cbn [send_to_learners]; ext_auto.
Qed.
Hint Resolve ext_send_to_secondaries ext_send_to_learners : ext.

Lemma ext_copy_mutation e q p p' : copy_mutation e q p = Ret p' -> extends p p'.
Proof. unfold copy_mutation. ext_auto. Qed.
Hint Resolve ext_copy_mutation : ext.

Lemma ext_make_idempotent e mu p err mu' p' : make_idempotent e mu p = Ret (err, mu', p') -> extends p p'.
Proof. unfold make_idempotent. ext_auto. Qed.

Lemma ext_assign_id e mu p mu' p' : assign_id e mu p = (mu', p') -> extends p p'.
Proof.
  unfold assign_id, ts_next. destruct (_ =? invalid_decree); intros [= <- <-]; repeat ext_step.
Qed.
Hint Resolve ext_make_idempotent ext_assign_id : ext.

Lemma waiting_clear q : Forall waiting (content (snd (clear q))).
Proof.
  pose proof (clear_drains q) as Hc. destruct (clear q) as [out q'].
  destruct Hc as (_ & E & _). cbn. rewrite E. constructor.
Qed.

(** What a cleanup of the primary context keeps. *)
Lemma primary_cleanup_keeps st c s s' :
  primary_cleanup st c s = Ret s' ->
  write_queue s' = (if c then snd (clear (write_queue s)) else write_queue s) /\
  hp_secondaries (pc s') = hp_secondaries (pc s) /\ learners s' = learners s.
Proof.
  unfold primary_cleanup, cleanup_split_states, CLEANUP_TASK_ALWAYS, do_cleanup_pending_mutations.
  intros E. cbv zeta in E. set (s1 := if c then _ else _) in E.
  assert (write_queue s' = write_queue s1 /\ hp_secondaries (pc s') = hp_secondaries (pc s1) /\
    learners s' = learners s1) as (-> & -> & ->) by (clearbody s1; inv_returns; done).
  by destruct c.
Qed.

Lemma ext_clean_primary e c p p' : clean_primary e c p = Ret p' -> extends p p'.
Proof.
  unfold clean_primary. intros E. inv_run. apply primary_cleanup_keeps in E0 as [E0 _].
  apply ext_owner; try done. unfold queue_waits. cbn. rewrite E0. destruct c; [|done].
  intros _. apply waiting_clear.
Qed.
Lemma ext_clean_secondary e f p ok p' : clean_secondary e f p = Ret (ok, p') -> extends p p'.
Proof. unfold clean_secondary. ext_auto. Qed.
Lemma ext_clean_learner e f p ok p' : clean_learner e f p = Ret (ok, p') -> extends p p'.
Proof. unfold clean_learner. ext_auto. Qed.
Lemma ext_clean_split e f p ok p' : clean_split e f p = Ret (ok, p') -> extends p p'.
Proof. unfold clean_split. ext_auto. Qed.
Lemma ext_cancel_backup p : extends p (cancel_backup p).
Proof. apply ext_emit. Qed.
Hint Resolve ext_clean_primary ext_clean_secondary ext_clean_learner ext_clean_split ext_cancel_backup : ext.

Lemma ext_init_group_check e p p' : init_group_check e p = Ret p' -> extends p p'.
Proof. unfold init_group_check. ext_auto. Qed.

Lemma ext_fold_cancel ts p : extends p (fold_left (fun p t => emit (CancelTask t) p) ts p).
Proof.
  revert p. induction ts as [|t ts IH]; intros p; cbn; [apply ext_refl|].
  eapply ext_trans; [apply ext_emit|apply IH].
Qed.
Hint Resolve ext_init_group_check ext_fold_cancel : ext.

Lemma ext_cleanup_loop n d p p' : cleanup_loop n d p = Ret p' -> extends p p'.
Proof.
  revert d p. induction n as [|n IH]; cbn [cleanup_loop]; [ext_auto|]. intros d p E. inv_run.
  - injection Hm as <- <-. eapply ext_trans; [|by eapply IH]. repeat ext_step.
  - by eapply IH.
Qed.

Lemma ext_cleanup_preparing p p' : cleanup_preparing_mutations p = Ret p' -> extends p p'.
Proof. apply ext_cleanup_loop. Qed.
Hint Resolve ext_cleanup_preparing : ext.

Lemma ext_clear_bulk_load a b p : extends p (clear_bulk_load_states_if_needed a b p).
Proof. unfold clear_bulk_load_states_if_needed. repeat ext_step. Qed.

Lemma ext_transient t p : extends p (set_inactive_state_transient t p).
Proof. unfold set_inactive_state_transient. repeat ext_step. Qed.

Lemma ext_remove_replica e c p : extends p (remove_replica_on_meta_server e c p).
Proof. unfold remove_replica_on_meta_server. repeat ext_step. Qed.
Hint Resolve ext_clear_bulk_load ext_transient ext_remove_replica : ext.

Lemma ext_change_allowed e s p ok p' : change_allowed e s p = Ret (ok, p') -> extends p p'.
Proof. unfold change_allowed. ext_auto. Qed.
Hint Resolve ext_change_allowed : ext.

(** A change of configuration that does not lower the ballot, from a status that
    is not the error status. *)
Lemma ext_set_config c p :
  get_ballot p <= rc_ballot c -> status p <> PS_ERROR -> extends p (upd (set_config c) p).
Proof.
  intros Hb Hs. split; [done|done|done|eauto using later_refl| | |done].
  - exists []. by rewrite app_nil_r.
  - exists []. by rewrite app_nil_r.
Qed.

(** *** Everything that may commit *)

(** A change that is allowed leaves the configuration, and not from the error status. *)
Lemma change_allowed_true e s p p' :
  change_allowed e s p = Ret (true, p') -> config (owner p') = config (owner p) /\ status p' <> PS_ERROR.
Proof.
  unfold change_allowed. destruct (status p) eqn:Es; intros E;
    unfold clean_learner, clean_secondary in E; inv_run; split; try done; unfold status in *; cbn; congruence.
Qed.

(** *** The queue of writes *)

Lemma ext_set_queue queue p :
  (queue_waits p -> Forall waiting (content queue)) -> extends p (upd_primary (set_write_queue queue) p).
Proof. intros Hq. by apply ext_owner. Qed.

Lemma ext_enter_2pc get env mu queue p :
  enter_2pc get env mu (write_queue (pstates (owner p))) = Ret queue ->
  extends p (upd_primary (set_write_queue queue) p).
Proof.
  unfold enter_2pc. intros E. inv_returns. apply ext_set_queue. unfold queue_waits.
  apply enter_rows_content in E0. apply evict_rows_content in E. by rewrite E, E0.
Qed.

Lemma ext_next_work get env n mo queue p :
  next_work get env n (write_queue (pstates (owner p))) = Ret (mo, queue) ->
  extends p (upd_primary (set_write_queue queue) p).
Proof.
  intros E%next_work_content. apply ext_set_queue. unfold queue_waits. rewrite E.
  by intros [_ Hq]%Forall_app.
Qed.

Lemma ext_add_work get env r mo queue p :
  add_work get env r (write_queue (pstates (owner p))) = Ret (mo, queue) ->
  extends p (upd_primary (set_write_queue queue) p).
Proof.
  intros E. apply ext_set_queue. intros Hq. apply (add_work_held waiting) in E;
    [|by intros; split|by intros [?|] ? []; split|done].
  by apply Forall_app in E as [_ E].
Qed.

Lemma ext_clear_queue l queue p :
  clear (write_queue (pstates (owner p))) = (l, queue) ->
  extends p (upd_primary (set_write_queue queue) p).
Proof.
  intros E. apply ext_set_queue. intros _. pose proof (waiting_clear (write_queue (pstates (owner p)))) as Hc.
  by rewrite E in Hc.
Qed.

Lemma ext_reset_membership c b p : extends p (upd_primary (reset_membership c b) p).
Proof. apply ext_owner; try done. unfold queue_waits, upd_primary, reset_membership. cbn. by case_match. Qed.
Hint Resolve ext_reset_membership : ext.
Hint Resolve ext_enter_2pc ext_next_work ext_add_work ext_clear_queue : ext_queue.
#[local] Opaque add_work next_work enter_2pc clear.

Section Committer.
Context (exec : mutation_ptr -> replica -> outcome replica)
  (Hexec : forall q p p', exec q p = Ret p' -> extends p p').
Hint Resolve Hexec : ext.

Lemma ext_commit_one q m p p' : is_logged m = true -> commit_one exec q m p = Ret p' -> extends p p'.
Proof.
  intros Hl E. eapply ext_trans; [|eapply Hexec, E].
  split; [done|done|done|eauto using later_refl| | |done].
  - exists [m]. by rewrite Forall_singleton.
  - exists []. by rewrite app_nil_r.
Qed.

Lemma ext_commit d ct p p' : commit exec d ct p = Ret p' -> extends p p'.
Proof.
  assert (forall n d0 bt p, commit_hard exec n d0 bt p = Ret p' -> extends p p') as Hhard.
  { induction n as [|n IH]; cbn [commit_hard]; intros d0 bt p0 E; inv_run; [apply ext_refl|].
    eapply ext_trans; [by eapply ext_commit_one|by eapply IH]. }
  assert (forall n d0 bt p, commit_soft exec n d0 bt p = Ret p' -> extends p p') as Hsoft.
  { induction n as [|n IH]; cbn [commit_soft]; intros d0 bt p0 E; inv_run; try apply ext_refl.
    apply andb_true_iff in Hb as [Hr%ready_is_logged _].
    eapply ext_trans; [by eapply ext_commit_one|by eapply IH]. }
  assert (forall n d0 bt p, commit_ready exec n d0 bt p = Ret p' -> extends p p') as Hready.
  { induction n as [|n IH]; cbn [commit_ready]; intros d0 bt p0 E; inv_run; try apply ext_refl.
    apply andb_true_iff in Hb as [Hr%ready_is_logged _].
    eapply ext_trans; [by eapply ext_commit_one|by eapply IH]. }
  unfold commit. intros E. inv_run; try apply ext_refl; eauto.
Qed.
Hint Resolve ext_commit : ext.

Lemma ext_prepare q s pop sc p err p' : prepare exec q s pop sc p = Ret (err, p') -> extends p p'.
Proof. unfold prepare. ext_auto. Qed.
Hint Resolve ext_prepare : ext.

Lemma ext_do_possible_commit q p p' : do_possible_commit_on_primary exec q p = Ret p' -> extends p p'.
Proof. unfold do_possible_commit_on_primary. ext_auto. Qed.
Hint Resolve ext_do_possible_commit : ext.

Lemma ext_start_2pc e q pop p p' : start_2pc exec e q pop p = Ret p' -> extends p p'.
Proof. unfold start_2pc. ext_auto. Qed.
Hint Resolve ext_start_2pc : ext.

Lemma ext_init_prepare e mu rec pop p p' : init_prepare exec e mu rec pop p = Ret p' -> extends p p'.
Proof. unfold init_prepare. ext_auto. Qed.
Hint Resolve ext_init_prepare : ext.

Lemma ext_prepare_next e n p p' : prepare_next exec e n p = Ret p' -> extends p p'.
Proof. unfold prepare_next. ext_auto. Qed.
Hint Resolve ext_prepare_next : ext.

Lemma ext_replay e p p' : replay_prepare_list exec e p = Ret p' -> extends p p'.
Proof.
  unfold replay_prepare_list. generalize (Z.to_nat (max_prepared_decree p - last_committed p)) as n.
  generalize (last_committed p + 1) as d. intros d n. revert d p.
  induction n as [|n IH]; cbn [replay_loop]; ext_auto.
Qed.
Hint Resolve ext_replay : ext.

Lemma ext_leave_status e old b c p p' : leave_status exec e old b c p = Ret p' -> extends p p'.
Proof.
  unfold leave_status, leave_primary, leave_secondary, leave_potential_secondary,
    leave_partition_split, leave_inactive, check_state_completeness. ext_auto.
Qed.
Hint Resolve ext_leave_status : ext.

Lemma ext_start_pending e p p' : start_pending exec e p = Ret p' -> extends p p'.
Proof. unfold start_pending. ext_auto. Qed.
Hint Resolve ext_start_pending : ext.

Lemma ext_finish_change e old b c p ok p' : finish_change exec e old b c p = Ret (ok, p') -> extends p p'.
Proof. unfold finish_change. ext_auto. Qed.
Hint Resolve ext_finish_change : ext.

Lemma ext_update_local e c same p ok p' :
  update_local_configuration exec e c same p = Ret (ok, p') -> extends p p'.
Proof.
  unfold update_local_configuration. intros E. inv_run; try apply ext_refl; [eauto with ext|..].
  all: destruct b; [|done].
  all: destruct (change_allowed_true _ _ _ _ E0) as [Ecf Hs].
  all: assert (extends p (upd (set_config c) p0)) by
    (eapply ext_trans; [by eapply ext_change_allowed|]; apply ext_set_config; [|done];
     unfold get_ballot in *; rewrite Ecf; lia).
  all: eapply ext_trans; [|by eapply ext_finish_change].
  all: eapply ext_trans; [|by eapply ext_leave_status].
  all: eapply ext_trans; [|apply ext_clear_bulk_load].
  all: case_match; [|done]; eapply ext_trans; [|apply ext_parent_cleanup].
  all: eapply ext_trans; [|apply ext_emit]; done.
Qed.
Hint Resolve ext_update_local : ext.

Lemma ext_no_ballot_change e st p ok p' :
  update_local_configuration_with_no_ballot_change exec e st p = Ret (ok, p') -> extends p p'.
Proof. unfold update_local_configuration_with_no_ballot_change. ext_auto. Qed.
Hint Resolve ext_no_ballot_change : ext.

Lemma ext_update_configuration e c p ok p' :
  update_configuration exec e c p = Ret (ok, p') -> extends p p'.
Proof. unfold update_configuration. ext_auto. Qed.
Hint Resolve ext_update_configuration : ext.

Lemma ext_update_on_meta e type node c p p' :
  update_configuration_on_meta_server exec e type node c p = Ret p' -> extends p p'.
Proof. unfold update_configuration_on_meta_server. ext_auto. Qed.
Hint Resolve ext_update_on_meta : ext.

Lemma ext_assign_primary e c p p' : assign_primary exec e c p = Ret p' -> extends p p'.
Proof. unfold assign_primary. ext_auto. Qed.
Lemma ext_add_potential_secondary e c p p' : add_potential_secondary e c p = Ret p' -> extends p p'.
Proof.
  unfold add_potential_secondary. intros E. inv_run; try apply ext_refl.
  all: match goal with
       | Hx : match ?x with _ => _ end = (_, _) |- _ => destruct x; injection Hx as <- <-
       end; repeat ext_step.
Qed.
Lemma ext_upgrade_to_secondary e node p p' : upgrade_to_secondary_on_primary exec e node p = Ret p' -> extends p p'.
Proof. unfold upgrade_to_secondary_on_primary. ext_auto. Qed.
Lemma ext_downgrade_to_secondary e c p p' :
  downgrade_to_secondary_on_primary exec e c p = Ret p' -> extends p p'.
Proof. unfold downgrade_to_secondary_on_primary. ext_auto. Qed.
Lemma ext_downgrade_to_inactive e c p p' :
  downgrade_to_inactive_on_primary exec e c p = Ret p' -> extends p p'.
Proof. unfold downgrade_to_inactive_on_primary. ext_auto. Qed.
Lemma ext_remove e c p p' : remove exec e c p = Ret p' -> extends p p'.
Proof. unfold remove. ext_auto. Qed.
Hint Resolve ext_assign_primary ext_add_potential_secondary ext_upgrade_to_secondary
  ext_downgrade_to_secondary ext_downgrade_to_inactive ext_remove : ext.

Lemma ext_on_remove e c p p' : on_remove exec e c p = Ret p' -> extends p p'.
Proof. unfold on_remove. ext_auto. Qed.
Lemma ext_on_config_proposal e c p p' : on_config_proposal exec e c p = Ret p' -> extends p p'.
Proof. unfold on_config_proposal. ext_auto. Qed.
Lemma ext_on_meta_reply e err resp req p p' :
  on_update_configuration_on_meta_server_reply exec e err resp req p = Ret p' -> extends p p'.
Proof. unfold on_update_configuration_on_meta_server_reply, clear_reconfiguration_task. ext_auto. Qed.

Lemma ext_handle_local_failure e err p p' : handle_local_failure exec e err p = Ret p' -> extends p p'.
Proof. unfold handle_local_failure. ext_auto. Qed.
Lemma ext_handle_learning_error e err l p p' : handle_learning_error exec e err l p = Ret p' -> extends p p'.
Proof. unfold handle_learning_error. ext_auto. Qed.
Lemma ext_handle_remote_failure e st node p p' : handle_remote_failure exec e st node p = Ret p' -> extends p p'.
Proof. unfold handle_remote_failure. ext_auto. Qed.
Lemma ext_on_meta_server_disconnected e p p' : on_meta_server_disconnected exec e p = Ret p' -> extends p p'.
Proof. unfold on_meta_server_disconnected. ext_auto. Qed.
Hint Resolve ext_handle_local_failure ext_handle_learning_error ext_handle_remote_failure : ext.

Lemma ext_apply_mutation e q p err p' : apply_mutation e q p = Ret (err, p') -> extends p p'.
Proof. unfold apply_mutation. ext_auto. Qed.
Hint Resolve ext_apply_mutation : ext.

Lemma ext_execute_apply e q d p err p' : execute_apply e q d p = Ret (err, p') -> extends p p'.
Proof. unfold execute_apply, check_state_completeness. ext_auto. Qed.
Hint Resolve ext_execute_apply : ext.

Lemma ext_execute_body e q p p' : execute_mutation_body exec e q p = Ret p' -> extends p p'.
Proof. unfold execute_mutation_body. ext_auto. Qed.

(** *** The handlers *)

Lemma ack_prepare_spec err m p m' p' :
  ack_prepare_message err m p = Ret (m', p') -> extends p p' /\ objects p' = objects p /\ later m m'.
Proof.
  assert (forall rs resp x, extends x (fold_left (fun p r => emit (ReplyPrepare r resp) p) rs x) /\
      objects (fold_left (fun p r => emit (ReplyPrepare r resp) p) rs x) = objects x) as Hall.
  { induction rs as [|r rs IH]; intros resp x; cbn; [split; [apply ext_refl|done]|].
    destruct (IH resp (emit (ReplyPrepare r resp) x)) as [H1 H2].
    split; [eapply ext_trans; [apply ext_emit|done]|done]. }
  unfold ack_prepare_message. intros E. inv_run; repeat case_match.
  all: split_and!; try done; try apply ext_refl; apply Hall.
Qed.

Lemma ext_ack_prepare_ptr err q p p' : ack_prepare_ptr err q p = Ret p' -> extends p p'.
Proof.
  unfold ack_prepare_ptr. intros E. inv_run. apply ack_prepare_spec in E1 as (H1 & H2 & H3).
  eapply ext_trans; [done|]. eapply ext_set_mu; [|done]. by rewrite H2.
Qed.

Lemma ext_ack_prepare_new err m p p' : ack_prepare_new err m p = Ret p' -> extends p p'.
Proof. unfold ack_prepare_new. intros E. inv_run. by apply ack_prepare_spec in E0 as [? _]. Qed.
Hint Resolve ext_ack_prepare_ptr ext_ack_prepare_new : ext.

Lemma ext_store_prepared e m pop p p' : store_prepared e exec m pop p = Ret p' -> extends p p'.
Proof. unfold store_prepared. ext_auto. Qed.
Hint Resolve ext_store_prepared : ext.

Lemma ext_ts_try_update t p : extends p (ts_try_update t p).
Proof. apply ext_owner; cbn; try done; try (by case_match). unfold queue_waits. cbn. by case_match. Qed.
Hint Resolve ext_ts_try_update : ext.

Lemma ext_real_prepare e request m pop p p' : real_prepare e exec request m pop p = Ret p' -> extends p p'.
Proof. unfold real_prepare. ext_auto. Qed.
Hint Resolve ext_real_prepare : ext.

Lemma ext_on_prepare e request c body p p' : on_prepare e exec request c body p = Ret p' -> extends p p'.
Proof. unfold on_prepare. ext_auto. Qed.

Lemma ext_logged_on_status e q err p p' : logged_on_status e exec q err p = Ret p' -> extends p p'.
Proof. unfold logged_on_status, ack_parent. ext_auto. Qed.
Hint Resolve ext_logged_on_status : ext.

Lemma ext_on_append_log_completed e q err p p' :
  on_append_log_completed e exec q err p = Ret p' -> extends p p'.
Proof. unfold on_append_log_completed, set_logged. ext_auto. Qed.

Lemma ext_append_mutation q off p p' : append_mutation q off p = Ret p' -> extends p p'.
Proof. unfold append_mutation. ext_auto. Qed.

Lemma ext_prepare_failed e q m target node err p p' :
  prepare_failed e exec q m target node err p = Ret p' -> extends p p'.
Proof. unfold prepare_failed, decrease_left_potential_secondary_ack_count. ext_auto. Qed.
Hint Resolve ext_prepare_failed : ext.

Lemma ext_on_prepare_reply e q target node err resp p p' :
  on_prepare_reply e exec q target node err resp p = Ret p' -> extends p p'.
Proof.
  unfold on_prepare_reply, decrease_left_secondary_ack_count, decrease_left_potential_secondary_ack_count.
  ext_auto.
Qed.

Lemma ext_delay_prepare node target q timeout sig p p' :
  delay_prepare node target q timeout sig p = Ret p' -> extends p p'.
Proof. unfold delay_prepare. ext_auto. Qed.

Lemma ext_child_handle_split_error e p p' : child_handle_split_error e exec p = Ret p' -> extends p p'.
Proof. unfold child_handle_split_error. ext_auto. Qed.
Hint Resolve ext_child_handle_split_error : ext.

Lemma ext_on_copy_mutation e m p p' : on_copy_mutation e exec m p = Ret p' -> extends p p'.
Proof. unfold on_copy_mutation, set_logged. ext_auto. Qed.

Lemma ext_on_copy_mutation_reply e err b d p p' :
  on_copy_mutation_reply e exec err b d p = Ret p' -> extends p p'.
Proof. unfold on_copy_mutation_reply. ext_auto. Qed.

Lemma ext_throttle_effect r m t p : extends p (throttle_effect r m t p).
Proof. destruct t; apply ext_emit. Qed.
Hint Resolve ext_throttle_effect : ext.

Lemma ext_throttle_write e m p b p' : throttle_write e m p = (b, p') -> extends p p'.
Proof.
  unfold throttle_write. destruct (throttle_write_request _ _ _ _) as [[[t|] qps] size];
    intros [= <- <-]; repeat ext_step.
Qed.

Lemma ext_throttle_read e m p b p' : throttle_read e m p = (b, p') -> extends p p'.
Proof.
  unfold throttle_read. destruct (throttle_read_request _ _ _) as [[t|] qps];
    intros [= <- <-]; repeat ext_step.
Qed.

Lemma ext_throttle_backup e m p b p' : throttle_backup e m p = (b, p') -> extends p p'.
Proof.
  unfold throttle_backup. destruct (throttle_backup_request _ _ _) as [[stop [ms|]] qps];
    intros [= <- <-]; repeat ext_step.
Qed.
Hint Resolve ext_throttle_write ext_throttle_read ext_throttle_backup : ext.

Lemma ext_enqueue_write e r p p' : enqueue_write e exec r p = Ret p' -> extends p p'.
Proof. unfold enqueue_write. ext_auto. Qed.
Hint Resolve ext_enqueue_write : ext.

Lemma ext_accept_write e r p p' : accept_write e exec r p = Ret p' -> extends p p'.
Proof. unfold accept_write. ext_auto. Qed.
Hint Resolve ext_accept_write : ext.

Lemma ext_on_client_write e r ign p p' : on_client_write e exec r ign p = Ret p' -> extends p p'.
Proof. unfold on_client_write. destruct ign; ext_auto. Qed.

Lemma ext_serve_read e r p p' : serve_read e exec r p = Ret p' -> extends p p'.
Proof. unfold serve_read. ext_auto. Qed.
Hint Resolve ext_serve_read : ext.

Lemma ext_on_client_read e r ign p p' : on_client_read e exec r ign p = Ret p' -> extends p p'.
Proof. unfold on_client_read, response_client_read. destruct ign; ext_auto. Qed.

End Committer.

(** ** Histories of a replica *)

(** What a replica reacts to: requests, messages, completions and timers. *)
Inductive event :=
| ClientWrite (request : message) (ignore_throttling : bool)
| ClientRead (request : message) (ignore_throttling : bool)
| Prepare (request : Z) (rconfig : replica_configuration) (body : prepare_body)
| LogCompleted (q : mutation_ptr) (err : error_code)
| LogAppended (q : mutation_ptr) (offset : Z)
| PrepareReply (q : mutation_ptr) (target : partition_status) (node : host_port) (err : error_code)
    (resp : prepare_ack)
| PrepareDelayed (node : host_port) (target : partition_status) (q : mutation_ptr) (timeout sig : Z)
| CopyFromParent (m : mutation)
| CopyReply (err : error_code) (b d : Z)
| ConfigProposal (proposal : configuration_update_request)
| MetaReply (err : error_code) (resp : error_code * partition_configuration)
    (req : configuration_update_request)
| LearnCompleted (node : host_port)
| RemoveRequest (request : replica_configuration)
| MetaDisconnected
| LocalFailure (err : error_code)
| LearningError (err : error_code) (is_local_error : bool).

Definition handle (e : env) (exec : mutation_ptr -> replica -> outcome replica) (ev : event) (p : replica)
  : outcome replica :=
  match ev with
  | ClientWrite r ign => on_client_write e exec r ign p
  | ClientRead r ign => on_client_read e exec r ign p
  | Prepare r c b => on_prepare e exec r c b p
  | LogCompleted q err => on_append_log_completed e exec q err p
  | LogAppended q offset => append_mutation q offset p
  | PrepareReply q target node err resp => on_prepare_reply e exec q target node err resp p
  | PrepareDelayed node target q timeout sig => delay_prepare node target q timeout sig p
  | CopyFromParent m => on_copy_mutation e exec m p
  | CopyReply err b d => on_copy_mutation_reply e exec err b d p
  | ConfigProposal c => on_config_proposal exec e c p
  | MetaReply err resp req => on_update_configuration_on_meta_server_reply exec e err resp req p
  | LearnCompleted node => upgrade_to_secondary_on_primary exec e node p
  | RemoveRequest c => on_remove exec e c p
  | MetaDisconnected => on_meta_server_disconnected exec e p
  | LocalFailure err => handle_local_failure exec e err p
  | LearningError err l => handle_learning_error exec e err l p
  end.

(** Each event is handled in an environment of its own; [fuel] bounds the nesting
    of the committer. *)
Fixpoint run (fuel : nat) (evs : list (env * event)) (p : replica) : outcome replica :=
  match evs with
  | [] => Ret p
  | (e, ev) :: evs => let* p := handle e (execute_mutation e fuel) ev p in run fuel evs p
  end.

Lemma ext_handle e exec ev p p' :
  (forall q x x', exec q x = Ret x' -> extends x x') -> handle e exec ev p = Ret p' -> extends p p'.
Proof.
  intros Hexec. destruct ev; cbn [handle].
  - by apply ext_on_client_write.
  - by apply ext_on_client_read.
  - by apply ext_on_prepare.
  - by apply ext_on_append_log_completed.
  - by apply ext_append_mutation.
  - by apply ext_on_prepare_reply.
  - by apply ext_delay_prepare.
  - by apply ext_on_copy_mutation.
  - by apply ext_on_copy_mutation_reply.
  - by apply ext_on_config_proposal.
  - by apply ext_on_meta_reply.
  - by apply ext_upgrade_to_secondary.
  - by apply ext_on_remove.
  - by apply ext_on_meta_server_disconnected.
  - by apply ext_handle_local_failure.
  - by apply ext_handle_learning_error.
Qed.

Lemma ext_execute_mutation e fuel q p p' : execute_mutation e fuel q p = Ret p' -> extends p p'.
Proof.
  revert q p p'. induction fuel as [|fuel IH]; intros q p p'; cbn [execute_mutation]; [done|].
  by apply ext_execute_body.
Qed.

Lemma ext_run fuel evs p p' : run fuel evs p = Ret p' -> extends p p'.
Proof.
  revert p. induction evs as [|[e ev] evs IH]; intros p; cbn [run].
  { intros [= <-]. apply ext_refl. }
  intros (p1 & E1 & E)%obind_Ret_inv. eapply ext_trans; [|by apply IH].
  eapply ext_handle; [apply ext_execute_mutation|done].
Qed.


(** ** The committer does not nest

    While a commit hands a mutation to [execute_mutation], the next write of the queue
    may be prepared.  Preparing it never commits: it is not in the log yet, and the
    committed point it carries is the current one.  So [execute_mutation] does not call
    itself, and one level of the committer gives the result of any number. *)

(** A committer that must not be called. *)
Definition no_commit (q : mutation_ptr) (p : replica) : outcome replica := Undef.

Lemma no_commit_ext q p p' : no_commit q p = Ret p' -> extends p p'.
Proof. done. Qed.

Definition logged_at (p : replica) (q : mutation_ptr) : option bool := is_logged <$> objects p !! q.

Lemma logged_at_set_mu q m m' p x :
  objects p !! q = Some m -> is_logged m' = is_logged m -> logged_at (set_mu q m' p) x = logged_at p x.
Proof.
  intros Hq Hm. unfold logged_at. cbn. destruct (decide (q = x)) as [->|Hne].
  - by rewrite lookup_insert_eq, Hq; cbn; rewrite Hm.
  - by rewrite lookup_insert_ne.
Qed.

Lemma send_prepare_logged hp target q t pop sig p p' x :
  send_prepare_message hp target q t pop sig p = Ret p' -> logged_at p' x = logged_at p x.
Proof. unfold send_prepare_message. intros E. inv_run. by erewrite logged_at_set_mu. Qed.

Lemma send_to_secondaries_logged e l q pop p p' x :
  send_to_secondaries e l q pop p = Ret p' -> logged_at p' x = logged_at p x.
Proof.
  revert p. induction l as [|hp l IH]; cbn [send_to_secondaries]; intros p E; inv_run; [done|].
  etransitivity; [by eapply IH|by eapply send_prepare_logged].
Qed.

Lemma send_to_learners_logged e l q d pop n p n' p' x :
  send_to_learners e l q d pop n p = Ret (n', p') -> logged_at p' x = logged_at p x.
Proof.
  revert n p. induction l as [|[hp s] l IH]; cbn [send_to_learners]; intros n p E; inv_run; [done|..].
  - etransitivity; [by eapply IH|by eapply send_prepare_logged].
  - by eapply IH.
Qed.

Lemma copy_mutation_logged e q p p' x : copy_mutation e q p = Ret p' -> logged_at p' x = logged_at p x.
Proof.
  unfold copy_mutation. intros E. inv_run.
  rewrite <- (logged_at_set_mu q r (if sync_to_child r then set_wait_child true r else r) p x) by
    (done || by destruct (sync_to_child r)).
  by destruct (is_ok _).
Qed.

(** Preparing a mutation that is not logged does not use the committer. *)
Lemma start_2pc_nothing exec e q pop p :
  logged_at p q = Some false -> start_2pc no_commit e q pop p = start_2pc exec e q pop p.
Proof.
  intros Hq. unfold start_2pc. agree_step; [reflexivity|]. agree_step; [reflexivity|]. cbv zeta.
  agree_step; [reflexivity|]. agree_step; [reflexivity|]. destruct a2 as [n p3].
  agree_step; [reflexivity|]. agree_step; [reflexivity|]. agree_step; [reflexivity|].
  assert (is_logged a4 = false) as ->; [|reflexivity].
  apply deref_Ret_inv in E, E3, E5. assert (logged_at a3 q = Some false) as H5.
  { assert (logged_at p3 q = Some false) as H3.
    { rewrite (send_to_learners_logged _ _ _ _ _ _ _ _ _ q E2), (send_to_secondaries_logged _ _ _ _ _ _ q E1).
      by rewrite (logged_at_set_mu _ a). }
    destruct (is_splitting _); [rewrite (copy_mutation_logged _ _ _ _ q E4)|injection E4 as <-];
      by rewrite (logged_at_set_mu _ a2). }
  unfold logged_at in H5. rewrite E5 in H5. by injection H5.
Qed.

Lemma make_idempotent_unlogged e mu p err mu' p' :
  make_idempotent e mu p = Ret (err, mu', p') -> is_logged mu = false -> is_logged mu' = false.
Proof.
  assert (forall l m, is_logged m = false ->
    is_logged (fold_left (fun m r => add_client_request (Some r) m) l m) = false) as Hl.
  { induction l as [|r l IH]; intros m Hm; cbn; [done|]. by apply IH. }
  unfold make_idempotent. intros E Hmu. inv_run; try done. by apply Hl.
Qed.

Lemma assign_id_unlogged e mu p mu' p' :
  assign_id e mu p = (mu', p') -> is_logged mu = false -> is_logged mu' = false.
Proof. unfold assign_id, ts_next. destruct (_ =? invalid_decree); intros [= <- <-] E; exact E. Qed.

Lemma prepare_primary_objects exec q pop sc p err p' :
  prepare exec q PS_PRIMARY pop sc p = Ret (err, p') -> objects p' = objects p.
Proof. unfold prepare, pop_committed, plist_put. intros E. by inv_run. Qed.

Lemma init_prepare_nothing exec e mu rec pop p :
  is_logged mu = false -> init_prepare no_commit e mu rec pop p = init_prepare exec e mu rec pop p.
Proof.
  intros Hmu. unfold init_prepare. agree_step. agree_step; [reflexivity|]. destruct a as [[err mu1] p1].
  agree_step; [reflexivity|]. destruct (assign_id e mu1 p1) as [mu2 p2] eqn:E2. cbv zeta.
  agree_step; [reflexivity|]. agree_step; [reflexivity|]. agree_step; [reflexivity|].
  agree_step; [reflexivity|]. agree_step. destruct (alloc mu2 p2) as [q p3] eqn:E3.
  agree_step; [reflexivity|]. destruct a0 as [err4 p4]. agree_step; [reflexivity|]. apply start_2pc_nothing.
  apply alloc_spec in E3 as [-> _]. unfold logged_at. erewrite prepare_primary_objects by done. cbn.
  rewrite lookup_insert_eq. cbn. by erewrite assign_id_unlogged by (done || by eapply make_idempotent_unlogged).
Qed.

Lemma prepare_next_nothing exec e n p :
  queue_waits p -> prepare_next no_commit e n p = prepare_next exec e n p.
Proof.
  intros Hq. unfold prepare_next. agree_step; [reflexivity|]. destruct a as [[m|] queue]; [|reflexivity].
  apply init_prepare_nothing. apply next_work_content in E. unfold queue_waits in Hq.
  rewrite E in Hq. by apply Forall_app in Hq as [[[Hm _] _]%Forall_cons _].
Qed.

Lemma replay_nothing exec e p : replay_prepare_list no_commit e p = replay_prepare_list exec e p.
Proof.
  unfold replay_prepare_list. generalize (Z.to_nat (max_prepared_decree p - last_committed p)) as n.
  generalize (last_committed p + 1) as d. intros d n. revert d p.
  induction n as [|n IH]; intros d p; cbn [replay_loop]; [reflexivity|].
  agree_step; [reflexivity|]. agree_step; [reflexivity|]. agree_step; [|apply IH].
  apply init_prepare_nothing. destruct a; inv_run; done.
Qed.

Hint Resolve ext_commit ext_prepare ext_do_possible_commit ext_start_2pc ext_init_prepare ext_prepare_next
  ext_replay ext_leave_status ext_start_pending ext_finish_change ext_update_local ext_no_ballot_change
  ext_update_configuration ext_update_on_meta ext_handle_local_failure ext_handle_learning_error
  ext_handle_remote_failure ext_apply_mutation ext_execute_apply ext_ack_prepare_ptr ext_ack_prepare_new
  ext_ts_try_update ext_throttle_write ext_throttle_read ext_throttle_backup : ext.

(** Nothing that a step did makes the queue hold logged mutations. *)
Ltac waits :=
  match goal with
  | Hq : queue_waits ?p |- queue_waits ?p' => apply (ext_queue p p'); [|exact Hq]; pose proof no_commit_ext; inv_pairs; inv_run; repeat ext_step
  end.

Section Nothing.
Context (exec : mutation_ptr -> replica -> outcome replica).

Lemma leave_status_nothing e old b c p :
  leave_status no_commit e old b c p = leave_status exec e old b c p.
Proof.
  unfold leave_status, leave_primary, leave_secondary, leave_potential_secondary,
    leave_partition_split, leave_inactive.
  repeat (agree_step || apply replay_nothing).
Qed.

Lemma start_pending_nothing e p : queue_waits p -> start_pending no_commit e p = start_pending exec e p.
Proof.
  intros Hq. unfold start_pending. agree_step; [reflexivity|]. agree_step; [by apply prepare_next_nothing|].
  reflexivity.
Qed.

Lemma finish_change_nothing e old b c p :
  queue_waits p -> finish_change no_commit e old b c p = finish_change exec e old b c p.
Proof.
  intros Hq. unfold finish_change. repeat agree_step; apply start_pending_nothing; waits.
Qed.

Lemma update_local_nothing e c same p :
  queue_waits p ->
  update_local_configuration no_commit e c same p = update_local_configuration exec e c same p.
Proof.
  intros Hq. unfold update_local_configuration. repeat agree_step.
  - apply leave_status_nothing.
  - apply finish_change_nothing.
    assert (queue_waits p0) as Hq0 by waits.
    apply ext_leave_status in E0; [|apply no_commit_ext]. apply (ext_queue _ _ E0).
    eapply ext_queue; [apply ext_clear_bulk_load|]. by destruct (_ >? _).
Qed.

Create HintDb nothing discriminated.
#[local] Hint Constants Opaque : nothing.
#[local] Hint Extern 0 (queue_waits _) => waits : nothing.
#[local] Hint Resolve prepare_next_nothing update_local_nothing : nothing.
Ltac nothing := repeat (agree_step || solve [eauto 2 with nothing nocore]).

Lemma no_ballot_change_nothing e st p :
  queue_waits p ->
  update_local_configuration_with_no_ballot_change no_commit e st p =
  update_local_configuration_with_no_ballot_change exec e st p.
Proof. intros Hq. unfold update_local_configuration_with_no_ballot_change. nothing. Qed.
#[local] Hint Resolve no_ballot_change_nothing : nothing.

Lemma update_configuration_nothing e c p :
  queue_waits p -> update_configuration no_commit e c p = update_configuration exec e c p.
Proof. intros Hq. unfold update_configuration. nothing. Qed.

Lemma update_on_meta_nothing e type node c p :
  queue_waits p ->
  update_configuration_on_meta_server no_commit e type node c p =
  update_configuration_on_meta_server exec e type node c p.
Proof. intros Hq. unfold update_configuration_on_meta_server. nothing. Qed.
#[local] Hint Resolve update_configuration_nothing update_on_meta_nothing : nothing.

Lemma downgrade_to_inactive_nothing e c p :
  queue_waits p ->
  downgrade_to_inactive_on_primary no_commit e c p = downgrade_to_inactive_on_primary exec e c p.
Proof. intros Hq. unfold downgrade_to_inactive_on_primary. nothing. Qed.

Lemma on_config_proposal_nothing e c p :
  queue_waits p -> on_config_proposal no_commit e c p = on_config_proposal exec e c p.
Proof.
  intros Hq. unfold on_config_proposal, assign_primary, downgrade_to_secondary_on_primary,
    downgrade_to_inactive_on_primary, remove. nothing.
Qed.

Lemma on_meta_reply_nothing e err resp req p :
  queue_waits p ->
  on_update_configuration_on_meta_server_reply no_commit e err resp req p =
  on_update_configuration_on_meta_server_reply exec e err resp req p.
Proof. intros Hq. unfold on_update_configuration_on_meta_server_reply. nothing. Qed.

Lemma upgrade_to_secondary_nothing e node p :
  queue_waits p ->
  upgrade_to_secondary_on_primary no_commit e node p = upgrade_to_secondary_on_primary exec e node p.
Proof. intros Hq. unfold upgrade_to_secondary_on_primary. nothing. Qed.

Lemma on_remove_nothing e c p : queue_waits p -> on_remove no_commit e c p = on_remove exec e c p.
Proof. intros Hq. unfold on_remove. nothing. Qed.

Lemma on_meta_server_disconnected_nothing e p :
  queue_waits p -> on_meta_server_disconnected no_commit e p = on_meta_server_disconnected exec e p.
Proof. intros Hq. unfold on_meta_server_disconnected. nothing. Qed.

Lemma handle_local_failure_nothing e err p :
  queue_waits p -> handle_local_failure no_commit e err p = handle_local_failure exec e err p.
Proof. intros Hq. unfold handle_local_failure. nothing. Qed.

Lemma handle_learning_error_nothing e err l p :
  queue_waits p -> handle_learning_error no_commit e err l p = handle_learning_error exec e err l p.
Proof. intros Hq. unfold handle_learning_error. nothing. Qed.
#[local] Hint Resolve downgrade_to_inactive_nothing handle_local_failure_nothing : nothing.

Lemma handle_remote_failure_nothing e st node p :
  queue_waits p -> handle_remote_failure no_commit e st node p = handle_remote_failure exec e st node p.
Proof. intros Hq. unfold handle_remote_failure. nothing. Qed.

Lemma execute_body_nothing e q p :
  queue_waits p -> execute_mutation_body no_commit e q p = execute_mutation_body exec e q p.
Proof. intros Hq. unfold execute_mutation_body. nothing. Qed.
End Nothing.

#[local] Opaque update_local_configuration update_local_configuration_with_no_ballot_change
  update_configuration update_configuration_on_meta_server finish_change leave_status start_pending
  prepare_next init_prepare start_2pc replay_prepare_list change_allowed make_idempotent
  handle_local_failure handle_learning_error handle_remote_failure apply_mutation execute_apply.

(** Two committers that agree while the queue waits. *)
Section Agree.
Context (X1 X2 : mutation_ptr -> replica -> outcome replica)
  (HX : forall q p, queue_waits p -> X1 q p = X2 q p)
  (HX1 : forall q p p', X1 q p = Ret p' -> extends p p').

Lemma update_local_agree e c same p :
  queue_waits p -> update_local_configuration X1 e c same p = update_local_configuration X2 e c same p.
Proof. intros Hq. etransitivity; [symmetry|]; by apply update_local_nothing. Qed.

Lemma handle_local_failure_agree e err p :
  queue_waits p -> handle_local_failure X1 e err p = handle_local_failure X2 e err p.
Proof. intros Hq. etransitivity; [symmetry|]; by apply handle_local_failure_nothing. Qed.

Lemma handle_learning_error_agree e err l p :
  queue_waits p -> handle_learning_error X1 e err l p = handle_learning_error X2 e err l p.
Proof. intros Hq. etransitivity; [symmetry|]; by apply handle_learning_error_nothing. Qed.

Lemma handle_remote_failure_agree e st node p :
  queue_waits p -> handle_remote_failure X1 e st node p = handle_remote_failure X2 e st node p.
Proof. intros Hq. etransitivity; [symmetry|]; by apply handle_remote_failure_nothing. Qed.

Lemma no_ballot_change_agree e st p :
  queue_waits p ->
  update_local_configuration_with_no_ballot_change X1 e st p =
  update_local_configuration_with_no_ballot_change X2 e st p.
Proof. intros Hq. etransitivity; [symmetry|]; by apply no_ballot_change_nothing. Qed.

Lemma commit_one_agree q m p : queue_waits p -> commit_one X1 q m p = commit_one X2 q m p.
Proof. intros Hq. by apply HX. Qed.

Lemma commit_agree d ct p : queue_waits p -> commit X1 d ct p = commit X2 d ct p.
Proof.
  assert (forall q m p p', is_logged m = true -> commit_one X1 q m p = Ret p' ->
    queue_waits p -> queue_waits p') as Hone by (intros; by eapply ext_queue; [eapply ext_commit_one|]).
  intros Hq. unfold commit. agree_step; [reflexivity|]. clear Hb. destruct ct.
  - generalize (Z.to_nat (d - last_committed p)) as n. intros n. generalize (last_committed p + 1), 0.
    revert p Hq. induction n as [|n IH]; intros p Hq d0 bt; cbn [commit_hard]; [reflexivity|].
    repeat agree_step; [by apply commit_one_agree|apply IH; by eapply Hone].
  - generalize (Z.to_nat (d - last_committed p)) as n. intros n. generalize (last_committed p + 1), 0.
    revert p Hq. induction n as [|n IH]; intros p Hq d0 bt; cbn [commit_soft]; [reflexivity|].
    repeat agree_step; [by apply commit_one_agree|apply IH; eapply Hone; [|done|done]].
    by apply andb_true_iff in Hb as [?%ready_is_logged _].
  - agree_step; [reflexivity|]. clear Hb. generalize (S (Z.to_nat (max_decree (cache p) - last_committed p))) as n.
    intros n. generalize 0 as bt.  revert d p Hq.
    induction n as [|n IH]; intros d p Hq bt; cbn [commit_ready]; [reflexivity|].
    repeat agree_step; [by apply commit_one_agree|apply IH; eapply Hone; [|done|done]].
    by apply andb_true_iff in Hb as [?%ready_is_logged _].
Qed.

Create HintDb agree discriminated.
#[local] Hint Constants Opaque : agree.
#[local] Hint Extern 0 (queue_waits _) => waits : agree.
#[local] Hint Resolve update_local_agree handle_local_failure_agree handle_learning_error_agree
  handle_remote_failure_agree no_ballot_change_agree commit_agree : agree.
Ltac agree := repeat (agree_step || solve [eauto 2 with agree nocore]).

Lemma do_possible_commit_agree q p :
  queue_waits p -> do_possible_commit_on_primary X1 q p = do_possible_commit_on_primary X2 q p.
Proof. intros Hq. unfold do_possible_commit_on_primary. agree. Qed.

Lemma prepare_agree q st pop sc p : queue_waits p -> prepare X1 q st pop sc p = prepare X2 q st pop sc p.
Proof. intros Hq. unfold prepare. agree. Qed.
#[local] Hint Resolve do_possible_commit_agree prepare_agree : agree.

Lemma store_prepared_agree e m pop p :
  queue_waits p -> store_prepared e X1 m pop p = store_prepared e X2 m pop p.
Proof. intros Hq. unfold store_prepared. agree. Qed.
#[local] Hint Resolve store_prepared_agree : agree.

Lemma real_prepare_agree e r m pop p :
  queue_waits p -> real_prepare e X1 r m pop p = real_prepare e X2 r m pop p.
Proof. intros Hq. unfold real_prepare. agree. Qed.
#[local] Hint Resolve real_prepare_agree : agree.

Lemma on_prepare_agree e r c b p : queue_waits p -> on_prepare e X1 r c b p = on_prepare e X2 r c b p.
Proof. intros Hq. unfold on_prepare. agree. Qed.

Lemma logged_on_status_agree e q err p :
  queue_waits p -> logged_on_status e X1 q err p = logged_on_status e X2 q err p.
Proof. intros Hq. unfold logged_on_status. agree. Qed.
#[local] Hint Resolve logged_on_status_agree : agree.

Lemma on_append_log_completed_agree e q err p :
  queue_waits p -> on_append_log_completed e X1 q err p = on_append_log_completed e X2 q err p.
Proof. intros Hq. unfold on_append_log_completed, set_logged. agree. Qed.

Lemma prepare_failed_agree e q m target node err p :
  queue_waits p -> prepare_failed e X1 q m target node err p = prepare_failed e X2 q m target node err p.
Proof. intros Hq. unfold prepare_failed, decrease_left_potential_secondary_ack_count. agree. Qed.
#[local] Hint Resolve prepare_failed_agree : agree.

Lemma on_prepare_reply_agree e q target node err resp p :
  queue_waits p -> on_prepare_reply e X1 q target node err resp p = on_prepare_reply e X2 q target node err resp p.
Proof.
  intros Hq. unfold on_prepare_reply, decrease_left_secondary_ack_count,
    decrease_left_potential_secondary_ack_count. agree.
Qed.

Lemma child_handle_split_error_agree e p :
  queue_waits p -> child_handle_split_error e X1 p = child_handle_split_error e X2 p.
Proof. intros Hq. unfold child_handle_split_error. agree. Qed.
#[local] Hint Resolve child_handle_split_error_agree : agree.

Lemma on_copy_mutation_agree e m p : queue_waits p -> on_copy_mutation e X1 m p = on_copy_mutation e X2 m p.
Proof. intros Hq. unfold on_copy_mutation. agree. Qed.

Lemma on_copy_mutation_reply_agree e err b d p :
  queue_waits p -> on_copy_mutation_reply e X1 err b d p = on_copy_mutation_reply e X2 err b d p.
Proof. intros Hq. unfold on_copy_mutation_reply. agree. Qed.

Lemma enqueue_write_agree e r p : queue_waits p -> enqueue_write e X1 r p = enqueue_write e X2 r p.
Proof.
  intros Hq. unfold enqueue_write. agree_step; [reflexivity|]. destruct a as [[m|] queue]; [|reflexivity].
  etransitivity; [symmetry|]; apply init_prepare_nothing; apply (add_work_held waiting) in E;
    try (by apply Forall_app in E as [[[Hm _] _]%Forall_cons _]); try done; try (by intros; split);
    by intros [?|] ? []; split.
Qed.
#[local] Hint Resolve enqueue_write_agree : agree.
#[local] Opaque enqueue_write throttle_write throttle_read throttle_backup response_client_write.

Lemma on_client_write_agree e r ign p :
  queue_waits p -> on_client_write e X1 r ign p = on_client_write e X2 r ign p.
Proof. intros Hq. unfold on_client_write, accept_write. destruct ign; agree. Qed.

Lemma on_client_read_agree e r ign p :
  queue_waits p -> on_client_read e X1 r ign p = on_client_read e X2 r ign p.
Proof. intros Hq. unfold on_client_read, serve_read. destruct ign; agree. Qed.

Lemma handle_agree e ev p : queue_waits p -> handle e X1 ev p = handle e X2 ev p.
Proof.
  intros Hq. destruct ev; cbn [handle].
  - by apply on_client_write_agree.
  - by apply on_client_read_agree.
  - by apply on_prepare_agree.
  - by apply on_append_log_completed_agree.
  - reflexivity.
  - by apply on_prepare_reply_agree.
  - reflexivity.
  - by apply on_copy_mutation_agree.
  - by apply on_copy_mutation_reply_agree.
  - etransitivity; [symmetry|]; by apply on_config_proposal_nothing.
  - etransitivity; [symmetry|]; by apply on_meta_reply_nothing.
  - etransitivity; [symmetry|]; by apply upgrade_to_secondary_nothing.
  - etransitivity; [symmetry|]; by apply on_remove_nothing.
  - etransitivity; [symmetry|]; by apply on_meta_server_disconnected_nothing.
  - by apply handle_local_failure_agree.
  - by apply handle_learning_error_agree.
Qed.

End Agree.

Lemma execute_mutation_depth e n q p :
  queue_waits p -> execute_mutation e (S n) q p = execute_mutation e 1 q p.
Proof.
  intros Hq. cbn [execute_mutation]. etransitivity; [symmetry|]; by apply execute_body_nothing.
Qed.


End Theory.

End ReplicaTheory.
