(* ===== verification/ReplicaQuiet.v ===== *)
(** * Steps of a replica that the protocol does not see

    Most of what the handlers of [Replica] do does not concern two-phase commit: queues,
    throttling, tasks, the storage engine, and leaving the group after a failure.  [quiet]
    says that a step leaves the prepare list, the committed point, the mutations in memory
    and the messages of the protocol alone. *)
From S2P Require Import Prelude Mutation MutationCache PrepareList MutationQueue.
From S2P Require Import ReplicaContext Throttling RocksdbWrapper Replica ReplicaTheory.

Module ReplicaQuiet.
Import Mutation MutationCache PrepareList MutationQueue ReplicaContext Throttling RocksdbWrapper Replica
  ReplicaTheory.

Section Quiet.
Context {St : Type} `{StorageApp St}.
Abbreviation replica := (plist (replica_state St)).
Implicit Types (p : replica) (e : env).

(** The messages of the protocol and the requests to the log. *)
Definition significant (ev : effect) : bool :=
  match ev with
  | SendPrepare _ _ _ _ _ _ _ | DelayPrepare _ _ _ _ _ | ReplyPrepare _ _ | AppendLog _ _ => true
  | _ => false
  end.

Record same_vote (m m' : mutation) : Prop := SameVote {
  sv_shared : shared m' = shared m;
  sv_logged : is_logged m' = is_logged m;
  sv_left : left_secondary_ack_count m' = left_secondary_ack_count m;
  sv_requests : prepare_requests m' = prepare_requests m
}.

Lemma same_vote_refl m : same_vote m m.
Proof. done. Qed.

Lemma same_vote_trans m1 m2 m3 : same_vote m1 m2 -> same_vote m2 m3 -> same_vote m1 m3.
Proof. intros [] []. split; congruence. Qed.

(** The members a primary sends prepares to. *)
Definition members_of (p : replica) : list host_port * gmap host_port remote_learner_state :=
  (hp_secondaries (pc (pstates (owner p))), learners (pstates (owner p))).

Record quiet (p p' : replica) : Prop := Quiet {
  q_cache : cache p' = cache p;
  q_point : last_committed p' = last_committed p;
  q_committed : committed p' = committed p;
  q_ballot : get_ballot p' = get_ballot p;
  q_dom : dom (objects p') = dom (objects p);
  q_objects q m : objects p !! q = Some m -> exists m', objects p' !! q = Some m' /\ same_vote m m';
  q_effects : exists es, effects (owner p') = effects (owner p) ++ es /\
                Forall (fun ev => significant ev = false) es;
  q_status : (status p' = status p /\ members_of p' = members_of p) \/
             status p' = PS_INACTIVE \/ status p' = PS_ERROR;
  q_tasks : next_task (owner p) <= next_task (owner p')
}.

Lemma quiet_refl p : quiet p p.
Proof.
  split; try done; [eauto using same_vote_refl|..].
  - exists []. by rewrite app_nil_r.
  - by left.
Qed.

Lemma quiet_trans p1 p2 p3 : quiet p1 p2 -> quiet p2 p3 -> quiet p1 p3.
Proof.
  intros [C1 L1 M1 B1 D1 O1 (e1 & E1 & F1) S1 T1] [C2 L2 M2 B2 D2 O2 (e2 & E2 & F2) S2 T2].
  split; [congruence|congruence|congruence|congruence|congruence| | | |lia].
  - intros q m Hq. destruct (O1 q m Hq) as (m1 & H1 & V1). destruct (O2 q m1 H1) as (m2 & H2 & V2).
    exists m2. split; [done|by eapply same_vote_trans].
  - exists (e1 ++ e2). rewrite E2, E1, <- app_assoc. split; [done|by apply Forall_app].
  - destruct S2 as [[-> ->]|?]; [|by right]. done.
Qed.

(** *** State updates *)

Lemma quiet_owner p p' :
  cache p' = cache p -> last_committed p' = last_committed p -> objects p' = objects p ->
  committed p' = committed p -> get_ballot p' = get_ballot p ->
  effects (owner p') = effects (owner p) ->
  ((status p' = status p /\ members_of p' = members_of p) \/ status p' = PS_INACTIVE \/ status p' = PS_ERROR) ->
  next_task (owner p) <= next_task (owner p') -> quiet p p'.
Proof.
  intros E1 E2 E3 E4 E5 E6 E7 E8. split; try done.
  - by rewrite E3.
  - rewrite E3. eauto using same_vote_refl.
  - exists []. by rewrite app_nil_r.
Qed.

Lemma quiet_emit ev p : significant ev = false -> quiet p (emit ev p).
Proof.
  intros Hev. split; try done; [eauto using same_vote_refl|..].
  - exists [ev]. by rewrite Forall_singleton.
  - by left.
Qed.

Lemma quiet_set_mu q m m' p : objects p !! q = Some m -> same_vote m m' -> quiet p (set_mu q m' p).
Proof.
  intros Hq Hv. split; try done.
  - cbn. rewrite dom_insert_L. apply elem_of_dom_2 in Hq. set_solver.
  - intros x mx Hx. cbn. destruct (decide (q = x)) as [->|Hne].
    + rewrite lookup_insert_eq. rewrite Hq in Hx. injection Hx as <-. eauto.
    + rewrite lookup_insert_ne by done. eauto using same_vote_refl.
  - exists []. by rewrite app_nil_r.
  - by left.
Qed.

(** Leaving the group. *)
Lemma quiet_set_config c p :
  rc_ballot c = get_ballot p -> rc_status c = PS_INACTIVE \/ rc_status c = PS_ERROR ->
  quiet p (upd (set_config c) p).
Proof. intros Hb Hs. apply quiet_owner; try done. by right. Qed.

Create HintDb quiet discriminated.
#[local] Hint Constants Opaque : quiet.

(** An update of other fields of the owner. *)
Ltac quiet_owner_step := apply quiet_owner; cbn; try done; try lia; left; done.

(** Peels the last update of the final state. *)
Ltac quiet_step :=
  match goal with
  | |- quiet ?p ?p => apply quiet_refl
  | |- quiet _ (emit _ ?p) => apply (quiet_trans _ p); [|apply quiet_emit; reflexivity]
  | |- quiet _ (upd _ ?p) => apply (quiet_trans _ p); [|quiet_owner_step]
  | |- quiet _ (upd_primary _ ?p) => apply (quiet_trans _ p); [|quiet_owner_step]
  | |- quiet _ (set_mu _ _ ?p) =>
      apply (quiet_trans _ p); [|eapply quiet_set_mu; [eassumption|repeat case_match; done]]
  | |- quiet _ (if ?b then _ else _) => let H := fresh "Hb" in destruct b eqn:H
  | |- quiet _ (match ?x with _ => _ end) => let H := fresh "Hm" in destruct x eqn:H
  | |- _ => eapply quiet_trans; [|solve [eauto 2 with quiet nocore]]
  end.

Ltac quiet_auto := intros; unfold new_task in *; inv_returns; repeat quiet_step.

(** *** Functions *)

Lemma quiet_response_client_write r err p : quiet p (response_client_write r err p).
Proof. unfold response_client_write. repeat quiet_step. Qed.
#[local] Hint Resolve quiet_response_client_write : quiet.

Lemma quiet_response_all rs err p : quiet p (response_all rs err p).
Proof.
  revert p. induction rs as [|r rs IH]; intros p; cbn; [apply quiet_refl|].
  eapply quiet_trans; [apply quiet_response_client_write|apply IH].
Qed.
#[local] Hint Resolve quiet_response_all : quiet.

Lemma quiet_reply_with_error mu err p : quiet p (reply_with_error mu err p).
Proof. unfold reply_with_error. repeat quiet_step. Qed.

Lemma quiet_parent_cleanup p : quiet p (parent_cleanup_split_context p).
Proof. unfold parent_cleanup_split_context. quiet_owner_step. Qed.
#[local] Hint Resolve quiet_reply_with_error quiet_parent_cleanup : quiet.

Lemma quiet_copy_mutation e q p p' : copy_mutation e q p = Ret p' -> quiet p p'.
Proof. unfold copy_mutation. quiet_auto. Qed.

Lemma quiet_make_idempotent e mu p err mu' p' : make_idempotent e mu p = Ret (err, mu', p') -> quiet p p'.
Proof. unfold make_idempotent. quiet_auto. Qed.

Lemma quiet_assign_id e mu p mu' p' : assign_id e mu p = (mu', p') -> quiet p p'.
Proof.
  unfold assign_id, ts_next. destruct (_ =? invalid_decree); intros [= <- <-]; repeat quiet_step.
Qed.

#[local] Hint Resolve quiet_copy_mutation quiet_make_idempotent quiet_assign_id : quiet.

Lemma quiet_clean_primary e c p p' : clean_primary e c p = Ret p' -> quiet p p'.
Proof.
  unfold clean_primary. intros E. inv_returns. apply primary_cleanup_keeps in E0 as (_ & Es & El).
  apply quiet_owner; cbn; try done; try lia. left. split; [done|]. unfold members_of. cbn. by rewrite Es, El.
Qed.

Lemma quiet_clean_secondary e f p ok p' : clean_secondary e f p = Ret (ok, p') -> quiet p p'.
Proof. unfold clean_secondary. quiet_auto. Qed.
Lemma quiet_clean_learner e f p ok p' : clean_learner e f p = Ret (ok, p') -> quiet p p'.
Proof. unfold clean_learner. quiet_auto. Qed.
Lemma quiet_clean_split e f p ok p' : clean_split e f p = Ret (ok, p') -> quiet p p'.
Proof. unfold clean_split. quiet_auto. Qed.
Lemma quiet_cancel_backup p : quiet p (cancel_backup p).
Proof. by apply quiet_emit. Qed.
#[local] Hint Resolve quiet_clean_primary quiet_clean_secondary quiet_clean_learner quiet_clean_split
  quiet_cancel_backup : quiet.

Lemma quiet_cleanup_preparing p p' : cleanup_preparing_mutations p = Ret p' -> quiet p p'.
Proof.
  assert (forall ts x, quiet x (fold_left (fun p t => emit (CancelTask t) p) ts x)) as Hc.
  { induction ts as [|t ts IH]; intros x; cbn; [apply quiet_refl|].
    apply (quiet_trans _ (emit (CancelTask t) x)); [by apply quiet_emit|apply IH]. }
  unfold cleanup_preparing_mutations. generalize (Z.to_nat (max_prepared_decree p - last_committed p)) as n.
  generalize (last_committed p + 1) as d. intros d n. revert d p.
  induction n as [|n IH]; cbn [cleanup_loop]; unfold clear_prepare_or_commit_tasks; intros d p E; [quiet_auto|].
  inv_returns.
  - eapply quiet_trans; [|by eapply IH]. eapply quiet_trans; [|apply Hc].
    by eapply quiet_set_mu.
  - by eapply IH.
Qed.

Lemma quiet_clear_bulk_load a b p : quiet p (clear_bulk_load_states_if_needed a b p).
Proof. unfold clear_bulk_load_states_if_needed. repeat quiet_step. Qed.
Lemma quiet_transient t p : quiet p (set_inactive_state_transient t p).
Proof. unfold set_inactive_state_transient. repeat quiet_step. Qed.
Lemma quiet_remove_replica e c p : quiet p (remove_replica_on_meta_server e c p).
Proof. unfold remove_replica_on_meta_server. repeat quiet_step. Qed.
#[local] Hint Resolve quiet_cleanup_preparing quiet_clear_bulk_load quiet_transient quiet_remove_replica : quiet.

Lemma quiet_change_allowed e s p ok p' : change_allowed e s p = Ret (ok, p') -> quiet p p'.
Proof. unfold change_allowed. quiet_auto. Qed.

Lemma quiet_apply_mutation e q p err p' : apply_mutation e q p = Ret (err, p') -> quiet p p'.
Proof. unfold apply_mutation. quiet_auto. Qed.
#[local] Hint Resolve quiet_change_allowed quiet_apply_mutation : quiet.

Lemma quiet_execute_apply e q d p err p' : execute_apply e q d p = Ret (err, p') -> quiet p p'.
Proof. unfold execute_apply, check_state_completeness. quiet_auto. Qed.

Lemma quiet_set_queue queue p : quiet p (upd_primary (set_write_queue queue) p).
Proof. quiet_owner_step. Qed.

Lemma quiet_ts_try_update t p : quiet p (ts_try_update t p).
Proof.
  unfold ts_try_update, upd. cbn. destruct (t >? last_ts (owner p)); apply quiet_owner; try done; by left.
Qed.

Lemma quiet_append_mutation q off p p' : append_mutation q off p = Ret p' -> quiet p p'.
Proof. unfold append_mutation. quiet_auto. Qed.

Lemma quiet_throttle_effect r m t p : quiet p (throttle_effect r m t p).
Proof. destruct t; by apply quiet_emit. Qed.
#[local] Hint Resolve quiet_throttle_effect : quiet.

Lemma quiet_throttle_write e m p b p' : throttle_write e m p = (b, p') -> quiet p p'.
Proof.
  unfold throttle_write. destruct (throttle_write_request _ _ _ _) as [[[t|] qps] size];
    intros [= <- <-]; repeat quiet_step.
Qed.

Lemma quiet_throttle_read e m p b p' : throttle_read e m p = (b, p') -> quiet p p'.
Proof.
  unfold throttle_read. destruct (throttle_read_request _ _ _) as [[t|] qps];
    intros [= <- <-]; repeat quiet_step.
Qed.

Lemma quiet_throttle_backup e m p b p' : throttle_backup e m p = (b, p') -> quiet p p'.
Proof.
  unfold throttle_backup. destruct (throttle_backup_request _ _ _) as [[stop [ms|]] qps];
    intros [= <- <-]; repeat quiet_step.
Qed.

(** *** Leaving the group *)

Section Leave.
Context (exec : mutation_ptr -> replica -> outcome replica).

Definition leaving (c : replica_configuration) : Prop :=
  rc_status c = PS_INACTIVE \/ rc_status c = PS_ERROR.

(** From any status but that of a learner, whose list is reset. *)
Lemma quiet_leave_status e old b c p p' :
  leaving c -> old <> PS_POTENTIAL_SECONDARY -> leave_status exec e old b c p = Ret p' -> quiet p p'.
Proof.
  intros [Hc|Hc] Ho; unfold leave_status, leave_primary, leave_secondary, leave_partition_split,
    leave_inactive; destruct old; try done; rewrite Hc; cbn; quiet_auto.
Qed.

Lemma quiet_finish_change e old b c p ok p' :
  status p = PS_INACTIVE \/ status p = PS_ERROR -> finish_change exec e old b c p = Ret (ok, p') -> quiet p p'.
Proof.
  intros Hs. assert (forall x x', status x = status p -> start_pending exec e x = Ret x' -> x' = x) as Hp.
  { intros x x' Hx E. unfold start_pending, has_status in E. rewrite Hx in E.
    destruct Hs as [Hs|Hs]; rewrite Hs in E; by injection E. }
  unfold finish_change. intros E. inv_returns; repeat quiet_step.
  all: apply Hp in E0 as ->; [|done]; repeat quiet_step.
Qed.

Lemma leaving_status_after e old b c p p' :
  leaving c -> old <> PS_POTENTIAL_SECONDARY -> config (owner p) = c ->
  leave_status exec e old b c p = Ret p' -> status p' = PS_INACTIVE \/ status p' = PS_ERROR.
Proof.
  intros Hl Ho Hc E. destruct (q_status _ _ (quiet_leave_status _ _ _ _ _ _ Hl Ho E)) as [[-> _]|?]; [|done].
  unfold status. by rewrite Hc.
Qed.

Lemma quiet_no_ballot_change e st p ok p' :
  st = PS_INACTIVE \/ st = PS_ERROR -> status p <> PS_POTENTIAL_SECONDARY ->
  update_local_configuration_with_no_ballot_change exec e st p = Ret (ok, p') -> quiet p p'.
Proof.
  intros Hst Ho. unfold update_local_configuration_with_no_ballot_change, update_local_configuration.
  destruct (has_status p st); [intros [= <- <-]; apply quiet_refl|]. cbv zeta.
  set (c := ReplicaConfiguration _ _ _ st _ _ _). assert (leaving c) as Hl by done.
  assert (rc_ballot c = get_ballot p) as Hb by done. rewrite Hb.
  assert ((get_ballot p >? get_ballot p) = false) as Hgt by lia. rewrite Hgt. clearbody c.
  intros E. inv_returns; try apply quiet_refl; [by eapply quiet_change_allowed|].
  apply quiet_change_allowed in E0. eapply quiet_trans; [exact E0|].
  assert (rc_ballot c = get_ballot p0) as Hb' by (by rewrite Hb, (q_ballot _ _ E0)).
  eapply quiet_trans; [by apply (quiet_set_config c)|]. eapply quiet_trans; [apply quiet_clear_bulk_load|].
  eapply quiet_trans; [by eapply quiet_leave_status|]. eapply quiet_finish_change; [|done].
  eapply leaving_status_after; [done..| |done]. unfold clear_bulk_load_states_if_needed.
  repeat case_match; done.
Qed.

Lemma quiet_handle_local_failure e err p p' :
  status p <> PS_POTENTIAL_SECONDARY -> handle_local_failure exec e err p = Ret p' -> quiet p p'.
Proof.
  intros Ho. unfold handle_local_failure. cbv zeta. set (p1 := if decide _ then _ else _).
  assert (quiet p p1 /\ status p1 = status p) as [Hq1 Hs1].
  { unfold p1. repeat case_match; (split; [repeat quiet_step|done]). }
  clearbody p1. set (p2 := if has_status p1 PS_PRIMARY then _ else _).
  assert (quiet p1 p2 /\ status p2 = status p1) as [Hq2 Hs2].
  { unfold p2, remove_replica_on_meta_server. repeat case_match; (split; [repeat quiet_step|done]). }
  clearbody p2. intros E. inv_returns.
  eapply quiet_trans; [exact Hq1|]. eapply quiet_trans; [exact Hq2|].
  eapply quiet_no_ballot_change; [by right| |done]. congruence.
Qed.

Lemma quiet_on_meta_server_disconnected e p p' :
  status p <> PS_POTENTIAL_SECONDARY -> on_meta_server_disconnected exec e p = Ret p' -> quiet p p'.
Proof.
  intros Ho. unfold on_meta_server_disconnected. intros E. inv_returns.
  apply quiet_no_ballot_change in E0; [|by left|done]. repeat quiet_step; done.
Qed.

Lemma quiet_update_on_meta e type node c p p' :
  status p <> PS_POTENTIAL_SECONDARY ->
  update_configuration_on_meta_server exec e type node c p = Ret p' -> quiet p p'.
Proof.
  intros Ho. unfold update_configuration_on_meta_server, new_task. intros E. inv_returns.
  all: apply quiet_no_ballot_change in E0; [|by left|done]; repeat quiet_step; done.
Qed.

Lemma quiet_downgrade_to_inactive e c p p' :
  status p <> PS_POTENTIAL_SECONDARY ->
  downgrade_to_inactive_on_primary exec e c p = Ret p' -> quiet p p'.
Proof.
  intros Ho. unfold downgrade_to_inactive_on_primary. intros E. inv_returns; try apply quiet_refl.
  all: by eapply quiet_update_on_meta.
Qed.

(** Losing a member that is not a learner. *)
Lemma quiet_handle_remote_failure e st node p p' :
  learners (pstates (owner p)) = ∅ -> handle_remote_failure exec e st node p = Ret p' -> quiet p p'.
Proof.
  intros Hl. unfold handle_remote_failure. intros E. inv_returns; try apply quiet_refl.
  - eapply quiet_downgrade_to_inactive; [|done]. unfold has_status in Hc.
    apply bool_decide_eq_true in Hc. by rewrite Hc.
  - apply quiet_owner; cbn; try done. left. split; [done|]. unfold members_of. cbn.
    by rewrite Hl, delete_empty.
Qed.

(** Executing a mutation on a replica that is neither primary nor learner. *)
Lemma quiet_execute_body e q p p' :
  status p <> PS_PRIMARY -> status p <> PS_POTENTIAL_SECONDARY ->
  execute_mutation_body exec e q p = Ret p' -> quiet p p'.
Proof.
  intros H1 H2. unfold execute_mutation_body. intros E.
  apply obind_Ret_inv in E as (m & _ & E). apply obind_Ret_inv in E as ([err p1] & E1 & E).
  apply quiet_execute_apply in E1. apply obind_Ret_inv in E as (p2 & E2 & E).
  assert (status p1 <> PS_PRIMARY /\ status p1 <> PS_POTENTIAL_SECONDARY) as [H3 H4].
  { destruct (q_status _ _ E1) as [[-> _]|[->| ->]]; done. }
  assert (quiet p1 p2) as Hq2.
  { destruct (is_ok err); [injection E2 as <-; apply quiet_refl|by eapply quiet_handle_local_failure]. }
  assert (has_status p2 PS_PRIMARY = false) as Hp.
  { apply bool_decide_eq_false. destruct (q_status _ _ Hq2) as [[-> _]|[->| ->]]; done. }
  rewrite Hp in E. injection E as <-. by eapply quiet_trans.
Qed.

Lemma quiet_serve_read e r p p' :
  status p <> PS_POTENTIAL_SECONDARY -> serve_read e exec r p = Ret p' -> quiet p p'.
Proof.
  intros Ho. unfold serve_read. intros E. inv_returns; repeat quiet_step.
  all: eapply quiet_trans; [|eapply quiet_handle_local_failure; [|exact E]; exact Ho]; repeat quiet_step.
Qed.

Lemma quiet_on_client_read e r ign p p' :
  status p <> PS_POTENTIAL_SECONDARY -> on_client_read e exec r ign p = Ret p' -> quiet p p'.
Proof.
  intros Ho. assert (forall x x', quiet p x -> serve_read e exec r x = Ret x' -> quiet p x') as Hserve.
  { intros x x' Hx E. eapply quiet_trans; [done|]. eapply quiet_serve_read; [|done].
    destruct (q_status _ _ Hx) as [[-> _]|[->| ->]]; done. }
  unfold on_client_read, response_client_read. destruct ign; intros E; inv_returns; repeat quiet_step.
  all: repeat match goal with
       | T : throttle_read _ _ _ = _ |- _ => apply quiet_throttle_read in T
       | T : throttle_backup _ _ _ = _ |- _ => apply quiet_throttle_backup in T
       end; eauto using quiet_refl.
Qed.
End Leave.

End Quiet.

End ReplicaQuiet.
