(* ===== verification/PrimaryInv.v ===== *)
(** * The primary of a group within one ballot

    What the state of a primary says about the mutations it has sent and about the
    acknowledgements it has counted ([primary_inv]), and that every handler a primary runs
    within its ballot keeps it. *)
From S2P Require Import Prelude Mutation MutationCache PrepareList MutationQueue.
From S2P Require Import ReplicaContext Throttling RocksdbWrapper Replica ReplicaTheory.
From S2P Require Import ReplicaQuiet.

Module PrimaryInv.
Import Mutation MutationCache PrepareList MutationQueue ReplicaContext Throttling RocksdbWrapper Replica
  ReplicaTheory ReplicaQuiet.

Definition shared_body (b : prepare_body) : mutation_header * list mutation_update :=
  (shared_header (pb_header b), pb_updates b).

Definition body_decree (b : prepare_body) : Z := decree (pb_header b).

(** A prepare under way: an RPC, or a retry that waits for its timer. *)
Inductive token := Call (t : Z) | Retry (i : nat).

Section Primary.
Context {St : Type} `{StorageApp St}.
Abbreviation replica := (plist (replica_state St)).
Implicit Types (p : replica) (e : env).

(** The prepare RPCs sent so far, and the retries that were scheduled. *)
Definition sends p (t : Z) (hp : host_port) (q : mutation_ptr) (body : prepare_body) : Prop :=
  exists timeout rc, SendPrepare t hp timeout q PS_SECONDARY rc body ∈ effects (owner p).

Definition retries p (i : nat) (hp : host_port) (q : mutation_ptr) : Prop :=
  exists timeout sig, effects (owner p) !! i = Some (DelayPrepare hp PS_SECONDARY q timeout sig).

(** Effects of other kinds, or for learners, do not occur. *)
Definition for_secondary (ev : effect) : Prop :=
  match ev with
  | SendPrepare _ _ _ _ target _ _ | DelayPrepare _ target _ _ _ => target = PS_SECONDARY
  | _ => True
  end.

(** The group, its ballot, the decree and the history it starts from; what is known
    to be in the log of a member; the RPCs completed and the retries fired. *)
Context (members : list host_port) (b0 d0 : Z) (h0 : list mutation).

Section Ghost.
Context (L : host_port -> mutation_header * list mutation_update -> Prop)
  (calls : gset Z) (fired : gset nat).

Definition live p (k : token) (hp : host_port) (q : mutation_ptr) : Prop :=
  match k with
  | Call t => t ∉ calls /\ exists body, sends p t hp q body
  | Retry i => i ∉ fired /\ retries p i hp q
  end.

(** The acknowledgements counted for a mutation: [ok] are the members that sent one.
    They have the mutation in their log, and nothing more is expected of them. *)
Record counted p (q : mutation_ptr) (m : mutation) (ok : list host_port) : Prop := Counted {
  ct_nodup : NoDup ok;
  ct_members : ok ⊆ members;
  ct_left : left_secondary_ack_count m + Z.of_nat (length ok) = Z.of_nat (length members);
  ct_logged hp : hp ∈ ok -> L hp (shared m);
  ct_quiet hp k : hp ∈ ok -> ~ live p k hp q
}.

(** A mutation that was sent. *)
Record issued p (q : mutation_ptr) (m : mutation) : Prop := Issued {
  is_ballot : Mutation.get_ballot m = b0;
  is_decree : d0 < get_decree m <= end_decree (cache p);
  is_point : last_committed_decree (header m) <= last_committed p;
  is_before : last_committed_decree (header m) < get_decree m;
  is_window : get_decree m - last_committed_decree (header m) <= max_count (cache p);
  is_stored : last_committed p < get_decree m -> win (cache p) (get_decree m) = Some q
}.

(** A mutation the primary has committed. *)
Record agreed p (m : mutation) : Prop := Agreed {
  ag_logged hp : hp ∈ members -> L hp (shared m);
  ag_sent t hp q body : sends p t hp q body -> body_decree body = get_decree m -> shared_body body = shared m
}.

Record primary_inv (p : replica) : Prop := PrimaryInv_ {
  pi_wf : plist_wf p;
  pi_ballot : get_ballot p = b0;
  pi_status : status p = PS_PRIMARY \/ status p = PS_INACTIVE \/ status p = PS_ERROR;
  pi_members : status p = PS_PRIMARY -> members_of p = (members, ∅);
  pi_full d : last_committed p < d <= end_decree (cache p) -> is_Some (win (cache p) d);
  pi_target : Forall for_secondary (effects (owner p));
  pi_sends t hp q body : sends p t hp q body ->
    t < next_task (owner p) /\ hp ∈ members /\
    exists m, objects p !! q = Some m /\ shared m = shared_body body /\ issued p q m;
  pi_unique t hp q body t' hp' q' body' : sends p t hp q body -> sends p t' hp' q' body' ->
    body_decree body = body_decree body' -> q = q';
  pi_calls t hp q body hp' q' body' : sends p t hp q body -> sends p t hp' q' body' -> hp = hp' /\ q = q';
  pi_retries i hp q : retries p i hp q -> exists t body, sends p t hp q body;
  pi_tokens k k' hp q : live p k hp q -> live p k' hp q -> k = k';
  pi_counted d q m : last_committed p < d -> win (cache p) d = Some q -> objects p !! q = Some m ->
    exists ok, counted p q m ok;
  pi_committed : exists l, committed p = h0 ++ l /\ last_committed p = d0 + Z.of_nat (length l) /\
    forall i m, l !! i = Some m -> get_decree m = d0 + 1 + Z.of_nat i /\ agreed p m
}.

(** ** Steps that the protocol does not see *)

(** [p'] has the mutations of [p], and maybe new ones it does not point to. *)
Record framed (p p' : replica) : Prop := Framed {
  fr_cache : cache p' = cache p;
  fr_point : last_committed p' = last_committed p;
  fr_committed : committed p' = committed p;
  fr_ballot : get_ballot p' = get_ballot p;
  fr_objects q m : objects p !! q = Some m -> exists m', objects p' !! q = Some m' /\ shared m' = shared m;
  fr_effects : exists es, effects (owner p') = effects (owner p) ++ es /\
    Forall (fun ev => match ev with SendPrepare _ _ _ _ _ _ _ | DelayPrepare _ _ _ _ _ => False | _ => True end) es;
  fr_status : (status p' = status p /\ members_of p' = members_of p) \/
              status p' = PS_INACTIVE \/ status p' = PS_ERROR;
  fr_tasks : next_task (owner p) <= next_task (owner p')
}.

Definition same_counts (p p' : replica) : Prop :=
  forall q m m', objects p !! q = Some m -> objects p' !! q = Some m' ->
    left_secondary_ack_count m' = left_secondary_ack_count m.

Lemma quiet_framed p p' : quiet p p' -> framed p p' /\ same_counts p p'.
Proof.
  intros [H1 H2 H3 H4 _ H6 (es & H7 & H8) H9 H10]. split.
  - split; try done.
    + intros q m (m' & Hm' & Hv)%H6. exists m'. split; [done|apply Hv].
    + exists es. split; [done|]. eapply Forall_impl; [exact H8|]. by intros [].
  - intros q m m' Hm Hm'. destruct (H6 q m Hm) as (m1 & Hm1 & Hv). rewrite Hm1 in Hm'.
    injection Hm' as <-. apply Hv.
Qed.

Lemma shared_decree m m' : shared m' = shared m ->
  get_decree m' = get_decree m /\ Mutation.get_ballot m' = Mutation.get_ballot m /\
  last_committed_decree (header m') = last_committed_decree (header m).
Proof.
  unfold shared, shared_header, get_decree, Mutation.get_ballot. intros E.
  injection E as E1 E2 E3 E4 E5 E6. by rewrite E2, E3, E4.
Qed.

Section Frame.
Context (p p' : replica) (Hf : framed p p').

Lemma framed_sends t hp q body : sends p' t hp q body <-> sends p t hp q body.
Proof using Hf.
  destruct (fr_effects _ _ Hf) as (es & E & F). unfold sends. rewrite E.
  split; intros (to & rc & Hin); exists to, rc; rewrite elem_of_app in *; [|by left].
  destruct Hin as [|Hin]; [done|]. by apply (proj1 (Forall_forall _ _) F) in Hin.
Qed.

Lemma framed_retries i hp q : retries p' i hp q <-> retries p i hp q.
Proof using Hf.
  destruct (fr_effects _ _ Hf) as (es & E & F). unfold retries. rewrite E.
  split; intros (to & sg & Hin); exists to, sg; [|by apply lookup_app_l_Some].
  apply lookup_app_Some in Hin as [|[_ Hin]]; [done|]. apply list_elem_of_lookup_2 in Hin.
  by apply (proj1 (Forall_forall _ _) F) in Hin.
Qed.

Lemma framed_live k hp q : live p' k hp q <-> live p k hp q.
Proof using Hf.
  destruct k; cbn; [by setoid_rewrite framed_sends|by rewrite framed_retries].
Qed.

Lemma framed_wf : plist_wf p -> plist_wf p'.
Proof using Hf.
  apply plist_wf_objects; [apply Hf|apply Hf|]. intros q m Hm.
  destruct (fr_objects _ _ Hf q m Hm) as (m' & Hm' & Hs). exists m'. split; [done|].
  by apply shared_decree in Hs as [-> _].
Qed.

(** The counts may change, if they are right again. *)
Lemma primary_reframed :
  (forall d q m, last_committed p < d -> win (cache p) d = Some q -> objects p' !! q = Some m ->
     exists ok, counted p' q m ok) ->
  primary_inv p -> primary_inv p'.
Proof using Hf.
  intros Hct Hi. pose proof (fr_cache _ _ Hf) as Ec. pose proof (fr_point _ _ Hf) as Ep. split.
  - apply framed_wf, Hi.
  - rewrite (fr_ballot _ _ Hf). apply Hi.
  - destruct (fr_status _ _ Hf) as [[-> _]|?]; [apply Hi|by right].
  - destruct (fr_status _ _ Hf) as [[-> ->]|[->| ->]]; [apply Hi|done|done].
  - rewrite Ec, Ep. apply Hi.
  - destruct (fr_effects _ _ Hf) as (es & -> & F). apply Forall_app. split; [apply Hi|].
    eapply Forall_impl; [exact F|]. by intros [].
  - intros t hp q body. rewrite framed_sends.
    intros (Ht & Hm & m & Hq & Hs & [I1 I2 I3 I6 I4 I5])%(pi_sends _ Hi).
    split_and!; [pose proof (fr_tasks _ _ Hf); lia|done|].
    destruct (fr_objects _ _ Hf q m Hq) as (m' & Hq' & Hs'). exists m'. split_and!; [done|congruence|].
    destruct (shared_decree _ _ Hs') as (D1 & D2 & D3).
    split; rewrite ?D1, ?D2, ?D3, ?Ec, ?Ep; done.
  - intros t hp q body t' hp' q' body'. rewrite !framed_sends. apply Hi.
  - intros t hp q body hp' q' body'. rewrite !framed_sends. apply Hi.
  - intros i hp q. rewrite framed_retries. setoid_rewrite framed_sends. apply Hi.
  - intros k k' hp q. rewrite !framed_live. apply Hi.
  - by rewrite Ec, Ep.
  - rewrite (fr_committed _ _ Hf), Ep. destruct (pi_committed _ Hi) as (l & E1 & E2 & E3). exists l.
    split_and!; [done|done|]. intros i m [Hd [A1 A2]]%E3. split; [done|]. split; [done|].
    intros t hp q body. rewrite framed_sends. apply A2.
Qed.

(** A live object of [p] behind the pointer of [p']. *)
Lemma framed_back d q m' :
  plist_wf p -> win (cache p) d = Some q -> objects p' !! q = Some m' ->
  exists m, objects p !! q = Some m /\ shared m' = shared m.
Proof using Hf.
  intros Hwf Hq Hm'. destruct (pwf_heap _ Hwf d q Hq) as (m & Hm & _).
  destruct (fr_objects _ _ Hf q m Hm) as (m1 & Hm1 & Hs).
  rewrite Hm1 in Hm'. injection Hm' as <-. by exists m.
Qed.

Lemma primary_framed : same_counts p p' -> primary_inv p -> primary_inv p'.
Proof using Hf.
  intros Hsc Hi. apply primary_reframed; [|done]. intros d q m' Hd Hq Hm'.
  destruct (framed_back d q m' (pi_wf _ Hi) Hq Hm') as (m & Hm & Hs).
  destruct (pi_counted _ Hi d q m Hd Hq Hm) as [ok [C1 C2 C3 C4 C5]]. exists ok.
  split; [done|done|by rewrite (Hsc q m)|by rewrite Hs|]. intros hp k Hin. rewrite framed_live. auto.
Qed.
End Frame.

Lemma primary_quiet p p' : quiet p p' -> primary_inv p -> primary_inv p'.
Proof. intros [Hf Hc]%quiet_framed. by apply primary_framed. Qed.

(** A new object, not pointed to. *)
Lemma primary_alloc m q p p' : alloc m p = (q, p') -> primary_inv p -> primary_inv p'.
Proof.
  intros [-> Hn]%alloc_spec. apply primary_framed.
  - split; try done.
    + intros x mx Hx. cbn. rewrite lookup_insert_ne by congruence. eauto.
    + exists []. by rewrite app_nil_r.
    + by left.
  - intros x mx mx' Hx Hx'. cbn in Hx'. rewrite lookup_insert_ne in Hx' by congruence. congruence.
Qed.

(** An object whose identity is kept. *)
Lemma framed_set_mu q m m' p :
  objects p !! q = Some m -> shared m' = shared m -> framed p (set_mu q m' p).
Proof.
  intros Hq Hs. split; try done.
  - intros x mx Hx. cbn. destruct (decide (q = x)) as [->|Hne].
    + rewrite lookup_insert_eq. rewrite Hq in Hx. injection Hx as <-. eauto.
    + rewrite lookup_insert_ne by done. eauto.
  - exists []. by rewrite app_nil_r.
  - by left.
Qed.

Lemma primary_set_mu q m m' p :
  objects p !! q = Some m -> shared m' = shared m ->
  left_secondary_ack_count m' = left_secondary_ack_count m -> primary_inv p -> primary_inv (set_mu q m' p).
Proof.
  intros Hq Hs Hl. apply primary_framed; [by eapply framed_set_mu|]. intros x mx mx' Hx. cbn.
  destruct (decide (q = x)) as [->|Hne].
  - rewrite lookup_insert_eq. by intros [= <-]; simplify_eq.
  - rewrite lookup_insert_ne by done. congruence.
Qed.

Lemma primary_emit ev p :
  match ev with SendPrepare _ _ _ _ _ _ _ | DelayPrepare _ _ _ _ _ => False | _ => True end ->
  primary_inv p -> primary_inv (emit ev p).
Proof.
  intros Hev. apply primary_framed; [|intros q m m'; cbn; congruence]. split; try done.
  - intros q m Hq. by exists m.
  - exists [ev]. by rewrite Forall_singleton.
  - by left.
Qed.

(** ** Committing *)

Context (Hmembers : NoDup members).

(** When no acknowledgement is missing, every member has the mutation in its log. *)
Lemma counted_all p q m ok hp :
  counted p q m ok -> left_secondary_ack_count m = 0 -> hp ∈ members -> L hp (shared m).
Proof.
  intros [C1 C2 C3 C4 _] Hl Hin. apply C4. assert (incl members ok) as Hincl.
  { apply NoDup_length_incl; [by apply NoDup_ListNoDup|lia|].
    intros x Hx. apply list_elem_of_In, C2. by apply list_elem_of_In. }
  apply list_elem_of_In, Hincl. by apply list_elem_of_In.
Qed.

Lemma primary_bump p q m :
  primary_inv p -> win (cache p) (last_committed p + 1) = Some q -> objects p !! q = Some m ->
  left_secondary_ack_count m = 0 ->
  primary_inv (PList (cache p) (last_committed p + 1) (objects p) (committed p ++ [m]) (owner p)).
Proof.
  intros Hi Hq Hm Hl. set (p' := PList _ _ _ _ _).
  assert (forall t hp q' body, sends p' t hp q' body <-> sends p t hp q' body) as Hsends by done.
  assert (get_decree m = last_committed p + 1) as Hd.
  { destruct (pwf_heap _ (pi_wf _ Hi) _ _ Hq) as (m1 & Hm1 & Hd1). congruence. }
  split; try (apply Hi).
  - apply (commit_point_wf p q); [apply Hi|done].
  - cbn. intros d Hd'. apply Hi. lia.
  - intros t hp q' body (Ht & Hhp & m' & Hm' & Hs & [I1 I2 I3 I6 I4 I5])%(pi_sends _ Hi).
    split_and!; [done|done|]. exists m'. split_and!; [done|done|]. split; cbn; try done; try lia.
    intros Hlt. apply I5. lia.
  - cbn. intros d q' m' Hlt Hq' Hm'. destruct (pi_counted _ Hi d q' m' (ltac:(lia)) Hq' Hm') as [ok []].
    exists ok. by split.
  - destruct (pi_committed _ Hi) as (l & E1 & E2 & E3). exists (l ++ [m]). cbn.
    split_and!; [by rewrite E1, <- app_assoc|rewrite length_app; cbn; lia|].
    intros i m' [Hi'|[Hlen Hm']]%lookup_app_Some; [by destruct (E3 _ _ Hi') as [? []]|].
    apply list_lookup_singleton_Some in Hm' as [Hz <-]. split; [lia|].
    destruct (pi_counted _ Hi (last_committed p + 1) q m (ltac:(lia)) Hq Hm) as [ok Hok]. split.
    + intros hp. by eapply counted_all.
    + intros t hp q' body Hsend Hbody. destruct (pi_sends _ Hi _ _ _ _ Hsend) as (_ & _ & m2 & Hm2 & Hs2 & I).
      assert (get_decree m2 = get_decree m) as Hd2.
      { rewrite <- Hbody. unfold shared, shared_body, shared_header in Hs2. unfold get_decree, body_decree.
        injection Hs2 as _ _ -> _ _ _. done. }
      assert (q' = q) as ->.
      { pose proof (is_stored _ _ _ I ltac:(lia)) as Hw. rewrite Hd2, Hd in Hw. congruence. }
      congruence.
Qed.

(** ** Preparing *)

(** [p'] is [p] with a new mutation [m] at the end of its list, to be sent. *)
Record appended (p p' : replica) (q : mutation_ptr) (m : mutation) : Prop := Appended {
  ap_fresh : objects p !! q = None;
  ap_objects : objects p' = <[q := m]> (objects p);
  ap_point : last_committed p' = last_committed p;
  ap_committed : committed p' = committed p;
  ap_effects : effects (owner p') = effects (owner p);
  ap_ballot : get_ballot p' = get_ballot p;
  ap_status : status p' = status p;
  ap_members : members_of p' = members_of p;
  ap_tasks : next_task (owner p') = next_task (owner p);
  ap_wf : plist_wf p';
  ap_max : max_count (cache p') = max_count (cache p);
  ap_end : end_decree (cache p') = get_decree m;
  ap_win : win (cache p') (get_decree m) = Some q;
  ap_keep x : x <> get_decree m -> last_committed p <= x -> win (cache p') x = win (cache p) x;
  ap_decree : get_decree m = end_decree (cache p) + 1;
  ap_mballot : Mutation.get_ballot m = b0;
  ap_mpoint : last_committed_decree (header m) = last_committed p;
  ap_left : left_secondary_ack_count m = Z.of_nat (length members)
}.

Section Append.
Context (p p' : replica) (q : mutation_ptr) (m : mutation) (Ha : appended p p' q m) (Hi : primary_inv p).

Lemma append_sends t hp x body : sends p' t hp x body <-> sends p t hp x body.
Proof. unfold sends. by rewrite (ap_effects _ _ _ _ Ha). Qed.

Lemma append_live k hp x : live p' k hp x <-> live p k hp x.
Proof. destruct k; unfold live, sends, retries; by rewrite (ap_effects _ _ _ _ Ha). Qed.

Lemma append_not_sent t hp body : ~ sends p t hp q body.
Proof.
  intros (_ & _ & x & Hx & _)%(pi_sends _ Hi). by rewrite (ap_fresh _ _ _ _ Ha) in Hx.
Qed.

Lemma append_not_live k hp : ~ live p k hp q.
Proof.
  destruct k as [t|i]; intros [_ Hk].
  - destruct Hk as [body Hs]. by eapply append_not_sent.
  - destruct (pi_retries _ Hi _ _ _ Hk) as (t & body & Hs). by eapply append_not_sent.
Qed.

Lemma append_issued : issued p' q m.
Proof.
  pose proof (plist_lcd_le_end p (pi_wf _ Hi)) as Hle. destruct Ha.
  split; [done| | | | |done].
  - destruct (pi_committed _ Hi) as (l & _ & E & _). lia.
  - lia.
  - lia.
  - pose proof (wf_max _ (pwf_cache _ ap_wf0)). destruct (decide (end_decree (cache p) = last_committed p)); [lia|].
    destruct (pi_full _ Hi (last_committed p + 1)) as [x Hx]; [lia|].
    rewrite <- ap_keep0 in Hx by lia. apply win_inside in Hx.
    pose proof (wf_window _ (pwf_cache _ ap_wf0)). pose proof (wf_interval _ (pwf_cache _ ap_wf0)). lia.
Qed.

Lemma append_counted : counted p' q m [].
Proof.
  split; [constructor|apply list_subseteq_nil|cbn; rewrite (ap_left _ _ _ _ Ha); lia|..].
  - intros hp Hin. by apply elem_of_nil in Hin.
  - intros hp k Hin. by apply elem_of_nil in Hin.
Qed.

Lemma append_inv : primary_inv p'.
Proof.
  pose proof append_issued as His. pose proof append_counted as Hct.
  pose proof (ap_point _ _ _ _ Ha) as Ep. pose proof (ap_end _ _ _ _ Ha) as Ee.
  pose proof (ap_decree _ _ _ _ Ha) as Ed. split.
  - apply Ha.
  - rewrite (ap_ballot _ _ _ _ Ha). apply Hi.
  - rewrite (ap_status _ _ _ _ Ha). apply Hi.
  - rewrite (ap_status _ _ _ _ Ha), (ap_members _ _ _ _ Ha). apply Hi.
  - rewrite Ee, Ep. intros d Hd. destruct (decide (d = get_decree m)) as [->|Hne].
    + by rewrite (ap_win _ _ _ _ Ha).
    + rewrite (ap_keep _ _ _ _ Ha) by (done || lia). apply Hi. lia.
  - rewrite (ap_effects _ _ _ _ Ha). apply Hi.
  - intros t hp x body Hs. apply append_sends in Hs.
    destruct (pi_sends _ Hi _ _ _ _ Hs) as (Ht & Hm & mx & Hx & Hsx & [I1 I2 I3 I6 I4 I5]).
    rewrite (ap_tasks _ _ _ _ Ha). split_and!; [done|done|]. exists mx. split_and!; [|done|].
    + rewrite (ap_objects _ _ _ _ Ha), lookup_insert_ne; [done|]. intros <-. by eapply append_not_sent.
    + split; rewrite ?Ep, ?Ee, ?(ap_max _ _ _ _ Ha); try done; [lia|].
      intros Hlt. rewrite (ap_keep _ _ _ _ Ha) by lia. auto.
  - intros t hp x body t' hp' x' body'. rewrite !append_sends. apply Hi.
  - intros t hp x body hp' x' body'. rewrite !append_sends. apply Hi.
  - intros i hp x. unfold retries. rewrite (ap_effects _ _ _ _ Ha). setoid_rewrite append_sends. apply Hi.
  - intros k k' hp x. rewrite !append_live. apply Hi.
  - intros d x mx. rewrite Ep, (ap_objects _ _ _ _ Ha). intros Hd Hw Hx.
    destruct (decide (d = get_decree m)) as [->|Hne].
    + rewrite (ap_win _ _ _ _ Ha) in Hw. injection Hw as <-. rewrite lookup_insert_eq in Hx.
      injection Hx as <-. by exists [].
    + rewrite (ap_keep _ _ _ _ Ha) in Hw by (done || lia).
      destruct (pwf_heap _ (pi_wf _ Hi) _ _ Hw) as (m1 & Hm1 & _).
      rewrite lookup_insert_ne in Hx by (intros <-; rewrite (ap_fresh _ _ _ _ Ha) in Hm1; done).
      destruct (pi_counted _ Hi d x mx Hd Hw Hx) as [ok [C1 C2 C3 C4 C5]]. exists ok.
      split; try done. intros hp k Hin. rewrite append_live. auto.
  - destruct (pi_committed _ Hi) as (l & E1 & E2 & E3). exists l. rewrite (ap_committed _ _ _ _ Ha), Ep.
    split_and!; [done|done|]. intros i mx [Hd [A1 A2]]%E3. split; [done|]. split; [done|].
    intros t hp x body. rewrite append_sends. apply A2.
Qed.
End Append.

(** ** Sending *)

(** [p'] is [p] with one more prepare RPC, to [hp] for [q]. *)
Record sent_one (p p' : replica) (hp : host_port) (q : mutation_ptr) (m : mutation) : Prop := SentOne {
  so_cache : cache p' = cache p;
  so_point : last_committed p' = last_committed p;
  so_committed : committed p' = committed p;
  so_config : config (owner p') = config (owner p);
  so_members : members_of p' = members_of p;
  so_tasks : next_task (owner p') = next_task (owner p) + 1;
  so_objects : exists m', objects p' = <[q := m']> (objects p) /\ shared m' = shared m /\
    left_secondary_ack_count m' = left_secondary_ack_count m;
  so_effects : exists timeout rc, effects (owner p') = effects (owner p) ++
    [SendPrepare (next_task (owner p)) hp timeout q PS_SECONDARY rc (PrepareBody (header m) (updates m))]
}.

Lemma send_prepare_sent hp q timeout pop sig p p' :
  send_prepare_message hp PS_SECONDARY q timeout pop sig p = Ret p' ->
  exists m, objects p !! q = Some m /\ sent_one p p' hp q m.
Proof.
  unfold send_prepare_message, new_task. intros E. inv_returns. exists r. split; [done|].
  split; try done; [|by eexists _, _]. by eexists.
Qed.

Section Send.
Context (p p' : replica) (hp : host_port) (q : mutation_ptr) (m : mutation)
  (Hs : sent_one p p' hp q m) (Hi : primary_inv p) (Hm : objects p !! q = Some m)
  (His : issued p q m) (Hd : last_committed p < get_decree m) (Hhp : hp ∈ members)
  (Hfree : forall k, ~ live p k hp q) (ok : list host_port) (Hct : counted p q m ok) (Hok : hp ∉ ok).

Let body := PrepareBody (header m) (updates m).

Lemma send_sends t x y b :
  sends p' t x y b <-> sends p t x y b \/ (t = next_task (owner p) /\ x = hp /\ y = q /\ b = body).
Proof using Hs.
  destruct (so_effects _ _ _ _ _ Hs) as (to & rc & E). unfold sends. rewrite E. split.
  - intros (to' & rc' & [Hin|Hin]%elem_of_app); [left; by exists to', rc'|right].
    apply list_elem_of_singleton in Hin. by injection Hin as -> -> -> -> -> ->.
  - intros [(to' & rc' & Hin)|(-> & -> & -> & ->)]; [exists to', rc'|exists to, rc]; apply elem_of_app; [by left|].
    right. by apply list_elem_of_singleton.
Qed.

Lemma send_retries i x y : retries p' i x y <-> retries p i x y.
Proof using Hs.
  destruct (so_effects _ _ _ _ _ Hs) as (to & rc & E). unfold retries. rewrite E.
  split; intros (to' & sg & Hin); exists to', sg; [|by apply lookup_app_l_Some].
  apply lookup_app_Some in Hin as [|[_ Hin]]; [done|]. apply list_lookup_singleton_Some in Hin as [_ Hin]. done.
Qed.

Lemma send_live k x y : live p' k x y -> live p k x y \/ (x = hp /\ y = q /\ k = Call (next_task (owner p))).
Proof using Hs.
  destruct k as [t|i]; cbn.
  - intros [Ht [b [Hb|(-> & -> & -> & ->)]%send_sends]]; [left|by right]. eauto.
  - rewrite send_retries. by left.
Qed.

Lemma send_object x mx : objects p !! x = Some mx -> exists mx', objects p' !! x = Some mx' /\
  shared mx' = shared mx /\ left_secondary_ack_count mx' = left_secondary_ack_count mx.
Proof using Hs Hm.
  destruct (so_objects _ _ _ _ _ Hs) as (m' & -> & H1 & H2). intros Hx.
  destruct (decide (q = x)) as [<-|Hne].
  - rewrite lookup_insert_eq. exists m'. rewrite Hm in Hx. by injection Hx as <-.
  - rewrite lookup_insert_ne by done. eauto.
Qed.

Lemma send_wf : plist_wf p'.
Proof using Hs Hm Hi.
  apply (plist_wf_objects p); [apply Hs|apply Hs| |apply Hi]. intros x mx Hx.
  destruct (send_object x mx Hx) as (m' & Hx' & Hsh & _). exists m'. split; [done|].
  by apply shared_decree in Hsh as [-> _].
Qed.

Lemma send_issued x mx mx' : shared mx' = shared mx -> issued p x mx -> issued p' x mx'.
Proof using Hs.
  intros (D1 & D2 & D3)%shared_decree [I1 I2 I3 I6 I4 I5].
  split; rewrite ?D1, ?D2, ?D3, ?(so_cache _ _ _ _ _ Hs), ?(so_point _ _ _ _ _ Hs); done.
Qed.

Lemma send_counted mx' : shared mx' = shared m ->
  left_secondary_ack_count mx' = left_secondary_ack_count m -> counted p' q mx' ok.
Proof using Hs Hct Hok.
  intros Hsh Hl. destruct Hct as [C1 C2 C3 C4 C5]. split; [done|done|by rewrite Hl|by rewrite Hsh|].
  intros x k Hin [Hlive|(-> & _)]%send_live; [by eapply C5|done].
Qed.

Lemma send_inv : primary_inv p'.
Proof using All.
  pose proof (so_cache _ _ _ _ _ Hs) as Ec. pose proof (so_point _ _ _ _ _ Hs) as Ep.
  assert (status p' = status p) as Est by (unfold status; by rewrite (so_config _ _ _ _ _ Hs)).
  assert (forall t x y b, sends p t x y b -> body_decree b = get_decree m -> y = q) as Huniq.
  { intros t x y b Hsend Hb. destruct (pi_sends _ Hi _ _ _ _ Hsend) as (_ & _ & my & Hy & Hsy & Hiy).
    assert (get_decree my = get_decree m) as E.
    { unfold shared, shared_body, shared_header in Hsy. injection Hsy as _ _ Edec _ _ _.
      unfold get_decree, body_decree in *. congruence. }
    pose proof (is_stored _ _ _ Hiy ltac:(lia)) as Hw. pose proof (is_stored _ _ _ His Hd). congruence. }
  split.
  - apply send_wf.
  - unfold get_ballot. rewrite (so_config _ _ _ _ _ Hs). apply Hi.
  - rewrite Est. apply Hi.
  - rewrite Est, (so_members _ _ _ _ _ Hs). apply Hi.
  - rewrite Ec, Ep. apply Hi.
  - destruct (so_effects _ _ _ _ _ Hs) as (to & rc & ->). apply Forall_app. split; [apply Hi|].
    by apply Forall_singleton.
  - rewrite (so_tasks _ _ _ _ _ Hs). intros t x y b [Hold|(-> & -> & -> & ->)]%send_sends.
    + destruct (pi_sends _ Hi _ _ _ _ Hold) as (Ht & Hx & my & Hy & Hsy & Hiy).
      destruct (send_object y my Hy) as (my' & Hy' & Hsh & _).
      split_and!; [lia|done|]. exists my'. split_and!; [done|congruence|by eapply send_issued].
    + destruct (send_object q m Hm) as (m' & Hq' & Hsh & _).
      split_and!; [lia|done|]. exists m'. split_and!; [done|by rewrite Hsh|by eapply send_issued].
  - intros t x y b t' x' y' b' [H1|(-> & -> & -> & ->)]%send_sends [H2|(-> & -> & -> & ->)]%send_sends Hb.
    + by eapply pi_unique.
    + by eapply Huniq.
    + symmetry. by eapply Huniq.
    + done.
  - intros t x y b x' y' b' [H1|(-> & -> & -> & ->)]%send_sends [H2|(E & -> & -> & ->)]%send_sends.
    + by eapply pi_calls.
    + destruct (pi_sends _ Hi _ _ _ _ H1) as [? _]. lia.
    + destruct (pi_sends _ Hi _ _ _ _ H2) as [? _]. lia.
    + done.
  - intros i x y (t & b & Hb)%send_retries%(pi_retries _ Hi). exists t, b. apply send_sends. by left.
  - intros k k' x y [H1|(-> & -> & ->)]%send_live [H2|(E1 & E2 & E3)]%send_live.
    + by eapply pi_tokens.
    + subst. by destruct (Hfree k).
    + by destruct (Hfree k').
    + done.
  - rewrite Ec, Ep. intros d x mx' Hdx Hw Hx'.
    destruct (pwf_heap _ (pi_wf _ Hi) _ _ Hw) as (mx & Hx & _).
    destruct (send_object x mx Hx) as (m1 & Hx1 & Hsh & Hl). rewrite Hx1 in Hx'. injection Hx' as <-.
    destruct (decide (x = q)) as [->|Hne].
    + rewrite Hm in Hx. injection Hx as <-. exists ok. by apply send_counted.
    + destruct (pi_counted _ Hi d x mx Hdx Hw Hx) as [okx [C1 C2 C3 C4 C5]]. exists okx.
      split; [done|done|by rewrite Hl|by rewrite Hsh|].
      intros y k Hin [Hlive|(-> & -> & _)]%send_live; [by eapply C5|done].
  - destruct (pi_committed _ Hi) as (l & E1 & E2 & E3). exists l. rewrite (so_committed _ _ _ _ _ Hs), Ep.
    split_and!; [done|done|]. intros i mx Hix. destruct (E3 i mx Hix) as [Hdx [A1 A2]]. split; [done|].
    split; [done|]. intros t x y b [Hold|(-> & -> & -> & ->)]%send_sends Hb; [by eapply A2|].
    apply lookup_lt_Some in Hix. unfold body_decree in Hb. unfold get_decree in *. cbn in Hb. lia.
Qed.
End Send.

(** To every member. *)
Lemma primary_send_all e l q pop p p' m :
  send_to_secondaries e l q pop p = Ret p' -> NoDup l -> l ⊆ members -> primary_inv p ->
  objects p !! q = Some m -> issued p q m -> last_committed p < get_decree m -> counted p q m [] ->
  (forall hp k, hp ∈ l -> ~ live p k hp q) ->
  primary_inv p' /\ members_of p' = members_of p /\ dom (objects p') = dom (objects p).
Proof.
  revert p m. induction l as [|hp l IH]; intros p m E Hnd Hsub Hi Hm His Hd Hct Hfree.
  { injection E as <-. done. }
  cbn [send_to_secondaries] in E. apply obind_Ret_inv in E as (p1 & E1 & E).
  apply NoDup_cons in Hnd as [Hhp Hnd].
  destruct (send_prepare_sent _ _ _ _ _ _ _ E1) as (m0 & Hm0 & Hs). simplify_eq.
  assert (hp ∈ members) as Hin by (apply Hsub; left).
  assert (forall k, ~ live p k hp q) as Hf by (intros k; apply Hfree; left).
  assert (hp ∉ []) as Hn by apply not_elem_of_nil.
  pose proof (send_inv _ _ _ _ _ Hs Hi Hm His Hd Hin Hf _ Hct Hn) as Hi1.
  destruct (send_object _ _ _ _ _ Hs Hm q m Hm) as (m1 & Hm1 & Hsh & Hl).
  destruct (IH p1 m1) as (H1 & H2 & H3); [done|done| |done|done|..].
  - intros x Hx. apply Hsub. by right.
  - by eapply send_issued.
  - rewrite (so_point _ _ _ _ _ Hs). by rewrite (proj1 (shared_decree _ _ Hsh)).
  - by eapply send_counted.
  - intros x k Hx [Hlive|(-> & _)]%(send_live _ _ _ _ _ Hs); [|done]. eapply Hfree; [by right|done].
  - split_and!; [done|by rewrite H2, (so_members _ _ _ _ _ Hs)|]. rewrite H3.
    destruct (so_objects _ _ _ _ _ Hs) as (m' & -> & _). rewrite dom_insert_L.
    apply elem_of_dom_2 in Hm. set_solver.
Qed.

(** A list whose uncommitted part is kept. *)
Lemma primary_recache c p :
  primary_inv p -> plist_wf (with_cache c p) -> max_count c = max_count (cache p) ->
  end_decree c = end_decree (cache p) -> (forall x, last_committed p <= x -> win c x = win (cache p) x) ->
  primary_inv (with_cache c p).
Proof.
  intros Hi Hwf Hmx He Hw. split; try (apply Hi); try done.
  - cbn. intros d Hd. rewrite Hw by lia. apply Hi. lia.
  - intros t hp q body (Ht & Hhp & m & Hm & Hs & [I1 I2 I3 I6 I4 I5])%(pi_sends _ Hi).
    split_and!; [done|done|]. exists m. split_and!; [done|done|]. split; cbn; try done; try lia.
    intros Hlt. rewrite Hw by lia. auto.
  - cbn. intros d q m Hd Hq Hm. rewrite Hw in Hq by lia.
    destruct (pi_counted _ Hi d q m Hd Hq Hm) as [ok []]. exists ok. by split.
  - destruct (pi_committed _ Hi) as (l & E1 & E2 & E3). exists l. split_and!; [done|done|].
    intros i m Hl. by destruct (E3 i m Hl) as [? []].
Qed.

(** ** The committer and the handlers *)

Section Committer.
Context (exec : mutation_ptr -> replica -> outcome replica) (W : replica -> Prop)
  (HW : forall q m p p', is_logged m = true -> commit_one exec q m p = Ret p' -> W p -> W p')
  (HWone : forall p l d, W p -> W (PList (cache p) d (objects p) l (owner p)))
  (Hpi : forall q p p', exec q p = Ret p' -> W p -> primary_inv p -> primary_inv p').

Lemma primary_commit_ready n bt p p' :
  commit_ready exec n (last_committed p + 1) bt p = Ret p' -> W p -> primary_inv p -> primary_inv p'.
Proof using Hmembers HW HWone Hpi.
  revert bt p. induction n as [|n IH]; intros bt p E Hq Hi; cbn [commit_ready] in E; [done|].
  rewrite get_mutation_win in E by apply (pwf_cache _ (pi_wf _ Hi)). cbn [obind] in E.
  destruct (win (cache p) (last_committed p + 1)) as [q|] eqn:Hw; [|by injection E as <-].
  apply obind_Ret_inv in E as (m & Hm%deref_Ret_inv & E).
  destruct (_ && _) eqn:Hr; [|by injection E as <-]. apply andb_true_iff in Hr as [Hr _].
  apply obind_Ret_inv in E as (p1 & E1 & E).
  assert (left_secondary_ack_count m = 0) as Hl.
  { unfold is_ready_for_commit in Hr. rewrite !andb_true_iff in Hr. lia. }
  eapply IH; [exact E| |].
  - eapply HW; [|exact E1|exact Hq]. by apply ready_is_logged.
  - eapply Hpi; [exact E1|by apply HWone|]. by apply (primary_bump p q m).
Qed.

Lemma primary_possible_commit q p p' :
  do_possible_commit_on_primary exec q p = Ret p' -> W p -> primary_inv p -> primary_inv p'.
Proof using Hmembers HW HWone Hpi.
  unfold do_possible_commit_on_primary, commit. intros E Hq Hi. inv_returns; try done.
  apply negb_false_iff, Z.eqb_eq in Hb1. rewrite Hb1 in E. by eapply primary_commit_ready.
Qed.

End Committer.

Context (Hcount : Z.of_nat (length members) < 2 ^ 15).

(** The mutation as [start_2pc] sends it. *)
Definition to_send (e : env) (p : replica) (m : mutation) : mutation :=
  set_left_secondary_ack_count (u32 (secondary_count p)) (set_prepare_ts (now_ms e) m).

Lemma to_send_appended e q mu p0 p queue :
  primary_inv p0 -> status p0 = PS_PRIMARY -> objects p0 !! q = None ->
  put_result (set_mu q mu p0) p q (get_decree mu) ->
  get_decree mu = end_decree (cache p0) + 1 -> Mutation.get_ballot mu = b0 ->
  last_committed_decree (header mu) = last_committed p0 ->
  let p1 := upd_primary (set_write_queue queue) p in
  appended p0 (set_mu q (to_send e p1 mu) p1) q (to_send e p1 mu).
Proof using Hcount.
  intros Hi Hst Hq [P1 P2 P3 P4 P5 P6] Hd Hb Hp p1.
  assert (owner p = owner p0 /\ objects p = <[q := mu]> (objects p0) /\ committed p = committed p0 /\
    last_committed p = last_committed p0) as (Eow & Eob & Eco & Elc) by (by rewrite P1).
  pose proof (pi_members _ Hi Hst) as Hmem. unfold members_of in Hmem. injection Hmem as Hm1 Hm2.
  split; cbn; rewrite ?Eow, ?Eob, ?Eco, ?Elc; try done.
  - apply insert_insert_eq.
  - unfold get_ballot. cbn. by rewrite Eow.
  - unfold status. cbn. by rewrite Eow.
  - unfold members_of. cbn. by rewrite Eow.
  - apply (plist_wf_objects p); [done|done| |done]. cbn. intros x mx Hx.
    destruct (decide (q = x)) as [->|Hne].
    + rewrite Eob, lookup_insert_eq in Hx. injection Hx as <-. rewrite lookup_insert_eq. eauto.
    + rewrite lookup_insert_ne by done. eauto.
  - rewrite P4. unfold get_decree in *. cbn in *. lia.
  - unfold secondary_count. cbn. rewrite Eow, Hm1. by rewrite (uwrap_small 32), (uwrap_small 15) by lia.
Qed.

Lemma primary_start_2pc e q pop mu p0 p p' :
  start_2pc no_commit e q pop p = Ret p' ->
  primary_inv p0 -> status p0 = PS_PRIMARY -> objects p0 !! q = None ->
  put_result (set_mu q mu p0) p q (get_decree mu) ->
  get_decree mu = end_decree (cache p0) + 1 -> Mutation.get_ballot mu = b0 ->
  last_committed_decree (header mu) = last_committed p0 -> primary_inv p'.
Proof using H Hmembers Hcount.
  intros E Hi Hst Hq Hput Hd Hb Hp. unfold start_2pc in E.
  assert (objects p !! q = Some mu) as Hmu by (rewrite (pr_state _ _ _ _ Hput); cbn; apply lookup_insert_eq).
  rewrite Hmu in E. cbn [deref obind] in E. apply obind_Ret_inv in E as (queue & _ & E). cbv zeta in E.
  pose proof (to_send_appended e q mu p0 p queue Hi Hst Hq Hput Hd Hb Hp) as Ha. cbv zeta in Ha.
  unfold to_send in Ha. set (m1 := set_left_secondary_ack_count _ _) in *.
  set (p1 := set_mu q m1 _) in *. clearbody p1.
  pose proof (append_inv _ _ _ _ Ha Hi) as Hi1. pose proof (append_issued _ _ _ _ Ha Hi) as His.
  pose proof (append_counted _ _ _ _ Ha) as Hct.
  assert (members_of p1 = (members, ∅)) as Hmem.
  { rewrite (ap_members _ _ _ _ Ha). by apply Hi. }
  assert (hp_secondaries (pc (pstates (owner p1))) = members /\ learners (pstates (owner p1)) = ∅) as [Es El].
  { unfold members_of in Hmem. by injection Hmem. }
  rewrite Es in E. apply obind_Ret_inv in E as (p2 & E2 & E).
  assert (objects p1 !! q = Some m1) as Hm1 by (rewrite (ap_objects _ _ _ _ Ha); apply lookup_insert_eq).
  assert (last_committed p1 < get_decree m1) as Hlt.
  { rewrite (ap_point _ _ _ _ Ha), (ap_decree _ _ _ _ Ha). pose proof (plist_lcd_le_end p0 (pi_wf _ Hi)). lia. }
  destruct (primary_send_all _ _ _ _ _ _ m1 E2) as (Hi2 & Hmem2 & Hdom2); try done.
  { intros hp k _. rewrite (append_live _ _ _ _ Ha). by eapply append_not_live. }
  assert (learners (pstates (owner p2)) = ∅) as El2.
  { rewrite Hmem in Hmem2. unfold members_of in Hmem2. by injection Hmem2. }
  rewrite El2, map_to_list_empty in E. cbn [send_to_learners obind] in E.
  apply obind_Ret_inv in E as (m3 & Hm3%deref_Ret_inv & E).
  set (p3 := set_mu q _ p2) in E. assert (primary_inv p3) as Hi3.
  { by eapply primary_set_mu. }
  clearbody p3. apply obind_Ret_inv in E as (p4 & E4 & E). assert (primary_inv p4) as Hi4.
  { destruct (is_splitting p3); [|by injection E4 as <-].
    eapply primary_quiet; [by eapply quiet_copy_mutation|done]. }
  apply obind_Ret_inv in E as (m4 & Hm4%deref_Ret_inv & E). apply obind_Ret_inv in E as (p5 & E5 & [= <-]).
  assert (primary_inv p5) as Hi5; [|eapply primary_quiet; [|exact Hi5]; apply quiet_owner; try done; by left].
  destruct (is_logged m4).
  - by apply (primary_possible_commit no_commit (fun _ => True)) in E5.
  - clear E4. inv_returns. apply primary_emit; [done|]. by eapply primary_set_mu.
Qed.

Lemma assign_id_spec e mu p mu' p' :
  assign_id e mu p = (mu', p') -> get_decree mu = invalid_decree ->
  get_decree mu' = max_prepared_decree p + 1 /\ Mutation.get_ballot mu' = get_ballot p /\
  last_committed_decree (header mu') = last_committed p.
Proof.
  intros E Hd. unfold assign_id, get_decree, ts_next in *. cbn in E. rewrite Hd in E. cbn in E.
  by injection E as <- <-.
Qed.

Lemma make_idempotent_decree e mu p err mu' p' :
  make_idempotent e mu p = Ret (err, mu', p') -> get_decree mu = invalid_decree -> get_decree mu' = invalid_decree.
Proof.
  assert (forall l m, get_decree (fold_left (fun m r => add_client_request (Some r) m) l m) = get_decree m) as Hl.
  { induction l as [|r l IH]; intros m; cbn [fold_left]; [done|]. by rewrite IH. }
  unfold make_idempotent. intros E Hmu. inv_returns; [done|by rewrite Hl|done|done].
Qed.

Lemma make_idempotent_config e mu p err mu' p' :
  make_idempotent e mu p = Ret (err, mu', p') -> config (owner p') = config (owner p).
Proof. unfold make_idempotent. intros E. by inv_returns. Qed.

Lemma assign_id_config e mu p mu' p' :
  assign_id e mu p = (mu', p') -> config (owner p') = config (owner p).
Proof. unfold assign_id, ts_next. destruct (_ =? invalid_decree); by intros [= <- <-]. Qed.

Lemma primary_put exec q m pop sc p err p' :
  primary_inv p -> objects p !! q = Some m -> get_decree m = end_decree (cache p) + 1 ->
  prepare exec q PS_PRIMARY pop sc p = Ret (err, p') ->
  (err <> ERR_OK /\ primary_inv p') \/ (err = ERR_OK /\ put_result p p' q (get_decree m)).
Proof.
  intros Hi Hm Hd E. unfold prepare in E. rewrite Hm in E. cbn [deref obind] in E.
  apply CHECK_Ret_inv in E as [Hc E]. pose proof (pwf_cache _ (pi_wf _ Hi)) as Hcw.
  pose proof (wf_max _ Hcw). pose proof (wf_window _ Hcw). pose proof (wf_interval _ Hcw).
  destruct (pop_put_result p q m pop err p') as [(-> & E1 & Hwf & Hmx & He & Hw)|?];
    [apply Hi|done|lia|lia|lia|exact E| |by right].
  left. split; [done|]. rewrite E1. apply primary_recache; try done. by rewrite <- E1.
Qed.

Lemma primary_init_prepare exec e mu rec pop p p' :
  init_prepare exec e mu rec pop p = Ret p' -> waiting mu -> primary_inv p -> primary_inv p'.
Proof using Hmembers Hcount H.
  intros E [Hl Hd] Hi. rewrite <- init_prepare_nothing in E by done. unfold init_prepare in E.
  apply CHECK_Ret_inv in E as [Hst%bool_decide_eq_true E].
  apply obind_Ret_inv in E as ([[err mu1] p1] & E1 & E).
  pose proof (make_idempotent_decree _ _ _ _ _ _ E1 Hd) as Hd1.
  pose proof (make_idempotent_config _ _ _ _ _ _ E1) as Ec1. apply quiet_make_idempotent in E1.
  assert (primary_inv p1) as Hi1 by (by eapply primary_quiet). destruct (negb (err =? kOk)); [by injection E as <-|].
  destruct (assign_id e mu1 p1) as [mu2 p2] eqn:E2.
  destruct (assign_id_spec _ _ _ _ _ E2 Hd1) as (Hd2 & Hb2 & Hp2).
  pose proof (assign_id_config _ _ _ _ _ E2) as Ec2. apply quiet_assign_id in E2.
  assert (primary_inv p2) as Hi2 by (by eapply primary_quiet). cbv zeta in E.
  assert (forall m er, primary_inv (reply_with_error m er p2)) as Hreply.
  { intros m er. eapply primary_quiet; [apply quiet_reply_with_error|done]. }
  destruct (get_decree mu2 >? _); [by injection E as <-|]. destruct (negb (is_ok _)); [by injection E as <-|].
  apply obind_Ret_inv in E as (min & _ & E). destruct (_ && _); [by injection E as <-|].
  apply CHECK_Ret_inv in E as [Hc E]. destruct (alloc mu2 p2) as [q p3] eqn:E3.
  pose proof (primary_alloc _ _ _ _ E3 Hi2) as Hi3. apply alloc_spec in E3 as [-> Hq]. apply obind_Ret_inv in E as ([err4 p4] & E4 & E).
  unfold max_prepared_decree, max_decree in Hd2. rewrite <- (q_cache _ _ E2) in Hd2.
  apply (primary_put no_commit q mu2) in E4; [|done|apply lookup_insert_eq|done].
  destruct E4 as [[Herr Hi4]|[-> Hput]].
  - destruct (is_ok err4) eqn:Hok; [by apply bool_decide_eq_true in Hok|]. injection E as <-.
    eapply primary_quiet; [apply quiet_reply_with_error|done].
  - cbn in E. apply (primary_start_2pc e q pop mu2 p2 p4 p' E); try done.
    + unfold status. by rewrite Ec2, Ec1.
    + rewrite Hb2. apply Hi1.
    + rewrite Hp2. by rewrite (q_point _ _ E2).
Qed.

Lemma primary_prepare_next exec e n p p' :
  prepare_next exec e n p = Ret p' -> queue_waits p -> primary_inv p -> primary_inv p'.
Proof using Hmembers Hcount H.
  unfold prepare_next. intros E Hq Hi. apply obind_Ret_inv in E as ([[m|] queue] & E1 & E); cbv zeta in E.
  - eapply primary_init_prepare; [exact E| |].
    + apply next_work_content in E1. unfold queue_waits in Hq. rewrite E1 in Hq.
      by apply Forall_app in Hq as [[Hm _]%Forall_cons _].
    + eapply primary_quiet; [apply quiet_set_queue|done].
  - injection E as <-. eapply primary_quiet; [apply quiet_set_queue|done].
Qed.

Lemma not_learner p : primary_inv p -> status p <> PS_POTENTIAL_SECONDARY.
Proof. intros Hi. by destruct (pi_status _ Hi) as [->|[->| ->]]. Qed.

Lemma primary_execute_body exec e q p p' :
  (forall x y y', exec x y = Ret y' -> extends y y') ->
  execute_mutation_body exec e q p = Ret p' -> queue_waits p -> primary_inv p -> primary_inv p'.
Proof using Hmembers Hcount H.
  intros Hext E Hq Hi. unfold execute_mutation_body in E.
  apply obind_Ret_inv in E as (m & _ & E). apply obind_Ret_inv in E as ([err p1] & E1 & E).
  pose proof (ext_queue _ _ (ext_execute_apply _ _ _ _ _ _ E1) Hq) as Hq1.
  apply quiet_execute_apply in E1. apply obind_Ret_inv in E as (p2 & E2 & E).
  assert (primary_inv p1) as Hi1 by (by eapply primary_quiet).
  assert (queue_waits p2 /\ primary_inv p2) as [Hq2 Hi2].
  { destruct (is_ok err); [by injection E2 as <-|]. split.
    - eapply ext_queue; [by eapply ext_handle_local_failure|done].
    - eapply primary_quiet; [|exact Hi1]. eapply quiet_handle_local_failure; [by apply not_learner|done]. }
  destruct (negb _); [by injection E as <-|]. by eapply primary_prepare_next.
Qed.

Lemma primary_execute e fuel q p p' :
  execute_mutation e fuel q p = Ret p' -> queue_waits p -> primary_inv p -> primary_inv p'.
Proof using Hmembers Hcount H.
  destruct fuel as [|fuel]; cbn [execute_mutation]; [done|].
  apply primary_execute_body, ext_execute_mutation.
Qed.

Lemma primary_commits e fuel q p p' :
  do_possible_commit_on_primary (execute_mutation e fuel) q p = Ret p' ->
  queue_waits p -> primary_inv p -> primary_inv p'.
Proof using Hmembers Hcount H.
  intros E Hq. revert E Hq. apply (primary_possible_commit _ queue_waits); [|done|apply primary_execute].
  intros x m y y' Hl E. apply (ext_queue y y'). eapply ext_commit_one; [apply ext_execute_mutation|done|done].
Qed.

(** ** Handlers that do not involve an acknowledgement *)

Lemma primary_client_write e fuel r ign p p' :
  on_client_write e (execute_mutation e fuel) r ign p = Ret p' ->
  queue_waits p -> primary_inv p -> primary_inv p'.
Proof using Hmembers Hcount H.
  assert (forall p p', enqueue_write e (execute_mutation e fuel) r p = Ret p' ->
    queue_waits p -> primary_inv p -> primary_inv p') as Henq.
  { clear p p'. intros p p' E Hq Hi. unfold enqueue_write in E.
    apply obind_Ret_inv in E as ([[m|] queue] & E1 & E); cbv zeta in E.
    - eapply primary_init_prepare; [exact E| |eapply primary_quiet; [apply quiet_set_queue|done]].
      apply (add_work_held waiting) in E1; [|by intros; split|by intros [?|] ? []; split|done].
      by apply Forall_app in E1 as [[Hm _]%Forall_cons _].
    - injection E as <-. eapply primary_quiet; [apply quiet_set_queue|done]. }
  assert (forall p p', accept_write e (execute_mutation e fuel) r p = Ret p' ->
    queue_waits p -> primary_inv p -> primary_inv p') as Hacc.
  { clear p p'. intros p p' E Hq Hi. unfold accept_write in E. inv_returns.
    all: try (eapply primary_quiet; [by apply quiet_emit|exact Hi]).
    all: try (by eapply Henq). all: eapply Henq; [exact E|exact Hq|].
    all: eapply primary_quiet; [|exact Hi]; apply quiet_owner; try done; by left. }
  intros E Hq Hi. unfold on_client_write in E. destruct ign; inv_returns; try done.
  all: try (eapply primary_quiet; [by apply quiet_emit|exact Hi]).
  all: try (by eapply Hacc).
  - eapply primary_quiet; [by eapply quiet_throttle_write|done].
  - eapply Hacc; [exact E| |].
    + eapply ext_queue; [by eapply ext_throttle_write|done].
    + eapply primary_quiet; [by eapply quiet_throttle_write|done].
Qed.

Lemma primary_log_completed e fuel q err p p' :
  on_append_log_completed e (execute_mutation e fuel) q err p = Ret p' ->
  queue_waits p -> primary_inv p -> primary_inv p'.
Proof using Hmembers Hcount H.
  intros E Hq Hi. unfold on_append_log_completed in E. apply obind_Ret_inv in E as (m & Hm%deref_Ret_inv & E).
  apply obind_Ret_inv in E as (p1 & E1 & E). assert (queue_waits p1 /\ primary_inv p1) as [Hq1 Hi1].
  { clear E. destruct (is_ok err); [|by injection E1 as <-]. apply obind_Ret_inv in E1 as (m1 & Em & [= <-]).
    unfold set_logged in Em. inv_returns. split; [done|]. by eapply primary_set_mu. }
  apply obind_Ret_inv in E as (p2 & E2 & E). assert (primary_inv p2) as Hi2; [|by clear E1 E2; inv_returns].
  clear E. destruct (_ && _) eqn:Hg; [|by injection E2 as <-]. apply andb_true_iff in Hg as [_ Hg].
  apply negb_true_iff, bool_decide_eq_false in Hg. unfold logged_on_status in E2.
  destruct (pi_status _ Hi1) as [Hs|[Hs|Hs]]; rewrite Hs in E2; [|done|by injection E2 as <-].
  destruct (is_ok err); [by eapply primary_commits|]. eapply primary_quiet; [|exact Hi1].
  eapply quiet_handle_local_failure; [by rewrite Hs|done].
Qed.
End Ghost.

(** ** Acknowledgements and retries *)

(** More is known to be logged, more RPCs are completed, more retries have fired. *)
Lemma primary_weaken (L L' : host_port -> mutation_header * list mutation_update -> Prop)
  (calls calls' : gset Z) (fired fired' : gset nat) p :
  (forall hp c, L hp c -> L' hp c) -> calls ⊆ calls' -> fired ⊆ fired' ->
  primary_inv L calls fired p -> primary_inv L' calls' fired' p.
Proof.
  intros HL Hc Hf Hi. assert (forall k hp q, live calls' fired' p k hp q -> live calls fired p k hp q) as Hlive.
  { intros [t|i] hp q [Hn Hk]; (split; [set_solver|done]). }
  split; try (apply Hi).
  - intros k k' hp q Hk Hk'. apply (pi_tokens _ _ _ _ Hi k k' hp q); auto.
  - intros d q m Hd Hq Hm. destruct (pi_counted _ _ _ _ Hi d q m Hd Hq Hm) as [ok []]. exists ok.
    split; eauto. intros hp k Hin Hk%Hlive. by eapply ct_quiet0.
  - destruct (pi_committed _ _ _ _ Hi) as (l & E1 & E2 & E3). exists l. split_and!; [done|done|].
    intros i m Hm. destruct (E3 i m Hm) as [Hd []]. split; [done|]. split; eauto.
Qed.

(** The ghost sets without the token [k]. *)
Definition use_call (k : token) (calls : gset Z) : gset Z :=
  match k with Call t => calls ∪ {[ t ]} | Retry _ => calls end.
Definition use_retry (k : token) (fired : gset nat) : gset nat :=
  match k with Call _ => fired | Retry i => fired ∪ {[ i ]} end.

Lemma used_live calls fired p k k' x y :
  live (use_call k calls) (use_retry k fired) p k' x y -> live calls fired p k' x y /\ k' <> k.
Proof.
  destruct k', k; cbn; intros [Hn Hs]; (split; [split; [set_solver|done]|]); try done; intros [= ->]; set_solver.
Qed.

Lemma use_call_more k calls : calls ⊆ use_call k calls.
Proof. destruct k; set_solver. Qed.
Lemma use_retry_more k fired : fired ⊆ use_retry k fired.
Proof. destruct k; set_solver. Qed.

Section Tokens.
Context (L : host_port -> mutation_header * list mutation_update -> Prop)
  (calls : gset Z) (fired : gset nat) (p : replica) (Hi : primary_inv L calls fired p)
  (k : token) (hp : host_port) (q : mutation_ptr) (Hk : live calls fired p k hp q).

Abbreviation calls' := (use_call k calls).
Abbreviation fired' := (use_retry k fired).

Lemma used_free k' : ~ live calls' fired' p k' hp q.
Proof using Hi Hk. intros [Hl Hne]%used_live. by destruct Hne; eapply pi_tokens. Qed.

Lemma used_inv : primary_inv L calls' fired' p.
Proof using Hi.
  eapply primary_weaken; [..|exact Hi]; [done|apply use_call_more|apply use_retry_more].
Qed.

(** The member that held the token was not counted. *)
Lemma used_counted m ok :
  counted L calls fired p q m ok -> counted L calls' fired' p q m ok /\ hp ∉ ok.
Proof using Hk.
  intros [C1 C2 C3 C4 C5]. split; [|intros Hin; by eapply C5]. split; try done.
  intros x k' Hin [Hl _]%used_live. by eapply C5.
Qed.

Lemma token_sent : hp ∈ members /\ exists m, objects p !! q = Some m /\ issued p q m.
Proof using Hi Hk.
  assert (exists t body, sends p t hp q body) as (t & body & Hs).
  { destruct k; destruct Hk as [_ Hs]; [by destruct Hs; eauto|by eapply pi_retries]. }
  destruct (pi_sends _ _ _ _ Hi _ _ _ _ Hs) as (_ & Hin & m & Hm & _ & His). eauto.
Qed.

(** An acknowledgement is counted. *)
Lemma primary_ack m m' :
  objects p !! q = Some m -> last_committed p < get_decree m -> L hp (shared m) ->
  shared m' = shared m -> left_secondary_ack_count m' = left_secondary_ack_count m - 1 ->
  primary_inv L calls' fired' (set_mu q m' p).
Proof using Hi Hk.
  intros Hm Hd Hl Hs Hleft. pose proof (framed_set_mu q m m' p Hm Hs) as Hf.
  destruct token_sent as [Hin (m0 & Hm0 & His)]. rewrite Hm in Hm0. injection Hm0 as <-.
  apply (primary_reframed L calls' fired' _ _ Hf); [|apply used_inv]. intros d x mx' Hdx Hw Hx'.
  destruct (framed_back _ _ Hf d x mx' (pi_wf _ _ _ _ Hi) Hw Hx') as (mx & Hx & Hsx).
  destruct (pi_counted _ _ _ _ Hi d x mx Hdx Hw Hx) as [ok Hok]. destruct (decide (x = q)) as [->|Hne].
  - cbn in Hx'. rewrite lookup_insert_eq in Hx'. injection Hx' as <-. rewrite Hm in Hx. injection Hx as <-.
    destruct (used_counted m ok Hok) as [[C1 C2 C3 C4 C5] Hn]. exists (hp :: ok). split.
    + by apply NoDup_cons.
    + intros y [->|Hy]%elem_of_cons; [done|by apply C2].
    + cbn. lia.
    + rewrite Hs. intros y [->|Hy]%elem_of_cons; [done|by apply C4].
    + intros y k' [->|Hy]%elem_of_cons; rewrite (framed_live _ _ _ _ Hf); [apply used_free|by apply C5].
  - cbn in Hx'. rewrite lookup_insert_ne in Hx' by done. rewrite Hx in Hx'. injection Hx' as <-.
    exists ok. destruct Hok as [C1 C2 C3 C4 C5]. split; try done.
    intros y k' Hy Hk'. apply (framed_live _ _ _ _ Hf), used_live in Hk' as [Hk' _]. by eapply C5.
Qed.

(** A prepare is retried later. *)
Lemma primary_retry timeout sig m :
  objects p !! q = Some m -> last_committed p < get_decree m ->
  primary_inv L calls' fired' (emit (DelayPrepare hp PS_SECONDARY q timeout sig) p).
Proof using Hi Hk.
  intros Hm Hd. pose proof used_inv as Hu. set (p' := emit _ p).
  destruct token_sent as [Hin (m0 & Hm0 & His)]. rewrite Hm in Hm0. injection Hm0 as <-.
  assert (forall t x y b, sends p' t x y b <-> sends p t x y b) as Hsends.
  { intros t x y b. unfold sends. cbn. setoid_rewrite elem_of_app. setoid_rewrite list_elem_of_singleton.
    split; intros (to & rc & Hx); exists to, rc; [by destruct Hx|by left]. }
  assert (forall i x y, retries p' i x y -> retries p i x y \/ (i = length (effects (owner p)) /\ x = hp /\ y = q)) as Hret.
  { intros i x y (to & sg & [Hx|[Hlen Hx]]%lookup_app_Some); [left; by exists to, sg|right].
    apply list_lookup_singleton_Some in Hx as [Hz Hx]. injection Hx as -> -> _ _. split; [lia|done]. }
  assert (forall k' x y, live calls' fired' p' k' x y -> live calls' fired' p k' x y \/
    (k' = Retry (length (effects (owner p))) /\ x = hp /\ y = q)) as Hlive.
  { intros [t|i] x y [Hn Hx]; cbn.
    - left. split; [done|]. by setoid_rewrite Hsends in Hx.
    - apply Hret in Hx as [Hx|(-> & -> & ->)]; [by left|by right]. }
  split; try (apply Hu).
  - apply (plist_wf_objects p); [done|done|eauto|apply Hi].
  - cbn. apply Forall_app. split; [apply Hu|]. by apply Forall_singleton.
  - intros t x y b Hs. apply Hsends in Hs.
    destruct (pi_sends _ _ _ _ Hi _ _ _ _ Hs) as (Ht & Hx & mx & H1 & H2 & []). split_and!; [done|done|].
    exists mx. split_and!; [done|done|]. by split.
  - intros t x y b t' x' y' b'. rewrite !Hsends. apply Hi.
  - intros t x y b x' y' b'. rewrite !Hsends. apply Hi.
  - intros i x y [Hr|(-> & -> & ->)]%Hret.
    + destruct (pi_retries _ _ _ _ Hi _ _ _ Hr) as (t & b & Hb). exists t, b. by apply Hsends.
    + assert (exists t body, sends p t hp q body) as (t & body & Hs).
      { destruct k; destruct Hk as [_ Hs]; [by destruct Hs; eauto|by eapply (pi_retries _ _ _ _ Hi)]. }
      exists t, body. by apply Hsends.
  - intros k1 k2 x y [H1|(-> & -> & ->)]%Hlive [H2|(-> & E2 & E3)]%Hlive; try done.
    + by eapply (pi_tokens _ _ _ _ Hu).
    + rewrite E2, E3 in H1. by destruct (used_free _ H1).
    + by destruct (used_free _ H2).
  - intros d x mx Hdx Hw Hx. destruct (pi_counted _ _ _ _ Hi d x mx Hdx Hw Hx) as [ok Hok]. exists ok.
    destruct (decide (x = q)) as [->|Hne].
    + destruct (used_counted mx ok Hok) as [[C1 C2 C3 C4 C5] Hn]. split; try done.
      intros y k' Hy [Hl|(_ & -> & _)]%Hlive; [by eapply C5|done].
    + destruct Hok as [C1 C2 C3 C4 C5]. split; try done.
      intros y k' Hy [[Hl _]%used_live|(_ & _ & ->)]%Hlive; [by eapply C5|done].
  - destruct (pi_committed _ _ _ _ Hi) as (l & E1 & E2 & E3). exists l. split_and!; [done|done|].
    intros i mx Hmx. destruct (E3 i mx Hmx) as [Hdx []]. split; [done|]. split; [done|].
    intros t x y b. rewrite Hsends. apply ag_sent0.
Qed.

End Tokens.

Section Replies.
Context (Hmembers : NoDup members) (Hcount : Z.of_nat (length members) < 2 ^ 15)
  (L : host_port -> mutation_header * list mutation_update -> Prop) (calls : gset Z) (fired : gset nat).

(** The reply to an RPC uses up its token; a positive one counts. *)
Lemma primary_prepare_reply e fuel t q node err resp body p p' :
  on_prepare_reply e (execute_mutation e fuel) q PS_SECONDARY node err resp p = Ret p' ->
  queue_waits p -> primary_inv L calls fired p -> t ∉ calls -> sends p t node q body ->
  (err = ERR_OK -> ack_err resp = ERR_OK -> L node (shared_body body)) ->
  primary_inv L (calls ∪ {[ t ]}) fired p'.
Proof using Hmembers Hcount.
  intros E Hq Hi Ht Hs HL.
  assert (live calls fired p (Call t) node q) as Hk by (split; [done|eauto]).
  pose proof (used_inv L calls fired p Hi (Call t)) as Hu. cbn in Hu.
  destruct (pi_sends _ _ _ _ Hi _ _ _ _ Hs) as (_ & _ & m & Hm & Hsh & His).
  unfold on_prepare_reply in E. rewrite Hm in E. cbn [deref obind] in E.
  destruct (negb (has_status p PS_PRIMARY) || _ || _) eqn:Hg; [by injection E as <-|].
  apply orb_false_iff in Hg as [[Hst _]%orb_false_iff Hlt]. apply Z.leb_gt in Hlt.
  apply negb_false_iff, bool_decide_eq_true in Hst. apply CHECK_Ret_inv in E as [_ E]. cbv zeta in E.
  set (rerr := if is_ok err then ack_err resp else err) in E. destruct (is_ok rerr) eqn:Hok.
  - apply CHECK_Ret_inv in E as [_ E]. apply CHECK_Ret_inv in E as [_ E].
    apply obind_Ret_inv in E as (found & _ & E). apply CHECK_Ret_inv in E as [_ E].
    apply CHECK_Ret_inv in E as [Hleft E]. unfold decrease_left_secondary_ack_count in E.
    set (m' := set_left_secondary_ack_count _ m) in E. set (p1 := set_mu q m' p) in E.
    assert (primary_inv L (calls ∪ {[ t ]}) fired p1) as Hi1.
    { destruct (pi_counted _ _ _ _ Hi (get_decree m) q m Hlt (is_stored _ _ _ His Hlt) Hm) as [ok Hc].
      pose proof (ct_left _ _ _ _ _ _ _ Hc) as Hl.
      apply (primary_ack L calls fired p Hi (Call t) node q Hk m m' Hm Hlt); [|done|].
      - rewrite Hsh. destruct (is_ok err) eqn:He.
        + apply HL; [by apply bool_decide_eq_true in He|by apply bool_decide_eq_true in Hok].
        + unfold rerr in Hok. congruence.
      - unfold m'. cbn. rewrite (uwrap_small 15 (left_secondary_ack_count m - 1)), uwrap_small; lia. }
    destruct (_ =? 0); [|by injection E as <-]. by eapply primary_commits.
  - unfold prepare_failed in E. cbv zeta in E. destruct (_ && _).
    + injection E as <-. eapply (primary_retry L calls fired p Hi (Call t) node q Hk); done.
    + apply obind_Ret_inv in E as (p1 & E1 & [= <-]). eapply primary_quiet; [|exact Hu].
      eapply quiet_handle_remote_failure; [|exact E1].
      pose proof (pi_members _ _ _ _ Hi Hst) as Hmem. unfold members_of in Hmem. by injection Hmem.
Qed.

(** A retry that fires sends the prepare again. *)
Lemma primary_delay_prepare i q node timeout sig timeout' sig' p p' :
  delay_prepare node PS_SECONDARY q timeout sig p = Ret p' ->
  primary_inv L calls fired p -> i ∉ fired ->
  effects (owner p) !! i = Some (DelayPrepare node PS_SECONDARY q timeout' sig') ->
  primary_inv L calls (fired ∪ {[ i ]}) p'.
Proof.
  intros E Hi Hn Hr.
  assert (live calls fired p (Retry i) node q) as Hk by (split; [done|by exists timeout', sig']).
  pose proof (used_inv L calls fired p Hi (Retry i)) as Hu. cbn in Hu.
  destruct (token_sent L calls fired p Hi _ _ _ Hk) as [Hin (m & Hm & His)].
  unfold delay_prepare in E. rewrite Hm in E. cbn [deref obind] in E.
  destruct (_ && _) eqn:Hg; [|by injection E as <-]. apply andb_true_iff in Hg as [_ Hlt]. apply Z.gtb_gt in Hlt.
  assert (last_committed p < get_decree m) as Hlt' by lia.
  destruct (send_prepare_sent _ _ _ _ _ _ _ E) as (m0 & Hm0 & Hs). rewrite Hm in Hm0. injection Hm0 as <-.
  destruct (pi_counted _ _ _ _ Hi (get_decree m) q m Hlt' (is_stored _ _ _ His Hlt') Hm) as [ok Hc].
  destruct (used_counted L calls fired p _ _ _ Hk m ok Hc) as [Hc' Hno].
  eapply (send_inv L calls (fired ∪ {[ i ]}) Hmembers p p' node q m); try done.
  intros k. apply (used_free L calls fired p Hi (Retry i) node q Hk).
Qed.

End Replies.
End Primary.

End PrimaryInv.
