(* ===== verification/SecondaryInv.v ===== *)
(** * A secondary of a group within one ballot

    What the state of a secondary says about the mutations it was sent, the ones in its
    log and the ones it has committed ([secondary_inv]), and that the handlers a secondary
    runs within the ballot keep it. *)
From S2P Require Import Prelude Mutation MutationCache PrepareList MutationQueue ReplicaContext.
From S2P Require Import Throttling RocksdbWrapper Replica ReplicaTheory ReplicaQuiet PrimaryInv.

Module SecondaryInv.
Import Mutation MutationCache PrepareList MutationQueue ReplicaContext Throttling RocksdbWrapper Replica
  ReplicaTheory ReplicaQuiet PrimaryInv.

Section Secondary.
Context {St : Type} `{StorageApp St}.
Abbreviation replica := (plist (replica_state St)).
Implicit Types (p : replica) (e : env).

(** The ballot, the decree and the history the group starts from. *)
Context (b0 d0 : Z) (h0 : list mutation).

(** The prepares sent to this member so far, by RPC; the committed point and the
    capacity of the list of the primary. *)
Context (V : Z -> prepare_body -> Prop) (lcP mcP : Z).

Record prepares_ok : Prop := PreparesOk {
  po_unique t b t' b' : V t b -> V t' b' -> body_decree b = body_decree b' -> shared_body b = shared_body b';
  po_ballot t b : V t b -> ballot (pb_header b) = b0;
  po_decree t b : V t b -> d0 < body_decree b <= lcP + mcP;
  po_point t b : V t b -> last_committed_decree (pb_header b) <= lcP;
  po_before t b : V t b -> last_committed_decree (pb_header b) < body_decree b;
  po_window t b : V t b -> body_decree b - last_committed_decree (pb_header b) <= mcP;
  po_capacity : 0 < mcP < 2 ^ 30
}.

(** A mutation this member was sent. *)
Definition known (m : mutation) : Prop := exists t b, V t b /\ shared m = shared_body b.

Definition logged_in p (c : mutation_header * list mutation_update) : Prop :=
  exists q m, objects p !! q = Some m /\ is_logged m = true /\ shared m = c.

Definition appended_to_log p (q : mutation_ptr) : Prop := AppendLog q true ∈ effects (owner p).

Record secondary_inv (p : replica) : Prop := SecondaryInv_ {
  si_wf : plist_wf p;
  si_ballot : get_ballot p = b0;
  si_status : status p = PS_SECONDARY \/ status p = PS_INACTIVE \/ status p = PS_ERROR;
  si_known q m : objects p !! q = Some m -> known m;
  si_requests q m t : objects p !! q = Some m -> t ∈ prepare_requests m ->
    exists b, V t b /\ body_decree b = get_decree m;
  si_end q m : objects p !! q = Some m -> is_logged m = true \/ appended_to_log p q ->
    get_decree m <= end_decree (cache p);
  si_appended q : appended_to_log p q -> is_Some (objects p !! q);
  si_lag : end_decree (cache p) - mcP <= last_committed p;
  si_point : d0 <= last_committed p <= lcP;
  si_replies t resp : ReplyPrepare t resp ∈ effects (owner p) -> ack_err resp = ERR_OK ->
    exists b, V t b /\ logged_in p (shared_body b);
  si_logged d : d0 < d <= last_committed p ->
    exists q m, objects p !! q = Some m /\ get_decree m = d /\ is_logged m = true;
  si_committed : exists l, committed p = h0 ++ l /\ last_committed p = d0 + Z.of_nat (length l) /\
    forall i m, l !! i = Some m -> get_decree m = d0 + 1 + Z.of_nat i /\ known m
}.

Context (HV : prepares_ok).

Lemma shared_body_decree m b : shared m = shared_body b ->
  get_decree m = body_decree b /\ Mutation.get_ballot m = ballot (pb_header b) /\
  last_committed_decree (header m) = last_committed_decree (pb_header b).
Proof.
  unfold shared, shared_body, shared_header, get_decree, body_decree, Mutation.get_ballot.
  intros E. injection E as E1 E2 E3 E4 E5 E6. done.
Qed.

(** Two known mutations of one decree are the same. *)
Lemma known_unique m t b : known m -> V t b -> get_decree m = body_decree b -> shared m = shared_body b.
Proof using HV.
  intros (t' & b' & Hb' & Hs) Hb Hd. rewrite Hs. eapply (po_unique HV); [done..|].
  destruct (shared_body_decree _ _ Hs) as [<- _]. done.
Qed.

(** ** Steps that the protocol does not see *)

Lemma quiet_back p p' q m' :
  quiet p p' -> objects p' !! q = Some m' -> exists m, objects p !! q = Some m /\ same_vote m m'.
Proof.
  intros Hq Hm'. assert (q ∈ dom (objects p)) as [m Hm]%elem_of_dom.
  { rewrite <- (q_dom _ _ Hq). by eapply elem_of_dom_2. }
  destruct (q_objects _ _ Hq q m Hm) as (m1 & Hm1 & Hv). rewrite Hm1 in Hm'. injection Hm' as <-. eauto.
Qed.

Lemma same_vote_known m m' : same_vote m m' -> known m -> known m'.
Proof. intros Hv (t & b & Hb & Hs). exists t, b. by rewrite (sv_shared _ _ Hv). Qed.

Lemma quiet_logged_in p p' c : quiet p p' -> logged_in p c -> logged_in p' c.
Proof.
  intros Hq (q & m & Hm & Hl & Hs). destruct (q_objects _ _ Hq q m Hm) as (m' & Hm' & [V1 V2 V3 V4]).
  exists q, m'. split_and!; [done|congruence|congruence].
Qed.

Lemma quiet_effect p p' ev :
  quiet p p' -> significant ev = true -> ev ∈ effects (owner p') <-> ev ∈ effects (owner p).
Proof.
  intros Hq Hev. destruct (q_effects _ _ Hq) as (es & -> & F). rewrite elem_of_app. split; [|by left].
  intros [|Hin]; [done|]. apply (proj1 (Forall_forall _ _) F) in Hin. congruence.
Qed.

Lemma secondary_quiet p p' : quiet p p' -> secondary_inv p -> secondary_inv p'.
Proof.
  intros Hq Hi. pose proof (q_cache _ _ Hq) as Ec. pose proof (q_point _ _ Hq) as Ep. split.
  - apply (plist_wf_objects p); [done|done| |apply Hi]. intros q m Hm.
    destruct (q_objects _ _ Hq q m Hm) as (m' & Hm' & [V1 _ _ _]). exists m'.
    split; [done|]. by apply shared_decree in V1 as [-> _].
  - rewrite (q_ballot _ _ Hq). apply Hi.
  - destruct (q_status _ _ Hq) as [[-> _]|?]; [apply Hi|by right].
  - intros q m' Hm'. destruct (quiet_back p p' q m' Hq Hm') as (m & Hm & Hv).
    eapply same_vote_known; [done|by eapply si_known].
  - intros q m' t Hm' Ht. destruct (quiet_back p p' q m' Hq Hm') as (m & Hm & [V1 V2 V3 V4]).
    rewrite V4 in Ht. destruct (si_requests _ Hi q m t Hm Ht) as (b & Hb & Hd). exists b.
    split; [done|]. by apply shared_decree in V1 as [-> _].
  - intros q m' Hm' Hl. destruct (quiet_back p p' q m' Hq Hm') as (m & Hm & [V1 V2 V3 V4]).
    rewrite Ec. apply shared_decree in V1 as [-> _]. apply (si_end _ Hi q m Hm).
    unfold appended_to_log in *. rewrite V2, (quiet_effect p p') in Hl by done. done.
  - intros q. unfold appended_to_log. rewrite (quiet_effect p p') by done. intros Ha.
    destruct (si_appended _ Hi q Ha) as [m Hm]. destruct (q_objects _ _ Hq q m Hm) as (m' & -> & _). done.
  - rewrite Ec, Ep. apply Hi.
  - rewrite Ep. apply Hi.
  - intros t resp. rewrite (quiet_effect p p') by done. intros Hr Hok.
    destruct (si_replies _ Hi t resp Hr Hok) as (b & Hb & Hl). exists b. split; [done|].
    by eapply quiet_logged_in.
  - rewrite Ep. intros d (q & m & Hm & Hd & Hl)%(si_logged _ Hi).
    destruct (q_objects _ _ Hq q m Hm) as (m' & Hm' & [V1 V2 V3 V4]). exists q, m'.
    apply shared_decree in V1 as [-> _]. split_and!; [done|done|congruence].
  - rewrite (q_committed _ _ Hq), Ep. apply Hi.
Qed.

(** ** Single steps *)

(** One mutation is committed. *)
Lemma secondary_bump p q m :
  secondary_inv p -> win (cache p) (last_committed p + 1) = Some q -> objects p !! q = Some m ->
  is_logged m = true -> last_committed p + 1 <= lcP ->
  secondary_inv (PList (cache p) (last_committed p + 1) (objects p) (committed p ++ [m]) (owner p)).
Proof.
  intros Hi Hq Hm Hl Hle. assert (get_decree m = last_committed p + 1) as Hd.
  { destruct (pwf_heap _ (si_wf _ Hi) _ _ Hq) as (m1 & Hm1 & Hd1). congruence. }
  split; try (apply Hi); cbn.
  - apply (commit_point_wf p q); [apply Hi|done].
  - pose proof (si_lag _ Hi). lia.
  - pose proof (si_point _ Hi). lia.
  - intros d Hd'. destruct (decide (d = last_committed p + 1)) as [->|Hne]; [by exists q, m|].
    apply Hi. lia.
  - destruct (si_committed _ Hi) as (l & E1 & E2 & E3). exists (l ++ [m]).
    split_and!; [by rewrite E1, <- app_assoc|rewrite length_app; cbn; lia|].
    intros i m' [Hi'|[Hlen Hm']]%lookup_app_Some; [by apply E3|].
    apply list_lookup_singleton_Some in Hm' as [Hz <-]. split; [lia|]. by eapply si_known.
Qed.

(** A mutation changes, but keeps its identity. *)
Lemma secondary_set_mu q m m' p :
  objects p !! q = Some m -> shared m' = shared m -> (is_logged m = true -> is_logged m' = true) ->
  (is_logged m' = true -> is_logged m = true \/ appended_to_log p q) ->
  (forall t, t ∈ prepare_requests m' -> exists b, V t b /\ body_decree b = get_decree m) ->
  secondary_inv p -> secondary_inv (set_mu q m' p).
Proof.
  intros Hm Hs Hl1 Hl2 Hr Hi. destruct (shared_decree _ _ Hs) as (Hd & _).
  assert (forall x mx, objects p !! x = Some mx -> exists mx', objects (set_mu q m' p) !! x = Some mx' /\
    shared mx' = shared mx /\ (is_logged mx = true -> is_logged mx' = true)) as Hfwd.
  { intros x mx Hx. cbn. destruct (decide (q = x)) as [<-|Hne].
    - rewrite lookup_insert_eq. rewrite Hm in Hx. injection Hx as <-. eauto.
    - rewrite lookup_insert_ne by done. eauto. }
  split; try (apply Hi); cbn.
  - apply (plist_wf_objects p); [done|done| |apply Hi]. intros x mx Hx.
    destruct (Hfwd x mx Hx) as (mx' & Hx' & Hsx & _). exists mx'. split; [done|].
    by apply shared_decree in Hsx as [-> _].
  - intros x mx [[<- <-]|[_ Hx]]%lookup_insert_Some; [|by eapply si_known].
    destruct (si_known _ Hi _ _ Hm) as (t & b & Hb & Hsb). exists t, b. split; [done|congruence].
  - intros x mx t [[<- <-]|[_ Hx]]%lookup_insert_Some Ht; [rewrite Hd; auto|by eapply si_requests].
  - intros x mx [[<- <-]|[_ Hx]]%lookup_insert_Some Hlog; [|by eapply (si_end _ Hi)].
    rewrite Hd. apply (si_end _ Hi q m Hm). destruct Hlog; auto.
  - intros x Ha. destruct (si_appended _ Hi x Ha) as [mx Hx].
    destruct (Hfwd x mx Hx) as (mx' & Hx' & _). cbn in Hx'. by rewrite Hx'.
  - intros t resp Hin Hok. destruct (si_replies _ Hi t resp Hin Hok) as (b & Hb & x & mx & Hx & Hlx & Hsx).
    exists b. split; [done|]. destruct (Hfwd x mx Hx) as (mx' & Hx' & Hs' & Hl').
    exists x, mx'. split_and!; [done|auto|congruence].
  - intros d (x & mx & Hx & Hdx & Hlx)%(si_logged _ Hi).
    destruct (Hfwd x mx Hx) as (mx' & Hx' & Hs' & Hl'). exists x, mx'.
    destruct (shared_decree _ _ Hs') as (-> & _). split_and!; [done|done|auto].
Qed.

(** A mutation received, not stored yet. *)
Lemma secondary_alloc m t b q p p' :
  alloc m p = (q, p') -> V t b -> shared m = shared_body b -> is_logged m = false ->
  prepare_requests m = [t] -> secondary_inv p -> secondary_inv p'.
Proof.
  intros [-> Hn]%alloc_spec Hb Hs Hl Hr Hi.
  assert (forall x mx, objects p !! x = Some mx -> objects (set_mu q m p) !! x = Some mx) as Hfwd.
  { intros x mx Hx. cbn. rewrite lookup_insert_ne; [done|congruence]. }
  split; try (apply Hi); cbn.
  - apply (plist_wf_objects p); [done|done| |apply Hi]. eauto.
  - intros x mx [[<- <-]|[_ Hx]]%lookup_insert_Some; [by exists t, b|by eapply si_known].
  - intros x mx t' [[<- <-]|[_ Hx]]%lookup_insert_Some Ht; [|by eapply si_requests].
    rewrite Hr in Ht. apply list_elem_of_singleton in Ht as ->. exists b. split; [done|].
    by apply shared_body_decree in Hs as [-> _].
  - intros x mx [[<- <-]|[_ Hx]]%lookup_insert_Some Hlog; [|by eapply (si_end _ Hi)].
    destruct Hlog as [Hlog|Ha]; [congruence|]. destruct (si_appended _ Hi q Ha) as [mx Hx]. congruence.
  - intros x Ha. destruct (si_appended _ Hi x Ha) as [mx Hx]. apply Hfwd in Hx. cbn in Hx. by rewrite Hx.
  - intros t' resp Hin Hok. destruct (si_replies _ Hi t' resp Hin Hok) as (b' & Hb' & x & mx & Hx & Hlx & Hsx).
    exists b'. split; [done|]. exists x, mx. split_and!; [by apply Hfwd|done|done].
  - intros d (x & mx & Hx & Hdx & Hlx)%(si_logged _ Hi). exists x, mx. split_and!; [by apply Hfwd|done|done].
Qed.

(** It is stored. *)
Lemma secondary_put p p' q m :
  secondary_inv p -> put_result p p' q (get_decree m) -> get_decree m - mcP <= last_committed p ->
  secondary_inv p'.
Proof.
  intros Hi [P1 P2 P3 P4 P5 P6] Hlag. rewrite P1 in *. set (c := cache p') in *. clearbody c. clear P1.
  split; try (apply Hi); cbn in *; [done| |].
  - intros x mx Hx Hl. pose proof (si_end _ Hi x mx Hx Hl). lia.
  - pose proof (si_lag _ Hi). lia.
Qed.

(** A message is sent, or the log is asked. *)
Lemma secondary_emit ev p :
  secondary_inv p ->
  match ev with
  | AppendLog q true => exists m, objects p !! q = Some m /\ get_decree m <= end_decree (cache p)
  | ReplyPrepare t resp => ack_err resp = ERR_OK -> exists b, V t b /\ logged_in p (shared_body b)
  | _ => True
  end -> secondary_inv (emit ev p).
Proof.
  intros Hi Hev. split; try (apply Hi); cbn.
  - apply (plist_wf_objects p); [done|done|eauto|apply Hi].
  - intros x mx Hx [Hl|[Ha|Ha%list_elem_of_singleton]%elem_of_app].
    + by eapply (si_end _ Hi); [|left].
    + by eapply (si_end _ Hi); [|right].
    + rewrite <- Ha in Hev. destruct Hev as (m & Hm & Hd). congruence.
  - intros x [Ha|Ha%list_elem_of_singleton]%elem_of_app; [by apply (si_appended _ Hi)|].
    rewrite <- Ha in Hev. destruct Hev as (m & Hm & _). by rewrite Hm.
  - intros t resp [Hr|Hr%list_elem_of_singleton]%elem_of_app; [by apply (si_replies _ Hi)|].
    rewrite <- Hr in Hev. done.
Qed.

(** ** Committing on a secondary *)

Record kept_list (p p' : replica) : Prop := KeptList {
  kl_cache : cache p' = cache p;
  kl_objects q m : objects p !! q = Some m -> exists m', objects p' !! q = Some m' /\ same_vote m m'
}.

Lemma kept_list_trans p1 p2 p3 : kept_list p1 p2 -> kept_list p2 p3 -> kept_list p1 p3.
Proof.
  intros [A1 A2] [B1 B2]. split; [congruence|]. intros q m (m2 & H2 & V2)%A2.
  destruct (B2 q m2 H2) as (m3 & H3 & V3). exists m3. eauto using same_vote_trans.
Qed.

Lemma quiet_kept_list p p' : quiet p p' -> kept_list p p'.
Proof. intros Hq. split; apply Hq. Qed.

Lemma kept_list_refl p : kept_list p p.
Proof. apply quiet_kept_list, quiet_refl. Qed.

Lemma not_leader p : secondary_inv p -> status p <> PS_PRIMARY /\ status p <> PS_POTENTIAL_SECONDARY.
Proof. intros Hi. by destruct (si_status _ Hi) as [->|[->| ->]]. Qed.

Lemma secondary_execute e fuel q p p' :
  execute_mutation e fuel q p = Ret p' -> secondary_inv p -> quiet p p'.
Proof.
  destruct fuel as [|fuel]; cbn [execute_mutation]; [done|]. intros E Hi.
  apply not_leader in Hi as [H1 H2]. by eapply quiet_execute_body.
Qed.

Lemma secondary_commit_hard e fuel n bt p p' :
  commit_hard (execute_mutation e fuel) n (last_committed p + 1) bt p = Ret p' ->
  secondary_inv p -> last_committed p + Z.of_nat n <= lcP ->
  secondary_inv p' /\ kept_list p p' /\ last_committed p' = last_committed p + Z.of_nat n.
Proof.
  revert bt p. induction n as [|n IH]; intros bt p E Hi Hle; cbn [commit_hard] in E.
  { injection E as <-. split_and!; [done|apply kept_list_refl|lia]. }
  rewrite get_mutation_win in E by apply Hi. cbn [obind] in E.
  destruct (win (cache p) (last_committed p + 1)) as [q|] eqn:Hq; [|done].
  apply obind_Ret_inv in E as (m & Hm%deref_Ret_inv & E). apply CHECK_Ret_inv in E as [Hl E].
  apply CHECK_Ret_inv in E as [_ E]. apply obind_Ret_inv in E as (p1 & E1 & E).
  unfold commit_one in E1. pose proof (secondary_bump p q m Hi Hq Hm Hl ltac:(lia)) as Hb.
  pose proof (secondary_execute _ _ _ _ _ E1 Hb) as Hx. pose proof (q_point _ _ Hx) as Ep. cbn in Ep.
  rewrite <- Ep in E. apply IH in E as (Hi' & Hk & El); [|by eapply secondary_quiet|lia].
  split_and!; [done| |lia]. eapply kept_list_trans; [|exact Hk].
  apply quiet_kept_list in Hx as [K1 K2]. by split.
Qed.

Lemma secondary_commit e fuel d p p' :
  commit (execute_mutation e fuel) d COMMIT_TO_DECREE_HARD p = Ret p' -> secondary_inv p -> d <= lcP ->
  secondary_inv p' /\ kept_list p p' /\ last_committed p' = Z.max d (last_committed p).
Proof.
  unfold commit. intros E Hi Hd. destruct (Z.leb_spec d (last_committed p)).
  - injection E as <-. split_and!; [done|apply kept_list_refl|lia].
  - apply secondary_commit_hard in E as (H1 & H2 & H3); [|done|lia]. split_and!; [done..|lia].
Qed.

(** ** Acknowledging a prepare *)

Definition may_ack p (err : error_code) (ts : list Z) : Prop :=
  forall t, t ∈ ts -> err = ERR_OK -> exists b, V t b /\ logged_in p (shared_body b).

Lemma secondary_reply_all resp ts p :
  may_ack p (ack_err resp) ts -> secondary_inv p ->
  secondary_inv (fold_left (fun p t => emit (ReplyPrepare t resp) p) ts p) /\
  objects (fold_left (fun p t => emit (ReplyPrepare t resp) p) ts p) = objects p.
Proof.
  revert p. induction ts as [|t ts IH]; intros p Ha Hi; [done|]. cbn [fold_left].
  destruct (IH (emit (ReplyPrepare t resp) p)) as [Hi' Ho]; [| |by split].
  - intros t' Ht'. apply Ha. by right.
  - apply secondary_emit; [done|]. apply Ha. by left.
Qed.

Lemma secondary_ack err m p m' p' :
  ack_prepare_message err m p = Ret (m', p') -> may_ack p err (prepare_requests m) -> secondary_inv p ->
  secondary_inv p' /\ objects p' = objects p /\ same_vote m m'.
Proof.
  unfold ack_prepare_message. intros E Ha Hi. apply CHECK_Ret_inv in E as [_ E]. cbv zeta in E.
  set (resp := PrepareAck _ _ _ _ _ _) in E. destruct (secondary_reply_all resp _ p Ha Hi) as [Hi' Ho].
  destruct (is_ok err); [|destruct (error_acked m)]; injection E as <- <-.
  - destruct (is_child_acked m); auto using same_vote_refl.
  - auto using same_vote_refl.
  - split_and!; [done|done|]. destruct (sync_to_child m); [by split|apply same_vote_refl].
Qed.

Lemma secondary_ack_new err m p p' :
  ack_prepare_new err m p = Ret p' -> may_ack p err (prepare_requests m) -> secondary_inv p -> secondary_inv p'.
Proof.
  intros E. unfold ack_prepare_new in E. apply obind_Ret_inv in E as ([m' p1] & E & [= <-]).
  intros Ha Hi. by eapply secondary_ack.
Qed.

Lemma secondary_ack_ptr err q m p p' :
  ack_prepare_ptr err q p = Ret p' -> objects p !! q = Some m -> may_ack p err (prepare_requests m) ->
  secondary_inv p -> secondary_inv p' /\ exists m', objects p' !! q = Some m' /\ same_vote m m'.
Proof.
  intros E Hm Ha Hi. unfold ack_prepare_ptr in E. rewrite Hm in E. cbn [deref obind] in E.
  apply obind_Ret_inv in E as ([m' p1] & E & [= <-]).
  destruct (secondary_ack _ _ _ _ _ E Ha Hi) as (Hi1 & Ho & Hv). rewrite <- Ho in Hm. split.
  - eapply secondary_quiet; [|exact Hi1]. by apply (quiet_set_mu q m).
  - exists m'. split; [apply lookup_insert_eq|done].
Qed.

(** ** Storing what was prepared *)

(** A mutation made of the prepare [b] of call [t]. *)
Record made_of (t : Z) (b : prepare_body) (m : mutation) : Prop := MadeOf {
  mo_sent : V t b;
  mo_shared : shared m = shared_body b;
  mo_logged : is_logged m = false;
  mo_requests : prepare_requests m = [t]
}.

Lemma secondary_prepare e fuel t b q m pop p err p' :
  prepare (execute_mutation e fuel) q PS_SECONDARY pop true p = Ret (err, p') ->
  objects p !! q = Some m -> made_of t b m -> lcP <= end_decree (cache p) -> secondary_inv p ->
  secondary_inv p' /\ exists m', objects p' !! q = Some m' /\ same_vote m m' /\
    get_decree m' <= end_decree (cache p').
Proof using HV.
  intros E Hm [Hb Hs _ _] Hend Hi. destruct (shared_body_decree _ _ Hs) as (Hd & _ & Hlc).
  unfold prepare in E. rewrite Hm in E. cbn [deref obind] in E. apply CHECK_Ret_inv in E as [Hgt E].
  apply obind_Ret_inv in E as (p2 & E2 & E).
  pose proof (po_point HV _ _ Hb). pose proof (po_before HV _ _ Hb). pose proof (po_window HV _ _ Hb).
  pose proof (po_decree HV _ _ Hb). pose proof (po_capacity HV).
  apply secondary_commit in E2 as (Hi2 & [K1 K2] & El2); [|done|lia].
  destruct (K2 q m Hm) as (m2 & Hm2 & Hv2). pose proof (proj1 (shared_decree _ _ (sv_shared _ _ Hv2))) as Hd2.
  apply obind_Ret_inv in E as (p2' & Epop & E). unfold put_or_die in E.
  apply obind_Ret_inv in E as ([err' p3] & Eput & E). apply CHECK_Ret_inv in E as [->%bool_decide_eq_true [= <- <-]].
  pose proof (pwf_cache _ (si_wf _ Hi2)) as Hcw. pose proof (wf_max _ Hcw). pose proof (wf_window _ Hcw).
  pose proof (wf_interval _ Hcw). pose proof (si_lag _ Hi2). rewrite <- K1 in Hend.
  destruct (pop_put_result p2 q m2 pop ERR_OK p3) as [(? & _)|[_ Hput]]; [apply Hi2|done|lia|lia|lia| |done|].
  { rewrite Hd2, Epop. done. }
  split; [eapply (secondary_put p2 p3 q m2); [done|done|lia]|]. exists m2.
  rewrite (pr_end _ _ _ _ Hput). split_and!; [|done|lia]. rewrite (pr_state _ _ _ _ Hput). done.
Qed.

Lemma secondary_store e fuel t b m pop p p' :
  store_prepared e (execute_mutation e fuel) m pop p = Ret p' -> made_of t b m ->
  status p = PS_SECONDARY -> lcP <= end_decree (cache p) -> secondary_inv p -> secondary_inv p'.
Proof using HV.
  intros E Hmo Hst Hend Hi. unfold store_prepared in E. destruct (alloc m p) as [q p1] eqn:Ea.
  assert (secondary_inv p1) as Hi1 by (destruct Hmo; by eapply secondary_alloc).
  apply alloc_spec in Ea as [-> _]. assert (status (set_mu q m p) = PS_SECONDARY) as Hst1 by done.
  rewrite Hst1 in E. apply obind_Ret_inv in E as ([err p2] & E2 & E).
  eapply secondary_prepare in E2 as (Hi2 & m2 & Hm2 & Hv2 & Hd2); [|apply lookup_insert_eq|exact Hmo|exact Hend|exact Hi1].
  apply CHECK_Ret_inv in E as [_ E]. rewrite Hm2 in E. cbn [deref obind] in E.
  destruct (_ || _).
  - apply CHECK_Ret_inv in E as [_ E]. apply obind_Ret_inv in E as (p3 & E3 & E).
    assert (quiet p2 p3) as Hq.
    { destruct (is_splitting p2); [by eapply quiet_copy_mutation|injection E3 as <-; apply quiet_refl]. }
    apply obind_Ret_inv in E as (m3 & Hm3%deref_Ret_inv & E). apply CHECK_Ret_inv in E as [_ [= <-]].
    destruct (quiet_back _ _ _ _ Hq Hm3) as (m2' & Hm2' & Hv3). rewrite Hm2 in Hm2'. injection Hm2' as <-.
    apply secondary_emit.
    + eapply secondary_quiet; [|eapply secondary_quiet; [exact Hq|exact Hi2]].
      by apply (quiet_set_mu q m3).
    + exists (set_log_task m3). split; [apply lookup_insert_eq|]. cbn. rewrite (q_cache _ _ Hq).
      change (get_decree (set_log_task m3)) with (get_decree m3).
      by rewrite (proj1 (shared_decree _ _ (sv_shared _ _ Hv3))).
  - eapply (secondary_ack_ptr _ q m2) in E as [Hi' _]; [done|done| |done]. by intros t' _.
Qed.

Lemma may_ack_new p t b m d :
  made_of t b m -> d = get_decree m ->
  (exists q o, objects p !! q = Some o /\ get_decree o = d /\ is_logged o = true) -> secondary_inv p ->
  may_ack p ERR_OK (prepare_requests m).
Proof using HV.
  intros [Hb Hs _ Hr] -> (q & o & Ho & Hd & Hl) Hi t' Ht' _. rewrite Hr in Ht'.
  apply list_elem_of_singleton in Ht' as ->. exists b. split; [done|]. exists q, o. split_and!; [done..|].
  destruct (shared_body_decree _ _ Hs) as (Hd' & _).
  eapply known_unique; [by eapply si_known|done|congruence].
Qed.

Lemma secondary_real_prepare e fuel t b m pop p p' :
  real_prepare e (execute_mutation e fuel) t m pop p = Ret p' -> made_of t b m ->
  status p = PS_SECONDARY -> lcP <= end_decree (cache p) -> secondary_inv p -> secondary_inv p'.
Proof using HV.
  unfold real_prepare. cbv zeta. intros E Hmo Hst Hend Hi.
  pose proof (quiet_ts_try_update (u64 (timestamp (header m))) p) as Hq. revert E Hq.
  set (p1 := ts_try_update _ p). intros E Hq. assert (secondary_inv p1) as Hi1 by (by eapply secondary_quiet).
  assert (status p1 = PS_SECONDARY) as Hst1.
  { unfold p1, ts_try_update, upd. cbn. by destruct (_ >? _). }
  rewrite <- (q_cache _ _ Hq) in Hend. clearbody p1.
  assert (store_prepared e (execute_mutation e fuel) m pop p1 = Ret p' -> secondary_inv p') as Hstore
    by (intros; by eapply secondary_store).
  rewrite get_mutation_win in E by apply Hi1. cbn [obind] in E.
  destruct (win (cache p1) (get_decree m)) as [q2|] eqn:Hw; [|auto].
  destruct (pwf_heap _ (si_wf _ Hi1) _ _ Hw) as (o & Ho & Hd). rewrite Ho in E. cbn [deref obind] in E.
  destruct (_ =? _); [|auto]. destruct (is_logged o) eqn:Hl.
  - eapply secondary_ack_new; [exact E| |done]. eapply may_ack_new; [done|done|by exists q2, o|done].
  - injection E as <-. apply (secondary_set_mu q2 o); [done|done|done|by left| |done].
    intros t' [Ht'|Ht'%list_elem_of_singleton]%elem_of_app; [by eapply si_requests|]. subst t'.
    destruct Hmo as [Hb Hs _ _]. exists b. split; [done|]. destruct (shared_body_decree _ _ Hs). congruence.
Qed.

(** A prepare of the primary of the ballot. *)
Lemma secondary_on_prepare e fuel t rc b p p' :
  on_prepare e (execute_mutation e fuel) t rc b p = Ret p' -> V t b ->
  lcP <= end_decree (cache p) -> secondary_inv p -> secondary_inv p'.
Proof using HV.
  unfold on_prepare. cbv zeta. intros E Hb Hend Hi. set (m := set_is_sync_to_child _ _) in E.
  assert (made_of t b m) as Hmo by (by split). assert (Mutation.get_ballot m = ballot (pb_header b)) as Hmb by done.
  rewrite (po_ballot HV _ _ Hb) in Hmb. clearbody m.
  apply CHECK_Ret_inv in E as [_ E]. apply CHECK_Ret_inv in E as [Hrc E]. cbn in Hrc.
  rewrite (si_ballot _ Hi), Hmb in E. rewrite Z.ltb_irrefl in E. cbn in E.
  replace (rc_ballot rc >? b0) with false in E by lia. cbn [obind negb] in E.
  assert (forall err, err <> ERR_OK -> ack_prepare_new err m p = Ret p' -> secondary_inv p') as Hrefuse.
  { intros err Herr E'. eapply secondary_ack_new; [exact E'| |done]. by intros t' _. }
  destruct (si_status _ Hi) as [Hst|[Hst|Hst]]; rewrite Hst in E.
  - apply CHECK_Ret_inv in E as [_ E]. destruct (Z.leb_spec (get_decree m) (last_committed p)) as [Hle|Hgt].
    + eapply secondary_ack_new; [exact E| |done].
      eapply may_ack_new; [done|done| |done]. apply (si_logged _ Hi). destruct Hmo as [_ Hs _ _].
      destruct (shared_body_decree _ _ Hs) as (Hd & _). pose proof (po_decree HV _ _ Hb). lia.
    + by eapply secondary_real_prepare.
  - eapply Hrefuse; [|exact E]. by destruct (_ && _).
  - eapply Hrefuse; [|exact E]. by destruct (_ && _).
Qed.

(** The log has taken a mutation, or failed to. *)
Lemma secondary_logged_on_status e fuel q m err p p' :
  logged_on_status e (execute_mutation e fuel) q err p = Ret p' -> objects p !! q = Some m ->
  status p <> PS_INACTIVE -> (err = ERR_OK -> is_logged m = true) -> secondary_inv p -> secondary_inv p'.
Proof using HV.
  intros E Hm Hst Hl Hi. unfold logged_on_status in E.
  destruct (si_status _ Hi) as [Hs|[Hs|Hs]]; [|done|rewrite Hs in E; by injection E as <-].
  rewrite Hs in E. apply obind_Ret_inv in E as (p1 & E1 & E). assert (quiet p p1) as Hq.
  { destruct (is_ok err); [injection E1 as <-; apply quiet_refl|].
    eapply quiet_handle_local_failure; [by rewrite Hs|exact E1]. }
  assert (secondary_inv p1) as Hi1 by (by eapply secondary_quiet).
  destruct (q_objects _ _ Hq q m Hm) as (m1 & Hm1 & Hv1). apply obind_Ret_inv in E as (p2 & E2 & E).
  assert (known m1) as Hkn by (by eapply si_known).
  eapply secondary_ack_ptr in E2 as (Hi2 & m2 & Hm2 & Hv2); [|exact Hm1| |exact Hi1].
  - rewrite Hm2 in E. cbn [deref obind] in E. eapply secondary_commit; [exact E|exact Hi2|].
    destruct Hkn as (t & b & Hb & Hs1). rewrite (proj2 (proj2 (shared_decree _ _ (sv_shared _ _ Hv2)))).
    rewrite (proj2 (proj2 (shared_body_decree _ _ Hs1))). by eapply (po_point HV).
  - intros t Ht Hok. destruct (si_requests _ Hi1 q m1 t Hm1 Ht) as (b & Hb & Hd). exists b.
    split; [done|]. exists q, m1. split_and!; [done|rewrite (sv_logged _ _ Hv1); auto|].
    by eapply known_unique.
Qed.

Lemma secondary_log_completed e fuel q err p p' :
  on_append_log_completed e (execute_mutation e fuel) q err p = Ret p' -> appended_to_log p q ->
  secondary_inv p -> secondary_inv p'.
Proof using HV.
  intros E Ha Hi. unfold on_append_log_completed in E. apply obind_Ret_inv in E as (m & Hm%deref_Ret_inv & E).
  apply obind_Ret_inv in E as (p1 & E1 & E).
  assert (secondary_inv p1 /\ exists m1, objects p1 !! q = Some m1 /\ (err = ERR_OK -> is_logged m1 = true))
    as (Hi1 & m1 & Hm1 & Hl1).
  { clear E. destruct (is_ok err) eqn:Hok.
    - apply obind_Ret_inv in E1 as (m1 & Em & [= <-]). unfold set_logged in Em.
      apply CHECK_Ret_inv in Em as [_ [= <-]]. split.
      + apply (secondary_set_mu q m); [done|done|done|by right| |done]. intros t Ht. by eapply si_requests.
      + eexists. split; [apply lookup_insert_eq|done].
    - injection E1 as <-. split; [done|]. exists m. split; [done|]. by intros ->. }
  apply obind_Ret_inv in E as (p2 & E2 & E). assert (secondary_inv p2) as Hi2; [|by clear E1 E2; inv_returns].
  clear E. destruct (_ && _) eqn:Hg; [|by injection E2 as <-]. apply andb_true_iff in Hg as [_ Hg].
  apply negb_true_iff, bool_decide_eq_false in Hg. by eapply secondary_logged_on_status.
Qed.

(** A client write is refused. *)
Lemma secondary_client_write e fuel r ign p p' :
  on_client_write e (execute_mutation e fuel) r ign p = Ret p' -> secondary_inv p -> secondary_inv p'.
Proof.
  intros E Hi. eapply secondary_quiet; [|exact Hi]. apply not_leader in Hi as [Hp _].
  assert (forall err, quiet p (response_client_write (Some r) err p)) as Hrej by (intros; apply quiet_response_client_write).
  unfold on_client_write in E. cbv zeta in E. assert (has_status p PS_PRIMARY = false) as Hs by (by apply bool_decide_eq_false).
  rewrite Hs in E. cbn [negb] in E. repeat case_match; injection E as <-; first [apply Hrej|apply quiet_refl].
Qed.

End Secondary.

(** More prepares are sent, and the primary commits more. *)
Lemma secondary_mono {St} b0 d0 h0 (V V' : Z -> prepare_body -> Prop) lcP lcP' mcP (p : plist (replica_state St)) :
  (forall t b, V t b -> V' t b) -> lcP <= lcP' ->
  secondary_inv b0 d0 h0 V lcP mcP p -> secondary_inv b0 d0 h0 V' lcP' mcP p.
Proof.
  intros HV Hle Hi. assert (forall m, known V m -> known V' m) as Hk.
  { intros m (t & b & Hb & Hs). exists t, b. auto. }
  split; try (apply Hi).
  - intros q m Hm. by eapply Hk, si_known.
  - intros q m t Hm Ht. destruct (si_requests _ _ _ _ _ _ _ Hi q m t Hm Ht) as (b & Hb & Hd). eauto.
  - pose proof (si_point _ _ _ _ _ _ _ Hi). lia.
  - intros t resp Hr Hok. destruct (si_replies _ _ _ _ _ _ _ Hi t resp Hr Hok) as (b & Hb & Hl). eauto.
  - destruct (si_committed _ _ _ _ _ _ _ Hi) as (l & E1 & E2 & E3). exists l. split_and!; [done|done|].
    intros i m Hm. destruct (E3 i m Hm). auto.
Qed.

End SecondaryInv.
