(* ===== verification/Cluster.v ===== *)
(** * A replica group within one ballot

    The primary and the secondaries of a partition, the prepare RPCs between them and
    their logs, as a system that runs the handlers of [Replica] in any interleaving.
    Messages may be lost, repeated, delayed and reordered; nodes may fail.  Whatever
    happens, the members commit the same mutations in the same order
    ([group_agreement]), and what the primary has committed is in the log of every member
    ([group_durability]). *)
From S2P Require Import Prelude Mutation MutationCache PrepareList MutationQueue ReplicaContext.
From S2P Require Import Throttling RocksdbWrapper Replica ReplicaTheory ReplicaQuiet PrimaryInv SecondaryInv.

Module Cluster.
Import Mutation MutationCache PrepareList MutationQueue ReplicaContext Throttling RocksdbWrapper Replica
  ReplicaTheory ReplicaQuiet PrimaryInv SecondaryInv.

Section Cluster.
Context {St : Type} `{StorageApp St}.
Abbreviation replica := (plist (replica_state St)).
Implicit Types (p : replica).

(** The replicas, and the prepare RPCs that were answered and the delayed prepares that
    have run, by the number of the call and by the place in the effects of the primary. *)
Record cluster := MkCluster {
  primary : replica;
  secondaries : gmap host_port replica;
  answered : gset Z;
  fired : gset nat
}.

(** What can happen next. *)
Inductive cluster_event :=
| AtPrimary (ev : event)
| AtSecondary (hp : host_port) (ev : event)
| DeliverPrepare (i : nat)                    (* the RPC of effect [i] reaches its target *)
| DeliverReply (i j : nat)                    (* effect [j] of the target answers it *)
| RpcFails (i : nat) (err : error_code) (resp : prepare_ack)  (* it times out, or the network fails *)
| TimerFires (i : nat).                       (* the delayed prepare of effect [i] *)

(** The log may report on the mutations it was given. *)
Definition given_to_log (q : mutation_ptr) (p : replica) : bool :=
  existsb (fun ev => match ev with AppendLog q' true => bool_decide (q = q') | _ => false end) (effects (owner p)).

(** The events a replica is exposed to without the rest of the group. *)
Definition is_local (ev : event) (p : replica) : bool :=
  match ev with
  | ClientWrite _ _ | ClientRead _ _ | LogAppended _ _ | MetaDisconnected | LocalFailure _ => true
  | LogCompleted q _ => given_to_log q p
  | _ => false
  end.

Section Step.
Context (fuel : nat) (e : env).

Definition react (ev : event) (p : replica) : outcome replica := handle e (execute_mutation e fuel) ev p.

(** An event that cannot happen changes nothing. *)
Definition cluster_step (ev : cluster_event) (c : cluster) : outcome cluster :=
  let 'MkCluster p ss calls timers := c in
  match ev with
  | AtPrimary ev =>
      if is_local ev p then let* p := react ev p in Ret (MkCluster p ss calls timers) else Ret c
  | AtSecondary hp ev =>
      match ss !! hp with
      | Some s => if is_local ev s then let* s := react ev s in Ret (MkCluster p (<[hp:=s]> ss) calls timers)
                  else Ret c
      | None => Ret c
      end
  | DeliverPrepare i =>
      match effects (owner p) !! i with
      | Some (SendPrepare t hp _ _ PS_SECONDARY rc body) =>
          match ss !! hp with
          | Some s => let* s := react (Prepare t rc body) s in Ret (MkCluster p (<[hp:=s]> ss) calls timers)
          | None => Ret c
          end
      | _ => Ret c
      end
  | DeliverReply i j =>
      match effects (owner p) !! i with
      | Some (SendPrepare t hp _ q PS_SECONDARY _ _) =>
          match s ← ss !! hp; effects (owner s) !! j with
          | Some (ReplyPrepare t' resp) =>
              if bool_decide (t' = t /\ t ∉ calls) then
                let* p := react (PrepareReply q PS_SECONDARY hp ERR_OK resp) p in
                Ret (MkCluster p ss (calls ∪ {[ t ]}) timers)
              else Ret c
          | _ => Ret c
          end
      | _ => Ret c
      end
  | RpcFails i err resp =>
      match effects (owner p) !! i with
      | Some (SendPrepare t hp _ q PS_SECONDARY _ _) =>
          if bool_decide (err <> ERR_OK /\ t ∉ calls) then
            let* p := react (PrepareReply q PS_SECONDARY hp err resp) p in
            Ret (MkCluster p ss (calls ∪ {[ t ]}) timers)
          else Ret c
      | _ => Ret c
      end
  | TimerFires i =>
      match effects (owner p) !! i with
      | Some (DelayPrepare hp PS_SECONDARY q timeout sig) =>
          if bool_decide (i ∉ timers) then
            let* p := react (PrepareDelayed hp PS_SECONDARY q timeout sig) p in
            Ret (MkCluster p ss calls (timers ∪ {[ i ]}))
          else Ret c
      | _ => Ret c
      end
  end.

End Step.

Fixpoint cluster_run (fuel : nat) (evs : list (env * cluster_event)) (c : cluster) : outcome cluster :=
  match evs with
  | [] => Ret c
  | (e, ev) :: evs => let* c := cluster_step fuel e ev c in cluster_run fuel evs c
  end.

(** ** A group at the start of a ballot *)

Context (members : list host_port) (b0 d0 : Z) (h0 : list mutation).

(** A replica of the group: nothing is prepared after the last committed decree. *)
Record fresh (st : partition_status) (p : replica) : Prop := Fresh {
  fs_wf : plist_wf p;
  fs_objects : objects p = ∅;
  fs_point : last_committed p = d0;
  fs_end : end_decree (cache p) = d0;
  fs_committed : committed p = h0;
  fs_ballot : get_ballot p = b0;
  fs_status : status p = st;
  fs_effects : effects (owner p) = []
}.

Record group_start (c : cluster) : Prop := GroupStart {
  gs_distinct : NoDup members;
  gs_count : Z.of_nat (length members) < 2 ^ 15;
  gs_primary : fresh PS_PRIMARY (primary c);
  gs_members : members_of (primary c) = (members, ∅);
  gs_queue : queue_waits (primary c);
  gs_nodes : dom (secondaries c) = list_to_set members;
  gs_secondary hp s : secondaries c !! hp = Some s -> fresh PS_SECONDARY s;
  gs_calls : answered c = ∅;
  gs_timers : fired c = ∅
}.

(** ** The invariant *)

Definition in_log (c : cluster) (hp : host_port) (x : mutation_header * list mutation_update) : Prop :=
  exists s, secondaries c !! hp = Some s /\ logged_in s x.

Definition sent_to (p : replica) (hp : host_port) (t : Z) (b : prepare_body) : Prop :=
  exists q, sends p t hp q b.

(** A bound on the capacity of the prepare lists. *)
Definition capacity : Z := 2 ^ 30 - 1.

Definition follows (p : replica) (hp : host_port) (s : replica) : Prop :=
  secondary_inv b0 d0 h0 (sent_to p hp) (last_committed p) capacity s.

Definition leads (c : cluster) : Prop :=
  primary_inv members b0 d0 h0 (in_log c) (answered c) (fired c) (primary c).

Record cluster_inv (c : cluster) : Prop := ClusterInv {
  ci_primary : leads c;
  ci_queue : queue_waits (primary c);
  ci_nodes : dom (secondaries c) = list_to_set members;
  ci_secondary hp s : secondaries c !! hp = Some s -> follows (primary c) hp s
}.

Lemma fresh_win st p d : fresh st p -> win (cache p) d = None.
Proof.
  intros Hf. destruct (win (cache p) d) as [q|] eqn:Hq; [|done].
  destruct (pwf_heap _ (fs_wf _ _ Hf) _ _ Hq) as (m & Hm & _). rewrite (fs_objects _ _ Hf) in Hm. done.
Qed.

Lemma start_inv c : group_start c -> cluster_inv c.
Proof.
  intros [_ _ Hp Hm Hq Hn Hs Hc Ht]. split; [|done|done|].
  - pose proof (fs_effects _ _ Hp) as Ee. assert (forall t hp q b, ~ sends (primary c) t hp q b) as Hns.
    { intros t hp q b (to & rc & Hin). rewrite Ee in Hin. by apply not_elem_of_nil in Hin. }
    assert (forall i hp q, ~ retries (primary c) i hp q) as Hnr.
    { intros i hp q (to & sig & Hin). by rewrite Ee in Hin. }
    split; try (apply Hp); try done.
    + left. apply Hp.
    + intros d. rewrite (fs_point _ _ Hp), (fs_end _ _ Hp). lia.
    + by rewrite Ee.
    + intros t hp q b Hsend. by apply Hns in Hsend.
    + intros ???????? Hsend. by apply Hns in Hsend.
    + intros ??????? Hsend. by apply Hns in Hsend.
    + intros ??? Hr. by apply Hnr in Hr.
    + intros [t|i] ??? [_ Hl]; [destruct Hl as [b Hl]; by apply Hns in Hl|by apply Hnr in Hl].
    + intros d q m _ Hw. by rewrite (fresh_win _ _ _ Hp) in Hw.
    + exists []. rewrite app_nil_r. split_and!; [apply Hp|rewrite (fs_point _ _ Hp); cbn; lia|done].
  - intros hp s Hhp. apply Hs in Hhp as Hf. pose proof (fs_effects _ _ Hf) as Ee.
    assert (forall ev, ev ∉ effects (owner s)) as Hne by (intros ev; rewrite Ee; apply not_elem_of_nil).
    assert (forall q m, objects s !! q <> Some m) as Hno by (intros q m; by rewrite (fs_objects _ _ Hf)).
    unfold follows. rewrite (fs_point _ _ Hp).
    split; try (intros; exfalso; by eapply Hno); try (intros; exfalso; by eapply Hne); try (apply Hf).
    + left. apply Hf.
    + rewrite (fs_point _ _ Hf), (fs_end _ _ Hf). unfold capacity. lia.
    + rewrite (fs_point _ _ Hf). lia.
    + rewrite (fs_point _ _ Hf). lia.
    + exists []. rewrite app_nil_r. split_and!; [apply Hf|rewrite (fs_point _ _ Hf); cbn; lia|done].
Qed.

(** ** What the primary's state gives to a secondary *)

Lemma list_full (c : cluster) :
  leads c -> end_decree (cache (primary c)) <= last_committed (primary c) + capacity.
Proof.
  intros Hi. pose proof (pwf_cache _ (pi_wf _ _ _ _ _ _ _ _ Hi)) as Hc.
  pose proof (wf_max _ Hc). pose proof (wf_interval _ Hc). pose proof (wf_window _ Hc).
  destruct (decide (end_decree (cache (primary c)) <= last_committed (primary c))) as [|Hlt]; [unfold capacity; lia|].
  destruct (pi_full _ _ _ _ _ _ _ _ Hi (last_committed (primary c) + 1)) as [q Hq]; [lia|].
  unfold win in Hq. destruct (_ && _) eqn:Hin; [|done]. unfold capacity. lia.
Qed.

Lemma prepares_of (c : cluster) hp :
  leads c -> prepares_ok b0 d0 (sent_to (primary c) hp) (last_committed (primary c)) capacity.
Proof.
  intros Hi. pose proof (list_full c Hi) as Hfull.
  pose proof (wf_max _ (pwf_cache _ (pi_wf _ _ _ _ _ _ _ _ Hi))) as Hmax.
  assert (forall t b, sent_to (primary c) hp t b -> exists q m, objects (primary c) !! q = Some m /\
    shared m = shared_body b /\ issued b0 d0 (primary c) q m) as Hsent.
  { intros t b [q Hq]. destruct (pi_sends _ _ _ _ _ _ _ _ Hi _ _ _ _ Hq) as (_ & _ & m & Hm). eauto. }
  split; try (intros t b (q & m & _ & Hs & [])%Hsent; destruct (shared_body_decree _ _ Hs) as (E1 & E2 & E3);
    unfold capacity in *; lia); [|unfold capacity; lia].
  intros t b t' b' [q Hq] [q' Hq'] Hd. pose proof (pi_unique _ _ _ _ _ _ _ _ Hi _ _ _ _ _ _ _ _ Hq Hq' Hd) as <-.
  destruct (pi_sends _ _ _ _ _ _ _ _ Hi _ _ _ _ Hq) as (_ & _ & m & Hm & Hs & _).
  destruct (pi_sends _ _ _ _ _ _ _ _ Hi _ _ _ _ Hq') as (_ & _ & m' & Hm' & Hs' & _). congruence.
Qed.

(** A secondary has received what the primary has committed. *)
Lemma secondary_reaches (c : cluster) hp s :
  cluster_inv c -> secondaries c !! hp = Some s -> last_committed (primary c) <= end_decree (cache s).
Proof.
  intros [Hi _ Hn Hs] Hhp. pose proof (Hs _ _ Hhp) as Hf. assert (hp ∈ members) as Hin.
  { apply elem_of_dom_2 in Hhp. rewrite Hn in Hhp. by apply elem_of_list_to_set in Hhp. }
  pose proof (plist_lcd_le_end _ (si_wf _ _ _ _ _ _ _ Hf)) as Hle. pose proof (si_point _ _ _ _ _ _ _ Hf) as Hpt.
  destruct (pi_committed _ _ _ _ _ _ _ _ Hi) as (l & _ & E2 & E3).
  destruct (last l) as [m|] eqn:Hl; [|apply last_None in Hl as ->; cbn in E2; lia].
  rewrite last_lookup in Hl. destruct (E3 _ _ Hl) as [Hd [Hlog _]].
  destruct (Hlog hp Hin) as (s' & Hs' & q & m' & Hm' & Hlg & Hsh). rewrite Hhp in Hs'. injection Hs' as <-.
  apply shared_decree in Hsh as [Hd' _]. pose proof (si_end _ _ _ _ _ _ _ Hf q m' Hm' (or_introl Hlg)).
  apply lookup_lt_Some in Hl. lia.
Qed.

(** ** Steps *)

Context (Hdistinct : NoDup members) (Hcount : Z.of_nat (length members) < 2 ^ 15).

Lemma ext_sends p p' t hp q b : extends p p' -> sends p t hp q b -> sends p' t hp q b.
Proof.
  intros Hx (to & rc & Hin). destruct (ext_effects _ _ Hx) as [es E]. exists to, rc.
  rewrite E. apply elem_of_app. by left.
Qed.

Lemma ext_logged_in p p' x : extends p p' -> logged_in p x -> logged_in p' x.
Proof.
  intros Hx (q & m & Hm & Hl & Hs). destruct (ext_objects _ _ Hx q m Hm) as (m' & Hm' & Hs' & Hl').
  exists q, m'. split_and!; [done|auto|congruence].
Qed.

(** The primary moves, while RPCs end and timers fire. *)
Lemma primary_moves c p' calls' timers' :
  cluster_inv c -> extends (primary c) p' ->
  primary_inv members b0 d0 h0 (in_log c) calls' timers' p' ->
  cluster_inv (MkCluster p' (secondaries c) calls' timers').
Proof.
  intros [Hi Hq Hn Hs] Hx Hi'. split; [done| |done|].
  - by eapply ext_queue.
  - intros hp s Hhp. cbn. eapply secondary_mono; [| |exact (Hs hp s Hhp)].
    + intros t b [q Hb]. exists q. by eapply ext_sends.
    + destruct (ext_committed _ _ Hx) as (l2 & El & _).
      destruct (pi_committed _ _ _ _ _ _ _ _ Hi) as (l & E1 & -> & _).
      destruct (pi_committed _ _ _ _ _ _ _ _ Hi') as (l' & E1' & -> & _).
      rewrite E1', E1, <- app_assoc in El. apply app_inv_head in El as ->. rewrite length_app. lia.
Qed.

(** A secondary moves. *)
Lemma secondary_moves c hp s s' :
  cluster_inv c -> secondaries c !! hp = Some s -> extends s s' -> follows (primary c) hp s' ->
  cluster_inv (MkCluster (primary c) (<[hp:=s']> (secondaries c)) (answered c) (fired c)).
Proof.
  intros [Hi Hq Hn Hs] Hhp Hx Hf. split; [|done| |].
  - unfold leads. cbn. eapply primary_weaken; [|done|done|exact Hi].
    intros x b (sx & Hsx & Hl). unfold in_log. cbn. destruct (decide (hp = x)) as [<-|Hne].
    + exists s'. rewrite lookup_insert_eq. split; [done|]. rewrite Hhp in Hsx. injection Hsx as <-.
      by eapply ext_logged_in.
    + exists sx. by rewrite lookup_insert_ne.
  - cbn. rewrite dom_insert_L, <- Hn. apply elem_of_dom_2 in Hhp. set_solver.
  - cbn. intros x sx [[<- <-]|[_ Hsx]]%lookup_insert_Some; [done|by apply Hs].
Qed.

Lemma given_appended q p : given_to_log q p = true -> appended_to_log p q.
Proof.
  unfold given_to_log. intros ([] & Hin & Hev)%existsb_exists; try done. destruct callback; [|done].
  apply bool_decide_eq_true in Hev as ->. by apply list_elem_of_In.
Qed.

Lemma ext_react fuel e ev p p' : react fuel e ev p = Ret p' -> extends p p'.
Proof. apply ext_handle, ext_execute_mutation. Qed.

Lemma primary_local L calls timers fuel e ev p p' :
  is_local ev p = true -> react fuel e ev p = Ret p' -> queue_waits p ->
  primary_inv members b0 d0 h0 L calls timers p -> primary_inv members b0 d0 h0 L calls timers p'.
Proof using Hdistinct Hcount.
  intros Hloc E Hq Hi. pose proof (not_learner _ _ _ _ _ _ _ _ Hi) as Hnl.
  destruct ev; try done; cbn [react handle] in E.
  - by eapply primary_client_write.
  - eapply primary_quiet; [by eapply quiet_on_client_read|done].
  - by eapply primary_log_completed.
  - eapply primary_quiet; [by eapply quiet_append_mutation|done].
  - eapply primary_quiet; [by eapply quiet_on_meta_server_disconnected|done].
  - eapply primary_quiet; [by eapply quiet_handle_local_failure|done].
Qed.

Lemma secondary_local V lcP fuel e ev p p' :
  prepares_ok b0 d0 V lcP capacity ->
  is_local ev p = true -> react fuel e ev p = Ret p' ->
  secondary_inv b0 d0 h0 V lcP capacity p -> secondary_inv b0 d0 h0 V lcP capacity p'.
Proof.
  intros HV Hloc E Hi. pose proof (proj2 (not_leader _ _ _ _ _ _ _ Hi)) as Hnl.
  destruct ev; try done; cbn [react handle] in E.
  - by eapply secondary_client_write.
  - eapply secondary_quiet; [by eapply quiet_on_client_read|done].
  - eapply secondary_log_completed; [done|done|by apply given_appended|done].
  - eapply secondary_quiet; [by eapply quiet_append_mutation|done].
  - eapply secondary_quiet; [by eapply quiet_on_meta_server_disconnected|done].
  - eapply secondary_quiet; [by eapply quiet_handle_local_failure|done].
Qed.

Lemma primary_replies c fuel e i t hp timeout q rc body err resp p' :
  cluster_inv c -> effects (owner (primary c)) !! i = Some (SendPrepare t hp timeout q PS_SECONDARY rc body) ->
  t ∉ answered c ->
  react fuel e (PrepareReply q PS_SECONDARY hp err resp) (primary c) = Ret p' ->
  (err = ERR_OK -> exists s, secondaries c !! hp = Some s /\ ReplyPrepare t resp ∈ effects (owner s)) ->
  cluster_inv (MkCluster p' (secondaries c) (answered c ∪ {[ t ]}) (fired c)).
Proof using Hdistinct Hcount.
  intros Hi Hsend Ht E Hresp. apply primary_moves; [done|by eapply ext_react|].
  assert (sends (primary c) t hp q body) as Hs by (exists timeout, rc; by eapply list_elem_of_lookup_2).
  destruct Hi as [Hp Hq Hn Hsec]. eapply primary_prepare_reply; [done|done|exact E|done|done|done|exact Hs|].
  intros Hok Hack. destruct (Hresp Hok) as (s & Hhp & Hr).
  destruct (si_replies _ _ _ _ _ _ _ (Hsec _ _ Hhp) t resp Hr Hack) as (b & [q' Hb] & Hl).
  exists s. split; [done|]. destruct (pi_calls _ _ _ _ _ _ _ _ Hp _ _ _ _ _ _ _ Hs Hb) as [_ <-].
  destruct (pi_sends _ _ _ _ _ _ _ _ Hp _ _ _ _ Hs) as (_ & _ & m & Hm & Hsm & _).
  destruct (pi_sends _ _ _ _ _ _ _ _ Hp _ _ _ _ Hb) as (_ & _ & m' & Hm' & Hsm' & _).
  rewrite Hm in Hm'. injection Hm' as <-. by rewrite <- Hsm, Hsm'.
Qed.

(** Effect [i] is a prepare RPC, or nothing happens. *)
Ltac on_call p i E :=
  destruct (effects (owner p) !! i) as [[| | |t hp to q [] rc body| | | | | | | | | | | | | | | | | | | |]|] eqn:He;
  try (by injection E as <-).

Lemma step_inv fuel e ev c c' : cluster_step fuel e ev c = Ret c' -> cluster_inv c -> cluster_inv c'.
Proof using Hdistinct Hcount.
  intros E Hi. pose proof Hi as [Hp Hq Hn Hs]. destruct c as [p ss calls timers]. unfold cluster_step in E.
  destruct ev as [ev|hp ev|i|i j|i err resp|i].
  - destruct (is_local ev p) eqn:Hl; [|by injection E as <-]. apply obind_Ret_inv in E as (p' & E & [= <-]).
    apply (primary_moves _ _ _ _ Hi); [by eapply ext_react|by eapply primary_local].
  - destruct (ss !! hp) as [s|] eqn:Hhp; [|by injection E as <-].
    destruct (is_local ev s) eqn:Hl; [|by injection E as <-]. apply obind_Ret_inv in E as (s' & E & [= <-]).
    apply (secondary_moves _ _ _ _ Hi Hhp); [by eapply ext_react|].
    eapply secondary_local; [by apply (prepares_of _ hp Hp)|done|done|by apply Hs].
  - on_call p i E.
    destruct (ss !! hp) as [s|] eqn:Hhp; [|by injection E as <-]. apply obind_Ret_inv in E as (s' & E & [= <-]).
    apply (secondary_moves _ _ _ _ Hi Hhp); [by eapply ext_react|].
    eapply secondary_on_prepare; [by apply (prepares_of _ hp Hp)|exact E| |exact (secondary_reaches _ hp s Hi Hhp)|by apply Hs].
    exists q, to, rc. by eapply list_elem_of_lookup_2.
  - on_call p i E.
    destruct (ss !! hp) as [s|] eqn:Hhp; cbn in E; [|by injection E as <-].
    destruct (effects (owner s) !! j) as [[]|] eqn:Hj; try (by injection E as <-).
    destruct (bool_decide_reflect (request = t /\ t ∉ calls)) as [[-> Ht]|]; [|by injection E as <-].
    apply obind_Ret_inv in E as (p' & E & [= <-]). eapply (primary_replies _ _ _ _ _ _ _ _ _ _ _ _ _ Hi He Ht E).
    intros _. exists s. split; [done|by eapply list_elem_of_lookup_2].
  - on_call p i E.
    destruct (bool_decide_reflect (err <> ERR_OK /\ t ∉ calls)) as [[Herr Ht]|]; [|by injection E as <-].
    apply obind_Ret_inv in E as (p' & E & [= <-]). by eapply (primary_replies _ _ _ _ _ _ _ _ _ _ _ _ _ Hi He Ht E).
  - destruct (effects (owner p) !! i) as [[| | | |hp [] q to sig| | | | | | | | | | | | | | | | | | |]|] eqn:He;
      try (by injection E as <-).
    destruct (bool_decide_reflect (i ∉ timers)) as [Ht|]; [|by injection E as <-].
    apply obind_Ret_inv in E as (p' & E & [= <-]). apply (primary_moves _ _ _ _ Hi); [by eapply ext_react|].
    by eapply primary_delay_prepare.
Qed.

Lemma run_inv fuel evs c c' : cluster_run fuel evs c = Ret c' -> cluster_inv c -> cluster_inv c'.
Proof using Hdistinct Hcount.
  revert c. induction evs as [|[e ev] evs IH]; intros c; cbn [cluster_run]; [by intros [= <-]|].
  intros (c1 & E1 & E)%obind_Ret_inv Hi. by eapply IH, step_inv.
Qed.

End Cluster.

Section Theorems.
Context {St : Type} `{StorageApp St} (members : list host_port) (b0 d0 : Z) (h0 : list mutation).

Lemma group_inv fuel evs c c' :
  group_start members b0 d0 h0 c -> cluster_run fuel evs c = Ret c' -> cluster_inv members b0 d0 h0 c'.
Proof.
  intros Hs E. eapply run_inv; [apply Hs|apply Hs|exact E|by apply start_inv].
Qed.

(** C1. In any run of a group within a ballot, with messages lost, repeated and reordered and
    nodes that fail, what a secondary has committed is a prefix of what the primary has
    committed, mutation by mutation: headers and updates are the same. *)
Theorem group_agreement fuel evs c c' hp s :
  group_start members b0 d0 h0 c -> cluster_run fuel evs c = Ret c' -> secondaries c' !! hp = Some s ->
  shared <$> committed s `prefix_of` shared <$> committed (primary c').
Proof.
  intros Hs E Hhp. destruct (group_inv _ _ _ _ Hs E) as [Hp _ _ Hsec]. apply Hsec in Hhp as Hf.
  destruct (pi_committed _ _ _ _ _ _ _ _ Hp) as (l & -> & El & Hl).
  destruct (si_committed _ _ _ _ _ _ _ Hf) as (ls & -> & Els & Hls). pose proof (si_point _ _ _ _ _ _ _ Hf).
  rewrite !fmap_app. apply prefix_app, prefix_pointwise; [rewrite !length_fmap; lia|].
  intros i x y. rewrite !list_lookup_fmap. intros (ms & Hms & ->)%fmap_Some (m & Hm & ->)%fmap_Some.
  destruct (Hls i ms Hms) as (Hd & t & b & [q Hb] & Hsb). destruct (Hl i m Hm) as (Hd' & [_ Hag]).
  rewrite Hsb. eapply Hag; [exact Hb|]. destruct (shared_body_decree _ _ Hsb) as [<- _]. lia.
Qed.

(** C2. What the primary has committed in the ballot is in the log of every member. *)
Theorem group_durability fuel evs c c' hp m :
  group_start members b0 d0 h0 c -> cluster_run fuel evs c = Ret c' -> hp ∈ members ->
  m ∈ committed (primary c') ->
  m ∈ h0 \/
  exists s q m', secondaries c' !! hp = Some s /\ objects s !! q = Some m' /\ is_logged m' = true /\
    shared m' = shared m.
Proof.
  intros Hs E Hhp Hm. destruct (group_inv _ _ _ _ Hs E) as [Hp _ _ _].
  destruct (pi_committed _ _ _ _ _ _ _ _ Hp) as (l & Ec & _ & Hl). rewrite Ec in Hm.
  apply elem_of_app in Hm as [Hm|[i Hi]%list_elem_of_lookup]; [by left|right].
  destruct (Hl i m Hi) as (_ & [Hlog _]). destruct (Hlog hp Hhp) as (s & Hs' & q & m' & Hm' & Hlg & Hsh). eauto 10.
Qed.

(** C7. Every replica of the group keeps a well-formed prepare list: the window of its ring
    buffer and the indices are right, its pointers are live and at their decrees, and it
    reaches the committed point. *)
Theorem group_well_formed fuel evs c c' p :
  group_start members b0 d0 h0 c -> cluster_run fuel evs c = Ret c' ->
  p = primary c' \/ (exists hp, secondaries c' !! hp = Some p) -> plist_wf p.
Proof.
  intros Hs E Hp. destruct (group_inv _ _ _ _ Hs E) as [Hi _ _ Hsec].
  destruct Hp as [->|[hp Hhp]]; [apply Hi|apply (Hsec _ _ Hhp)].
Qed.

End Theorems.
End Cluster.
