(* ===== verification/ClusterRun.v ===== *)
(** * Concrete runs of a replica group

    A group of three replicas over a storage engine that counts the batches it applies.
    Runs of it show that the conditions of the theorems of [ReplicaTheory] and [Cluster]
    hold together. *)
From S2P Require Import Prelude Mutation MutationCache PrepareList MutationQueue ReplicaContext.
From S2P Require Import Throttling RocksdbWrapper Replica ReplicaTheory ReplicaQuiet PrimaryInv SecondaryInv Cluster.

Module ClusterRun.
Import Mutation MutationCache PrepareList MutationQueue ReplicaContext Throttling RocksdbWrapper Replica
  ReplicaTheory ReplicaQuiet PrimaryInv SecondaryInv Cluster.

(** The value of a computation that returns. *)
Definition is_ret {A} (o : outcome A) : bool := match o with Ret _ => true | _ => false end.

Definition ret_or {A} (a : A) (o : outcome A) : A := match o with Ret x => x | _ => a end.

Lemma is_ret_or {A} (a : A) o : is_ret o = true -> o = Ret (ret_or a o).
Proof. by destruct o. Qed.

Definition counting : StorageApp Z := {|
  on_batched_write_requests _ _ _ _ n := (0, n + 1);
  make_idempotent_of r n := (0, [r], false, n);
  storage_last_durable_decree _ := 0;
  on_request _ n := n
|}.

#[local] Existing Instance counting.

Definition node (name : string) : host_port := Some (name, 34801).
Definition n1 : host_port := node "n1".
Definition n2 : host_port := node "n2".
Definition n3 : host_port := node "n3".

Definition the_pid : gpid := Gpid 1 0.
Definition PUT : task_code := String.list_byte_of_string "RPC_RRDB_RRDB_PUT"%string.
Definition GET : task_code := String.list_byte_of_string "RPC_RRDB_RRDB_GET"%string.

Definition specs (c : task_code) : option task_spec :=
  if decide (c = PUT) then Some (TaskSpec true true true)
  else if decide (c = GET) then Some (TaskSpec false false false) else None.

Definition at_node (hp : host_port) : env :=
  Env hp 1000 1000000 true (fun _ _ => true) (fun _ => false) (fun _ => true) (fun _ => ERR_OK) true specs 56
    true false 0 false 20 110 1000 1000 1 false false 10 false.

Definition group_config : partition_configuration := PartitionConfiguration the_pid 3 3 n1 [n2; n3] 7.

Definition new_context : primary_context :=
  PrimaryContext (PartitionConfiguration (Gpid 0 0) 0 0 None [] 0) ∅ ∅ 0 (MQ 0 2 false 0 None [] [] ∅ [] 0)
    None ∅ None 0 None 1000 ∅ false None ∅ None ∅ ∅ false ∅.

Definition replica_at (st : partition_status) (ctx : primary_context) : plist (replica_state Z) :=
  let s := ReplicaState the_pid 7 0 (ReplicaConfiguration the_pid 3 n1 st 0 false false) ctx new_secondary_context
    new_potential_secondary_context new_partition_split_context (AppInfo [] 8 3 false false) false false
    (DenyClient false false false) new_controller new_controller new_controller new_controller false
    BLS_INVALID false 0 (SplitManager (Gpid 0 0) 0 NOT_SPLIT 7) false DS_NORMAL false 0 1 [] in
  new_prepare_list 7 110 s.

Definition start : cluster (St := Z) :=
  MkCluster (replica_at PS_PRIMARY (reset_membership group_config true new_context))
    (<[n2 := replica_at PS_SECONDARY new_context]> {[ n3 := replica_at PS_SECONDARY new_context ]})
    ∅ ∅.

Definition put_request : message := Message PUT 0 [Byte.x01] 5 1000.

(** A write, which both secondaries log and acknowledge, one prepare of it delivered
    twice; then a second write, whose prepare tells [n2] that the first is committed. *)
Definition one_write : list (env * cluster_event) :=
  [(at_node n1, AtPrimary (ClientWrite put_request false));
   (at_node n2, DeliverPrepare 0);
   (at_node n3, DeliverPrepare 1);
   (at_node n2, AtSecondary n2 (LogAppended 0 100));
   (at_node n2, AtSecondary n2 (LogCompleted 0 ERR_OK));
   (at_node n2, DeliverPrepare 0);
   (at_node n3, AtSecondary n3 (LogCompleted 0 ERR_OK));
   (at_node n1, AtPrimary (LogCompleted 0 ERR_OK));
   (at_node n1, DeliverReply 0 1);
   (at_node n1, DeliverReply 1 1)].

Definition two_writes : list (env * cluster_event) :=
  one_write ++
  [(at_node n1, AtPrimary (ClientWrite put_request false));
   (at_node n2, DeliverPrepare 3)].

Definition after (evs : list (env * cluster_event)) : cluster (St := Z) :=
  ret_or start (cluster_run 1 evs start).

Definition member (hp : host_port) (c : cluster (St := Z)) : plist (replica_state Z) :=
  default (primary c) (secondaries c !! hp).

Lemma start_fresh st ctx : fresh 3 7 [] st (replica_at st ctx).
Proof. split; try done. by apply plist_wf_new. Qed.

Lemma start_is_group : group_start [n2; n3] 3 7 [] start.
Proof.
  split; try done.
  - refine (bool_decide_eq_true_1 (NoDup [n2; n3]) _). by vm_compute.
  - apply start_fresh.
  - apply Forall_nil_2.
  - unfold start. cbn [secondaries]. intros hp s [[_ <-]|[_ [_ <-]%lookup_singleton_Some]]%lookup_insert_Some; apply start_fresh.
Qed.

(** After [two_writes] the primary and [n2] have committed the first write. *)
Lemma group_agreement_witness :
  committed (member n2 (after two_writes)) <> [] /\
  shared <$> committed (member n2 (after two_writes)) `prefix_of` shared <$> committed (primary (after two_writes)).
Proof.
  split; [by vm_compute|]. apply (group_agreement [n2; n3] 3 7 [] 1 two_writes start (after two_writes) n2).
  - exact start_is_group.
  - apply is_ret_or. by vm_compute.
  - by vm_compute.
Defined.

Definition first_write : mutation := default (new_mutation (ReplicaEnv the_pid 3 false 7 10 56) 0 false)
  (committed (primary (after one_write)) !! 0%nat).

Lemma group_durability_witness :
  first_write ∈ @nil mutation \/
  exists s q m', secondaries (after one_write) !! n3 = Some s /\ objects s !! q = Some m' /\
    is_logged m' = true /\ shared m' = shared first_write.
Proof.
  apply (group_durability [n2; n3] 3 7 [] 1 one_write start (after one_write) n3 first_write).
  - exact start_is_group.
  - apply is_ret_or. by vm_compute.
  - set_solver.
  - apply list_elem_of_lookup. exists 0%nat. by vm_compute.
Defined.

Lemma group_well_formed_witness : plist_wf (member n2 (after two_writes)).
Proof.
  apply (group_well_formed [n2; n3] 3 7 [] 1 two_writes start (after two_writes)).
  - exact start_is_group.
  - apply is_ret_or. by vm_compute.
  - right. exists n2. by vm_compute.
Defined.

(** One replica alone: the primary of a group without secondaries. *)
Definition alone : plist (replica_state Z) :=
  replica_at PS_PRIMARY (reset_membership (PartitionConfiguration the_pid 3 1 n1 [] 7) true new_context).

Definition alone_events : list (env * event) :=
  [(at_node n1, ClientWrite put_request false); (at_node n1, ClientWrite put_request false);
   (at_node n1, LogCompleted 0 ERR_OK); (at_node n1, LocalFailure ERR_FILE_OPERATION_FAILED)].

Definition alone_after : plist (replica_state Z) := ret_or alone (run 1 alone_events alone).



End ClusterRun.
