(* ===== verification/Handlers.v ===== *)
(** * What single handlers of two-phase commit answer

    The branches of [on_client_write] and [on_prepare] that refuse, and one that answers a
    write it has dropped with success. *)
From S2P Require Import Prelude Mutation MutationCache PrepareList MutationQueue ReplicaContext.
From S2P Require Import Throttling RocksdbWrapper Replica ReplicaTheory Cluster ClusterRun.

Module Handlers.
Import Mutation MutationCache PrepareList MutationQueue ReplicaContext Throttling RocksdbWrapper Replica
  ReplicaTheory Cluster ClusterRun.

Section Answers.
Context {St : Type} `{StorageApp St} (e : env)
  (exec : mutation_ptr -> plist (replica_state St) -> outcome (plist (replica_state St))).
Implicit Types (p : plist (replica_state St)).

(** C18. A replica that is not primary takes no write: it answers with an error, or, where the
    table denies writes silently, not at all, and nothing else changes. *)
Theorem write_refused r ign p :
  status p <> PS_PRIMARY ->
  on_client_write e exec r ign p = Ret p \/
  exists err, err <> ERR_OK /\ on_client_write e exec r ign p = Ret (emit (ResponseClient false r err) p).
Proof.
  intros Hs. assert (has_status p PS_PRIMARY = false) as Hp by (by apply bool_decide_eq_false).
  unfold on_client_write. cbv zeta. rewrite Hp. cbn [negb].
  assert (forall err, check_request_if_splitting r p = Some err -> err <> ERR_OK) as Hsplit.
  { intros err. unfold check_request_if_splitting. repeat case_match; by intros [= <-]. }
  repeat case_match; first [by left|right; eexists; (split; [|reflexivity]); first [done|by eapply Hsplit]].
Qed.

(** A prepare of an earlier ballot is ignored. *)
Theorem stale_prepare_ignored t rc b p :
  pid (pb_header b) = rc_pid rc -> ballot (pb_header b) = rc_ballot rc -> rc_ballot rc < get_ballot p ->
  on_prepare e exec t rc b p = Ret p.
Proof.
  intros Hpid Hb Hlt. unfold on_prepare. cbv zeta. cbn [rc_pid rc_ballot].
  change (header (set_is_sync_to_child _ _)) with (pb_header b).
  rewrite (bool_decide_true _ Hpid). unfold Mutation.get_ballot.
  change (header (set_is_sync_to_child _ _)) with (pb_header b). rewrite Hb, Z.eqb_refl. cbn [CHECK].
  by rewrite (proj2 (Z.ltb_lt _ _) Hlt).
Qed.

(** What a write passes before the disks are looked at. *)
Definition passes_first_checks (r : message) p : Prop :=
  allowed e false r = true /\ deny_write (deny_client_ (owner p)) = false /\
  FLAGS_max_allowed_write_size e = 0 /\ rpc_code r <> TASK_CODE_INVALID /\
  (exists spec, task_spec_get e (rpc_code r) = Some spec /\ need_reject_non_idempotent spec p = false) /\
  check_request_if_splitting r p = None /\ status p = PS_PRIMARY.

(** C17. When the disk of the primary is fine and the one of a secondary is not, a write is
    dropped, but the client is told [ERR_OK]: the error sent is made from the status of
    the primary's own disk. *)
Theorem dropped_write_answered_ok r ign p :
  passes_first_checks r p -> FLAGS_reject_write_when_disk_insufficient e = true ->
  dir_status (owner p) = DS_NORMAL -> secondary_disk_abnormal (pstates (owner p)) = true ->
  on_client_write e exec r ign p = Ret (emit (ResponseClient false r ERR_OK) p).
Proof.
  intros (H1 & H2 & H3 & H4 & (spec & H5 & H6) & H7 & H8) Hflag Hdir Hsec.
  unfold on_client_write. cbv zeta. rewrite H1, H2, H3. cbn [negb Z.gtb Z.compare andb].
  rewrite decide_False by done. rewrite H5, H6, H7, Hflag, Hdir, Hsec.
  unfold has_status. by rewrite (bool_decide_true _ H8).
Qed.

End Answers.

#[local] Existing Instance counting.

Lemma write_refused_witness :
  status (member n2 start) <> PS_PRIMARY /\
  (on_client_write (at_node n2) (execute_mutation (at_node n2) 1) put_request false (member n2 start) =
     Ret (member n2 start) \/
   exists err, err <> ERR_OK /\
     on_client_write (at_node n2) (execute_mutation (at_node n2) 1) put_request false (member n2 start) =
     Ret (emit (ResponseClient false put_request err) (member n2 start))).
Proof. split; [by vm_compute|]. apply write_refused. by vm_compute. Defined.

Definition old_header : mutation_header := MutationHeader the_pid 2 9 (-1) 7 0.

Lemma stale_prepare_ignored_witness :
  on_prepare (at_node n2) (execute_mutation (at_node n2) 1) 1
    (ReplicaConfiguration the_pid 2 n1 PS_SECONDARY 0 false false) (PrepareBody old_header []) (member n2 start) =
  Ret (member n2 start).
Proof. apply stale_prepare_ignored; by vm_compute. Defined.

Definition disk_checked : env :=
  Env n1 1000 1000000 true (fun _ _ => true) (fun _ => false) (fun _ => true) (fun _ => ERR_OK) true specs 56
    true false 0 true 20 110 1000 1000 1 false false 10 false.

Definition full_secondary : plist (replica_state Z) :=
  upd_primary (set_secondary_disk_status {[ n2 := DS_SPACE_INSUFFICIENT ]}) (primary start).

Lemma dropped_write_answered_ok_witness :
  on_client_write disk_checked (execute_mutation disk_checked 1) put_request false full_secondary =
  Ret (emit (ResponseClient false put_request ERR_OK) full_secondary).
Proof.
  apply dropped_write_answered_ok; [|by vm_compute..].
  split_and!; try (by vm_compute). exists (TaskSpec true true true). by vm_compute.
Defined.

End Handlers.
